(* ===== verification/_CoqProject ===== *)
-Q . S2P
Prelude.v
Serde.v
VirtualPath.v
Mask.v
Ids.v
Index.v
Fs.v
Time.v
Signature.v
Config.v
Cleanup.v
ConfigMap.v
Peers.v
Gossip.v
Progress.v
FetchBlocks.v
Blocks.v
Commands.v
Wire.v
Registry.v
Remote.v
Upload.v
MetaDir.v
Text.v
Metadata.v
MetaScan.v
BaseDir.v
Tracking.v
Reconcile.v
Rpc.v
FetchIndex.v
BTree.v
Download.v
ConnSet.v
ConnSetInv.v
ConnSetSpec.v
DiskFs.v
DiskGraph.v
DiskDir.v
Disk.v
Hardlinks.v
FetchDir.v
Cli.v
Sync.v
ClientUpload.v
Http.v
Startup.v
ClientConn.v
EndToEnd.v
