(* ===== verification/Prelude.v ===== *)
(** * Ciruela: a verification development

    Ciruela distributes images (directories identified by the hash of their
    index) to a cluster of servers.  A client signs an upload and sends it to
    some servers; a server checks the signature and its configuration, records
    the upload in its metadata store, fetches the index and the blocks from
    whoever has them, and publishes the directory; servers tell each other
    over UDP what they have, what they watch and what they are downloading,
    and compare their directories from time to time.

    ** Parts and files

    Data and formats
    - [Prelude]: results of fallible code ([Ok], [Err], [Panic]), state
      passing, machine integers, stable sorting, shared lemmas and tactics.
    - [Serde]: the serde data model; interfaces of CBOR and hex codecs.
    - [VirtualPath]: [virtual_path.rs] and what it uses of [std::path].
    - [Ids]: [id.rs], [machine_id.rs], [block_id.rs], [proto/hash.rs].
    - [Time]: [time_util.rs], [serialize/*.rs], [failure_tracker.rs].
    - [Mask]: [daemon/mask.rs], which parts of an image a node has.
    - [Signature]: [proto/signature.rs], [database/signatures.rs].
    - [Index]: [daemon/index_cache.rs], the parsed index of an image; the
      parser of dir-signature is the class [IndexParser].
    - [Commands], [Wire]: the messages of [proto/*_commands.rs] and the frames
      of [proto/message.rs].
    - [Text]: UTF-8, lines and trimming, as used on files.

    Protocol
    - [Registry]: [proto/request.rs] and the dispatcher of [proto/client.rs]:
      requests in flight over one connection, and their answers.
    - [ClientConn]: [Client] of [proto/client.rs], from the connect to the end.

    Daemon: configuration, files and the metadata store
    - [Config]: [daemon/config.rs]; [Cleanup]: [daemon/cleanup/calc.rs].
    - [Fs]: the [openat] crate as an interface, with its laws and an instance
      in memory.
    - [MetaDir], [Metadata], [MetaScan], [Hardlinks]: [daemon/metadata/*.rs],
      the store of image states, signatures and indexes; their calls are state
      passing over the file system and the table of uploads.

    Daemon: the disk
    - [DiskFs]: a file system of inodes as an interface ([DiskOps],
      [DiskLaws]) in which every operation may fail, and an instance in
      memory; [DiskGraph]: reachability, forests, and what an operation may
      change; [DiskDir]: [daemon/disk/dir.rs]; [Disk]: [daemon/disk/public.rs]
      and [commit.rs], an image from its temporary directory to its removal.

    Daemon: peers and connections
    - [ConfigMap], [Peers], [Gossip]: [daemon/peers/*.rs], the tables of what
      other servers have and the UDP messages that maintain them.
    - [Remote]: [daemon/remote/*.rs], connections of clients and of servers,
      and which images they have declared.

    Daemon: the tracking subsystem
    - [BaseDir], [Tracking]: [daemon/tracking/base_dir.rs], [mod.rs] and
      [cleanup.rs], the tables of the subsystem and the calls on them.
    - [Rpc]: [daemon/tracking/rpc.rs], the requests of clients.
    - [Reconcile]: [daemon/tracking/reconciliation.rs].
    - [FetchIndex]: [daemon/tracking/fetch_index.rs], the registry of indexes
      and its tasks.
    - [Progress], [FetchBlocks]: [progress.rs] and [fetch_blocks.rs].
    - [FetchDir]: [fetch_dir.rs], the task of a download, which composes
      [Disk], [Hardlinks], [FetchBlocks], [Metadata] and [Tracking].

    Daemon: the process
    - [Http]: [daemon/http.rs], the routes of the server and its answers.
    - [Startup]: [daemon/main.rs], [peers/mod.rs], [peers/file.rs] and
      [peers/cantal.rs]: how the parts are made, and the sources of peers.

    Client library
    - [Blocks]: [blocks.rs] and [index.rs], what a client serves.
    - [Upload]: [cluster/upload.rs], [cluster/config.rs]: when an upload
      counts as done.
    - [ConnSet]: [cluster/set.rs], [mod.rs], [future.rs]: the future that owns
      the connections of a client; [ConnSetInv] has its invariant and
      [ConnSetSpec] what it promises.
    - [BTree], [Download]: [cluster/download.rs], indexes that are fetched and
      edited.

    Client programs
    - [Cli]: [client/keys.rs], [client/name.rs], [client/upload/options.rs] and
      the arguments of [client/sync]: keys, destinations, clusters.
    - [Sync]: [client/sync], [client/put_file] and [client/edit]: what is
      prepared, changed, signed and sent, and the exit codes; on top of
      [Blocks], [Download] and [ConnSet].
    - [ClientUpload]: [client/upload/mod.rs], the command with the futures of
      its addresses, as a machine driven by events of the network.
    - [EndToEnd]: an upload from the command through [Wire], [Rpc] and
      [Metadata] to the answer and back to the command.

    ** How code becomes definitions

    A call that reads or writes shared state is a function of that state and
    returns its result and the state it leaves ([ST]), also on an early
    return.  A lock is held for a whole call or named where it is not, so a
    call is one step; theorems about sequences of calls quantify over every
    list of events.  What the code asks of the outside (clock, random
    numbers, network, threads) is an argument; where a future asks many times,
    the answers are an oracle indexed by a count of questions ([Env] of
    [FetchBlocks] and of [ConnSet], [IndexEnv], the answers of the hosts of
    [Reconcile.recon_loop], [Answers] of [FetchDir]).  The iteration of a hash
    table, random samples and shuffles, and unstable sorts are parameters; what
    is relied on is that they permute.

    Third-party crates are classes: [OpenAt] with [OpenAtLaws], [DiskOps] with
    [DiskLaws] (files), [Crypto] (Ed25519 and key formats), [HexCodec], [Wire]
    (payload codecs), [IndexParser], [Merging] with [MergingLaws] and the
    parser and emitter of [Download] (dir-signature).  Every theorem that
    assumes laws of one of them has an instance at which it is applied.

    ** Recursion, fuel and bounds

    Integers are [Z] with the wrap-around, saturation or overflow panic of the
    source written out.  Recursion is structural where the source goes over a
    list; the other loops have fuel, and a theorem says how much is enough:
    - the ring search of [Gossip], one more than the number of peers; the
      trimming of strings in [Text], their length; the pieces of a file in
      [Blocks.chunks_of], its length;
    - the rounds of a poll in [FetchBlocks]: the last question that is answered
      at once, the number of blocks, and one ([fetch_poll_returns]);
    - the requests of [Reconcile.recon_loop]: three times the hosts, and three
      ([recon_loop_finds]);
    - the states of a poll in [FetchIndex]: the last request that is answered
      at once, and three ([fetch_ends]);
    - the removal of a directory in [DiskDir]: the depth of the tree
      ([remove_image_whole]);
    - the passes of [ConnSet.poll]: the questions until the outside is quiet,
      the addresses, the queues and the messages ([conn_poll_returns]).

    ** What the theorems show

    Uploads are accepted only if signed and configured, and a state file
    changes only by compare-and-swap or commit ([Metadata]); the collection
    of indexes and the listing of states lose nothing that is in use
    ([MetaScan]); replacing a file is atomic ([MetaDir]).  What is linked comes
    from committed images that have the same file ([Hardlinks]).

    A new image is built beside the published one, which stays as it is until
    the commit; the commit exchanges them and is atomic, whatever fails; blocks
    may come in any order and twice; a link is reported only for a file that
    was checked ([Disk]).  While blocks are fetched none is lost or doubled,
    success means that all were written, and a poll ends ([FetchBlocks]).  Of
    an image one index is alive and one task works on it, which ends at its
    deadline ([FetchIndex]).  A path has one download at most, from the
    acceptance of its upload on, and the metadata store is told of a commit
    only when everything before it was done ([FetchDir]).

    The tables of the subsystem stay consistent and no call of it panics
    ([Tracking]); what a reconciliation starts is what its specification says,
    and its requests end ([Reconcile]); the requests of clients are answered
    for every decision of the store ([Rpc]).  The tables of connections
    ([Remote]) and of peers stay consistent under any datagrams, news reach the
    watchers, an image counts as stalled exactly when every peer gave it up
    ([Gossip], [Peers], [ConfigMap]).  A clean-up partitions images and keeps
    what it promises ([Cleanup]).

    A request gets at most one answer, its own, and is never lost
    ([Registry]), also when the connection ends, of which the listener is told
    once ([ClientConn]); frames round trip and decoding never panics ([Wire]).  In the
    client no answer of a server makes the set of connections panic (the two
    events that do, a connection that ends before it was seen open and the
    fetch of an empty file, are in [ConnSetSpec.poll_panics]); every upload is answered once, a
    fetched file is whole, and a poll returns ([ConnSetSpec]).  The counters of
    an upload match its sets and decide its end ([Upload]).  An edited index
    prints as one that parses to the same files ([Download]); a registered
    directory is served block by block ([Blocks]).

    Before [sync] sends anything every line of its command has a signed upload
    whose index and blocks can be served, and an edit changes one file of the
    image that was fetched and replaces that image only ([Sync]).  The [upload]
    command ends with success only if every destination has an address that
    accepted and was woken after all known addresses were settled, or that
    refused with an allowed conflict; when the servers are gone the signal is
    sent and nobody waits for ever ([ClientUpload]).  A server that is configured
    for the destination and knows a key of the client never refuses the request
    for its signature: it is accepted, or another image is in its place, and the
    command understands the answer ([EndToEnd]).  The keys are those of the
    sources in turn ([Cli]).  Every path of the HTTP server has its route, and
    its pages neither panic nor change the tables ([Http]); a daemon that starts
    has every part in a state of its invariant ([Startup]).  Identifiers, paths, masks,
    time stamps and signatures keep their invariants and survive their
    encodings.

    ** Not modelled

    Argument parsers, what is printed on a terminal, the process of the
    editor, HTTP headers, [daemon/metrics.rs] and [daemon/named_mutex.rs] (a
    mutex with a name for its log) are I/O around the parts above; module
    lists, accessors and the closures that only hand a call to a pool have no
    definition of their own.  TCP, UDP sockets, the websocket handshake, DNS,
    timers and pools of threads are the environment.  [Debug] output, logging
    and metrics are left out. *)
From stdpp Require Export base tactics decidable option list numbers gmap strings sorting.
From Stdlib Require Export Ascii ZArith Lia.

(** ** Results of fallible Rust code

    A Rust call returns [Ok], returns [Err], or panics ([assert!], [expect],
    [unwrap], arithmetic overflow checks).  A panic is a value of its own, so
    that "this call never panics" is a statement. *)

Inductive Res (E A : Type) : Type :=
| Ok (a : A)
| Err (e : E)
| Panic.
Arguments Ok {E A} a.
Arguments Err {E A} e.
Arguments Panic {E A}.

Definition res_bind {E A B} (f : A -> Res E B) (r : Res E A) : Res E B :=
  match r with Ok a => f a | Err e => Err e | Panic => Panic end.

Definition res_map {E A B} (f : A -> B) (r : Res E A) : Res E B :=
  match r with Ok a => Ok (f a) | Err e => Err e | Panic => Panic end.

Definition res_map_err {E F A} (f : E -> F) (r : Res E A) : Res F A :=
  match r with Ok a => Ok a | Err e => Err (f e) | Panic => Panic end.

(** [Option::expect] / [Option::unwrap]. *)
Definition expect {E A} (o : option A) : Res E A :=
  match o with Some a => Ok a | None => Panic end.

(** [Option::ok_or]. *)
Definition ok_or {E A} (e : E) (o : option A) : Res E A :=
  match o with Some a => Ok a | None => Err e end.

(** [Result::ok]. *)
Definition res_ok {E A} (r : Res E A) : option A :=
  match r with Ok a => Some a | _ => None end.

Declare Scope res_scope.
Delimit Scope res_scope with res.
Notation "x <-? c ;; k" := (res_bind (fun x => k) c)
  (at level 100, c at next level, right associativity) : res_scope.

(** ** Stateful fallible code

    A call that may change a state [S]: it returns its result and the state it
    leaves, also when it fails (Rust does not roll back on an early return). *)

Definition ST (S E A : Type) : Type := S -> Res E A * S.

Definition st_ret {S E A} (a : A) : ST S E A := fun s => (Ok a, s).
Definition st_err {S E A} (e : E) : ST S E A := fun s => (Err e, s).
Definition st_bind {S E A B} (f : A -> ST S E B) (m : ST S E A) : ST S E B :=
  fun s => match m s with
           | (Ok a, s') => f a s'
           | (Err e, s') => (Err e, s')
           | (Panic, s') => (Panic, s')
           end.
Definition st_lift {S E A} (r : Res E A) : ST S E A := fun s => (r, s).
Definition st_get {S E} : ST S E S := fun s => (Ok s, s).
Definition st_modify {S E} (f : S -> S) : ST S E unit := fun s => (Ok tt, f s).
(** Observe the result of a call instead of propagating its error. *)
Definition st_catch {S E A} (m : ST S E A) : ST S E (Res E A) :=
  fun s => let (r, s') := m s in (Ok r, s').

Declare Scope st_scope.
Delimit Scope st_scope with st.
Notation "x <-- c ;; k" := (st_bind (fun x => k) c)
  (at level 100, c at next level, right associativity) : st_scope.
Notation "c ;;; k" := (st_bind (fun _ => k) c)
  (at level 100, right associativity) : st_scope.

(** What polling a future answers. *)
Inductive Answer (A : Type) := NotReady | Ready (a : A) | Failed.
Arguments NotReady {A}. Arguments Ready {A} a. Arguments Failed {A}.

(** A loop, and [Iterator::filter], with effects. *)
Fixpoint st_each {S E A} (f : A -> ST S E unit) (l : list A) : ST S E unit :=
  match l with [] => st_ret tt | x :: l' => st_bind (fun _ => st_each f l') (f x) end.
Fixpoint st_filter {S E A} (p : A -> ST S E bool) (l : list A) : ST S E (list A) :=
  match l with
  | [] => st_ret []
  | x :: l' => st_bind (fun b : bool => st_bind (fun r => st_ret (if b then x :: r else r)) (st_filter p l')) (p x)
  end.

(** A run, from its result. *)
Lemma run_result {A B} (p : A * B) a : fst p = a -> p = (a, snd p).
Proof. by destruct p; intros <-. Qed.

Section StateLaws.
Context {S E A B : Type}.

Lemma st_bind_ok (m : ST S E A) (f : A -> ST S E B) s a s' :
  m s = (Ok a, s') -> st_bind f m s = f a s'.
Proof. intros H. unfold st_bind. by rewrite H. Qed.

(** The only way a sequence succeeds is that both parts do. *)
Lemma st_bind_inv (m : ST S E A) (f : A -> ST S E B) s b s2 :
  st_bind f m s = (Ok b, s2) ->
  exists a s1, m s = (Ok a, s1) /\ f a s1 = (Ok b, s2).
Proof.
  unfold st_bind. destruct (m s) as [[a|e|] s1]; intros H; try discriminate.
  by exists a, s1.
Qed.

(** A state property kept by both parts is kept by the sequence, whatever
    the outcome. *)
Lemma st_bind_inv_state (P : S -> Prop) (m : ST S E A) (f : A -> ST S E B) s :
  P (snd (m s)) ->
  (forall a s', P s' -> P (snd (f a s'))) ->
  P (snd (st_bind f m s)).
Proof.
  unfold st_bind. intros H1 H2. destruct (m s) as [[a|e|] s1]; simpl in *; auto.
Qed.
End StateLaws.

(** ** Triples

    [triple P m Q R]: from a state with [P] the call does not panic, and leaves
    [Q] of its result and its state, or [R] of its error and its state. *)

Definition triple {S E A} (P : S -> Prop) (m : ST S E A) (Q : A -> S -> Prop) (R : E -> S -> Prop) : Prop :=
  forall s, P s -> match m s with
                   | (Ok a, s') => Q a s'
                   | (Err e, s') => R e s'
                   | (Panic, _) => False
                   end.

Section Triples.
Context {S E A B : Type}.
Implicit Types (P : S -> Prop) (R : E -> S -> Prop).

Lemma triple_ret P (Q : A -> S -> Prop) R a : (forall s, P s -> Q a s) -> triple P (st_ret a) Q R.
Proof. by intros H s Hs; apply H. Qed.

Lemma triple_err P (Q : A -> S -> Prop) R e : (forall s, P s -> R e s) -> triple P (st_err e) Q R.
Proof. by intros H s Hs; apply H. Qed.

Lemma triple_modify P (Q : unit -> S -> Prop) R f : (forall s, P s -> Q tt (f s)) -> triple P (st_modify f) Q R.
Proof. by intros H s Hs; apply H. Qed.

Lemma triple_bind {P} (Q : A -> S -> Prop) (Q' : B -> S -> Prop) R m f :
  triple P m Q R -> (forall a, triple (Q a) (f a) Q' R) -> triple P (st_bind f m) Q' R.
Proof.
  intros Hm Hf s Hs. specialize (Hm s Hs). unfold st_bind. destruct (m s) as [[a|e|] s'];
    [by apply Hf|done..].
Qed.

Lemma triple_conseq (P' P : S -> Prop) (Q' Q : A -> S -> Prop) (R' R : E -> S -> Prop) m :
  triple P' m Q' R' -> (forall s, P s -> P' s) -> (forall a s, Q' a s -> Q a s) ->
  (forall e s, R' e s -> R e s) -> triple P m Q R.
Proof. intros H HP HQ HR s Hs. specialize (H s (HP s Hs)). destruct (m s) as [[a|e|] s']; auto. Qed.

(** The triple at one state. *)
Lemma triple_at P (Q : A -> S -> Prop) R m : (forall s0, P s0 -> triple (eq s0) m Q R) -> triple P m Q R.
Proof. intros H s Hs. by apply (H s Hs s). Qed.
End Triples.

(** ** Machine integers *)

Definition u16_modulus : Z := 65536.
Definition u32_max : Z := 4294967295.
Definition u64_modulus : Z := 18446744073709551616.
Definition wrap64 (z : Z) : Z := z mod u64_modulus.
(** [u32::saturating_add]. *)
Definition sat_add32 (a b : Z) : Z := Z.min u32_max (a + b).
(** [u64::saturating_sub]. *)
Definition sat_sub (a b : Z) : Z := Z.max 0 (a - b).

(** ** Stable sorting: [slice::sort_by]

    Rust's [sort_by] is a stable sort, so its result is determined by the
    comparison alone; insertion sort computes it. *)

Section StableSort.
Context {A : Type} (le : A -> A -> bool).

Fixpoint ins_sorted (x : A) (l : list A) : list A :=
  match l with
  | [] => [x]
  | y :: l' => if le x y then x :: y :: l' else y :: ins_sorted x l'
  end.

Fixpoint stable_sort (l : list A) : list A :=
  match l with
  | [] => []
  | x :: l' => ins_sorted x (stable_sort l')
  end.

Lemma ins_sorted_perm x l : ins_sorted x l ≡ₚ x :: l.
Proof.
  induction l as [|y l IH]; simpl; [done|].
  destruct (le x y); [done|]. rewrite IH. apply Permutation_swap.
Qed.

Lemma stable_sort_perm l : stable_sort l ≡ₚ l.
Proof.
  induction l as [|x l IH]; simpl; [done|].
  by rewrite ins_sorted_perm, IH.
Qed.

Lemma stable_sort_length l : length (stable_sort l) = length l.
Proof. by rewrite stable_sort_perm. Qed.

Lemma stable_sort_elem x l : x ∈ stable_sort l <-> x ∈ l.
Proof. by rewrite stable_sort_perm. Qed.

Context (le_total : forall x y, le x y = true \/ le y x = true).
Context (le_trans : forall x y z, le x y = true -> le y z = true -> le x z = true).
Let R (x y : A) : Prop := le x y = true.

Lemma ins_sorted_sorted x l : StronglySorted R l -> StronglySorted R (ins_sorted x l).
Proof.
  induction 1 as [|y l Hs IH Hy]; simpl; [repeat constructor|].
  destruct (le x y) eqn:E.
  - constructor; [by constructor|]. constructor; [done|].
    eapply Forall_impl; [exact Hy|]. intros z Hz. by eapply le_trans.
  - constructor; [done|]. rewrite (ins_sorted_perm x l). constructor; [|done].
    destruct (le_total x y) as [H|H]; [congruence|done].
Qed.

Lemma stable_sort_sorted l : StronglySorted R (stable_sort l).
Proof. induction l; simpl; [constructor|by apply ins_sorted_sorted]. Qed.

Lemma ins_sorted_id x l : Forall (R x) l -> ins_sorted x l = x :: l.
Proof. destruct 1 as [|y l Hy _]; simpl; [done|]. unfold R in Hy. by rewrite Hy. Qed.

Lemma stable_sort_id l : StronglySorted R l -> stable_sort l = l.
Proof.
  induction 1 as [|x l Hs IH Hx]; simpl; [done|]. rewrite IH. by apply ins_sorted_id.
Qed.
End StableSort.

(** ** Lists *)

(** [HashSet]/[BTreeSet] collected from an iterator. *)
Abbreviation set_of := (list_to_set (C := gset _)).

Lemma elem_of_take_drop {A} (x : A) n (l : list A) : x ∈ l <-> x ∈ take n l \/ x ∈ drop n l.
Proof. rewrite <- (take_drop n l) at 1. by rewrite elem_of_app. Qed.

Lemma StronglySorted_rev {A} (R : A -> A -> Prop) (l : list A) : StronglySorted R l -> StronglySorted (flip R) (rev l).
Proof.
  induction 1 as [|x l Hl IH Hx]; cbn [rev]; [constructor|]. apply StronglySorted_app.
  split_and!; [|done|by repeat constructor]. rewrite Forall_forall in Hx.
  intros a b Ha ->%list_elem_of_singleton. apply Hx. by rewrite (Permutation_rev l).
Qed.

Lemma sub_NoDup {A} (l k : list A) : l ⊆+ k -> NoDup k -> NoDup l.
Proof.
  intros [k' Hk]%submseteq_Permutation Hnd. rewrite Hk in Hnd. by apply NoDup_app in Hnd as [? _].
Qed.

(** ** Strings *)

Lemma substring_app_l a b : String.substring 0 (String.length a) (a +:+ b) = a.
Proof. induction a as [|c a IH]; simpl; [by destruct b|]. by rewrite IH. Qed.

Lemma substring_app_r a b : String.substring (String.length a) (String.length b) (a +:+ b) = b.
Proof.
  induction a as [|c a IH]; [|done].
  change (EmptyString +:+ b) with b. induction b as [|c b IH]; simpl; [done|]. by f_equal.
Qed.

Lemma string_length_app a b : String.length (a +:+ b) = String.length a + String.length b.
Proof. induction a; simpl; [done|]. by f_equal. Qed.

Lemma string_app_assoc (a b c : string) : ((a +:+ b) +:+ c = a +:+ (b +:+ c))%string.
Proof.
  induction a as [|x a IH]; [done|]. change (String x ((a +:+ b) +:+ c) = String x (a +:+ (b +:+ c))). by rewrite IH.
Qed.

Lemma substring_split s n m : n + m = String.length s ->
  s = String.substring 0 n s +:+ String.substring n m s.
Proof.
  revert n m. induction s as [|c s IH]; intros n m; simpl.
  - intros. by destruct n, m.
  - destruct n as [|n]; simpl; intros H.
    + destruct m as [|m]; [lia|]. change ("" +:+ ?x) with x. f_equal.
      assert (Hm : 0 + m = String.length s) by lia. rewrite (IH 0 m Hm) at 1. by destruct s.
    + change (String c ?x +:+ ?y) with (String c (x +:+ y)). f_equal. apply IH. lia.
Qed.

(** ** Automation *)

Create HintDb ciruela.
Create Rewrite HintDb ciruela.
#[export] Hint Resolve stable_sort_perm stable_sort_sorted : ciruela.
#[export] Hint Rewrite @stable_sort_length : ciruela.

(** Split every [match]/[if] of the goal or of a hypothesis, keeping equations. *)
Ltac split_matches :=
  repeat (case_match || case_decide); simplify_eq/=.

(** Invert a successful run of a sequence, from the outside in. *)
Ltac st_inv H :=
  let a := fresh "a" in let s := fresh "s" in let H1 := fresh "Hrun" in
  apply st_bind_inv in H as (a & s & H1 & H).
