(* ===== verification/Serde.v ===== *)
(** * The serde data model, bytes, and the crates behind the interfaces

    Serialization code of the source talks to [serde]'s data model: a value is
    written as a string, a byte string, an integer, a sequence or a map, and a
    visitor is handed one of those.  [Value] is that data model; the bytes it
    becomes ([serde_cbor]) are a parameter wherever they matter.  [HexCodec] is
    the interface of the [hex] crate. *)
From S2P Require Import Prelude.
From Stdlib.Strings Require Byte.

Abbreviation bytes := (list Byte.byte).

#[global] Instance byte_eq_dec : EqDecision Byte.byte := Byte.byte_eq_dec.
#[global] Instance byte_countable : Countable Byte.byte.
Proof. apply (inj_countable Byte.to_N Byte.of_N). apply Byte.of_to_N. Defined.

(** Byte strings are compared lexicographically by unsigned byte value
    ([Ord for [u8]]). *)
Fixpoint bytes_cmp (a b : bytes) : comparison :=
  match a, b with
  | [], [] => Eq
  | [], _ => Lt
  | _, [] => Gt
  | x :: a', y :: b' =>
      match N.compare (Byte.to_N x) (Byte.to_N y) with Eq => bytes_cmp a' b' | c => c end
  end.

Definition bytes_leb (a b : bytes) : bool :=
  match bytes_cmp a b with Gt => false | _ => true end.

Lemma to_N_inj x y : Byte.to_N x = Byte.to_N y -> x = y.
Proof.
  intros H. pose proof (Byte.of_to_N x) as Hx. rewrite H, Byte.of_to_N in Hx. by injection Hx.
Qed.

Lemma bytes_cmp_eq a b : bytes_cmp a b = Eq <-> a = b.
Proof.
  revert b. induction a as [|x a IH]; intros [|y b]; simpl; try done.
  destruct (N.compare_spec (Byte.to_N x) (Byte.to_N y)) as [H|H|H].
  - apply to_N_inj in H as ->. rewrite IH. naive_solver.
  - split; [done|]. intros [= -> _]. lia.
  - split; [done|]. intros [= -> _]. lia.
Qed.

Lemma bytes_cmp_antisym a b : bytes_cmp b a = CompOpp (bytes_cmp a b).
Proof.
  revert b. induction a as [|x a IH]; intros [|y b]; simpl; try done.
  rewrite (N.compare_antisym (Byte.to_N x)), IH. by destruct (N.compare _ _).
Qed.

Lemma bytes_leb_total a b : bytes_leb a b = true \/ bytes_leb b a = true.
Proof. unfold bytes_leb. rewrite (bytes_cmp_antisym a b). destruct (bytes_cmp a b); auto. Qed.

Lemma bytes_cmp_trans c a b d : bytes_cmp a b = c -> bytes_cmp b d = c -> bytes_cmp a d = c.
Proof.
  revert b d. induction a as [|x a IH]; intros [|y b] [|z d]; simpl; try congruence.
  destruct (N.compare_spec (Byte.to_N x) (Byte.to_N y)) as [H1|H1|H1];
  destruct (N.compare_spec (Byte.to_N y) (Byte.to_N z)) as [H2|H2|H2]; intros E1 E2; subst; try congruence.
  - rewrite H1, H2, N.compare_refl. eapply IH; [reflexivity|exact E2].
  - by rewrite H1, (proj2 (N.compare_lt_iff _ _) H2).
  - by rewrite H1, (proj2 (N.compare_gt_iff _ _) H2).
  - by rewrite <- H2, (proj2 (N.compare_lt_iff _ _) H1).
  - by rewrite (proj2 (N.compare_lt_iff _ _) (N.lt_trans _ _ _ H1 H2)).
  - by rewrite <- H2, (proj2 (N.compare_gt_iff _ _) H1).
  - by rewrite (proj2 (N.compare_gt_iff _ _) (N.lt_trans _ _ _ H2 H1)).
Qed.

Lemma bytes_leb_trans a b d : bytes_leb a b = true -> bytes_leb b d = true -> bytes_leb a d = true.
Proof.
  unfold bytes_leb. destruct (bytes_cmp a b) eqn:E1, (bytes_cmp b d) eqn:E2; try done; intros _ _.
  - apply bytes_cmp_eq in E1 as ->. by rewrite E2.
  - apply bytes_cmp_eq in E1 as ->. by rewrite E2.
  - apply bytes_cmp_eq in E2 as ->. by rewrite E1.
  - by rewrite (bytes_cmp_trans Lt a b d).
Qed.

Lemma bytes_leb_antisym a b : bytes_leb a b = true -> bytes_leb b a = true -> a = b.
Proof.
  unfold bytes_leb. rewrite (bytes_cmp_antisym a b). destruct (bytes_cmp a b) eqn:E; try done.
  by apply bytes_cmp_eq in E.
Qed.

(** ** The serde data model *)

Inductive Value :=
| VNull
| VBool (b : bool)
| VU64 (n : Z)
| VStr (s : string)
| VBytes (b : bytes)
| VSeq (vs : list Value)
| VMap (kvs : list (Value * Value)).

(** The deserialization errors the source raises itself, plus the one serde
    raises when a visitor has no method for the value it is given. *)
Inductive DeError :=
| InvalidType
| InvalidLength (n : nat)
| InvalidValue
| UnknownVariant (s : string)
| UnknownField (s : string)
| Custom (s : string).

Definition DeRes := Res DeError.

(** A visitor: the methods the source implements; the others keep serde's
    default, an [invalid type] error. *)
Record Visitor (A : Type) := {
  visit_bytes : bytes -> DeRes A;
  visit_str : string -> DeRes A;
  visit_seq : list Value -> DeRes A
}.
Arguments visit_bytes {A}. Arguments visit_str {A}. Arguments visit_seq {A}.

(** A self-describing format (CBOR here) hands the visitor the value it finds. *)
Definition drive {A} (vis : Visitor A) (v : Value) : DeRes A :=
  match v with
  | VBytes b => visit_bytes vis b
  | VStr s => visit_str vis s
  | VSeq vs => visit_seq vis vs
  | _ => Err InvalidType
  end.

Definition no_visit {X A} (_ : X) : DeRes A := Err InvalidType.

(** Interface of a type with [Serialize] and [Deserialize] (binary format):
    what is written is read back. *)
Class Wire (A : Type) := { to_value : A -> Value; of_value : Value -> DeRes A }.
Class WireLaws (A : Type) `{Wire A} (ok : A -> Prop) :=
  wire_roundtrip : forall a, ok a -> of_value (to_value a) = Ok a.

(** ** The [hex] crate *)

Class HexCodec := { to_hex : bytes -> string; from_hex : string -> option bytes }.
Definition hex_digit (c : ascii) : bool :=
  let n := N_of_ascii c in ((48 <=? n) && (n <=? 57) || (97 <=? n) && (n <=? 102))%N.
Class HexLaws `{HexCodec} := {
  from_to_hex : forall b, from_hex (to_hex b) = Some b;
  to_hex_length : forall b, String.length (to_hex b) = 2 * length b;
  from_hex_length : forall s b, from_hex s = Some b -> String.length s = 2 * length b;
  to_hex_digits : forall b i c, String.get i (to_hex b) = Some c -> hex_digit c = true
}.

(** A concrete codec, lower-case on output and case-insensitive on input. *)
Module HexCodecImpl.

Definition digit (n : N) : ascii :=
  ascii_of_N (if (n <? 10)%N then 48 + n else 87 + n).

Definition undigit (c : ascii) : option N :=
  let n := N_of_ascii c in
  if ((48 <=? n) && (n <=? 57))%N then Some (n - 48)%N
  else if ((97 <=? n) && (n <=? 102))%N then Some (n - 87)%N
  else if ((65 <=? n) && (n <=? 70))%N then Some (n - 55)%N
  else None.

Fixpoint enc (b : bytes) : string :=
  match b with
  | [] => ""
  | x :: b' => String (digit (Byte.to_N x / 16)) (String (digit (Byte.to_N x mod 16)) (enc b'))
  end.

Fixpoint dec (s : string) : option bytes :=
  match s with
  | EmptyString => Some []
  | String c (String d s') =>
      h ← undigit c; l ← undigit d; x ← Byte.of_N (h * 16 + l); b ← dec s'; Some (x :: b)
  | String _ EmptyString => None
  end.

#[global] Instance codec : HexCodec := {| to_hex := enc; from_hex := dec |}.

Lemma undigit_pair x :
  (h ← undigit (digit (Byte.to_N x / 16)); l ← undigit (digit (Byte.to_N x mod 16));
   Byte.of_N (h * 16 + l)) = Some x.
Proof. by destruct x. Qed.

Lemma dec_enc b : dec (enc b) = Some b.
Proof.
  induction b as [|x b IH]; [done|]. cbn -[digit undigit N.div N.modulo N.mul N.add].
  pose proof (undigit_pair x) as H.
  destruct (undigit (digit (Byte.to_N x / 16))) as [h|]; [|done]. simpl in *.
  destruct (undigit (digit (Byte.to_N x mod 16))) as [l|]; [|done]. simpl in *.
  rewrite H. simpl. by rewrite IH.
Qed.

Lemma dec_length : forall n s b, String.length s <= n -> dec s = Some b -> String.length s = 2 * length b.
Proof.
  induction n as [|n IH]; intros [|c [|d s]] b Hn; cbn -[undigit Byte.of_N]; intros H; simplify_eq/=; try lia.
  destruct (undigit c); [|done]. destruct (undigit d); [|done]. simpl in H.
  destruct (Byte.of_N _); [|done]. simpl in H. destruct (dec s) as [b'|] eqn:E; [|done].
  injection H as <-. apply IH in E; simpl; lia.
Qed.

#[global] Instance codec_laws : HexLaws.
Proof.
  split; simpl.
  - apply dec_enc.
  - induction b as [|x b IH]; simpl; lia.
  - intros s b. by apply (dec_length (String.length s)).
  - induction b as [|x b IH]; [by intros [|]|]. intros [|[|i]] c; cbn -[digit N.div N.modulo].
    + intros [= <-]. by destruct x.
    + intros [= <-]. by destruct x.
    + apply IH.
Qed.

End HexCodecImpl.
