(* ===== verification/VirtualPath.v ===== *)
(** * Virtual paths: [src/virtual_path.rs]

    [Module Path] models what the source uses of [std::path] on Unix;
    [Module VPath] models the [VPath] type.  A [PathBuf] is modelled up to the
    equality, order and hash that [std::path] gives it, which look only at its
    components: a path is the list of its components, [parse] computes them
    from a string and [render] gives the normal form back. *)
From S2P Require Import Prelude.

Module Path.

(** [std::path::Component] on Unix (there are no prefixes there). *)
Inductive Component := RootDir | CurDir | ParentDir | Normal (name : string).

#[global] Instance Component_eq_dec : EqDecision Component.
Proof. solve_decision. Defined.
#[global] Instance Component_countable : Countable Component.
Proof.
  refine (inj_countable'
    (fun c => match c with RootDir => inl 0 | CurDir => inl 1 | ParentDir => inl 2
                         | Normal s => inr s end)
    (fun c => match c with inl 0 => RootDir | inl 1 => CurDir | inl _ => ParentDir
                         | inr s => Normal s end) _).
  by intros [].
Defined.

Abbreviation t := (list Component).

Definition slash : ascii := "/"%char.

(** The pieces of a string between slashes. *)
Fixpoint split_slash (s : string) : list string :=
  match s with
  | EmptyString => [""%string]
  | String c s' =>
      if decide (c = slash) then ""%string :: split_slash s'
      else match split_slash s' with
           | w :: ws => String c w :: ws
           | [] => [String c ""]
           end
  end.

(** One piece inside a path: empty pieces and [.] are dropped. *)
Definition piece (w : string) : option Component :=
  if decide (w = ""%string) then None
  else if decide (w = "."%string) then None
  else if decide (w = ".."%string) then Some ParentDir
  else Some (Normal w).

(** [Path::components]: a leading slash is the root, and [.] counts only as
    the first component of a relative path. *)
Definition parse (s : string) : t :=
  match s with
  | EmptyString => []
  | String c s' =>
      if decide (c = slash) then RootDir :: omap piece (split_slash s')
      else match split_slash s with
           | w :: ws => if decide (w = "."%string) then CurDir :: omap piece ws
                        else omap piece (w :: ws)
           | [] => []
           end
  end.

(** [Component::as_os_str]. *)
Definition as_str (c : Component) : string :=
  match c with
  | RootDir => "/" | CurDir => "." | ParentDir => ".." | Normal n => n
  end.

(** [Path::iter]. *)
Definition iter (p : t) : list string := map as_str p.

Fixpoint join_slash (ws : list string) : string :=
  match ws with
  | [] => ""
  | [w] => w
  | w :: ws' => w +:+ String slash (join_slash ws')
  end.

Definition render (p : t) : string :=
  match p with
  | RootDir :: p' => String slash (join_slash (map as_str p'))
  | _ => join_slash (map as_str p)
  end.

Definition is_absolute (p : t) : bool :=
  match p with RootDir :: _ => true | _ => false end.

Definition is_normal (c : Component) : bool :=
  match c with Normal _ => true | _ => false end.

Fixpoint butlast {A} (l : list A) : list A :=
  match l with [] => [] | [_] => [] | x :: l' => x :: butlast l' end.

(** [Path::parent]: everything but the last component; a root has none. *)
Definition parent (p : t) : option t :=
  match last p with
  | Some (Normal _) | Some CurDir | Some ParentDir => Some (butlast p)
  | _ => None
  end.

(** [Path::file_name]. *)
Definition file_name (p : t) : option string :=
  match last p with Some (Normal n) => Some n | _ => None end.

(** [Path::strip_prefix("/")]. *)
Definition strip_root (p : t) : option t :=
  match p with RootDir :: p' => Some p' | _ => None end.

(** [Path::strip_prefix(base)]. *)
Fixpoint strip_prefix (base p : t) : option t :=
  match base, p with
  | [], _ => Some p
  | b :: base', c :: p' => if decide (b = c) then strip_prefix base' p' else None
  | _ :: _, [] => None
  end.

(** [Path::join]: an absolute argument replaces the path; a leading [.] of a
    relative one disappears in the middle of the result. *)
Definition join (p q : t) : t :=
  if is_absolute q then q
  else match p, q with
       | _ :: _, CurDir :: q' => p ++ q'
       | _, _ => p ++ q
       end.

(** A name that is one normal component. *)
Fixpoint no_slash (s : string) : bool :=
  match s with
  | EmptyString => true
  | String c s' => negb (bool_decide (c = slash)) && no_slash s'
  end.

Definition name_ok (n : string) : bool :=
  no_slash n && negb (bool_decide (n = ""%string)) &&
  negb (bool_decide (n = "."%string)) && negb (bool_decide (n = ".."%string)).

Definition inner_ok (c : Component) : bool :=
  match c with Normal n => name_ok n | ParentDir => true | _ => false end.

(** What [parse] returns: root and [.] only in front, names that are names. *)
Definition wf (p : t) : bool :=
  match p with
  | RootDir :: p' | CurDir :: p' => forallb inner_ok p'
  | _ => forallb inner_ok p
  end.

Lemma butlast_snoc {A} (l : list A) x : butlast (l ++ [x]) = l.
Proof.
  induction l as [|y l IH]; [done|]. simpl in *. rewrite IH.
  by destruct (l ++ [x]) eqn:E; [destruct l|].
Qed.

Lemma path_parent_snoc p n : parent (p ++ [Normal n]) = Some p.
Proof. unfold parent. rewrite last_snoc. by rewrite butlast_snoc. Qed.

Lemma file_name_snoc p n : file_name (p ++ [Normal n]) = Some n.
Proof. unfold file_name. by rewrite last_snoc. Qed.

Lemma split_slash_ne s : split_slash s <> [].
Proof. destruct s; simpl; [done|]. case_decide; [done|]. by destruct (split_slash s). Qed.

Lemma split_slash_app n s :
  no_slash n = true -> split_slash (n +:+ String slash s) = n :: split_slash s.
Proof.
  induction n as [|c n IH]; simpl; intros H; [done|].
  apply andb_true_iff in H as [Hc Hn]. apply negb_true_iff, bool_decide_eq_false in Hc.
  rewrite decide_False by done. by rewrite IH.
Qed.

Lemma split_slash_one n : no_slash n = true -> split_slash n = [n].
Proof.
  induction n as [|c n IH]; simpl; intros H; [done|].
  apply andb_true_iff in H as [Hc Hn]. apply negb_true_iff, bool_decide_eq_false in Hc.
  rewrite decide_False by done. by rewrite IH.
Qed.

Lemma split_join_slash ws :
  ws <> [] -> forallb no_slash ws = true -> split_slash (join_slash ws) = ws.
Proof.
  induction ws as [|w ws IH]; [done|]. intros _ H. simpl in H.
  apply andb_true_iff in H as [Hw Hws]. destruct ws as [|w' ws].
  - by apply split_slash_one.
  - change (join_slash (w :: w' :: ws)) with (w +:+ String slash (join_slash (w' :: ws))).
    rewrite split_slash_app by done. by rewrite IH.
Qed.

Lemma inner_no_slash c : inner_ok c = true -> no_slash (as_str c) = true.
Proof.
  destruct c; try done. simpl. unfold name_ok. intros H.
  by repeat apply andb_true_iff in H as [H _].
Qed.

Lemma inner_piece c : inner_ok c = true -> piece (as_str c) = Some c.
Proof.
  destruct c as [| | |n]; try done. simpl. unfold name_ok, piece.
  rewrite !andb_true_iff, !negb_true_iff, !bool_decide_eq_false.
  intros [[[_ H1] H2] H3]. by rewrite !decide_False.
Qed.

Lemma inner_pieces p : forallb inner_ok p = true -> omap piece (map as_str p) = p.
Proof.
  induction p as [|c p IH]; [done|]. simpl. rewrite andb_true_iff. intros [Hc Hp].
  rewrite inner_piece by done. f_equal. by apply IH.
Qed.

Lemma inner_split p :
  forallb inner_ok p = true -> p <> [] -> split_slash (join_slash (map as_str p)) = map as_str p.
Proof.
  intros H Hp. apply split_join_slash; [by destruct p|].
  clear Hp. induction p as [|c p IH]; [done|]. simpl in *. apply andb_true_iff in H as [Hc Hp].
  by rewrite inner_no_slash, IH.
Qed.

(** Rendering and parsing again is the identity on well-formed absolute paths. *)
Lemma parse_render_abs p : forallb inner_ok p = true -> parse (render (RootDir :: p)) = RootDir :: p.
Proof.
  intros H. unfold render, parse. rewrite decide_True by done. f_equal.
  destruct p as [|c p]; [done|]. rewrite inner_split by done. by apply inner_pieces.
Qed.

Lemma split_slash_no_slash s : forallb no_slash (split_slash s) = true.
Proof.
  induction s as [|c s IH]; [done|]. simpl. case_decide as Hc; [done|].
  destruct (split_slash s) as [|w ws]; simpl in *; [by rewrite bool_decide_eq_false_2|].
  apply andb_true_iff in IH as [-> ->]. by rewrite bool_decide_eq_false_2.
Qed.

Lemma pieces_inner ws : forallb no_slash ws = true -> forallb inner_ok (omap piece ws) = true.
Proof.
  induction ws as [|w ws IH]; [done|]. simpl. rewrite andb_true_iff. intros [Hw Hws].
  specialize (IH Hws).
  unfold piece at 1. repeat case_decide; simpl; auto.
  apply andb_true_iff. split; [|done]. unfold name_ok. rewrite Hw.
  by rewrite !bool_decide_eq_false_2.
Qed.

(** Parsing only yields well-formed paths. *)
Lemma parse_wf s : wf (parse s) = true.
Proof.
  destruct s as [|c s]; [done|]. unfold parse. case_decide as Hc.
  - simpl. apply pieces_inner, split_slash_no_slash.
  - pose proof (split_slash_no_slash (String c s)) as H.
    destruct (split_slash (String c s)) as [|w ws]; [done|].
    case_decide as Hw.
    + simpl in *. apply andb_true_iff in H as [_ H]. by apply pieces_inner.
    + pose proof (pieces_inner (w :: ws) H) as Hi. unfold wf.
      destruct (omap piece (w :: ws)) as [|[] p]; done.
Qed.

(** A single name is one component. *)
Lemma parse_name n : name_ok n = true -> parse n = [Normal n].
Proof.
  intros H. pose proof (inner_piece (Normal n) H) as Hp. pose proof (inner_no_slash (Normal n) H) as Hs.
  simpl in *. destruct n as [|c n]; [done|]. unfold parse.
  rewrite (split_slash_one (String c n)) by done.
  simpl in Hs. apply andb_true_iff in Hs as [Hc _]. apply negb_true_iff, bool_decide_eq_false in Hc.
  rewrite decide_False by done. unfold piece in Hp. do 3 (case_decide; try done).
  simpl. unfold piece. by rewrite !decide_False.
Qed.

End Path.

Module VPath.

(** [pub struct VPath(Arc<PathBuf>)]. *)
Record VPath := mk { path : Path.t }.

#[global] Instance VPath_eq_dec : EqDecision VPath.
Proof. solve_decision. Defined.
#[global] Instance VPath_countable : Countable VPath.
Proof. apply (inj_countable' path mk). by intros []. Defined.

(** [struct PathError] and the error of a rejected deserialization. *)
Inductive PathError := PathErr.

(** The methods; [None] is a panic ([expect] or [assert!]). *)

Definition key (v : VPath) : option string := Path.iter (path v) !! 1.

Definition from_path (p : Path.t) : option VPath :=
  if Path.is_absolute p && negb (bool_decide (p = [Path.RootDir])) then Some (mk p) else None.

(** [VPath::from]. *)
Definition from (s : string) : option VPath := from_path (Path.parse s).

Definition key_vpath (v : VPath) : option VPath := k ← key v; from ("/" +:+ k).

(** [self.0.iter().count() - 2] on [usize]. *)
Definition level (v : VPath) : option nat :=
  let n := length (Path.iter (path v)) in
  if decide (2 <= n) then Some (n - 2) else None.

(** [assert!(self.level() > 0)]. *)
Definition assert_level (v : VPath) : option () :=
  n ← level v; if decide (0 < n) then Some () else None.

Definition parent_rel (v : VPath) : option Path.t :=
  assert_level v ≫= fun _ => Path.strip_root (path v) ≫= Path.parent.

Definition parent (v : VPath) : option VPath :=
  assert_level v ≫= fun _ => mk <$> Path.parent (path v).

Definition suffix (v : VPath) : option Path.t :=
  match path v with _ :: _ :: p => Some p | _ => None end.

Definition final_name (v : VPath) : option string :=
  assert_level v ≫= fun _ => Path.file_name (path v).

Definition join (v : VPath) (p : Path.t) : option VPath :=
  if bool_decide (p = []) then None
  else if forallb Path.is_normal p then Some (mk (Path.join (path v) p)) else None.

Definition try_from (s : string) : Res PathError VPath :=
  let p := Path.parse s in
  if negb (Path.is_absolute p) || bool_decide (p = [Path.RootDir]) then Err PathErr
  else Ok (mk p).

Definition matches_basedir (v base : VPath) : option bool :=
  assert_level v ≫= fun _ => (fun p => bool_decide (p = path base)) <$> Path.parent (path v).

(** The loop of [check_path] over the components after the root: [None] is its
    early [return false], otherwise the number of normal components. *)
Fixpoint check_rest (num : nat) (p : Path.t) : option nat :=
  match p with
  | [] => Some num
  | Path.Normal _ :: p' => check_rest (S num) p'
  | _ :: _ => None
  end.

Definition check_path (s : string) : bool :=
  match Path.parse s with
  | Path.RootDir :: p => match check_rest 0 p with Some num => bool_decide (1 <= num) | None => false end
  | _ => false
  end.

(** [impl Deserialize for VPath], given the deserialized string. *)
Definition deserialize (s : string) : Res PathError VPath :=
  if check_path s then Ok (mk (Path.parse s)) else Err PathErr.

(** ** Well-formed virtual paths: [/key/name/.../name] *)

Definition of_names (k : string) (ns : list string) : VPath :=
  mk (Path.RootDir :: Path.Normal k :: map Path.Normal ns).

Definition valid (v : VPath) : Prop :=
  exists k ns, forallb Path.name_ok (k :: ns) = true /\ v = of_names k ns.

Lemma check_rest_some n p m :
  check_rest n p = Some m -> forallb Path.is_normal p = true /\ m = n + length p.
Proof.
  revert n. induction p as [|c p IH]; intros n; simpl; [intros [= ->]; split; [done|lia]|].
  destruct c; try done. intros H. apply IH in H as [-> ->]. split; [done|lia].
Qed.

Lemma check_rest_normals n ns : check_rest n (map Path.Normal ns) = Some (n + length ns).
Proof.
  revert n. induction ns as [|a ns IH]; intros n; simpl; [f_equal; lia|].
  rewrite IH. f_equal. lia.
Qed.

Lemma normals_map p : forallb Path.is_normal p = true -> exists ns, p = map Path.Normal ns.
Proof.
  induction p as [|c p IH]; simpl; [by exists []|]. destruct c; try done. intros H.
  destruct (IH H) as [ns ->]. by exists (name :: ns).
Qed.

Lemma inner_normals ns : forallb Path.inner_ok (map Path.Normal ns) = forallb Path.name_ok ns.
Proof. induction ns as [|n ns IH]; simpl; [done|]. by rewrite IH. Qed.

Lemma is_normals ns : forallb Path.is_normal (map Path.Normal ns) = true.
Proof. by induction ns. Qed.

Lemma name_ok_ne n : Path.name_ok n = true -> n <> ""%string.
Proof. by intros H ->. Qed.

Lemma valid_render v :
  valid v -> Path.parse (Path.render (path v)) = path v.
Proof.
  intros (k & ns & Hok & ->). apply (Path.parse_render_abs (map Path.Normal (k :: ns))).
  by rewrite inner_normals.
Qed.

(** Each accessor on a well-formed path. *)
Lemma key_of_names k ns : key (of_names k ns) = Some k.
Proof. done. Qed.

Lemma level_of_names k ns : level (of_names k ns) = Some (length ns).
Proof.
  unfold level, Path.iter, of_names. cbn [path]. rewrite length_map. cbn [length].
  rewrite length_map, decide_True by lia. f_equal. lia.
Qed.

Lemma suffix_of_names k ns : suffix (of_names k ns) = Some (map Path.Normal ns).
Proof. done. Qed.

Lemma assert_level_of_names k ns :
  assert_level (of_names k ns) = if decide (0 < length ns) then Some () else None.
Proof. unfold assert_level. by rewrite level_of_names. Qed.

Lemma of_names_snoc k ns n :
  path (of_names k (ns ++ [n])) = path (of_names k ns) ++ [Path.Normal n].
Proof. unfold of_names. simpl. by rewrite map_app. Qed.

Lemma assert_level_snoc k ns n : assert_level (of_names k (ns ++ [n])) = Some ().
Proof. rewrite assert_level_of_names, length_app, decide_True; [done|simpl; lia]. Qed.

Lemma parent_snoc k ns n : parent (of_names k (ns ++ [n])) = Some (of_names k ns).
Proof.
  unfold parent. rewrite assert_level_snoc. simpl option_bind.
  rewrite of_names_snoc, Path.path_parent_snoc. by destruct (of_names k ns).
Qed.

Lemma final_name_snoc k ns n : final_name (of_names k (ns ++ [n])) = Some n.
Proof.
  unfold final_name. rewrite assert_level_snoc. simpl option_bind.
  by rewrite of_names_snoc, Path.file_name_snoc.
Qed.

Lemma parent_rel_snoc k ns n :
  parent_rel (of_names k (ns ++ [n])) = Some (map Path.Normal (k :: ns)).
Proof.
  unfold parent_rel. rewrite assert_level_snoc. simpl option_bind.
  rewrite of_names_snoc. simpl.
  change (Path.Normal k :: map Path.Normal ns ++ [Path.Normal n])
    with (map Path.Normal (k :: ns) ++ [Path.Normal n]).
  by rewrite Path.path_parent_snoc.
Qed.

Lemma join_names k ns ms :
  ms <> [] -> join (of_names k ns) (map Path.Normal ms) = Some (of_names k (ns ++ ms)).
Proof.
  intros Hms. unfold join. rewrite bool_decide_eq_false_2 by (by destruct ms).
  rewrite is_normals. unfold Path.join, of_names. simpl.
  destruct ms as [|m ms]; [done|]. simpl. do 4 f_equal. by rewrite map_app.
Qed.

Lemma of_names_inj k ns k' ns' : of_names k ns = of_names k' ns' -> k = k' /\ ns = ns'.
Proof.
  unfold of_names. intros [= -> H]. split; [done|].
  apply (list_fmap_eq_inj Path.Normal); [|exact H]. by intros ?? [= ->].
Qed.

Lemma valid_of_names k ns : valid (of_names k ns) <-> forallb Path.name_ok (k :: ns) = true.
Proof.
  split; [|by exists k, ns]. intros (k' & ns' & Hok & H). by apply of_names_inj in H as [-> ->].
Qed.

Lemma valid_snoc k ns n :
  valid (of_names k (ns ++ [n])) <-> valid (of_names k ns) /\ Path.name_ok n = true.
Proof.
  rewrite !valid_of_names. simpl. rewrite forallb_app. simpl.
  rewrite !andb_true_iff. naive_solver.
Qed.

(** A level-zero path has a key and nothing else. *)
Lemma level_zero_key k : parent (of_names k []) = None /\ parent_rel (of_names k []) = None /\
  final_name (of_names k []) = None /\ (forall b, matches_basedir (of_names k []) b = None).
Proof. done. Qed.

Lemma from_key k : Path.name_ok k = true -> from ("/" +:+ k) = Some (of_names k []).
Proof.
  intros Hk. unfold from, of_names. simpl map.
  assert (Hp : Path.parse ("/" +:+ k) = [Path.RootDir; Path.Normal k]).
  { apply (Path.parse_render_abs [Path.Normal k]). simpl. by rewrite Hk. }
  by rewrite Hp.
Qed.

Lemma matches_basedir_snoc k ns n b :
  matches_basedir (of_names k (ns ++ [n])) b = Some (bool_decide (of_names k ns = b)).
Proof.
  unfold matches_basedir. rewrite assert_level_snoc. cbn [mbind option_bind].
  rewrite of_names_snoc, Path.path_parent_snoc. cbn. f_equal. apply bool_decide_ext.
  destruct b as [b]. unfold of_names. cbn. naive_solver.
Qed.

Lemma valid_cases v :
  valid v -> (exists k, v = of_names k []) \/ (exists k ns n, v = of_names k (ns ++ [n]) /\ valid v).
Proof.
  intros (k & ns & Hok & ->). destruct ns as [|n ns _] using rev_ind; [left; by exists k|].
  right. exists k, ns, n. split; [done|]. by apply valid_of_names.
Qed.

(** ** Properties *)

(** A string deserializes into a virtual path exactly when its components
    are the root followed by one or more plain names (no [..], no [.]): the
    value is well formed and is the path of that string; every other string is
    rejected with an error, and no string makes the deserializer panic. *)
Theorem vpath_deserialize_iff s v :
  (deserialize s = Ok v <-> valid v /\ path v = Path.parse s) /\ deserialize s <> Panic.
Proof.
  unfold deserialize, check_path. pose proof (Path.parse_wf s) as Hwf. split; [split|].
  - destruct (Path.parse s) as [|[] p]; try done.
    destruct (check_rest 0 p) as [m|] eqn:E; [|done]. case_bool_decide; [|done]. intros [= <-].
    apply check_rest_some in E as [Hn ->]. apply normals_map in Hn as [ns ->].
    destruct ns as [|k ns]; [simpl in *; lia|]. split; [|done]. exists k, ns. split; [|done].
    change (forallb Path.inner_ok (map Path.Normal (k :: ns)) = true) in Hwf.
    by rewrite inner_normals in Hwf.
  - intros [(k & ns & Hok & ->) <-]. unfold of_names. cbn [path check_rest].
    rewrite check_rest_normals. rewrite bool_decide_eq_true_2 by lia. done.
  - destruct (Path.parse s) as [|[] p]; try done. destruct (check_rest 0 p); [|done].
    by case_bool_decide.
Qed.

(** The tree structure of virtual paths: for a well-formed path with at
    least one component below its key, [parent], [final_name], [parent_rel] and
    [level] do not panic, the parent is well formed, has the same key and a
    level one less, joining the final name to the parent gives the path back,
    and [matches_basedir] accepts the parent and no other directory. *)
Theorem vpath_parent_join k ns n v :
  v = of_names k (ns ++ [n]) -> valid v ->
  exists p, parent v = Some p /\ valid p /\ key p = key v /\ key v = Some k /\
    level v = Some (S (length ns)) /\ level p = Some (length ns) /\
    final_name v = Some n /\ join p (Path.parse n) = Some v /\
    parent_rel v = Path.strip_root (path p) /\
    (forall b, matches_basedir v b = Some (bool_decide (p = b))).
Proof.
  intros -> Hv. pose proof Hv as [Hp Hn]%valid_snoc. exists (of_names k ns).
  rewrite parent_snoc, !level_of_names, final_name_snoc, parent_rel_snoc, length_app.
  rewrite Path.parse_name by done.
  split_and!; try done; [f_equal; simpl; lia|by apply (join_names k ns [n])|].
  intros b. apply matches_basedir_snoc.
Qed.

Lemma vpath_parent_join_witness :
  valid (of_names "apps" ["web"; "v1"]) /\
  exists p, parent (of_names "apps" ["web"; "v1"]) = Some p /\ valid p.
Proof.
  assert (Hv : valid (of_names "apps" ["web"; "v1"])) by (apply valid_of_names; reflexivity).
  split; [exact Hv|].
  destruct (vpath_parent_join "apps" ["web"] "v1" _ eq_refl Hv) as (p & H1 & H2 & _).
  exists p. split; [exact H1|exact H2].
Defined.

(** [try_from] is laxer than the deserializer: it accepts a parent component. *)
Example try_from_dotdot :
  try_from "/../etc" = Ok (mk [Path.RootDir; Path.ParentDir; Path.Normal "etc"]) /\
  deserialize "/../etc" = Err PathErr.
Proof. split; reflexivity. Qed.

End VPath.
