(* ===== verification/Mask.v ===== *)
(** * Slice masks: [src/daemon/mask.rs]

    A mask is a [u16]: bit 15 says that the index is there, bits 0 to 14 that
    all blocks of a slice are.  Shifts by 16 or more are overflows; the model
    is of a build with overflow checks, where they panic. *)
From S2P Require Import Prelude.
Local Open Scope Z_scope.

(** [pub struct Mask(u16)]. *)
Record Mask := mk { bits : Z }.

#[export] Instance Mask_eq_dec : EqDecision Mask.
Proof. solve_decision. Defined.

(** The invariant of the type: a 16-bit value. *)
Definition mask_ok (m : Mask) : Prop := 0 <= bits m < u16_modulus.

(** [const INDEX_BIT: u16 = 1 << 15]. *)
Definition INDEX_BIT : Z := Z.shiftl 1 15.

(** [1u16 << idx as u32]. *)
Definition shl16 (idx : nat) : option Z :=
  if decide (idx < 16)%nat then Some (Z.shiftl 1 (Z.of_nat idx)) else None.

Definition full : Mask := mk 65535.
Definition index_bit : Mask := mk INDEX_BIT.
Definition slice_bit (idx : nat) : option Mask := mk <$> shl16 idx.
(** [self.0 &= !(1u16 << idx as u32)]. *)
Definition slice_unfetched (m : Mask) (idx : nat) : option Mask :=
  b ← shl16 idx; Some (mk (Z.land (bits m) (Z.lxor 65535 b))).
Definition is_superset_of (m other : Mask) : bool :=
  Z.land (bits m) (bits other) =? bits other.

(** [AtomicMask]: the operations are single atomic loads, stores and
    fetch-and-ors, so a state-passing function per operation. *)
Record AtomicMask := amk { cell : Z }.
Definition amask_new : AtomicMask := amk 0.
Definition amask_set (a : AtomicMask) (value : Mask) : AtomicMask := amk (bits value).
Definition amask_set_fetched (a : AtomicMask) (idx : nat) : option AtomicMask :=
  b ← shl16 idx; Some (amk (Z.lor (cell a) b)).
Definition amask_get (a : AtomicMask) : Mask := mk (cell a).

(** ** Bit-level lemmas *)

Definition has (m : Mask) (i : nat) : bool := Z.testbit (bits m) (Z.of_nat i).

Lemma shl16_testbit idx b :
  shl16 idx = Some b -> (idx < 16)%nat /\ forall i : nat, Z.testbit b (Z.of_nat i) = bool_decide (i = idx).
Proof.
  unfold shl16. case_decide as H; [|done]. intros [= <-]. split; [done|]. intros i.
  rewrite Z.shiftl_spec by lia. case_bool_decide as Hi.
  - subst. by rewrite Z.sub_diag.
  - destruct (Z.ltb_spec (Z.of_nat i - Z.of_nat idx) 0); [by rewrite Z.testbit_neg_r|].
    rewrite Z.bits_above_log2; [done|lia|simpl; lia].
Qed.

Lemma shl16_some idx : (idx < 16)%nat -> shl16 idx = Some (2 ^ Z.of_nat idx).
Proof. intros H. unfold shl16. rewrite decide_True by done. by rewrite Z.shiftl_1_l. Qed.

Lemma testbit_65535 (i : nat) : Z.testbit 65535 (Z.of_nat i) = bool_decide (i < 16)%nat.
Proof.
  change 65535 with (Z.ones 16). case_bool_decide.
  - apply Z.ones_spec_low. lia.
  - apply Z.ones_spec_high. lia.
Qed.

Lemma mask_ok_iff m : mask_ok m <-> 0 <= bits m /\ forall i : nat, (16 <= i)%nat -> has m i = false.
Proof.
  unfold mask_ok, has. change u16_modulus with (2 ^ 16). split.
  - intros [H1 H2]. split; [done|]. intros i Hi.
    destruct (decide (bits m = 0)) as [->|]; [apply Z.testbit_0_l|].
    apply Z.bits_above_log2; [done|]. apply Z.log2_lt_pow2 in H2; lia.
  - intros [H1 H2]. split; [done|].
    destruct (decide (bits m = 0)) as [->|Hz]; [lia|]. apply Z.log2_lt_pow2; [lia|].
    destruct (Z.ltb_spec (Z.log2 (bits m)) 16); [done|]. exfalso.
    specialize (H2 (Z.to_nat (Z.log2 (bits m)))).
    rewrite Z2Nat.id, Z.bit_log2 in H2 by lia. discriminate H2. lia.
Qed.

Lemma mask_ext (m1 m2 : Mask) :
  0 <= bits m1 -> 0 <= bits m2 -> (forall i, has m1 i = has m2 i) -> m1 = m2.
Proof.
  destruct m1 as [a], m2 as [b]. unfold has. simpl. intros Ha Hb H. f_equal.
  apply Z.bits_inj'. intros n Hn. specialize (H (Z.to_nat n)). by rewrite Z2Nat.id in H.
Qed.

Lemma superset_iff m o :
  mask_ok o -> is_superset_of m o = true <-> (forall i, has o i = true -> has m i = true).
Proof.
  intros [Ho _]. unfold is_superset_of. rewrite Z.eqb_eq. split.
  - intros H i. unfold has. rewrite <- H, Z.land_spec. by destruct (Z.testbit (bits m) _).
  - intros H. apply Z.bits_inj'. intros n Hn. specialize (H (Z.to_nat n)). unfold has in H.
    rewrite Z2Nat.id in H by done. rewrite Z.land_spec.
    destruct (Z.testbit (bits o) n); [by rewrite H|by rewrite andb_false_r].
Qed.

Lemma has_full i : has full i = bool_decide (i < 16)%nat.
Proof. apply testbit_65535. Qed.

Lemma has_index_bit i : has index_bit i = bool_decide (i = 15)%nat.
Proof. unfold has. by apply (shl16_testbit 15). Qed.

Lemma full_ok : mask_ok full.
Proof. done. Qed.

Lemma unfetched_spec m idx m' :
  mask_ok m -> slice_unfetched m idx = Some m' ->
  mask_ok m' /\ forall i, has m' i = has m i && negb (bool_decide (i = idx)).
Proof.
  intros Hm. unfold slice_unfetched. destruct (shl16 idx) as [b|] eqn:Hb; [|done]. simpl.
  apply shl16_testbit in Hb as [Hidx Hb]. intros [= <-].
  assert (Hhas : forall i, has (mk (Z.land (bits m) (Z.lxor 65535 b))) i =
                      has m i && negb (bool_decide (i = idx))).
  { intros i. unfold has. simpl. rewrite Z.land_spec, Z.lxor_spec, testbit_65535, Hb.
    apply mask_ok_iff in Hm as [_ Hm]. unfold has in Hm.
    case_bool_decide as H16; [done|]. rewrite Hm by lia. done. }
  split; [|done]. apply mask_ok_iff. split; [apply Z.land_nonneg; left; apply Hm|].
  intros i Hi. rewrite Hhas. apply mask_ok_iff in Hm as [_ Hm]. by rewrite Hm.
Qed.

Lemma unfetched_total m idx : (idx < 16)%nat -> is_Some (slice_unfetched m idx).
Proof. intros H. unfold slice_unfetched. rewrite shl16_some by done. by eexists. Qed.

Lemma fetched_spec a idx a' :
  mask_ok (amask_get a) -> amask_set_fetched a idx = Some a' ->
  mask_ok (amask_get a') /\
  forall i, has (amask_get a') i = has (amask_get a) i || bool_decide (i = idx).
Proof.
  intros Hm. unfold amask_set_fetched. destruct (shl16 idx) as [b|] eqn:Hb; [|done]. simpl.
  pose proof Hb as Hb'. apply shl16_testbit in Hb as [Hidx Hb]. intros [= <-].
  assert (Hhas : forall i, has (amask_get (amk (Z.lor (cell a) b))) i =
                      has (amask_get a) i || bool_decide (i = idx)).
  { intros i. unfold has. simpl. by rewrite Z.lor_spec, Hb. }
  split; [|done]. apply mask_ok_iff. split.
  - simpl. apply Z.lor_nonneg. split; [apply Hm|]. rewrite shl16_some in Hb' by done.
    injection Hb' as <-. lia.
  - intros i Hi. rewrite Hhas. apply mask_ok_iff in Hm as [_ Hm]. rewrite Hm by done.
    rewrite bool_decide_eq_false_2 by lia. done.
Qed.

(** C40. A mask is the set of the slices a host has.  [is_superset_of] decides
    inclusion of bit sets; [slice_bit] is a singleton that exists for every
    shift below 16 and panics above; [slice_unfetched] removes and
    [set_fetched] adds exactly one bit, keep the value a [u16], and the second
    undoes the first. *)
Theorem mask_set_semantics (m : Mask) (idx : nat) :
  mask_ok m ->
  (forall b, slice_bit idx = Some b ->
     mask_ok b /\ (is_superset_of m b = has m idx) /\ (forall i, has b i = bool_decide (i = idx))) /\
  (slice_bit idx = None <-> (16 <= idx)%nat) /\
  (forall o, mask_ok o -> is_superset_of m o = true <-> (forall i, has o i = true -> has m i = true)) /\
  (forall m', slice_unfetched m idx = Some m' ->
     mask_ok m' /\ has m' idx = false /\ (forall i, i <> idx -> has m' i = has m i) /\
     (has m idx = true -> amask_get <$> amask_set_fetched (amk (bits m')) idx = Some m)).
Proof.
  intros Hm. split_and!.
  - intros b Hb. unfold slice_bit in Hb. destruct (shl16 idx) as [z|] eqn:Hz; [|done].
    injection Hb as <-. pose proof Hz as Hz'. apply shl16_testbit in Hz as [Hi Hz].
    assert (Hok : mask_ok (mk z)).
    { apply mask_ok_iff. split; [rewrite shl16_some in Hz' by done; injection Hz' as <-; simpl; lia|].
      intros i H16. unfold has. simpl. rewrite Hz. rewrite bool_decide_eq_false_2; [done|lia]. }
    split_and!; [done| |by intros i; apply Hz]. apply Bool.eq_iff_eq_true.
    rewrite superset_iff by done. unfold has at 1. simpl. setoid_rewrite Hz.
    setoid_rewrite bool_decide_eq_true. naive_solver.
  - unfold slice_bit, shl16. case_decide; simpl; split; intros; try done; lia.
  - intros o Ho. by apply superset_iff.
  - intros m' H. pose proof H as [Hok Hb]%unfetched_spec; [|done].
    split_and!; [done| |intros i Hi|intros Hh].
    + rewrite Hb, bool_decide_eq_true_2 by done. by rewrite andb_false_r.
    + rewrite Hb, bool_decide_eq_false_2 by done. by rewrite andb_true_r.
    + unfold slice_unfetched in H. destruct (shl16 idx) as [z|] eqn:Hz; [|done].
      unfold amask_set_fetched. rewrite Hz. simpl. f_equal.
      destruct (fetched_spec (amk (bits m')) idx (amk (Z.lor (bits m') z))) as [Hok2 Hb2];
        [done|unfold amask_set_fetched; by rewrite Hz|].
      apply mask_ext; [apply Hok2|apply Hm|]. intros i. change (mk (Z.lor (bits m') z)) with (amask_get (amk (Z.lor (bits m') z))).
      rewrite Hb2. change (amask_get (amk (bits m'))) with (mk (bits m')).
      replace (mk (bits m')) with m' by (by destruct m'). rewrite Hb.
      case_bool_decide; subst; [by rewrite Hh|by rewrite andb_true_r, orb_false_r].
Qed.

Lemma mask_set_semantics_witness :
  mask_ok full /\ slice_bit 16 = None /\
  exists m', slice_unfetched full 3 = Some m' /\ has m' 3 = false.
Proof.
  assert (H : mask_ok full) by (split; vm_compute; congruence).
  split; [exact H|]. split.
  - apply (mask_set_semantics full 16 H). lia.
  - exists (mk 65527). split; [reflexivity|].
    apply (mask_set_semantics full 3 H). reflexivity.
Defined.
