(* ===== verification/Ids.v ===== *)
(** * Identifiers: [src/id.rs], [src/machine_id.rs], [src/block_id.rs],
    [src/proto/hash.rs] and [src/hexlify.rs]

    Fixed-size arrays are byte lists whose length the constructors check; the
    [hex] crate and the BLAKE2 digest are parameters. *)
From S2P Require Import Prelude Serde.

(** [[u8; n]::copy_from_slice]: panics unless the lengths agree. *)
Definition copy_from_slice {E} (n : nat) (src : bytes) : Res E bytes :=
  if decide (length src = n) then Ok src else Panic.

Module ImageId.

(** [enum Internal]. *)
Inductive Internal := B32 (ar : bytes) | Other (slc : bytes).
Record ImageId := mk { inner : Internal }.
Inductive ParseError := BadHex.

#[global] Instance Internal_eq_dec : EqDecision Internal.
Proof. solve_decision. Defined.
#[global] Instance ImageId_eq_dec : EqDecision ImageId.
Proof. solve_decision. Defined.
#[global] Instance ImageId_countable : Countable ImageId.
Proof.
  apply (inj_countable'
    (fun i => match inner i with B32 b => inl b | Other b => inr b end)
    (fun s => match s with inl b => mk (B32 b) | inr b => mk (Other b) end)).
  by intros [[]].
Defined.

(** [From<&[u8]>] and [From<Vec<u8>>]; the copy cannot panic after the test. *)
Definition from_slice (value : bytes) : ImageId :=
  if decide (length value = 32) then mk (B32 value) else mk (Other value).
Definition from_vec (value : bytes) : ImageId :=
  if decide (length value = 32) then mk (B32 value) else mk (Other value).

(** [AsRef<[u8]>]. *)
Definition as_ref (i : ImageId) : bytes :=
  match inner i with B32 ar => ar | Other slc => slc end.

Section Hex.
Context `{HexCodec}.

(** [FromHex for [u8; 32]] fails unless it decodes exactly 32 bytes. *)
Definition from_hex32 (s : string) : option bytes :=
  b ← from_hex s; if decide (length b = 32) then Some b else None.

Definition from_str (value : string) : Res ParseError ImageId :=
  if decide (String.length value = 64) then
    match from_hex32 value with Some ar => Ok (mk (B32 ar)) | None => Err BadHex end
  else
    match from_hex value with Some v => Ok (mk (Other v)) | None => Err BadHex end.

(** [Display]; [Debug] adds a frame around it. *)
Definition display (i : ImageId) : string :=
  match inner i with B32 ar => to_hex ar | Other slc => to_hex slc end.
Definition debug (i : ImageId) : string :=
  "ImageId(" +:+ match inner i with B32 ar => to_hex ar | Other slc => to_hex slc end +:+ ")".

Definition serialize (human_readable : bool) (i : ImageId) : Value :=
  if human_readable then VStr (display i)
  else match inner i with B32 ar => VBytes ar | Other slc => VBytes slc end.
End Hex.

(** [ImageIdVisitor]. *)
Definition visitor : Visitor ImageId := {|
  visit_bytes value :=
    if decide (length value = 32) then Ok (mk (B32 value)) else Ok (mk (Other value));
  visit_str := no_visit;
  visit_seq := no_visit
|}.
Definition deserialize (v : Value) : DeRes ImageId := drive visitor v.

(** Every [ImageId] the program builds is canonical: a 32-byte value is never
    stored as [Other], so derived equality and hashing agree with the bytes. *)
Definition canonical (i : ImageId) : Prop :=
  match inner i with B32 ar => length ar = 32 | Other slc => length slc <> 32 end.

Lemma from_slice_canonical b : canonical (from_slice b) /\ as_ref (from_slice b) = b.
Proof. unfold from_slice. by case_decide. Qed.

Lemma canonical_from_slice i : canonical i -> from_slice (as_ref i) = i.
Proof. destruct i as [[b|b]]; unfold canonical, from_slice; simpl; intros; by case_decide. Qed.

Lemma as_ref_inj i j : canonical i -> canonical j -> as_ref i = as_ref j -> i = j.
Proof. intros Hi Hj H. rewrite <- (canonical_from_slice i), <- (canonical_from_slice j), H by done. done. Qed.

End ImageId.

Module MachineId.

(** [pub struct MachineId([u8; 16])]. *)
Record MachineId := mk { arr : bytes }.
#[global] Instance MachineId_eq_dec : EqDecision MachineId.
Proof. solve_decision. Defined.
#[global] Instance MachineId_countable : Countable MachineId.
Proof. apply (inj_countable' arr mk). by intros []. Defined.

(** Derived [Ord]. *)
Definition leb (a b : MachineId) : bool := bytes_leb (arr a) (arr b).
Definition ltb (a b : MachineId) : bool := negb (leb b a).

Inductive Error := WrongLength | InvalidHex.

Section Hex.
Context `{HexCodec}.

(** [MachineId::read], given the contents of [/etc/machine-id]. *)
Definition read (buf : string) : Res Error MachineId :=
  let n := String.length buf in
  if negb (bool_decide (n = 32)) && negb (bool_decide (n = 33)) then Err WrongLength
  else match from_hex (String.substring 0 32 buf) with
       | None => Err InvalidHex
       | Some vec => res_map mk (copy_from_slice 16 vec)
       end.

Definition from_str (hash : string) : Res Error MachineId :=
  if negb (bool_decide (String.length hash = 32)) then Err WrongLength
  else match from_hex hash with
       | None => Err InvalidHex
       | Some vec => res_map mk (copy_from_slice 16 vec)
       end.

Definition display (m : MachineId) : string := to_hex (arr m).
Definition debug (m : MachineId) : string := "MachineId(" +:+ to_hex (arr m) +:+ ")".

(** [IdVisitor]. *)
Definition visitor : Visitor MachineId := {|
  visit_bytes value :=
    if decide (length value = 16) then Ok (mk value) else Err (InvalidLength (length value));
  visit_str value :=
    if decide (String.length value = 32) then
      match from_hex value with
      | None => Err InvalidValue
      | Some vec => res_map mk (copy_from_slice 16 vec)
      end
    else Err (InvalidLength (String.length value));
  visit_seq := no_visit
|}.
Definition deserialize (v : Value) : DeRes MachineId := drive visitor v.
Definition serialize (human_readable : bool) (m : MachineId) : Value :=
  if human_readable then VStr (display m) else VBytes (arr m).
End Hex.

Definition ok (m : MachineId) : Prop := length (arr m) = 16.

End MachineId.

Module BlockHash.

(** [pub struct BlockHash([u8; 32])]. *)
Record BlockHash := mk { arr : bytes }.
#[global] Instance BlockHash_eq_dec : EqDecision BlockHash.
Proof. solve_decision. Defined.
#[global] Instance BlockHash_countable : Countable BlockHash.
Proof. apply (inj_countable' arr mk). by intros []. Defined.

Definition from_bytes (b : bytes) : option BlockHash :=
  if decide (length b = 32) then Some (mk b) else None.

(** [hash_bytes], given the digest (BLAKE2b with 32 bytes of output). *)
Definition hash_bytes (blake2b_256 : bytes -> bytes) (b : bytes) : BlockHash :=
  mk (blake2b_256 b).

Definition visitor : Visitor BlockHash := {|
  visit_bytes value :=
    if decide (length value = 32) then Ok (mk value) else Err (InvalidLength (length value));
  visit_str := no_visit;
  visit_seq := no_visit
|}.
Definition deserialize (v : Value) : DeRes BlockHash := drive visitor v.
Definition serialize (h : BlockHash) : Value := VBytes (arr h).
Definition display `{HexCodec} (h : BlockHash) : string := to_hex (arr h).
Definition debug `{HexCodec} (h : BlockHash) : string := "BlockHash(" +:+ to_hex (arr h) +:+ ")".

Definition ok (h : BlockHash) : Prop := length (arr h) = 32.

End BlockHash.

Module Hash.

(** [pub struct Hash([u8; 32])] of [proto/hash.rs]. *)
Record Hash := mk { arr : bytes }.
#[global] Instance Hash_eq_dec : EqDecision Hash.
Proof. solve_decision. Defined.
#[global] Instance Hash_countable : Countable Hash.
Proof. apply (inj_countable' arr mk). by intros []. Defined.

(** [Hash::new] asserts the length. *)
Definition new (hash : bytes) : option Hash :=
  if decide (length hash = 32) then Some (mk hash) else None.

Section Digest.
(** The digest and the CBOR encoding of a value. *)
Context (blake2b_256 : bytes -> bytes) (cbor : Value -> bytes).
Definition for_bytes (b : bytes) : Hash := mk (blake2b_256 b).
Definition for_object {A} `{Wire A} (obj : A) : Hash := mk (blake2b_256 (cbor (to_value obj))).
End Digest.

Section Hex.
Context `{HexCodec}.
Definition display (h : Hash) : string := to_hex (arr h).
Definition debug (h : Hash) : string := "Hash(" +:+ to_hex (arr h) +:+ ")".
Definition visitor : Visitor Hash := {|
  visit_bytes value :=
    if decide (length value = 32) then Ok (mk value) else Err (InvalidLength (length value));
  visit_str value :=
    if decide (String.length value = 64) then
      match from_hex value with
      | None => Err InvalidValue
      | Some vec => res_map mk (copy_from_slice 32 vec)
      end
    else Err (InvalidLength (String.length value));
  visit_seq := no_visit
|}.
Definition deserialize (v : Value) : DeRes Hash := drive visitor v.
Definition serialize (human_readable : bool) (h : Hash) : Value :=
  if human_readable then VStr (display h) else VBytes (arr h).
End Hex.

Definition ok (h : Hash) : Prop := length (arr h) = 32.

End Hash.

(** ** Properties *)

Section FixedSize.
Context `{HexLaws}.

Lemma hex_slice {E} n s v :
  from_hex s = Some v -> String.length s = 2 * n ->
  copy_from_slice (E := E) n v = Ok v /\ length v = n.
Proof.
  intros Hv Hs. apply from_hex_length in Hv. unfold copy_from_slice.
  rewrite decide_True by lia. split; [done|lia].
Qed.

Lemma hex_slice_to {E} n b :
  length b = n -> copy_from_slice (E := E) n b = Ok b /\ String.length (to_hex b) = 2 * n.
Proof. intros <-. rewrite to_hex_length. unfold copy_from_slice. by rewrite decide_True. Qed.

Lemma from_str_display i : ImageId.canonical i -> ImageId.from_str (ImageId.display i) = Ok i.
Proof.
  destruct i as [[b|b]]; unfold ImageId.canonical, ImageId.from_str, ImageId.from_hex32; cbn; intros Hb;
    rewrite to_hex_length, from_to_hex; cbn.
  - by rewrite Hb, !decide_True by lia.
  - by rewrite !decide_False by lia.
Qed.

Lemma substring_full s n : String.length s = n -> String.substring 0 n s = s.
Proof. intros <-. by induction s as [|c s IH]; simpl; [|rewrite IH]. Qed.
End FixedSize.

(** Image identifiers: however one is built (from bytes, from hexadecimal
    text or off the wire) it is canonical, so two are equal exactly when their
    bytes are; printing and parsing, and writing and reading in the binary
    format, give the identifier back; and parsing accepts exactly the
    hexadecimal strings and never panics. *)
Theorem image_id_canonical_roundtrip `{HexLaws} :
  (forall b, ImageId.canonical (ImageId.from_slice b) /\
             ImageId.as_ref (ImageId.from_slice b) = b /\
             ImageId.from_vec b = ImageId.from_slice b) /\
  (forall i, ImageId.canonical i ->
     ImageId.from_str (ImageId.display i) = Ok i /\
     ImageId.deserialize (ImageId.serialize false i) = Ok i) /\
  (forall s i, ImageId.from_str s = Ok i -> ImageId.canonical i /\ from_hex s = Some (ImageId.as_ref i)) /\
  (forall s, ImageId.from_str s = Err ImageId.BadHex <-> from_hex s = None) /\
  (forall v i, ImageId.deserialize v = Ok i -> ImageId.canonical i) /\
  (forall i j, ImageId.canonical i -> ImageId.canonical j ->
     i = j <-> ImageId.as_ref i = ImageId.as_ref j).
Proof.
  split_and!.
  - intros b. pose proof (ImageId.from_slice_canonical b) as [? ?]. done.
  - intros i Hi. split; [by apply from_str_display|]. destruct i as [[b|b]]; cbn in *.
    + unfold ImageId.deserialize, drive. cbn. by rewrite decide_True.
    + unfold ImageId.deserialize, drive. cbn. by rewrite decide_False.
  - intros s i. unfold ImageId.from_str, ImageId.from_hex32.
    destruct (from_hex s) as [b|] eqn:E; cbn; case_decide as Hs; try done.
    + case_decide; [|done]. intros [= <-]. done.
    + intros [= <-]. unfold ImageId.canonical. cbn. apply from_hex_length in E. split; [lia|done].
  - intros s. unfold ImageId.from_str, ImageId.from_hex32.
    destruct (from_hex s) as [b|] eqn:E; cbn; case_decide as Hs; try done.
    apply from_hex_length in E. rewrite decide_True by lia. done.
  - intros v i. unfold ImageId.deserialize, drive. destruct v; cbn; try done.
    case_decide; intros [= <-]; done.
  - intros i j Hi Hj. split; [by intros ->|by apply ImageId.as_ref_inj].
Qed.

Lemma image_id_canonical_roundtrip_witness :
  exists i, ImageId.canonical i /\ ImageId.from_str (ImageId.display i) = Ok i.
Proof.
  exists (ImageId.from_slice [Byte.x0a; Byte.xff]). split; [vm_compute; discriminate|].
  apply (proj1 (proj2 (@image_id_canonical_roundtrip _ HexCodecImpl.codec_laws))).
  vm_compute. discriminate.
Defined.

(** Machine identifiers, block hashes and object hashes have exactly their
    fixed size: whatever text or value is read, the result has that size or is
    an error, and the array copies never panic; writing and reading gives the
    value back in the binary format, and in the text format where there is one. *)
Theorem fixed_ids_roundtrip `{HexLaws} :
  (forall m, MachineId.ok m -> forall hr,
     MachineId.deserialize (MachineId.serialize hr m) = Ok m /\
     MachineId.from_str (MachineId.display m) = Ok m /\
     MachineId.read (MachineId.display m) = Ok m) /\
  (forall v, match MachineId.deserialize v with Ok m => MachineId.ok m | Err _ => True | Panic => False end) /\
  (forall s, match MachineId.from_str s with Ok m => MachineId.ok m | Err _ => True | Panic => False end) /\
  (forall h, Hash.ok h -> forall hr, Hash.deserialize (Hash.serialize hr h) = Ok h) /\
  (forall v, match Hash.deserialize v with Ok h => Hash.ok h | Err _ => True | Panic => False end) /\
  (forall h, BlockHash.ok h ->
     BlockHash.deserialize (BlockHash.serialize h) = Ok h /\
     BlockHash.from_bytes (BlockHash.arr h) = Some h) /\
  (forall v, match BlockHash.deserialize v with Ok h => BlockHash.ok h | Err _ => True | Panic => False end).
Proof.
  unfold MachineId.deserialize, Hash.deserialize, BlockHash.deserialize, MachineId.from_str,
    MachineId.read, MachineId.ok, Hash.ok, BlockHash.ok.
  split_and!.
  - intros [b]. cbn [MachineId.arr]. intros Hb hr.
    destruct (hex_slice_to (E := MachineId.Error) 16 b Hb) as [Hc Hl].
    destruct (hex_slice_to (E := DeError) 16 b Hb) as [Hc' _].
    unfold MachineId.display. cbn [MachineId.arr]. rewrite Hl, substring_full, from_to_hex, Hc by done.
    destruct hr; cbn; [|by rewrite decide_True].
    unfold MachineId.display. cbn. by rewrite Hl, from_to_hex, Hc'.
  - intros []; cbn; try done; case_decide as Hl; try done.
    destruct (from_hex s) as [v|] eqn:E; [|done].
    destruct (hex_slice (E := DeError) 16 _ _ E Hl) as [-> ?]. done.
  - intros s. case_bool_decide as Hl; cbn; [|done]. destruct (from_hex s) as [v|] eqn:E; [|done].
    destruct (hex_slice (E := MachineId.Error) 16 _ _ E Hl) as [-> ?]. done.
  - intros [b]. cbn [Hash.arr]. intros Hb hr.
    destruct (hex_slice_to (E := DeError) 32 b Hb) as [Hc Hl].
    destruct hr; cbn; [|by rewrite decide_True].
    unfold Hash.display. cbn. by rewrite Hl, from_to_hex, Hc.
  - intros []; cbn; try done; case_decide as Hl; try done.
    destruct (from_hex s) as [v|] eqn:E; [|done].
    destruct (hex_slice (E := DeError) 32 _ _ E Hl) as [-> ?]. done.
  - intros [b]. cbn. unfold BlockHash.from_bytes. intros Hb. by rewrite !decide_True.
  - intros []; cbn; try done; by case_decide.
Qed.

Lemma fixed_ids_roundtrip_witness :
  exists m, MachineId.ok m /\ MachineId.from_str (MachineId.display m) = Ok m.
Proof.
  exists (MachineId.mk (repeat Byte.x5a 16)). split; [reflexivity|].
  apply (proj1 (@fixed_ids_roundtrip _ HexCodecImpl.codec_laws)); [reflexivity|exact true].
Defined.
