(* ===== verification/Index.v ===== *)
(** * Parsed indexes: [src/daemon/index_cache.rs]

    The index of an image lists its directories, links and files with the
    hashes of their blocks.  Its text is parsed by the [dir_signature] crate, a
    parameter here; [Entry] is the data of that crate the source matches on. *)
From S2P Require Import Prelude Serde VirtualPath Ids.
Import ImageId.
Local Open Scope Z_scope.

(** ** [dir_signature::v1] *)

(** [Entry]; [hashes] is what [Hashes::iter] goes through. *)
Inductive Entry :=
| Dir (path : Path.t)
| Link (path dest : Path.t)
| File (path : Path.t) (exe : bool) (size : Z) (hashes : list bytes).

Inductive HashType := Sha512_256 | Blake2b_256.

Record Header := { hd_hash_type : HashType; hd_block_size : Z }.

(** [Parser::new] reads the header; the iterator gives entries or errors. *)
Class IndexParser := {
  ParseError : Type;
  parser_new : bytes -> Res ParseError (Header * list (Res ParseError Entry))
}.

(** ** [IndexData] *)

Record IndexData := {
  ix_id : ImageId;
  hash_type : HashType;
  block_size : Z;
  entries : list Entry;
  bytes_total : Z;
  blocks_total : Z
}.

(** [u64] arithmetic of a build with overflow checks. *)
Definition checked64 (z : Z) : option Z := if decide (0 <= z < u64_modulus) then Some z else None.

Definition entry_bytes (e : Entry) : Z :=
  match e with File _ _ size _ => size | _ => 0 end.

(** [(size + block_size - 1) / block_size]. *)
Definition entry_blocks (e : Entry) (block_size : Z) : option Z :=
  match e with
  | File _ _ size _ =>
      a ← checked64 (size + block_size); b ← checked64 (a - 1);
      if decide (block_size = 0) then None else Some (b / block_size)
  | _ => Some 0
  end.

(** [Iterator::sum]. *)
Fixpoint sum64 (acc : Z) (l : list (option Z)) : option Z :=
  match l with
  | [] => Some acc
  | x :: l' => v ← x; acc' ← checked64 (acc + v); sum64 acc' l'
  end.

(** [collect::<Result<Vec<_>, _>>()]. *)
Fixpoint collect_results {E A} (l : list (Res E A)) : Res E (list A) :=
  match l with
  | [] => Ok []
  | r :: l' => res_bind (fun x => res_map (cons x) (collect_results l')) r
  end.

Definition parse `{IndexParser} (id : ImageId) (f : bytes) : Res ParseError IndexData :=
  (parsed <-? parser_new f;;
   let header := fst parsed in
   items <-? collect_results (snd parsed);;
   bytes_sum <-? expect (sum64 0 (map (fun e => Some (entry_bytes e)) items));;
   blocks_sum <-? expect (sum64 0 (map (fun e => entry_blocks e (hd_block_size header)) items));;
   Ok {| ix_id := id; hash_type := hd_hash_type header; block_size := hd_block_size header;
         entries := items; bytes_total := bytes_sum; blocks_total := blocks_sum |})%res.

(** ** What a parsed index says *)

Lemma sum64_spec l acc s : 0 <= acc -> sum64 acc l = Some s ->
  exists vs, mapM (fun o : option Z => o) l = Some vs /\ s = acc + foldr Z.add 0 vs.
Proof.
  revert acc. induction l as [|x l IH]; intros acc Ha; simpl.
  - intros [= <-]. exists []. split; [done|simpl; lia].
  - destruct x as [v|]; [|done]. simpl. unfold checked64. case_decide; [|done]. simpl. intros H1.
    destruct (IH (acc + v)) as (vs & Hm & ->); [lia|done|]. exists (v :: vs). rewrite Hm. split; [done|simpl; lia].
Qed.

(** The number of blocks of a file is its size divided by the size of a
    block, rounded up. *)
Lemma entry_blocks_ceil e bs n : 0 < bs -> entry_blocks e bs = Some n ->
  0 <= entry_bytes e -> (n - 1) * bs < Z.max 1 (entry_bytes e) /\ entry_bytes e <= n * bs.
Proof.
  intros Hbs. destruct e as [| |p x size hs]; simpl; [intros [= <-]; lia..|].
  destruct (decide (bs = 0)) as [|_]; [lia|]. unfold checked64.
  case_decide; simpl; [|done]. case_decide; simpl; [|done]. intros [= <-] Hs. pose proof (Z.div_mod (size + bs - 1) bs). pose proof (Z.mod_pos_bound (size + bs - 1) bs). nia.
Qed.

(** ** The order of an index *)

Definition plain_path (p : Path.t) : Prop :=
  exists ns, p = Path.RootDir :: map Path.Normal ns /\ Forall (fun n => Path.name_ok n = true) ns.
(** A path in the directory the index is at. *)
Definition entry_in (dir : option Path.t) (path : Path.t) : Prop :=
  exists d f, dir = Some d /\ Path.parent path = Some d /\ Path.file_name path = Some f /\ Path.name_ok f = true.

(** The order [dir_signature] promises: a directory, then what is in it. *)
Fixpoint ordered (dir : option Path.t) (entries : list Entry) : Prop :=
  match entries with
  | [] => True
  | Dir path :: es => plain_path path /\ ordered (Some path) es
  | File path _ _ _ :: es | Link path _ :: es => entry_in dir path /\ ordered dir es
  end.
