(* ===== verification/Fs.v ===== *)
(** * The file system the daemon works on: the [openat] crate as an interface

    [openat::Dir] is third-party code: its operations are the class [OpenAt],
    over an abstract state of the file system.  What the daemon relies on is
    [OpenAtLaws], in terms of what the state means: which directory a handle
    is ([path_of]) and which files there are ([contents]).  Every operation may
    fail; the laws say what a failure leaves.  [MemFs] is an instance in
    memory, with a limit on the size of a file so that writes can fail. *)
From S2P Require Import Prelude Serde VirtualPath.

(** ** [std::io] *)

Inductive IoKind := NotFound | AlreadyExists | OtherKind (n : nat).
Record IoError := { io_kind : IoKind; io_msg : string }.
#[export] Instance IoKind_eq_dec : EqDecision IoKind.
Proof. solve_decision. Defined.

(** A file open for reading: its bytes, then the error that ends it if any. *)
Record File := { file_data : bytes; file_error : option IoError }.

(** ** [openat] *)

Inductive SimpleType := TSymlink | TDir | TFile | TOther.
#[export] Instance SimpleType_eq_dec : EqDecision SimpleType.
Proof. solve_decision. Defined.
(** [Metadata]: the type and [st_mtime], in seconds. *)
Record Metadata := { meta_type : SimpleType; st_mtime : Z }.
(** [Entry]: the name when it is UTF-8, and the type when it is known. *)
Record Entry := { entry_name : option string; entry_type : option SimpleType }.

Class OpenAt (W : Type) := {
  handle : Type;
  oa_open : Path.t -> ST W IoError handle;
  oa_sub_dir : handle -> string -> ST W IoError handle;
  oa_create_dir : handle -> string -> ST W IoError ();
  oa_open_file : handle -> string -> ST W IoError File;
  (** [write_file]: the file is created or truncated. *)
  oa_write_file : handle -> string -> ST W IoError ();
  (** [Write::write_all] on the file just opened for writing. *)
  oa_write_all : handle -> string -> bytes -> ST W IoError ();
  oa_local_rename : handle -> string -> string -> ST W IoError ();
  oa_remove_file : handle -> string -> ST W IoError ();
  oa_metadata : handle -> string -> ST W IoError Metadata;
  oa_list_dir : handle -> ST W IoError (list (Res IoError Entry));
  oa_recover_path : handle -> W -> Res IoError Path.t
}.

(** The key of a file: its directory and its name. *)
Abbreviation FileKey := (list string * string)%type.

Class OpenAtLaws (W : Type) `{OpenAt W} := {
  path_of : handle -> list string;
  contents : W -> gmap FileKey bytes;
  open_law : forall p w r w', oa_open p w = (r, w') -> contents w' = contents w;
  sub_dir_law : forall h n w r w', oa_sub_dir h n w = (r, w') ->
    contents w' = contents w /\ (forall h', r = Ok h' -> path_of h' = path_of h ++ [n]) /\
    (forall e, r = Err e -> io_kind e = NotFound ->
       forall rest f, contents w !! (path_of h ++ n :: rest, f) = None);
  create_dir_law : forall h n w r w', oa_create_dir h n w = (r, w') -> contents w' = contents w;
  open_file_law : forall h n w r w', oa_open_file h n w = (r, w') ->
    contents w' = contents w /\
    (forall f, r = Ok f -> file_error f = None -> contents w !! (path_of h, n) = Some (file_data f)) /\
    (forall e, r = Err e -> io_kind e = NotFound -> contents w !! (path_of h, n) = None);
  write_file_law : forall h n w r w', oa_write_file h n w = (r, w') ->
    match r with
    | Ok _ => contents w' = <[(path_of h, n) := []]> (contents w)
    | _ => contents w' = contents w
    end;
  write_all_law : forall h n b w r w' old, oa_write_all h n b w = (r, w') ->
    contents w !! (path_of h, n) = Some old ->
    exists written, written `prefix_of` b /\ (r = Ok () -> written = b) /\
      contents w' = <[(path_of h, n) := old ++ written]> (contents w);
  rename_law : forall h a b w r w', oa_local_rename h a b w = (r, w') ->
    match r with
    | Ok _ => exists c, contents w !! (path_of h, a) = Some c /\
                contents w' = <[(path_of h, b) := c]> (delete (path_of h, a) (contents w))
    | _ => contents w' = contents w
    end;
  remove_law : forall h n w r w', oa_remove_file h n w = (r, w') ->
    match r with
    | Ok _ => contents w' = delete (path_of h, n) (contents w)
    | Err e => contents w' = contents w /\ (io_kind e = NotFound -> contents w !! (path_of h, n) = None)
    | Panic => False
    end;
  metadata_law : forall h n w r w', oa_metadata h n w = (r, w') ->
    contents w' = contents w /\
    (forall m, r = Ok m -> is_Some (contents w !! (path_of h, n)) -> meta_type m = TFile) /\
    (forall m rest f, r = Ok m -> is_Some (contents w !! (path_of h ++ n :: rest, f)) -> meta_type m = TDir) /\
    (forall e, r = Err e -> io_kind e = NotFound -> contents w !! (path_of h, n) = None);
  list_dir_law : forall h w r w', oa_list_dir h w = (r, w') ->
    contents w' = contents w /\
    (forall es n, r = Ok es -> is_Some (contents w !! (path_of h, n)) ->
       (exists e, Err e ∈ es) \/
       exists e, Ok e ∈ es /\ entry_name e = Some n /\ (entry_type e = Some TFile \/ entry_type e = None)) /\
    (forall es n rest f, r = Ok es -> is_Some (contents w !! (path_of h ++ n :: rest, f)) ->
       (exists e, Err e ∈ es) \/
       exists e, Ok e ∈ es /\ entry_name e = Some n /\ (entry_type e = Some TDir \/ entry_type e = None))
}.

(** ** An instance in memory *)

Module MemFs.

Record Mem := {
  mem_dirs : gset (list string);
  mem_files : gmap FileKey bytes;
  mem_limit : nat
}.

Definition not_found : IoError := {| io_kind := NotFound; io_msg := "not found" |}.
Definition exists_error : IoError := {| io_kind := AlreadyExists; io_msg := "exists" |}.
Definition no_space : IoError := {| io_kind := OtherKind 28; io_msg := "no space" |}.

Definition set_files (f : gmap FileKey bytes) (m : Mem) : Mem :=
  {| mem_dirs := mem_dirs m; mem_files := f; mem_limit := mem_limit m |}.

(** The directories are those created and those that files are in. *)
Definition all_dirs (m : Mem) : list (list string) :=
  elements (mem_dirs m) ++ map (fun e => fst (fst e)) (map_to_list (mem_files m)).
Fixpoint after (h p : list string) : option (list string) :=
  match h, p with
  | [], _ => Some p
  | x :: h', y :: p' => if decide (x = y) then after h' p' else None
  | _, [] => None
  end.
Definition child_dirs (h : list string) (m : Mem) : list string :=
  omap (fun d => match after h d with Some (n :: _) => Some n | _ => None end) (all_dirs m).
Definition child_files (h : list string) (m : Mem) : list string :=
  omap (fun e => if decide (fst (fst e) = h) then Some (snd (fst e)) else None) (map_to_list (mem_files m)).

Lemma after_app h p : after h (h ++ p) = Some p.
Proof. induction h; cbn; [done|]. by rewrite decide_True. Qed.

Lemma child_dirs_file h n rest f m : is_Some (mem_files m !! (h ++ n :: rest, f)) -> n ∈ child_dirs h m.
Proof.
  intros [b Hb]. apply list_elem_of_omap. exists (h ++ n :: rest). rewrite after_app. split; [|done].
  apply elem_of_app. right. apply list_elem_of_fmap. exists ((h ++ n :: rest, f), b).
  split; [done|]. by apply elem_of_map_to_list.
Qed.

#[global] Instance mem_openat : OpenAt Mem := {
  handle := list string;
  oa_open p m := (Ok [], m);
  oa_sub_dir h n m := (if decide (n ∈ child_dirs h m) then Ok (h ++ [n]) else Err not_found, m);
  oa_create_dir h n m :=
    if decide (n ∈ child_dirs h m) then (Err exists_error, m)
    else (Ok (), {| mem_dirs := {[h ++ [n]]} ∪ mem_dirs m; mem_files := mem_files m; mem_limit := mem_limit m |});
  oa_open_file h n m :=
    (match mem_files m !! (h, n) with
     | Some b => Ok {| file_data := b; file_error := None |}
     | None => Err not_found
     end, m);
  oa_write_file h n m := (Ok (), set_files (<[(h, n) := []]> (mem_files m)) m);
  oa_write_all h n b m :=
    match mem_files m !! (h, n) with
    | None => (Err not_found, m)
    | Some old =>
        let room := mem_limit m - length old in
        (if decide (length b <= room) then Ok () else Err no_space,
         set_files (<[(h, n) := old ++ take room b]> (mem_files m)) m)
    end;
  oa_local_rename h a b m :=
    match mem_files m !! (h, a) with
    | Some c => (Ok (), set_files (<[(h, b) := c]> (delete (h, a) (mem_files m))) m)
    | None => (Err not_found, m)
    end;
  oa_remove_file h n m :=
    match mem_files m !! (h, n) with
    | Some _ => (Ok (), set_files (delete (h, n) (mem_files m)) m)
    | None => (Err not_found, m)
    end;
  oa_metadata h n m :=
    (match mem_files m !! (h, n), decide (n ∈ child_dirs h m) with
     | Some _, left _ => Err {| io_kind := OtherKind 20; io_msg := "both" |}
     | Some _, right _ => Ok {| meta_type := TFile; st_mtime := 0 |}
     | None, left _ => Ok {| meta_type := TDir; st_mtime := 0 |}
     | None, right _ => Err not_found
     end, m);
  oa_list_dir h m :=
    (Ok (map (fun n => Ok {| entry_name := Some n; entry_type := Some TDir |}) (child_dirs h m) ++
         map (fun n => Ok {| entry_name := Some n; entry_type := Some TFile |}) (child_files h m)), m);
  oa_recover_path h m := Ok (Path.RootDir :: map Path.Normal h)
}.

#[global] Program Instance mem_laws : OpenAtLaws Mem := {
  path_of h := h;
  contents := mem_files
}.
Next Obligation. by intros p w r w' [= <- <-]. Qed.
Next Obligation.
  intros h n w r w' [= <- <-]. split_and!; [done|..].
  - intros h'. case_decide; [|done]. by intros [= <-].
  - intros e. case_decide as Hd; [done|]. intros _ _ rest f. apply eq_None_not_Some. intros Hs.
    by apply child_dirs_file in Hs.
Qed.
Next Obligation. intros h n w r w'. cbn. case_decide; by intros [= <- <-]. Qed.
Next Obligation.
  intros h n w r w' [= <- <-]. split_and!; [done|..].
  - intros f. case_match; [|done]. by intros [= <-].
  - intros e. by case_match.
Qed.
Next Obligation. by intros h n w r w' [= <- <-]. Qed.
Next Obligation.
  intros h n b w r w' old. cbn. intros Hr Hold. rewrite Hold in Hr. injection Hr as <- <-.
  exists (take (mem_limit w - length old) b). split_and!; [|case_decide; [|done]; intros _; by apply take_ge|done].
  exists (drop (mem_limit w - length old) b). by rewrite take_drop.
Qed.
Next Obligation.
  intros h a b w r w'. cbn. case_match; intros [= <- <-]; [|done]. eauto.
Qed.
Next Obligation.
  intros h n w r w'. cbn. case_match; by intros [= <- <-].
Qed.
Next Obligation.
  intros h n w r w'. cbn. intros [= <- <-]. split_and!; [done|..].
  - intros m Hm [b Hb]. rewrite Hb in Hm. destruct (decide _); [done|]. by injection Hm as <-.
  - intros m rest f Hm Hs. apply child_dirs_file in Hs. destruct (decide _); [|done].
    case_match; [done|]. by injection Hm as <-.
  - intros e He Hk. case_match; [|done]. case_match; [|done]. by injection He as <-.
Qed.
Next Obligation.
  intros h w r w' [= <- <-]. split_and!; [done|..].
  - intros es n [= <-] [b Hb]. right.
    exists {| entry_name := Some n; entry_type := Some TFile |}. split; [|auto].
    apply elem_of_app. right. apply list_elem_of_fmap. exists n. split; [done|].
    unfold child_files. apply list_elem_of_omap. exists ((h, n), b).
    split; [by apply elem_of_map_to_list|]. cbn. by rewrite decide_True.
  - intros es n rest f [= <-] Hs%child_dirs_file. right.
    exists {| entry_name := Some n; entry_type := Some TDir |}. split; [|auto].
    apply elem_of_app. left. apply list_elem_of_fmap. by exists n.
Qed.

End MemFs.
