(* ===== verification/Time.v ===== *)
(** * Time stamps and failure tracking: [src/time_util.rs],
    [src/serialize/duration.rs], [src/serialize/timestamp.rs] and
    [src/failure_tracker.rs]

    A [SystemTime] is a number of nanoseconds since the Unix epoch, an
    [Instant] a number of nanoseconds of the monotonic clock, a [Duration] a
    non-negative number of nanoseconds.  The clock is read by the caller and
    passed in. *)
From S2P Require Import Prelude Serde.
Local Open Scope Z_scope.

Definition nanos_per_ms : Z := 1000000.
Definition nanos_per_sec : Z := 1000000000.

(** [Duration::as_secs] and [Duration::subsec_nanos]. *)
Definition as_secs (d : Z) : Z := d / nanos_per_sec.
Definition subsec_nanos (d : Z) : Z := d mod nanos_per_sec.

(** [as_secs()*1000 + (subsec_nanos() / 1000000) as u64], checked [u64]. *)
Definition dur_ms (d : Z) : option Z :=
  let ms := as_secs d * 1000 + subsec_nanos d / nanos_per_ms in
  if decide (ms < u64_modulus) then Some ms else None.

(** [to_ms]: panics for a time before the epoch. *)
Definition to_ms (tm : Z) : option Z :=
  if decide (0 <= tm) then dur_ms tm else None.

(** [UNIX_EPOCH + Duration::from_millis(ms)]. *)
Definition from_ms (ms : Z) : Z := ms * nanos_per_ms.

(** [serialize::timestamp]. *)
Definition ts_serialize (tm : Z) : option Value := VU64 <$> to_ms tm.
Definition ts_deserialize (v : Value) : DeRes Z :=
  match v with VU64 ms => Ok (from_ms ms) | _ => Err InvalidType end.

(** [serialize::duration]. *)
Definition dur_serialize (d : Z) : option Value := VU64 <$> dur_ms d.
(** [Duration::new(ms / 1000, (ms % 1000) as u32 * 1000000)]. *)
Definition dur_deserialize (v : Value) : DeRes Z :=
  match v with
  | VU64 ms => Ok (ms / 1000 * nanos_per_sec + (ms mod 1000) * 1000000)
  | _ => Err InvalidType
  end.

Lemma dur_ms_div d : as_secs d * 1000 + subsec_nanos d / nanos_per_ms = d / nanos_per_ms.
Proof.
  unfold as_secs, subsec_nanos, nanos_per_sec, nanos_per_ms.
  rewrite (Z.mod_eq d) by lia. Z.div_mod_to_equations. lia.
Qed.

Lemma to_ms_spec tm :
  0 <= tm < from_ms u64_modulus -> to_ms tm = Some (tm / nanos_per_ms).
Proof.
  unfold from_ms, to_ms, dur_ms. intros H. rewrite dur_ms_div, !decide_True; [done| |lia].
  apply Z.div_lt_upper_bound; unfold nanos_per_ms in *; lia.
Qed.

Lemma to_from_ms ms : 0 <= ms < u64_modulus -> to_ms (from_ms ms) = Some ms.
Proof.
  intros H. rewrite to_ms_spec; unfold from_ms, nanos_per_ms in *; [|lia].
  by rewrite Z.div_mul.
Qed.

(** Millisecond time stamps.  Every [u64] read off the wire is a time that
    is written back as itself, with no overflow; a time is written as its
    number of whole milliseconds, so what is read back is the time rounded
    down; rounding is monotone; and writing panics exactly for times before the
    epoch or beyond the range of [u64] milliseconds.  Durations behave the
    same, and the two readers agree. *)
Theorem timestamp_roundtrip :
  (forall ms, 0 <= ms < u64_modulus ->
     exists tm, ts_deserialize (VU64 ms) = Ok tm /\ ts_serialize tm = Some (VU64 ms) /\
                dur_deserialize (VU64 ms) = Ok tm /\ dur_serialize tm = Some (VU64 ms)) /\
  (forall tm v, ts_serialize tm = Some v ->
     exists tm', ts_deserialize v = Ok tm' /\ tm - nanos_per_ms < tm' <= tm) /\
  (forall a b x y, a <= b -> to_ms a = Some x -> to_ms b = Some y -> x <= y) /\
  (forall tm, to_ms tm = None <-> tm < 0 \/ from_ms u64_modulus <= tm).
Proof.
  assert (Hdd : forall ms, ms / 1000 * nanos_per_sec + ms mod 1000 * 1000000 = from_ms ms).
  { intros ms. unfold from_ms, nanos_per_sec, nanos_per_ms. rewrite (Z.mod_eq ms) by lia.
    Z.div_mod_to_equations. lia. }
  split_and!.
  - intros ms H. exists (from_ms ms). unfold ts_deserialize, ts_serialize, dur_deserialize, dur_serialize.
    pose proof (to_from_ms ms H) as Ht. rewrite Hdd, Ht. unfold to_ms in Ht.
    case_decide; [|done]. rewrite Ht. done.
  - intros tm v. unfold ts_serialize, to_ms, dur_ms. rewrite dur_ms_div. repeat case_decide; try done.
    intros [= <-]. exists (from_ms (tm / nanos_per_ms)). split; [done|]. unfold from_ms, nanos_per_ms.
    Z.div_mod_to_equations. lia.
  - intros a b x y Hab. unfold to_ms, dur_ms. rewrite !dur_ms_div. repeat case_decide; try done.
    intros [= <-] [= <-]. apply Z.div_le_mono; [done|lia].
  - intros tm. unfold to_ms, dur_ms, from_ms. rewrite dur_ms_div. case_decide; [case_decide|].
    + split; [done|]. unfold nanos_per_ms in *. intros [?|Hge]; [lia|].
      apply Z.div_le_mono with (c := 1000000) in Hge; [|lia]. rewrite Z.div_mul in Hge by lia. lia.
    + split; [intros _|done]. right. unfold nanos_per_ms in *. Z.div_mod_to_equations. lia.
    + split; [lia|done].
Qed.

(** ** [failure_tracker.rs] *)

Definition RETRY_TIME : Z := 1 * nanos_per_sec.
Definition SLOW_RETRY_TIME : Z := 10 * nanos_per_sec.

Record Failure := { subsequent : Z; last : Z }.

(** [trait Policy] and its two implementations, at the current instant. *)
Class Policy (P : Type) := can_try_entry : P -> Z -> Failure -> bool.
Inductive DefaultPolicy := Default.
Inductive SlowerPolicy := Slower.
#[export] Instance default_policy : Policy DefaultPolicy :=
  fun _ now entry => bool_decide (now - last entry > RETRY_TIME * subsequent entry).
#[export] Instance slower_policy : Policy SlowerPolicy :=
  fun _ now entry => bool_decide (now - last entry > SLOW_RETRY_TIME * subsequent entry).

Section Failures.
Context {K : Type} `{Countable K}.

(** [struct Failures]. *)
Record Failures (P : Type) := { items : gmap K Failure; policy : P }.
Arguments items {P}. Arguments policy {P}.

Definition new_default : Failures DefaultPolicy := {| items := ∅; policy := Default |}.
Definition new_slow : Failures SlowerPolicy := {| items := ∅; policy := Slower |}.

Section Ops.
Context {P : Type} `{Policy P}.

(** [t0] and [now] are the two readings of the clock. *)
Definition add_failure (t0 now : Z) (name : K) (f : Failures P) : Failures P :=
  let entry := default {| subsequent := 0; last := t0 |} (items f !! name) in
  {| items := <[name := {| subsequent := sat_add32 (subsequent entry) 1; last := now |}]> (items f);
     policy := policy f |}.
Definition reset (name : K) (f : Failures P) : Failures P :=
  {| items := delete name (items f); policy := policy f |}.
Definition can_try (now : Z) (name : K) (f : Failures P) : bool :=
  match items f !! name with
  | Some e => can_try_entry (policy f) now e
  | None => true
  end.

Lemma can_try_empty now k p : can_try now k {| items := ∅; policy := p |} = true.
Proof. unfold can_try. simpl. by rewrite lookup_empty. Qed.

Lemma add_failure_other t0 now k k' f :
  k <> k' -> items (add_failure t0 now k f) !! k' = items f !! k'.
Proof. intros Hne. simpl. by rewrite lookup_insert_ne. Qed.

(** [n] failures in a row, at the given times (earliest first). *)
Definition failed_at (k : K) (ts : list Z) (f : Failures P) : Failures P :=
  foldl (fun f t => add_failure t t k f) f ts.

Lemma failed_at_items k ts t f :
  0 <= default 0 (subsequent <$> items f !! k) <= u32_max ->
  items (failed_at k (ts ++ [t]) f) !! k =
    Some {| subsequent := Z.min u32_max (default 0 (subsequent <$> items f !! k) + Z.of_nat (S (length ts)));
            last := t |}.
Proof.
  revert f. induction ts as [|t' ts IH]; intros f Hr; simpl.
  - rewrite lookup_insert_eq. destruct (items f !! k) as [e|]; simpl in *; unfold sat_add32; do 2 f_equal; lia.
  - rewrite IH; simpl; rewrite lookup_insert_eq; simpl;
      destruct (items f !! k) as [e|]; simpl in *; unfold sat_add32; [do 2 f_equal; lia..|lia|lia].
Qed.
End Ops.
End Failures.
Arguments items {K _ _ P}. Arguments policy {K _ _ P}.
Arguments Failures K {_ _} P.

(** The retry discipline.  A host that never failed, or was reset, may be
    tried at any time; after [n] failures in a row (the last at [t]) it may be
    tried again only when strictly more than [n] retry periods (one second, or
    ten with the slow policy) have passed, with [n] saturating at [u32::MAX];
    failures and resets of one host never affect another. *)
Theorem failure_backoff (K : Type) `{Countable K} (k k' : K) (ts : list Z) (t now : Z)
    (f : Failures K DefaultPolicy) (g : Failures K SlowerPolicy) :
  k <> k' -> items f !! k = None -> items g !! k = None ->
  let n := Z.min u32_max (Z.of_nat (S (length ts))) in
  can_try now k f = true /\
  can_try now k (failed_at k (ts ++ [t]) f) = bool_decide (t + n * RETRY_TIME < now) /\
  can_try now k (failed_at k (ts ++ [t]) g) = bool_decide (t + n * SLOW_RETRY_TIME < now) /\
  can_try now k (reset k (failed_at k (ts ++ [t]) f)) = true /\
  can_try now k' (add_failure t t k f) = can_try now k' f /\
  can_try now k' (reset k f) = can_try now k' f.
Proof.
  intros Hne Hf Hg n.
  assert (items (failed_at k (ts ++ [t]) f) !! k = Some {| subsequent := n; last := t |}) as Hkf.
  { rewrite failed_at_items; rewrite Hf; simpl; [done|unfold u32_max; lia]. }
  assert (items (failed_at k (ts ++ [t]) g) !! k = Some {| subsequent := n; last := t |}) as Hkg.
  { rewrite failed_at_items; rewrite Hg; simpl; [done|unfold u32_max; lia]. }
  unfold can_try. rewrite Hkf, Hkg, Hf. simpl.
  rewrite lookup_delete_eq, lookup_insert_ne, lookup_delete_ne by done.
  split_and!; try done; unfold can_try_entry, default_policy, slower_policy; simpl;
    apply bool_decide_ext; lia.
Qed.

Lemma failure_backoff_witness :
  can_try 5000000000 1%positive (failed_at 1%positive [0; 1] new_default) = true /\
  can_try 5000000000 1%positive (failed_at 1%positive ([0; 1] ++ [4000000000]) new_default) = false.
Proof.
  split; [reflexivity|].
  destruct (failure_backoff positive 1%positive 2%positive [0; 1] 4000000000 5000000000 new_default new_slow)
    as (_ & Hb & _); [discriminate|reflexivity|reflexivity|].
  rewrite Hb. reflexivity.
Defined.
