(* ===== verification/Signature.v ===== *)
(** * Signatures: [src/proto/signature.rs], [src/database/signatures.rs] and
    [src/signature.rs]

    The key types of [ssh_keys], the Ed25519 primitives, base64 and the CBOR
    writer are behind the class [Crypto]. *)
From S2P Require Import Prelude Serde VirtualPath Ids Time.
Import VPath ImageId.

Class Crypto := {
  PrivateKey : Type;
  PublicKey : Type;
  (** The [Ed25519] payload of a key; [None] for every other kind of key. *)
  priv_ed25519 : PrivateKey -> option bytes;
  pub_ed25519 : PublicKey -> option bytes;
  ed25519_signature : bytes -> bytes -> bytes;
  ed25519_verify : bytes -> bytes -> bytes -> bool;
  base64_encode : bytes -> string;
  cbor_bytes : Value -> bytes
}.

(** What the program relies on: a signature made with a private key has 64
    bytes and verifies against the matching public key. *)
Class CryptoLaws `{Crypto} (matching : bytes -> bytes -> Prop) := {
  ed25519_len : forall msg k, length (ed25519_signature msg k) = 64;
  ed25519_correct : forall msg sk pk, matching sk pk ->
    ed25519_verify msg pk (ed25519_signature msg sk) = true
}.

Module Signature.

(** [pub enum Signature { SshEd25519([u8; 64]) }]. *)
Inductive Signature := SshEd25519 (val : bytes).
Definition sig_bytes (s : Signature) : bytes := let 'SshEd25519 v := s in v.

#[global] Instance Signature_eq_dec : EqDecision Signature.
Proof. solve_decision. Defined.

(** [impl Ord for Signature]. *)
Definition cmp (a b : Signature) : comparison :=
  match a, b with SshEd25519 x, SshEd25519 y => bytes_cmp x y end.

Definition ok (s : Signature) : Prop := length (sig_bytes s) = 64.

(** [struct SigData]. *)
Record SigData := { sd_path : string; sd_image : bytes; sd_timestamp : Z }.

(** The message that is signed: the CBOR of [(path, Bytes(image), timestamp)]. *)
Definition sig_value (d : SigData) : Value :=
  VSeq [VStr (sd_path d); VBytes (sd_image d); VU64 (sd_timestamp d)].

Section Sign.
Context `{Crypto}.

(** The loop of [sign]; [None] is [process::exit(101)] on another kind of key. *)
Fixpoint sign_loop (buf : bytes) (keys : list PrivateKey) (res : list Signature)
  : option (list Signature) :=
  match keys with
  | [] => Some res
  | key :: keys' =>
      match priv_ed25519 key with
      | Some b => sign_loop buf keys' (res ++ [SshEd25519 (ed25519_signature buf b)])
      | None => None
      end
  end.

Definition sign (src : SigData) (keys : list PrivateKey) : option (list Signature) :=
  sign_loop (cbor_bytes (sig_value src)) keys [].

Definition verify (src : SigData) (signature : Signature) (keys : list PublicKey) : bool :=
  let buf := cbor_bytes (sig_value src) in
  existsb (fun key =>
    match pub_ed25519 key, signature with
    | Some k, SshEd25519 sig => ed25519_verify buf k sig
    | None, _ => false
    end) keys.

Definition serialize (human_readable : bool) (s : Signature) : Value :=
  if human_readable then
    match s with SshEd25519 val => VStr ("ssh-ed25519 " +:+ base64_encode val) end
  else
    match s with SshEd25519 val => VSeq [VStr "ssh-ed25519"; VBytes val] end.
End Sign.

Inductive SignatureType := TSshEd25519.

Definition type_visitor : Visitor SignatureType := {|
  visit_str value :=
    if bool_decide (value = "ssh-ed25519"%string) then Ok TSshEd25519 else Err (UnknownField value);
  visit_bytes := no_visit;
  visit_seq := no_visit
|}.

Definition ed25519_visitor : Visitor bytes := {|
  visit_bytes value := if decide (length value = 64) then Ok value else Err (InvalidLength 1);
  visit_str := no_visit;
  visit_seq := no_visit
|}.

(** [SignatureVisitor::visit_seq]: element by element. *)
Definition signature_visitor : Visitor Signature := {|
  visit_seq vs :=
    match vs with
    | [] => Err (Custom "invalid signature type")
    | t :: vs' =>
        match drive type_visitor t with
        | Ok TSshEd25519 =>
            match vs' with
            | [] => Err (InvalidLength 1)
            | b :: _ => res_map SshEd25519 (drive ed25519_visitor b)
            end
        | Err e => Err e
        | Panic => Panic
        end
    end;
  visit_bytes := no_visit;
  visit_str := no_visit
|}.

Definition deserialize (v : Value) : DeRes Signature := drive signature_visitor v.

End Signature.
Import Signature.

Module Database.

(** [struct SignatureEntry] and [struct State] of [database/signatures.rs]. *)
Record SignatureEntry := { timestamp : Z; signature : Signature }.
Record State := { image : ImageId; signatures : list SignatureEntry }.

#[global] Instance SignatureEntry_eq_dec : EqDecision SignatureEntry.
Proof. solve_decision. Defined.
#[global] Instance State_eq_dec : EqDecision State.
Proof. solve_decision. Defined.

(** Derived [Ord]: time stamp first, then the signature. *)
Definition entry_leb (a b : SignatureEntry) : bool :=
  match Z.compare (timestamp a) (timestamp b) with
  | Lt => true
  | Gt => false
  | Eq => match Signature.cmp (signature a) (signature b) with Gt => false | _ => true end
  end.

Section Codec.
Context `{Crypto}.

(** [humantime::format_rfc3339]. *)
Context (format_rfc3339 : Z -> string).

(** The human-readable form is the record [JsonSign]; the binary form is the
    pair of the milliseconds and the signature.  [None] is the panic of
    [to_ms]. *)
Definition entry_serialize (human_readable : bool) (e : SignatureEntry) : option Value :=
  if human_readable then
    Some (VMap [(VStr "timestamp", VStr (format_rfc3339 (timestamp e)));
                (VStr "signature", Signature.serialize true (signature e))])
  else
    ms ← to_ms (timestamp e); Some (VSeq [VU64 ms; Signature.serialize false (signature e)]).
End Codec.

Definition entry_deserialize (v : Value) : DeRes SignatureEntry :=
  match v with
  | VSeq [VU64 ts; s] =>
      res_map (fun sig => {| timestamp := from_ms ts; signature := sig |}) (Signature.deserialize s)
  | VSeq [_; _] => Err InvalidType
  | VSeq vs => Err (InvalidLength (length vs))
  | _ => Err InvalidType
  end.

Lemma entry_leb_spec a b :
  entry_leb a b = true <->
  (timestamp a < timestamp b)%Z \/
  timestamp a = timestamp b /\ bytes_leb (sig_bytes (signature a)) (sig_bytes (signature b)) = true.
Proof.
  unfold entry_leb, bytes_leb. destruct a as [ta [sa]], b as [tb [sb]]. simpl.
  destruct (Z.compare_spec ta tb) as [H|H|H].
  - split; [intros ?; by right|]. intros [?|[_ ?]]; [lia|done].
  - split; [intros _; by left|done].
  - split; [done|]. intros [?|[? _]]; lia.
Qed.

Lemma entry_leb_total a b : entry_leb a b = true \/ entry_leb b a = true.
Proof.
  rewrite !entry_leb_spec.
  destruct (bytes_leb_total (sig_bytes (signature a)) (sig_bytes (signature b)));
  destruct (Z.lt_trichotomy (timestamp a) (timestamp b)) as [|[|]]; auto.
Qed.

Lemma entry_leb_trans a b c : entry_leb a b = true -> entry_leb b c = true -> entry_leb a c = true.
Proof.
  rewrite !entry_leb_spec. intros [H1|[H1 H2]] [H3|[H3 H4]]; [left; lia|left; lia|left; lia|].
  right. split; [congruence|]. by eapply bytes_leb_trans.
Qed.

Lemma entry_leb_antisym a b : entry_leb a b = true -> entry_leb b a = true -> a = b.
Proof.
  rewrite !entry_leb_spec. intros [H1|[H1 H2]] [H3|[H3 H4]]; try lia.
  destruct a as [ta [sa]], b as [tb [sb]]. simpl in *. subst. by rewrite (bytes_leb_antisym sa sb).
Qed.

End Database.
Import Database.

Module SignedUpload.

(** [struct SignedUpload]; [sign_upload] panics where [to_ms] does, and exits
    where [sign] does. *)
Record SignedUpload := {
  up_path : VPath; up_image_id : ImageId; up_timestamp : Z; up_signatures : list Signature
}.

Definition sign_upload `{Crypto} (path : VPath) (img : ImageId) (ts : Z) (keys : list PrivateKey)
  : option SignedUpload :=
  ms ← to_ms ts;
  sigs ← sign {| sd_path := Path.render (VPath.path path); sd_image := as_ref img; sd_timestamp := ms |} keys;
  Some {| up_path := path; up_image_id := img; up_timestamp := ts; up_signatures := sigs |}.

End SignedUpload.

Section SignLemmas.
Context `{Crypto}.

Lemma sign_loop_spec buf keys res out :
  sign_loop buf keys res = Some out <->
  exists sks, Forall2 (fun k b => priv_ed25519 k = Some b) keys sks /\
    out = res ++ map (fun b => SshEd25519 (ed25519_signature buf b)) sks.
Proof.
  revert res. induction keys as [|k keys IH]; intros res; simpl.
  - split.
    + intros [= <-]. exists []. split; [constructor|by rewrite app_nil_r].
    + intros (sks & Hf & ->). inversion Hf. subst. by rewrite app_nil_r.
  - destruct (priv_ed25519 k) as [b|] eqn:E.
    + rewrite IH. split; intros (sks & Hf & ->).
      * exists (b :: sks). split; [by constructor|]. by rewrite <- app_assoc.
      * inversion Hf as [|? b' ? sks' Hb Hf']; subst. simplify_eq. exists sks'.
        split; [done|]. by rewrite <- app_assoc.
    + split; [done|]. intros (sks & Hf & _). inversion Hf. congruence.
Qed.

Lemma verify_spec d s keys :
  verify d s keys = true <->
  exists key k, key ∈ keys /\ pub_ed25519 key = Some k /\
    ed25519_verify (cbor_bytes (sig_value d)) k (sig_bytes s) = true.
Proof.
  unfold verify. rewrite existsb_exists. destruct s as [v]. simpl. split.
  - intros (key & Hin & Hk). destruct (pub_ed25519 key) as [k|] eqn:E; [|done].
    exists key, k. by rewrite list_elem_of_In.
  - intros (key & k & Hin & -> & Hv) || intros (key & k & Hin & Hk & Hv).
    exists key. rewrite <- list_elem_of_In, Hk. done.
Qed.
End SignLemmas.

(** Signing and verifying.  [sign] returns one signature per key, in order,
    or exits because some key is not an Ed25519 key; each signature has 64 bytes
    and [verify] accepts it for every key list with the matching public key;
    [verify] accepts only when some Ed25519 key of the list verifies the very
    message that was signed (path, image and time stamp), so with no key, or
    none of that kind, it rejects. *)
Theorem sign_verify `{CryptoLaws} (src : SigData) (keys : list PrivateKey) (sks : list bytes) :
  Forall2 (fun k b => priv_ed25519 k = Some b) keys sks ->
  exists sigs, sign src keys = Some sigs /\ length sigs = length keys /\
    Forall Signature.ok sigs /\
    (forall i s sk, sigs !! i = Some s -> sks !! i = Some sk ->
       forall pub pk pubs, pub ∈ pubs -> pub_ed25519 pub = Some pk -> matching sk pk ->
       verify src s pubs = true) /\
    (forall s pubs, (forall p, p ∈ pubs -> pub_ed25519 p = None) -> verify src s pubs = false).
Proof.
  intros Hk. set (buf := cbor_bytes (sig_value src)).
  exists (map (fun b => SshEd25519 (ed25519_signature buf b)) sks). split_and!.
  - unfold sign. apply sign_loop_spec. by exists sks.
  - rewrite length_map. symmetry. by eapply Forall2_length.
  - apply Forall_forall. intros s [b [<- _]]%list_elem_of_In%in_map_iff. unfold Signature.ok. simpl.
    apply ed25519_len.
  - intros i s sk Hs Hsk pub pk pubs Hin Hpub Hm. apply verify_spec. exists pub, pk. split_and!; [done..|].
    change (map ?f sks) with (f <$> sks) in Hs. rewrite list_lookup_fmap, Hsk in Hs. injection Hs as <-.
    simpl. by apply ed25519_correct.
  - intros s pubs Hn. apply not_true_is_false. intros (p & k & Hin & Hp & _)%verify_spec.
    rewrite Hn in Hp; done.
Qed.

(** A toy instance (the "signature" is the key padded or cut to 64 bytes), used
    to show that the laws can hold. *)
Module ToyCrypto.

Definition pad (k : bytes) : bytes := take 64 (k ++ repeat Byte.x00 64).
#[global] Instance crypto : Crypto := {|
  PrivateKey := bytes; PublicKey := bytes;
  priv_ed25519 := Some; pub_ed25519 := Some;
  ed25519_signature _ k := pad k;
  ed25519_verify _ k s := bool_decide (s = pad k);
  base64_encode _ := ""%string;
  cbor_bytes _ := []
|}.

#[global] Instance laws : CryptoLaws eq.
Proof.
  split; simpl.
  - intros _ k. unfold pad. rewrite length_take, length_app, repeat_length. lia.
  - intros _ sk pk <-. by apply bool_decide_eq_true_2.
Defined.

End ToyCrypto.

Lemma sign_verify_witness :
  exists sigs, sign (H := ToyCrypto.crypto) {| sd_path := "/a/b"; sd_image := []; sd_timestamp := 1 |}
     [[Byte.x01]] = Some sigs /\ length sigs = 1.
Proof.
  destruct (sign_verify (H := ToyCrypto.crypto) (H0 := ToyCrypto.laws)
    {| sd_path := "/a/b"; sd_image := []; sd_timestamp := 1 |} [[Byte.x01]] [[Byte.x01]])
    as (sigs & H1 & H2 & _); [constructor; [reflexivity|constructor]|].
  exists sigs. split; [exact H1|exact H2].
Defined.

(** Signature entries survive the database and the wire: writing and
    reading an entry keeps the signature and rounds the time stamp down to the
    millisecond (so it is unchanged when it is a whole number of milliseconds);
    a signature that is read always has 64 bytes; no value makes a reader
    panic. *)
Theorem signature_entry_roundtrip `{Crypto} (rfc3339 : Z -> string) :
  (forall s, Signature.ok s -> Signature.deserialize (Signature.serialize false s) = Ok s) /\
  (forall v, match Signature.deserialize v with Ok s => Signature.ok s | Err _ => True | Panic => False end) /\
  (forall e v, Signature.ok (signature e) -> entry_serialize rfc3339 false e = Some v ->
     entry_deserialize v =
       Ok {| timestamp := from_ms (timestamp e / nanos_per_ms); signature := signature e |}) /\
  (forall ms s, (0 <= ms < u64_modulus)%Z -> Signature.ok s ->
     let e := {| timestamp := from_ms ms; signature := s |} in
     exists v, entry_serialize rfc3339 false e = Some v /\ entry_deserialize v = Ok e) /\
  (forall v, entry_deserialize v <> Panic).
Proof.
  assert (Hrt : forall s, Signature.ok s -> Signature.deserialize (Signature.serialize false s) = Ok s).
  { intros [b] Hb. unfold Signature.ok in Hb. simpl in *. by rewrite decide_True. }
  assert (Hde : forall v, match Signature.deserialize v with Ok s => Signature.ok s | Err _ => True | Panic => False end).
  { intros v. unfold Signature.deserialize, drive. destruct v as [| | | | |vs|]; simpl; try done.
    destruct vs as [|t vs]; [done|]. destruct t; simpl; try done.
    case_bool_decide; [|done]. destruct vs as [|b vs]; [done|]. destruct b; simpl; try done.
    by case_decide. }
  split_and!; [done|done| | |].
  - intros e v Hok. unfold entry_serialize. pose proof (Hrt (signature e) Hok) as Hs.
    revert Hs. generalize (Signature.serialize false (signature e)). intros sv Hs.
    destruct (to_ms (timestamp e)) as [ms|] eqn:E; [|done].
    intros [= <-]. cbn -[Signature.deserialize from_ms]. rewrite Hs. simpl.
    unfold to_ms, dur_ms in E. rewrite dur_ms_div in E. repeat case_decide; simplify_eq. done.
  - intros ms s Hms Hs e. exists (VSeq [VU64 ms; Signature.serialize false s]).
    unfold entry_serialize, e. cbn -[from_ms to_ms Signature.deserialize Signature.serialize].
    rewrite to_from_ms by done. split; [done|]. by rewrite Hrt.
  - intros v. destruct v as [| | | | |vs|]; try done.
    destruct vs as [|a [|b [|c vs]]]; try done; destruct a; try done.
    cbn -[Signature.deserialize]. specialize (Hde b). by destruct (Signature.deserialize b).
Qed.
