(* ===== verification/Config.v ===== *)
(** * The configuration of base directories: [src/daemon/config.rs]

    [directory_validator] is the schema handed to the [quire] crate, kept as
    data; [quire::parse_config] and the directory scan are parameters.  What is
    relied on of [quire] is [SchemaLaw]: a number it accepts lies within the
    bounds of the schema. *)
From S2P Require Import Prelude Serde VirtualPath Ids.
Import VPath.

(** [struct Directory]; a [usize] is a [nat], [keep_recent] nanoseconds. *)
Record Directory := {
  directory : Path.t;
  append_only : bool;
  num_levels : nat;
  upload_keys : list string;
  download_keys : list string;
  auto_clean : bool;
  keep_list_file : option Path.t;
  keep_min_directories : nat;
  keep_max_directories : nat;
  keep_recent : Z
}.

(** [struct Config]. *)
Record Config := {
  machine_id : MachineId.MachineId;
  hostname : string;
  port : Z;
  db_dir : Path.t;
  config_dir : Path.t;
  aggressive_index_gc : bool;
  dirs : gmap string Directory
}.

(** The schema language of [quire::validate] that the source uses. *)
Inductive Schema :=
| SDirectory
| SScalar (dflt : option string) (optional : bool)
| SNumeric (min max : option nat) (dflt : option nat)
| SSequence.

#[export] Instance Schema_eq_dec : EqDecision Schema.
Proof. solve_decision. Defined.

Definition directory_validator : list (string * Schema) := [
  ("directory", SDirectory);
  ("append_only", SScalar None false);
  ("num_levels", SNumeric (Some 1) (Some 16) None);
  ("upload_keys", SSequence);
  ("download_keys", SSequence);
  ("auto_clean", SScalar (Some "false") false);
  ("keep_list_file", SScalar None true);
  ("keep_min_directories", SNumeric (Some 1) None (Some 2));
  ("keep_max_directories", SNumeric (Some 1) None (Some 100));
  ("keep_recent", SScalar (Some "2 days") false)
]%string.

(** The numeric members of the record, by the name [serde] derives. *)
Definition numeric_member (d : Directory) (name : string) : option nat :=
  if decide (name = "num_levels")%string then Some (num_levels d)
  else if decide (name = "keep_min_directories")%string then Some (keep_min_directories d)
  else if decide (name = "keep_max_directories")%string then Some (keep_max_directories d)
  else None.

Definition in_bounds (min max : option nat) (n : nat) : Prop :=
  (forall m, min = Some m -> m <= n) /\ (forall m, max = Some m -> n <= m).

Section ReadDirs.
(** [quire::parse_config] on a file of the directory, with the schema. *)
Context (parse_config : Path.t -> list (string * Schema) -> Res string Directory).

Definition is_yaml (fname : string) : bool :=
  bool_decide (String.substring (String.length fname - 5) 5 fname = ".yaml"%string).
(** [fname[..fname.len() - 5]]. *)
Definition stem (fname : string) : string := String.substring 0 (String.length fname - 5) fname.

Fixpoint load_yamls (files : list (Path.t * string)) (res : gmap string Directory)
  : Res string (gmap string Directory) :=
  match files with
  | [] => Ok res
  | (entry, fname) :: files' =>
      match parse_config entry directory_validator with
      | Ok config => load_yamls files' (<[stem fname := config]> res)
      | Err e => Err e
      | Panic => Panic
      end
  end.

(** [is_dir] is [path.is_dir()], [scan] what [ScanDir::files().read] finds: the
    files with their names, or its error. *)
Definition read_dirs (is_dir : bool) (scan : Res string (list (Path.t * string)))
  : Res string (gmap string Directory) :=
  if negb is_dir then Ok ∅
  else res_bind (fun iter => load_yamls (filter (fun f => is_yaml f.2 = true) iter) ∅) scan.
End ReadDirs.

(** What is relied on of [quire]. *)
Definition SchemaLaw (parse_config : Path.t -> list (string * Schema) -> Res string Directory) : Prop :=
  forall p schema d name mn mx dflt n,
    parse_config p schema = Ok d -> (name, SNumeric mn mx dflt) ∈ schema ->
    numeric_member d name = Some n -> in_bounds mn mx n.

(** [is_valid_destination]; [None] is the panic of [key] or [level]. *)
Definition is_valid_destination (c : Config) (vpath : VPath) : option bool :=
  k ← key vpath;
  match dirs c !! k with
  | Some cfg => l ← level vpath; Some (bool_decide (num_levels cfg = l))
  | None => Some false
  end.

(** ** Lemmas *)

Lemma yaml_stem name : is_yaml (name +:+ ".yaml") = true /\ stem (name +:+ ".yaml") = name.
Proof.
  unfold is_yaml, stem. rewrite string_length_app.
  replace (String.length name + String.length ".yaml" - 5) with (String.length name) by (simpl; lia).
  rewrite substring_app_l. split; [|done].
  rewrite bool_decide_eq_true. exact (substring_app_r name ".yaml").
Qed.

Lemma is_yaml_stem fname : is_yaml fname = true -> fname = stem fname +:+ ".yaml".
Proof.
  unfold is_yaml, stem. rewrite bool_decide_eq_true. intros H.
  destruct (decide (5 <= String.length fname)) as [Hl|Hl].
  - rewrite (substring_split fname (String.length fname - 5) 5) at 1 by lia. by rewrite H.
  - exfalso. replace (String.length fname - 5) with 0 in H by lia.
    do 5 (destruct fname as [|? fname]; [done|]). simpl in Hl. lia.
Qed.

Lemma load_yamls_spec pc files acc res :
  NoDup (map (stem ∘ snd) files) ->
  load_yamls pc files acc = Ok res ->
  forall name d, res !! name = Some d <->
    (exists e f, (e, f) ∈ files /\ stem f = name /\ pc e directory_validator = Ok d) \/
    ((forall e f, (e, f) ∈ files -> stem f <> name) /\ acc !! name = Some d).
Proof.
  revert acc. induction files as [|[e f] files IH]; intros acc Hnd; cbn [load_yamls].
  - intros [= <-] name d. split; [intros H; right; split; [by intros ?? ?%not_elem_of_nil|done]|].
    intros [(?&?&?%not_elem_of_nil&_)|[_ ?]]; done.
  - inversion_clear Hnd as [|x l Hn Hnd'].
    destruct (pc e directory_validator) as [c| |] eqn:E; try done. intros Hr name d.
    rewrite (IH _ Hnd' Hr name d). setoid_rewrite elem_of_cons. split.
    + intros [(e'&f'&Hin&Hs&Hp)|[Hno Hl]]; [left; exists e', f'; auto|].
      destruct (decide (stem f = name)) as [<-|Hne].
      * rewrite lookup_insert_eq in Hl. injection Hl as <-. left. exists e, f. auto.
      * rewrite lookup_insert_ne in Hl by done. right. split; [|done].
        intros e' f' [[= -> ->]|Hin]; [done|]. by eapply Hno.
    + intros [(e'&f'&[[= -> ->]|Hin]&Hs&Hp)|[Hno Hl]].
      * right. rewrite E in Hp. injection Hp as ->. subst name. split; [|by rewrite lookup_insert_eq].
        intros e' f' Hin Heq. apply Hn. rewrite <- Heq. apply list_elem_of_fmap. exists (e', f'). auto.
      * left. eauto 10.
      * right. split; [intros e' f' Hin; by eapply Hno; eauto|].
        rewrite lookup_insert_ne; [done|]. eapply Hno; eauto.
Qed.

Lemma load_yamls_ok pc files acc :
  (forall e f, (e, f) ∈ files -> exists d, pc e directory_validator = Ok d) ->
  exists res, load_yamls pc files acc = Ok res.
Proof.
  revert acc. induction files as [|[e f] files IH]; intros acc H; simpl; [eauto|].
  destruct (H e f ltac:(constructor)) as [d ->]. apply IH. intros. eapply H. by constructor.
Qed.

Lemma load_yamls_all pc files acc res :
  load_yamls pc files acc = Ok res ->
  forall e f, (e, f) ∈ files -> exists d, pc e directory_validator = Ok d.
Proof.
  revert acc. induction files as [|[e0 f0] files IH]; intros acc; cbn [load_yamls].
  - by intros _ e f ?%not_elem_of_nil.
  - destruct (pc e0 directory_validator) as [c| |] eqn:E; try done. intros Hr e f.
    rewrite elem_of_cons. intros [[= -> ->]|]; eauto.
Qed.

Lemma nodup_stems (l : list (Path.t * string)) :
  NoDup (map snd l) -> NoDup (map (stem ∘ snd) (filter (fun f => is_yaml f.2 = true) l)).
Proof.
  induction l as [|[e f] l IH]; simpl; [done|]. inversion_clear 1 as [|x y Hn Hnd].
  rewrite filter_cons. case_decide as Hy; [|auto]. simpl. constructor; [|auto].
  rewrite list_elem_of_fmap. intros ([e' f'] & Heq & Hin). apply list_elem_of_filter in Hin as [Hy' Hin].
  simpl in *. apply Hn. rewrite (is_yaml_stem f), Heq, <- (is_yaml_stem f') by done.
  apply list_elem_of_fmap. by exists (e', f').
Qed.

(** ** Properties *)


