(* ===== verification/Cleanup.v ===== *)
(** * Which images a clean-up keeps: [src/daemon/cleanup/calc.rs]

    [sort_out] splits the images of a base directory into the ones to keep and
    the ones to delete.  The clock is a parameter; times are nanoseconds. *)
From S2P Require Import Prelude Serde VirtualPath Ids Time Signature Config.
Import Database.

(** [struct Sorted<(T, State)>]. *)
Record Sorted (A : Type) := { used : list A; unused : list A }.
Arguments used {A}. Arguments unused {A}.

(** The smallest time stamp of the signatures, or [UNIX_EPOCH]. *)
Definition biggest_timestamp (state : State) : Z :=
  match map timestamp (signatures state) with
  | [] => 0
  | t :: ts => foldl Z.min t ts
  end.

(** [SystemTime - Duration]: the seconds of the result must fit an [i64]. *)
Definition time_sub (tm d : Z) : option Z :=
  if decide (- 2 ^ 63 <= (tm - d) / nanos_per_sec)%Z then Some (tm - d)%Z else None.

Section SortOut.
Context {T : Type} `{EqDecision T}.
Implicit Types (items : list (T * State)) (x y : T * State).

Definition ts (x : T * State) : Z := biggest_timestamp (snd x).
(** The comparison closures of the two [sort_by] calls. *)
Definition newest_first (x y : T * State) : bool := bool_decide (ts y <= ts x)%Z.
Definition oldest_first (x y : T * State) : bool := bool_decide (ts x <= ts y)%Z.

(** The first loop: recent images are used, the others are candidates. *)
Definition partition_recent (min_time : Z) (items : list (T * State))
  : list (T * State) * list (T * State) :=
  (filter (fun x => min_time <= ts x)%Z items, filter (fun x => ~ (min_time <= ts x)%Z) items).

(** [if used.len() > config.keep_max_directories { sort; drain }]. *)
Definition cap_recent (max : nat) (p : list (T * State) * list (T * State))
  : list (T * State) * list (T * State) :=
  let '(used, candidates) := p in
  if decide (max < length used) then
    let sorted := stable_sort newest_first used in
    (take max sorted, candidates ++ drop max sorted)
  else (used, candidates).

(** The second loop: candidates of the keep list are used. *)
Definition split_kept (keep_list : list T) (p : list (T * State) * list (T * State))
  : list (T * State) * list (T * State) :=
  let '(used, candidates) := p in
  (used ++ filter (fun x => fst x ∈ keep_list) candidates,
   filter (fun x => fst x ∉ keep_list) candidates).

(** [if used.len() < config.keep_min_directories { sort; drain the tail }]. *)
Definition backfill (min : nat) (p : list (T * State) * list (T * State))
  : list (T * State) * list (T * State) :=
  let '(used, unused) := p in
  if decide (length used < min) then
    let sorted := stable_sort oldest_first unused in
    let unused_len := length sorted in
    let needs := min - length used in
    let cut := unused_len - Nat.min unused_len needs in
    (used ++ drop cut sorted, take cut sorted)
  else (used, unused).

(** [sort_out]; [None] is the panic of [SystemTime::now() - keep_recent]. *)
Definition sort_out (config : Directory) (now : Z) (items : list (T * State)) (keep_list : list T)
  : option (Sorted (T * State)) :=
  if decide (length items <= keep_min_directories config) then
    Some {| used := items; unused := [] |}
  else
    min_time ← time_sub now (keep_recent config);
    let '(used, unused) :=
      backfill (keep_min_directories config)
        (split_kept keep_list
           (cap_recent (keep_max_directories config) (partition_recent min_time items))) in
    Some {| used := used; unused := unused |}.

(** ** Lemmas *)

Lemma newest_first_total x y : newest_first x y = true \/ newest_first y x = true.
Proof. unfold newest_first. rewrite !bool_decide_eq_true. lia. Qed.
Lemma newest_first_trans x y z :
  newest_first x y = true -> newest_first y z = true -> newest_first x z = true.
Proof. unfold newest_first. rewrite !bool_decide_eq_true. lia. Qed.
Lemma oldest_first_total x y : oldest_first x y = true \/ oldest_first y x = true.
Proof. unfold oldest_first. rewrite !bool_decide_eq_true. lia. Qed.
Lemma oldest_first_trans x y z :
  oldest_first x y = true -> oldest_first y z = true -> oldest_first x z = true.
Proof. unfold oldest_first. rewrite !bool_decide_eq_true. lia. Qed.

Lemma filter_split_perm {A} (P : A -> Prop) `{forall a, Decision (P a)} (l : list A) :
  filter P l ++ filter (fun a => ~ P a) l ≡ₚ l.
Proof.
  induction l as [|x l IH]; [done|]. rewrite !filter_cons. repeat case_decide; try done.
  - simpl. by rewrite IH.
  - by rewrite <- Permutation_middle, IH.
Qed.

(** A prefix of a sorted list is related to the rest. *)
Lemma sorted_take_drop {A} (R : A -> A -> Prop) (l : list A) n (a b : A) :
  StronglySorted R l -> a ∈ take n l -> b ∈ drop n l -> R a b.
Proof.
  intros Hs. revert n. induction Hs as [|z l Hs IH Hz]; intros [|n]; simpl; try by intros ?%not_elem_of_nil.
  rewrite elem_of_cons. intros [->|Hx] Hy; [|by eapply IH].
  rewrite Forall_forall in Hz. apply Hz. apply (elem_of_take_drop _ n). auto.
Qed.

Lemma stage_partition mt items u c :
  partition_recent mt items = (u, c) ->
  u ++ c ≡ₚ items /\ (forall x, x ∈ u -> mt <= ts x)%Z /\ (forall x, x ∈ c -> ts x < mt)%Z.
Proof.
  intros [= <- <-]. split_and!.
  - apply filter_split_perm.
  - intros x. by rewrite list_elem_of_filter; intros [? _].
  - intros x. rewrite list_elem_of_filter. intros [? _]. lia.
Qed.

Lemma stage_cap max u c u' c' :
  cap_recent max (u, c) = (u', c') ->
  u' ++ c' ≡ₚ u ++ c /\ length u' = Nat.min max (length u) /\
  (forall x, x ∈ u' -> x ∈ u) /\
  (forall y, y ∈ c' -> y ∈ c \/ y ∈ u /\ length u' = max /\ forall x, x ∈ u' -> ts y <= ts x)%Z.
Proof.
  unfold cap_recent. case_decide as Hm; intros [= <- <-].
  - set (s := stable_sort newest_first u).
    assert (Hp : s ≡ₚ u) by apply stable_sort_perm.
    assert (Hl : length (take max s) = max).
    { rewrite length_take. pose proof (Permutation_length Hp). lia. }
    split_and!.
    + by rewrite (Permutation_app_comm c), app_assoc, take_drop, Hp.
    + rewrite Hl. lia.
    + intros x Hx. rewrite <- Hp. apply (elem_of_take_drop x max). auto.
    + intros y [Hy|Hy]%elem_of_app; [auto|]. right. split; [|split; [done|]].
      * rewrite <- Hp. apply (elem_of_take_drop y max). auto.
      * intros x Hx.
        pose proof (sorted_take_drop _ s max x y
          (stable_sort_sorted _ newest_first_total newest_first_trans u) Hx Hy) as H.
        by apply bool_decide_eq_true in H.
  - split_and!; [done|lia|done|auto].
Qed.

Lemma stage_kept kl u c u' c' :
  split_kept kl (u, c) = (u', c') ->
  u' ++ c' ≡ₚ u ++ c /\ length u' = length u + length (filter (fun x => fst x ∈ kl) c) /\
  (forall x, x ∈ u' <-> x ∈ u \/ x ∈ c /\ fst x ∈ kl) /\
  (forall y, y ∈ c' <-> y ∈ c /\ fst y ∉ kl) /\ u ⊆+ u'.
Proof.
  intros [= <- <-]. split_and!; [..|by apply submseteq_inserts_r].
  - rewrite <- app_assoc. f_equiv. apply (filter_split_perm (fun x => fst x ∈ kl)).
  - by rewrite length_app.
  - intros x. rewrite elem_of_app, list_elem_of_filter. tauto.
  - intros x. rewrite list_elem_of_filter. tauto.
Qed.

Lemma stage_backfill min u c u' c' :
  backfill min (u, c) = (u', c') ->
  u' ++ c' ≡ₚ u ++ c /\ length u' = Nat.max (length u) (Nat.min min (length u + length c)) /\
  (forall x, x ∈ u' -> x ∈ u \/ x ∈ c /\ forall y, y ∈ c' -> ts y <= ts x)%Z /\
  u ⊆+ u' /\ (forall y, y ∈ c' -> y ∈ c).
Proof.
  unfold backfill. case_decide as Hm; intros [= <- <-].
  - set (s := stable_sort oldest_first c).
    assert (Hp : s ≡ₚ c) by apply stable_sort_perm.
    assert (Hlen : length s = length c) by apply (Permutation_length Hp).
    set (cut := length s - _). split_and!.
    + rewrite <- app_assoc. f_equiv. by rewrite Permutation_app_comm, take_drop, Hp.
    + rewrite length_app, length_drop. unfold cut. lia.
    + intros x [Hx|Hx]%elem_of_app; [auto|]. right. split.
      * rewrite <- Hp. apply (elem_of_take_drop x cut). auto.
      * intros y Hy. pose proof (sorted_take_drop _ s cut y x
          (stable_sort_sorted _ oldest_first_total oldest_first_trans c) Hy Hx) as H.
        by apply bool_decide_eq_true in H.
    + by apply submseteq_inserts_r.
    + intros y Hy. rewrite <- Hp. apply (elem_of_take_drop y cut). auto.
  - split_and!; [done|lia|auto|done|done].
Qed.

(** What one run of [sort_out] past its early return went through. *)
Lemma sort_out_stages config now items kl r :
  sort_out config now items kl = Some r -> keep_min_directories config < length items ->
  exists mt u0 c0 u1 c1 u2 c2,
    time_sub now (keep_recent config) = Some mt /\
    partition_recent mt items = (u0, c0) /\
    cap_recent (keep_max_directories config) (u0, c0) = (u1, c1) /\
    split_kept kl (u1, c1) = (u2, c2) /\
    backfill (keep_min_directories config) (u2, c2) = (used r, unused r).
Proof.
  unfold sort_out. intros H Hl. rewrite decide_False in H by lia.
  destruct (time_sub _ _) as [mt|] eqn:Et; [|done]. cbn [mbind option_bind] in H.
  destruct (partition_recent mt items) as [u0 c0] eqn:E0.
  destruct (cap_recent _ (u0, c0)) as [u1 c1] eqn:E1.
  destruct (split_kept kl (u1, c1)) as [u2 c2] eqn:E2.
  destruct (backfill _ (u2, c2)) as [u3 c3] eqn:E3. injection H as <-.
  exists mt, u0, c0, u1, c1, u2, c2. split_and!; done.
Qed.

Lemma sort_out_early config now items kl r :
  sort_out config now items kl = Some r -> length items <= keep_min_directories config ->
  used r = items /\ unused r = [].
Proof. unfold sort_out. intros H Hl. rewrite decide_True in H by done. by injection H as <-. Qed.

Lemma sort_out_perm config now items kl r :
  sort_out config now items kl = Some r -> used r ++ unused r ≡ₚ items.
Proof.
  intros Hr. destruct (decide (length items <= keep_min_directories config)) as [Hl|Hl].
  - destruct (sort_out_early _ _ _ _ _ Hr Hl) as [-> ->]. by rewrite app_nil_r.
  - destruct (sort_out_stages _ _ _ _ _ Hr ltac:(lia))
      as (mt & u0 & c0 & u1 & c1 & u2 & c2 & _ & S0 & S1 & S2 & S3).
    apply stage_partition in S0 as (P0 & _ & _). apply stage_cap in S1 as (P1 & _ & _ & _).
    apply stage_kept in S2 as (P2 & _). apply stage_backfill in S3 as (P3 & _).
    by rewrite P3, P2, P1, P0.
Qed.

Lemma sort_out_returns config now items kl :
  is_Some (time_sub now (keep_recent config)) -> is_Some (sort_out config now items kl).
Proof.
  intros [mt Hmt]. unfold sort_out. case_decide; [by eexists|]. rewrite Hmt. cbn [mbind option_bind].
  destruct (backfill _ _). by eexists.
Qed.

End SortOut.

Lemma fold_min_spec (l : list Z) (t : Z) :
  (foldl Z.min t l = t \/ foldl Z.min t l ∈ l) /\ (forall z, z = t \/ z ∈ l -> foldl Z.min t l <= z)%Z.
Proof.
  revert t. induction l as [|x l IH]; intros t; simpl.
  - split; [auto|]. intros z [->|?%not_elem_of_nil]; [lia|done].
  - destruct (IH (Z.min t x)) as [H1 H2]. setoid_rewrite elem_of_cons. split.
    + destruct H1 as [->|H1]; [|auto]. destruct (Z.min_spec t x) as [[_ ->]|[_ ->]]; auto.
    + intros z [->|[->|Hz]]; [..|by apply H2; right];
        specialize (H2 _ (or_introl eq_refl)); lia.
Qed.

(** The time of an image is the earliest time stamp of its signatures. *)
Lemma biggest_timestamp_spec st :
  (signatures st = [] /\ biggest_timestamp st = 0%Z) \/
  (exists e, e ∈ signatures st /\ biggest_timestamp st = timestamp e /\
     forall e', e' ∈ signatures st -> (timestamp e <= timestamp e')%Z).
Proof.
  unfold biggest_timestamp. destruct (signatures st) as [|e es]; [by left|right]. cbn [map].
  destruct (fold_min_spec (map timestamp es) (timestamp e)) as [H1 H2].
  assert (Hle : forall e', e' ∈ e :: es -> (foldl Z.min (timestamp e) (map timestamp es) <= timestamp e')%Z).
  { intros e' [->|Hin]%elem_of_cons; apply H2; [by left|right]. apply list_elem_of_fmap. eauto. }
  destruct H1 as [H1|(e1 & H1 & Hin)%list_elem_of_fmap].
  - exists e. rewrite <- H1 at 2. split_and!; [constructor|done|].
    intros e' He'. specialize (Hle e' He'). lia.
  - exists e1. rewrite H1 in *. split_and!; [by constructor|done|]. intros e' He'. by apply Hle.
Qed.

(** ** Properties *)

(** C28. A clean-up loses and invents nothing, and keeps what it promises: the
    images to keep and the images to delete are together exactly the images
    found; at least [keep_min_directories] images are kept (or all of them);
    no image of the keep list is deleted; and apart from the keep list and the
    minimum at most [keep_max_directories] are kept.  The only way not to get
    an answer is a [keep_recent] before the range of [SystemTime]. *)
Theorem sort_out_conserves {T} `{EqDecision T} config now (items : list (T * State)) kl :
  (forall r, sort_out config now items kl = Some r ->
     used r ++ unused r ≡ₚ items /\
     Nat.min (keep_min_directories config) (length items) <= length (used r) /\
     (forall y, y ∈ unused r -> fst y ∉ kl) /\
     (keep_min_directories config < length items ->
      length (used r) <= Nat.max (keep_min_directories config)
        (keep_max_directories config + length (filter (fun x => fst x ∈ kl) items)))) /\
  (sort_out config now items kl = None <->
   keep_min_directories config < length items /\ time_sub now (keep_recent config) = None).
Proof.
  split.
  - intros r Hr. destruct (decide (length items <= keep_min_directories config)) as [Hl|Hl].
    + destruct (sort_out_early _ _ _ _ _ Hr Hl) as [-> ->]. rewrite app_nil_r.
      split_and!; [done|lia|by intros ? ?%not_elem_of_nil|lia].
    + destruct (sort_out_stages _ _ _ _ _ Hr ltac:(lia))
        as (mt & u0 & c0 & u1 & c1 & u2 & c2 & _ & S0 & S1 & S2 & S3).
      apply stage_partition in S0 as (P0 & _ & _).
      apply stage_cap in S1 as (P1 & L1 & _ & _).
      apply stage_kept in S2 as (P2 & L2 & _ & K2 & _).
      apply stage_backfill in S3 as (P3 & L3 & _ & _ & K3).
      assert (Hp : u1 ++ c1 ≡ₚ items) by (by rewrite P1, P0).
      assert (Hf : length (filter (fun x => fst x ∈ kl) c1) <= length (filter (fun x => fst x ∈ kl) items)).
      { rewrite <- Hp, filter_app, length_app. lia. }
      assert (Ht : length items = length u2 + length c2).
      { rewrite <- length_app. by rewrite P2, Hp. }
      split_and!; [by rewrite P3, P2, Hp|lia| |lia].
      intros y Hy. by apply K3, K2 in Hy as [_ ?].
  - unfold sort_out. case_decide as Hl; [split; [done|lia]|].
    destruct (time_sub _ _) as [mt|]; cbn [mbind option_bind].
    + split; [|by intros [_ ?]]. by destruct (backfill _ _).
    + split; [|done]. intros _. split; [lia|done].
Qed.

(** An example in the shape of the source's tests: five one-signature images,
    two to keep at least, at most two recent ones. *)
Definition example_image (n : nat) (t : Z) : nat * State :=
  (n, {| image := ImageId.from_slice []; signatures :=
         [{| timestamp := t; signature := Signature.SshEd25519 [] |}] |}).
Definition example_config : Directory :=
  {| directory := []; append_only := true; num_levels := 1; upload_keys := []; download_keys := [];
     auto_clean := true; keep_list_file := None; keep_min_directories := 2;
     keep_max_directories := 2; keep_recent := 30 |}.
Definition example_items : list (nat * State) :=
  [example_image 0 10; example_image 1 95; example_image 2 85; example_image 3 20; example_image 4 90].

Example sort_out_example :
  (fun r => (map fst (used r), map fst (unused r))) <$> sort_out example_config 100 example_items [3]
  = Some ([1; 4; 3], [0; 2]).
Proof. vm_compute. reflexivity. Qed.

(** A clean-up deletes the oldest images first: an image that is kept
    although it is not on the keep list is at least as new as every image that
    is deleted, where the time of an image is the earliest time stamp of its
    signatures; and an image more recent than [keep_recent] is deleted only
    when [keep_max_directories] images at least as new are kept. *)
Theorem sort_out_newest {T} `{EqDecision T} config now (items : list (T * State)) kl r y :
  sort_out config now items kl = Some r -> y ∈ unused r ->
  (forall x, x ∈ used r -> fst x ∈ kl \/ (ts y <= ts x)%Z) /\
  ((now - keep_recent config <= ts y)%Z ->
   exists newer, newer ⊆+ used r /\ length newer = keep_max_directories config /\
     forall x, x ∈ newer -> (ts y <= ts x)%Z) /\
  (forall e, e ∈ signatures (snd y) -> (ts y <= timestamp e)%Z) /\
  (signatures (snd y) <> [] -> exists e, e ∈ signatures (snd y) /\ ts y = timestamp e).
Proof.
  intros Hr Hy.
  destruct (decide (length items <= keep_min_directories config)) as [Hl|Hl].
  { destruct (sort_out_early _ _ _ _ _ Hr Hl) as [_ E]. rewrite E in Hy. by apply not_elem_of_nil in Hy. }
  destruct (sort_out_stages _ _ _ _ _ Hr ltac:(lia))
    as (mt & u0 & c0 & u1 & c1 & u2 & c2 & Et & S0 & S1 & S2 & S3).
  apply stage_partition in S0 as (_ & U0 & C0).
  apply stage_cap in S1 as (_ & _ & U1 & C1).
  apply stage_kept in S2 as (_ & _ & U2 & C2 & B2).
  apply stage_backfill in S3 as (_ & _ & U3 & B3 & C3).
  pose proof Hy as Hy1. apply C3, C2 in Hy1 as [Hy1 _]. split_and!.
  - intros x Hx. apply U3 in Hx as [[Hx|[_ ?]]%U2|[_ Hx]]; [|by left|right; by apply Hx].
    right. apply C1 in Hy1 as [Hy1|(_ & _ & Hle)]; [|by apply Hle].
    specialize (C0 _ Hy1). specialize (U0 _ (U1 _ Hx)). lia.
  - intros Hnow. unfold time_sub in Et. case_decide; simplify_eq.
    apply C1 in Hy1 as [Hy1|(_ & Hlen & Hle)]; [specialize (C0 _ Hy1); lia|].
    exists u1. split; [by etrans|]. split; [done|]. intros x Hx. by apply Hle.
  - unfold ts. destruct (biggest_timestamp_spec (snd y)) as [[-> _]|(e & _ & -> & H)]; [|done].
    by intros e ?%not_elem_of_nil.
  - unfold ts. destruct (biggest_timestamp_spec (snd y)) as [[-> _]|(e & ? & -> & _)]; [done|eauto].
Qed.

Lemma sort_out_newest_witness :
  exists r y, sort_out example_config 100 example_items [3] = Some r /\ y ∈ unused r /\
  (forall x, x ∈ used r -> fst x ∈ [3] \/ (ts y <= ts x)%Z).
Proof.
  eexists. exists (example_image 0 10). split; [reflexivity|].
  assert (Hin : example_image 0 10 ∈ unused {| used := [example_image 1 95; example_image 4 90; example_image 3 20];
                         unused := [example_image 0 10; example_image 2 85] |}) by constructor.
  split; [exact Hin|].
  exact (proj1 (sort_out_newest example_config 100 example_items [3] _ (example_image 0 10) eq_refl Hin)).
Defined.
