(* ===== verification/ConfigMap.v ===== *)
(** * Which peer has which base directories: [src/daemon/peers/two_way_map.rs]

    A peer announces the set of base directories it has ([ConfigSync]); the
    map keeps the announcement of every peer ([forward]) and the set of peers
    of every directory ([backward]).  [serde_cbor] and [blake2b] are the
    parameters of [Hash.for_object]. *)
From S2P Require Import Prelude Serde VirtualPath Ids.
Import VPath MachineId.

Record HostInfo := { hash : Hash.Hash; configs : gset VPath }.

Record ConfigMap := {
  forward : gmap MachineId HostInfo;
  backward : gmap VPath (gset MachineId)
}.

Definition new : ConfigMap := {| forward := ∅; backward := ∅ |}.

Section ConfigMap.
Context (blake2b_256 : bytes -> bytes) (cbor : Value -> bytes) `{Wire (gset VPath)}.

Definition hash_of (c : gset VPath) : Hash.Hash := Hash.for_object blake2b_256 cbor c.

(** [self.backward.entry(item).or_insert_with(HashSet::new).insert(machine)]
    for every item. *)
Definition link (machine : MachineId) (items : list VPath) (b : gmap VPath (gset MachineId))
  : gmap VPath (gset MachineId) :=
  foldl (fun b item => <[item := {[machine]} ∪ default ∅ (b !! item)]> b) b items.

(** The loop over the old configs; [None] is [unreachable!()]. *)
Fixpoint unlink (machine : MachineId) (configs : gset VPath) (old : list VPath)
    (b : gmap VPath (gset MachineId)) : option (gmap VPath (gset MachineId)) :=
  match old with
  | [] => Some b
  | vpath :: old' =>
      if decide (vpath ∉ configs) then
        match b !! vpath with
        | None => None
        | Some e =>
            let e' : gset MachineId := e ∖ {[machine]} in
            unlink machine configs old'
              (if decide (e' = ∅) then delete vpath b else <[vpath := e']> b)
        end
      else unlink machine configs old' b
  end.

(** [set]; [None] is a panic. *)
Definition set (machine : MachineId) (c : gset VPath) (m : ConfigMap) : option ConfigMap :=
  let h := hash_of c in
  match forward m !! machine with
  | None =>
      Some {| backward := link machine (elements c) (backward m);
              forward := <[machine := {| hash := h; configs := c |}]> (forward m) |}
  | Some e =>
      if decide (hash e = h) then Some m
      else
        b ← unlink machine c (elements (configs e)) (backward m);
        Some {| backward := link machine (elements c) b;
                forward := <[machine := {| hash := h; configs := c |}]> (forward m) |}
  end.

Definition get (host : MachineId) (m : ConfigMap) : option HostInfo := forward m !! host.
Definition by_dir (dir : VPath) (m : ConfigMap) : option (gset MachineId) := backward m !! dir.
Definition all_hosts (m : ConfigMap) : gmap MachineId HostInfo := forward m.
Definition all_dirs (m : ConfigMap) : gmap VPath (gset MachineId) := backward m.

(** Announcements applied in order. *)
Fixpoint set_all (anns : list (MachineId * gset VPath)) (m : ConfigMap) : option ConfigMap :=
  match anns with
  | [] => Some m
  | (mid, c) :: anns' => m' ← set mid c m; set_all anns' m'
  end.

(** ** Lemmas *)

(** The directories the map holds for a peer, and the peers it holds for a
    directory. *)
Definition dirs_of (m : ConfigMap) (mid : MachineId) : gset VPath :=
  default ∅ (configs <$> forward m !! mid).
Definition peers_of (b : gmap VPath (gset MachineId)) (v : VPath) : gset MachineId :=
  default ∅ (b !! v).

Definition well_formed (m : ConfigMap) : Prop :=
  (forall mid v, v ∈ dirs_of m mid <-> mid ∈ peers_of (backward m) v) /\
  (forall v s, backward m !! v = Some s -> s <> ∅) /\
  (forall mid e, forward m !! mid = Some e -> hash e = hash_of (configs e)).

Lemma peers_of_insert b v s v' :
  peers_of (<[v := s]> b) v' = if decide (v' = v) then s else peers_of b v'.
Proof. unfold peers_of. rewrite lookup_insert. repeat case_decide; by subst. Qed.

Lemma link_spec mid items b v p :
  p ∈ peers_of (link mid items b) v <-> (p = mid /\ v ∈ items) \/ p ∈ peers_of b v.
Proof.
  revert b. induction items as [|i items IH]; intros b; cbn [link foldl].
  - rewrite elem_of_nil. tauto.
  - fold (link mid items (<[i := {[mid]} ∪ default ∅ (b !! i)]> b)).
    rewrite IH, peers_of_insert, elem_of_cons. case_decide; subst; [|tauto].
    fold (peers_of b i). set_solver.
Qed.

Lemma link_nonempty mid items b :
  (forall v s, b !! v = Some s -> s <> ∅) -> forall v s, link mid items b !! v = Some s -> s <> ∅.
Proof.
  revert b. induction items as [|i items IH]; intros b Hb; [exact Hb|].
  apply IH. intros v s. rewrite lookup_insert. case_decide; [|apply Hb]. intros [= <-]. set_solver.
Qed.

Lemma unlink_spec mid c old b :
  (forall v, v ∈ old -> v ∉ c -> mid ∈ peers_of b v) -> NoDup old ->
  (forall v s, b !! v = Some s -> s <> ∅) ->
  exists b', unlink mid c old b = Some b' /\
    (forall v p, p ∈ peers_of b' v <-> p ∈ peers_of b v /\ ~ (p = mid /\ v ∈ old /\ v ∉ c)) /\
    (forall v s, b' !! v = Some s -> s <> ∅).
Proof.
  revert b. induction old as [|i old IH]; intros b Hin Hnd Hne; cbn [unlink].
  - exists b. split; [done|]. setoid_rewrite elem_of_nil. split; [tauto|done].
  - apply NoDup_cons in Hnd as [Hi Hnd]. case_decide as Hc.
    + pose proof (Hin i ltac:(constructor) Hc) as Hmid. unfold peers_of in Hmid.
      destruct (b !! i) as [e|] eqn:Ei; [|set_solver].
      set (b1 := if decide (e ∖ {[mid]} = ∅) then delete i b else <[i := e ∖ {[mid]}]> b).
      assert (Hb1 : forall v, peers_of b1 v = if decide (v = i) then e ∖ {[mid]} else peers_of b v).
      { intros v. unfold b1. case_decide as He; [|apply peers_of_insert].
        unfold peers_of. case_decide; subst; [by rewrite lookup_delete_eq|by rewrite lookup_delete_ne]. }
      destruct (IH b1) as (b' & Hb' & Hsp & Hne').
      * intros v Hv Hvc. rewrite Hb1. case_decide; [by subst|]. apply Hin; [by constructor|done].
      * done.
      * intros v s. unfold b1. case_decide as He.
        -- rewrite lookup_delete. case_decide; [done|apply Hne].
        -- rewrite lookup_insert. case_decide; [by intros [= <-]|apply Hne].
      * exists b'. split; [done|]. split; [|done]. intros v p.
        rewrite Hsp, Hb1, elem_of_cons. case_decide; subst; [|naive_solver].
        unfold peers_of. rewrite Ei. simpl. set_solver.
    + destruct (IH b) as (b' & Hb' & Hsp & Hne').
      * intros v Hv. apply Hin. by constructor.
      * done.
      * done.
      * exists b'. split; [done|]. split; [|done]. intros v p. rewrite Hsp, elem_of_cons. naive_solver.
Qed.

Lemma new_well_formed : well_formed new.
Proof.
  split_and!; simpl.
  - intros mid v. unfold dirs_of, peers_of. simpl. rewrite !lookup_empty. set_solver.
  - intros v s. by rewrite lookup_empty.
  - intros v s. by rewrite lookup_empty.
Qed.

Lemma dirs_of_insert m b mid e p :
  dirs_of {| backward := b; forward := <[mid := e]> (forward m) |} p =
  if decide (p = mid) then configs e else dirs_of m p.
Proof. unfold dirs_of. simpl. rewrite lookup_insert. repeat case_decide; by subst. Qed.

Lemma set_spec mid c m :
  well_formed m ->
  exists m', set mid c m = Some m' /\ well_formed m' /\
    (forall p, p <> mid -> forward m' !! p = forward m !! p) /\
    (exists e, forward m' !! mid = Some e /\ hash e = hash_of c /\
       (configs e = c \/ forward m !! mid = Some e)).
Proof.
  intros (Hi & Hne & Hh). unfold set. destruct (forward m !! mid) as [e|] eqn:Ef.
  - case_decide as Hhash; [by eexists; split; [done|]; split; [done|]; eauto 6|].
    destruct (unlink_spec mid c (elements (configs e)) (backward m)) as (b & -> & Hb & Hbne).
    + intros v Hv Hvc. apply Hi. unfold dirs_of. rewrite Ef. simpl. set_solver.
    + apply NoDup_elements.
    + done.
    + cbn [mbind option_bind]. eexists; split; [done|]. split; [split_and!|split].
      * intros p v. rewrite dirs_of_insert. simpl. rewrite link_spec, Hb, !elem_of_elements, <- Hi.
        case_decide; [subst p|naive_solver]. unfold dirs_of. rewrite Ef. simpl.
        destruct (decide (v ∈ c)); naive_solver.
      * by apply link_nonempty.
      * intros p e'. simpl. rewrite lookup_insert. case_decide; [by intros [= <-]|apply Hh].
      * intros p Hp. simpl. by rewrite lookup_insert_ne.
      * simpl. rewrite lookup_insert_eq. eauto.
  - eexists; split; [done|]. split; [split_and!|split].
    + intros p v. rewrite dirs_of_insert. simpl. rewrite link_spec, !elem_of_elements, <- Hi.
      case_decide; [subst p|naive_solver]. unfold dirs_of. rewrite Ef. simpl. set_solver.
    + by apply link_nonempty.
    + intros p e'. simpl. rewrite lookup_insert. case_decide; [by intros [= <-]|apply Hh].
    + intros p Hp. simpl. by rewrite lookup_insert_ne.
    + simpl. rewrite lookup_insert_eq. eauto.
Qed.

(** The last announcement of a peer. *)
Definition last_announced (anns : list (MachineId * gset VPath)) (mid : MachineId) : option (gset VPath) :=
  last (omap (fun a => if decide (fst a = mid) then Some (snd a) else None) anns).

Lemma set_all_snoc anns a m :
  set_all (anns ++ [a]) m = m' ← set_all anns m; set (fst a) (snd a) m'.
Proof.
  revert m. induction anns as [|[p c] anns IH]; intros m; cbn [set_all app].
  - destruct a as [p c]. simpl. by destruct (set p c m).
  - destruct (set p c m) as [m'|]; [|done]. cbn [mbind option_bind]. apply IH.
Qed.

Lemma last_announced_snoc anns p c q :
  last_announced (anns ++ [(p, c)]) q = if decide (p = q) then Some c else last_announced anns q.
Proof.
  unfold last_announced. rewrite omap_app. cbn [omap list_omap fst snd].
  case_decide; [by rewrite last_snoc|by rewrite app_nil_r].
Qed.

Lemma last_announced_in anns q c : last_announced anns q = Some c -> (q, c) ∈ anns.
Proof.
  unfold last_announced. intros H1. apply last_Some_elem_of in H1.
  apply list_elem_of_omap in H1 as ([p c'] & Hin & Hc). case_decide; simplify_eq/=. done.
Qed.
End ConfigMap.

(** ** Properties *)

(** The two maps are inverse of each other: whatever peers announce, in
    whatever order, [set] never reaches its [unreachable!()]; a peer is among
    the peers of a directory exactly when the directory is among those kept for
    the peer, no directory is kept with an empty set of peers, and the hash
    kept for a peer is the hash of its directories; and when no two announced
    sets have the same hash, what is kept for a peer is its last
    announcement. *)
Theorem config_map_inverse (blake2b_256 : bytes -> bytes) (cbor : Value -> bytes) `{Wire (gset VPath)}
    (anns : list (MachineId * gset VPath)) :
  exists m, set_all blake2b_256 cbor anns new = Some m /\
    (forall mid v, (exists s, by_dir v m = Some s /\ mid ∈ s) <->
                   (exists e, get mid m = Some e /\ v ∈ configs e)) /\
    (forall v s, by_dir v m = Some s -> s <> ∅) /\
    (forall mid e, get mid m = Some e -> hash e = hash_of blake2b_256 cbor (configs e)) /\
    ((forall a b, a ∈ anns -> b ∈ anns ->
        hash_of blake2b_256 cbor (snd a) = hash_of blake2b_256 cbor (snd b) -> snd a = snd b) ->
     forall mid, configs <$> get mid m = last_announced anns mid).
Proof.
  assert (Hmain : exists m, set_all blake2b_256 cbor anns new = Some m /\
    well_formed blake2b_256 cbor m /\
    ((forall a b, a ∈ anns -> b ∈ anns ->
        hash_of blake2b_256 cbor (snd a) = hash_of blake2b_256 cbor (snd b) -> snd a = snd b) ->
     forall mid, configs <$> get mid m = last_announced anns mid)).
  { induction anns as [|[p c] anns IH] using rev_ind.
    - exists new. split; [done|]. split; [apply new_well_formed|]. intros _ mid.
      unfold get. simpl. by rewrite lookup_empty.
    - destruct IH as (m & Hm & Hwf & Hlast).
      destruct (set_spec blake2b_256 cbor p c m Hwf) as (m' & Hs & Hwf' & Hoth & e & He & Hhash & Hor).
      exists m'. rewrite set_all_snoc, Hm. split; [done|]. split; [done|].
      intros Hinj mid. rewrite last_announced_snoc. unfold get in *.
      assert (Hl : forall q, configs <$> forward m !! q = last_announced anns q).
      { apply Hlast. intros a b Ha Hb. apply Hinj; set_solver. }
      case_decide; [subst mid|by rewrite Hoth, Hl].
      rewrite He. simpl. f_equal. destruct Hor as [?|Hf]; [done|].
      destruct Hwf as (_ & _ & Hh). pose proof (Hh _ _ Hf) as Hh'. specialize (Hl p). rewrite Hf in Hl.
      symmetry in Hl. apply last_announced_in in Hl.
      apply (Hinj (p, configs e) (p, c)); [set_solver..|]. simpl. congruence. }
  destruct Hmain as (m & Hm & (Hi & Hne & Hh) & Hlast). exists m. split_and!; [done| |done..].
  intros mid v. specialize (Hi mid v). unfold dirs_of, peers_of in Hi. unfold by_dir, get.
  destruct (forward m !! mid), (backward m !! v); simpl in Hi; set_solver.
Qed.
