(* ===== verification/Peers.v ===== *)
(** * What is known of the peers: [src/daemon/peers/mod.rs], [packets.rs],
    [peers/config.rs], and the data of [peers/gossip.rs]

    The tables the gossip subsystem shares with the rest of the daemon, and the
    questions the download code asks them.  A table behind a mutex is a value;
    every operation takes the lock once, so it sees one value of each table.
    Iteration over a [HashMap] is [map_to_list]: its order is not specified. *)
From S2P Require Import Prelude Serde VirtualPath Ids Mask Config ConfigMap.
Import VPath ImageId MachineId.

(** [std::net::SocketAddr]: the address as a number and the port. *)
Record SocketAddr := { ip : Z; sport : Z }.
#[global] Instance SocketAddr_eq_dec : EqDecision SocketAddr.
Proof. solve_decision. Defined.
#[global] Instance SocketAddr_countable : Countable SocketAddr.
Proof.
  apply (inj_countable' (fun a => (ip a, sport a)) (fun p => {| ip := fst p; sport := snd p |})).
  by intros [].
Defined.

Record Peer := { id : MachineId; addr : SocketAddr; peer_hostname : string; name : string }.

Record Downloading := { dw_image : ImageId; dw_mask : Mask; dw_source : bool; dw_stalled : bool }.

Record HostData := {
  downloading : gmap VPath Downloading;
  complete : gmap VPath ImageId;
  watching : gset VPath;
  deleted : gset (VPath * ImageId)
}.
(** The closure of every [or_insert_with]. *)
Definition empty_host : HostData :=
  {| downloading := ∅; complete := ∅; watching := ∅; deleted := ∅ |}.

(** [enum Message]; [MessageRef] has the same wire form. *)
Inductive Message :=
| BaseDirs (in_progress : gmap VPath (ImageId * Mask * bool * bool)) (watching : gset VPath)
    (complete : gmap VPath ImageId) (deleted : gset (VPath * ImageId)) (base_dirs : gmap VPath Hash.Hash)
| MDownloading (path : VPath) (image : ImageId) (mask : Mask) (source : bool) (watches : gset MachineId)
| Reconcile (path : VPath) (hash : Hash.Hash) (watches : gmap VPath (gset MachineId))
| Complete (path : VPath) (image : ImageId)
| CompleteAck (path : VPath)
| ConfigSync (paths : gset VPath).

Record Packet := { pkt_machine_id : MachineId; your_config : option Hash.Hash; message : Message }.

(** [struct Peers]; [messages] is the channel to the gossip subsystem, [None]
    when its receiver is gone. *)
Record Peers := {
  by_host : gmap MachineId HostData;
  configs : ConfigMap;
  peers : gmap MachineId Peer;
  messages : option (list Message)
}.

(** [unbounded_send(..).expect("gossip subsystem crashed")]. *)
Definition send_message (m : Message) (p : Peers) : option Peers :=
  q ← messages p;
  Some {| by_host := by_host p; configs := configs p; peers := peers p; messages := Some (q ++ [m]) |}.

Definition notify_progress (path : VPath) (image_id : ImageId) (mask : Mask) (source : bool) (p : Peers)
  : option Peers := send_message (MDownloading path image_id mask source ∅) p.
Definition notify_basedir (path : VPath) (hash : Hash.Hash) (p : Peers) : option Peers :=
  send_message (Reconcile path hash ∅) p.
Definition notify_complete (path : VPath) (image_id : ImageId) (p : Peers) : option Peers :=
  send_message (Complete path image_id) p.

(** The addresses one host contributes to [addrs_by_mask]. *)
Definition host_addrs (peer : option Peer) (host : HostData) (vpath : VPath) (targ_id : ImageId)
    (targ_mask : Mask) : list SocketAddr :=
  match complete host !! vpath with
  | Some img => if decide (img = targ_id) then from_option (fun p => [addr p]) [] peer else []
  | None => []
  end ++
  match downloading host !! vpath with
  | Some dw =>
      if bool_decide (dw_image dw = targ_id) && is_superset_of (dw_mask dw) targ_mask
      then from_option (fun p => [addr p]) [] peer else []
  | None => []
  end.

Definition addrs_by_mask (vpath : VPath) (targ_id : ImageId) (targ_mask : Mask) (p : Peers)
  : list SocketAddr :=
  mjoin (map (fun e => host_addrs (peers p !! fst e) (snd e) vpath targ_id targ_mask)
             (map_to_list (by_host p))).

(** [None] is the panic of [key_vpath]. *)
Definition addrs_by_basedir (vpath : VPath) (p : Peers) : option (list SocketAddr) :=
  k ← key_vpath vpath;
  Some (match by_dir k (configs p) with
        | Some ids => omap (fun i => addr <$> peers p !! i) (elements ids)
        | None => []
        end).

Definition servers_by_basedir (vpath : VPath) (p : Peers) : option (gmap MachineId string) :=
  k ← key_vpath vpath;
  Some (match by_dir k (configs p) with
        | Some ids => list_to_map (omap (fun i => (fun x => (i, name x)) <$> peers p !! i) (elements ids))
        | None => ∅
        end).

Definition get_all_watching (p : Peers) : gset VPath :=
  foldl (fun result host => dom (downloading host) ∪ watching host ∪ result) ∅
        (map snd (map_to_list (by_host p))).

(** The counters of [check_stalled]. *)
Record StaleCount := { stalled : nat; n_deleted : nat; sources : nat; possibly_okay : nat; wrong_image : nat }.
Definition no_stale : StaleCount :=
  {| stalled := 0; n_deleted := 0; sources := 0; possibly_okay := 0; wrong_image := 0 |}.
Definition b2n (b : bool) : nat := if b then 1 else 0.

Definition stale_step (hdata : gmap MachineId HostData) (path : VPath) (image : ImageId)
    (c : StaleCount) (pid : MachineId) : StaleCount :=
  let okay := {| stalled := stalled c; n_deleted := n_deleted c; sources := sources c;
                 possibly_okay := possibly_okay c + 1; wrong_image := wrong_image c |} in
  match hdata !! pid with
  | Some peer =>
      match downloading peer !! path with
      | Some dir =>
          if decide (dw_image dir = image) then
            {| stalled := stalled c + b2n (dw_stalled dir); n_deleted := n_deleted c;
               sources := sources c + b2n (dw_source dir);
               possibly_okay := possibly_okay c + b2n (negb (dw_stalled dir));
               wrong_image := wrong_image c |}
          else {| stalled := stalled c; n_deleted := n_deleted c; sources := sources c;
                  possibly_okay := possibly_okay c; wrong_image := wrong_image c + 1 |}
      | None =>
          if decide ((path, image) ∈ deleted peer) then
            {| stalled := stalled c; n_deleted := n_deleted c + 1; sources := sources c;
               possibly_okay := possibly_okay c; wrong_image := wrong_image c |}
          else okay
      end
  | None => okay
  end.

Definition check_stalled (path : VPath) (image : ImageId) (p : Peers) : option bool :=
  k ← key_vpath path;
  let needed_peers := default ∅ (by_dir k (configs p)) in
  let c := foldl (stale_step (by_host p) path image) no_stale (elements needed_peers) in
  Some (bool_decide (size needed_peers <= stalled c + n_deleted c) &&
        bool_decide (possibly_okay c = 0) && bool_decide (sources c = 0)).

(** ** [peers/config.rs] *)

Record RemoteConfig := {
  rc_num_levels : nat; rc_auto_clean : bool; rc_keep_min : nat; rc_keep_max : nat; rc_keep_recent : Z
}.
Definition remote_config (cfg : Directory) : RemoteConfig :=
  {| rc_num_levels := num_levels cfg; rc_auto_clean := auto_clean cfg;
     rc_keep_min := keep_min_directories cfg; rc_keep_max := keep_max_directories cfg;
     rc_keep_recent := keep_recent cfg |}.
Definition get_hash (blake2b_256 : bytes -> bytes) (cbor : Value -> bytes) `{Wire RemoteConfig}
    (cfg : Directory) : Hash.Hash := Hash.for_object blake2b_256 cbor (remote_config cfg).

(** ** Lemmas *)

Lemma elem_of_mjoin {A} (x : A) (ls : list (list A)) : x ∈ mjoin ls <-> exists l, l ∈ ls /\ x ∈ l.
Proof. rewrite list_elem_of_join. naive_solver. Qed.

Lemma from_option_addr a (o : option Peer) :
  a ∈ from_option (fun p => [addr p]) [] o <-> exists q, o = Some q /\ a = addr q.
Proof. destruct o; simpl; [rewrite list_elem_of_singleton|rewrite elem_of_nil]; naive_solver. Qed.

(** A host has the wanted part of an image. *)
Definition has_part (host : HostData) (vpath : VPath) (targ_id : ImageId) (targ_mask : Mask) : Prop :=
  complete host !! vpath = Some targ_id \/
  exists dw, downloading host !! vpath = Some dw /\ dw_image dw = targ_id /\
    forall i : nat, has targ_mask i = true -> has (dw_mask dw) i = true.

Lemma host_addrs_spec a peer host vpath ti tm :
  mask_ok tm -> (forall dw, downloading host !! vpath = Some dw -> mask_ok (dw_mask dw)) ->
  a ∈ host_addrs peer host vpath ti tm <->
  has_part host vpath ti tm /\ exists q, peer = Some q /\ a = addr q.
Proof.
  intros Ht Hd. unfold host_addrs, has_part. rewrite elem_of_app.
  assert (H1 : a ∈ match complete host !! vpath with
    | Some img => if decide (img = ti) then from_option (fun p => [addr p]) [] peer else []
    | None => [] end <-> complete host !! vpath = Some ti /\ exists q, peer = Some q /\ a = addr q).
  { destruct (complete host !! vpath) as [img|]; [|rewrite elem_of_nil; naive_solver].
    case_decide; [rewrite from_option_addr|rewrite elem_of_nil]; naive_solver. }
  rewrite H1. destruct (downloading host !! vpath) as [dw|]; [|rewrite elem_of_nil; naive_solver].
  specialize (Hd dw eq_refl). destruct (bool_decide (dw_image dw = ti)) eqn:Ei;
    [apply bool_decide_eq_true in Ei|apply bool_decide_eq_false in Ei]; simpl.
  - destruct (is_superset_of (dw_mask dw) tm) eqn:Es.
    + rewrite superset_iff in Es by done. rewrite from_option_addr. naive_solver.
    + rewrite elem_of_nil. split; [naive_solver|]. intros [[Hc|(dw' & [= <-] & _ & Hm)] Hq]; [auto|].
      apply superset_iff in Hm; [congruence|done].
  - rewrite elem_of_nil. naive_solver.
Qed.

Lemma addrs_by_mask_spec a vpath ti tm p :
  mask_ok tm ->
  (forall mid h dw, by_host p !! mid = Some h -> downloading h !! vpath = Some dw -> mask_ok (dw_mask dw)) ->
  a ∈ addrs_by_mask vpath ti tm p <->
  exists mid h q, by_host p !! mid = Some h /\ has_part h vpath ti tm /\
    peers p !! mid = Some q /\ a = addr q.
Proof.
  intros Ht Hd. unfold addrs_by_mask. rewrite elem_of_mjoin. split.
  - intros (l & Hl & Ha). apply list_elem_of_fmap in Hl as ([mid h] & -> & Hin).
    apply elem_of_map_to_list in Hin. apply host_addrs_spec in Ha as (Hp & q & Hq & ->); eauto 10.
  - intros (mid & h & q & Hh & Hp & Hq & ->). eexists. split.
    + apply list_elem_of_fmap. exists (mid, h). split; [done|]. by apply elem_of_map_to_list.
    + apply host_addrs_spec; eauto.
Qed.

Section Stalled.
Context (hdata : gmap MachineId HostData) (path : VPath) (image : ImageId).

(** What [check_stalled] requires of one peer of the directory. *)
Definition gave_up (pid : MachineId) : Prop :=
  exists h, hdata !! pid = Some h /\
    ((exists dw, downloading h !! path = Some dw /\ dw_image dw = image /\
        dw_stalled dw = true /\ dw_source dw = false) \/
     (downloading h !! path = None /\ (path, image) ∈ deleted h)).

Definition good (n : nat) (c : StaleCount) : Prop :=
  n <= stalled c + n_deleted c /\ possibly_okay c = 0 /\ sources c = 0.

Lemma stale_step_good n c pid :
  stalled c + n_deleted c <= n ->
  (good (S n) (stale_step hdata path image c pid) <-> good n c /\ gave_up pid) /\
  stalled (stale_step hdata path image c pid) + n_deleted (stale_step hdata path image c pid) <= S n.
Proof.
  intros Hle. unfold good, gave_up, stale_step.
  destruct (hdata !! pid) as [h|]; simpl; [|split; [split; [lia|naive_solver]|lia]].
  destruct (downloading h !! path) as [dw|] eqn:Ed; simpl.
  - case_decide as Hi; simpl.
    + destruct (dw_stalled dw) eqn:Es, (dw_source dw) eqn:Eo; simpl; (split; [split|lia]).
      all: try (intros (? & h' & [= <-] & [(dw' & Hdw & _ & ? & ?)|[? _]]); simplify_eq; first [congruence|lia]).
      all: intros (? & ? & ?); try lia.
      split; [lia|]. exists h. split; [done|]. left. eauto 6.
    + split; [|lia]. split; [lia|]. intros (_ & h' & [= <-] & [(dw' & Hdw & ? & _)|[? _]]); congruence.
  - case_decide as Hi; simpl.
    + split; [|lia]. split; [intros (?&?&?); split; [lia|]; eauto 10|]. intros [? _]. lia.
    + split; [|lia]. split; [lia|]. intros (_ & h' & [= <-] & [(dw' & ? & _)|[_ ?]]); congruence.
Qed.

Lemma stale_fold_good l n c :
  stalled c + n_deleted c <= n ->
  good (n + length l) (foldl (stale_step hdata path image) c l) <-> good n c /\ forall p, p ∈ l -> gave_up p.
Proof.
  revert n c. induction l as [|p l IH]; intros n c Hle; simpl.
  - rewrite Nat.add_0_r. setoid_rewrite elem_of_nil. naive_solver.
  - destruct (stale_step_good n c p Hle) as [Hg Hle'].
    rewrite <- Nat.add_succ_comm, (IH (S n) _ Hle'), Hg. setoid_rewrite elem_of_cons. naive_solver.
Qed.
End Stalled.

(** ** Properties *)

(** An image is reported stalled exactly when every peer that has the
    base directory gave it up: the peer downloads this very image without
    progress and without a client that still has it, or it no longer downloads
    the path and reports the image as deleted.  A peer nothing is known of, and
    one that downloads another image, keep the image alive. *)
Theorem check_stalled_iff k ns image p :
  VPath.valid (VPath.of_names k ns) ->
  exists b, check_stalled (VPath.of_names k ns) image p = Some b /\
    (b = true <->
     forall pid, (exists s, by_dir (VPath.of_names k []) (configs p) = Some s /\ pid ∈ s) ->
       gave_up (by_host p) (VPath.of_names k ns) image pid).
Proof.
  intros Hv. apply VPath.valid_of_names in Hv. simpl in Hv. apply andb_true_iff in Hv as [Hk _].
  assert (Hkey : key_vpath (VPath.of_names k ns) = Some (VPath.of_names k [])).
  { unfold key_vpath. rewrite VPath.key_of_names. cbn [mbind option_bind]. by apply VPath.from_key. }
  unfold check_stalled. rewrite Hkey. cbn [mbind option_bind]. eexists. split; [done|].
  set (needed := default ∅ (by_dir (VPath.of_names k []) (configs p))).
  set (c := foldl _ _ _).
  assert (Hg : good (size needed) c <-> forall pid, pid ∈ elements needed ->
            gave_up (by_host p) (VPath.of_names k ns) image pid).
  { pose proof (stale_fold_good (by_host p) (VPath.of_names k ns) image (elements needed) 0 no_stale
      ltac:(simpl; lia)) as H. transitivity (good 0 no_stale /\ forall pid, pid ∈ elements needed ->
            gave_up (by_host p) (VPath.of_names k ns) image pid); [exact H|].
    unfold good. simpl. naive_solver lia. }
  rewrite !andb_true_iff, !bool_decide_eq_true.
  transitivity (good (size needed) c); [unfold good; tauto|]. rewrite Hg. setoid_rewrite elem_of_elements.
  unfold needed. destruct (by_dir _ _); simpl; set_solver.
Qed.

(** A directory with two peers: one stalled, one that deleted the image. *)
Definition example_peers : Peers :=
  let k := VPath.of_names "k" [] in
  let p := VPath.of_names "k" ["a"]%string in
  let img := ImageId.from_slice [] in
  let m1 := MachineId.mk [Byte.x01] in
  let m2 := MachineId.mk [Byte.x02] in
  {| by_host :=
       <[m1 := {| downloading := {[p := {| dw_image := img; dw_mask := Mask.full; dw_source := false; dw_stalled := true |}]};
                  complete := ∅; watching := ∅; deleted := ∅ |}]>
       {[m2 := {| downloading := ∅; complete := ∅; watching := ∅; deleted := {[(p, img)]} |}]};
     configs := {| forward := ∅; backward := {[k := {[m1; m2]}]} |};
     peers := ∅; messages := None |}.

Lemma check_stalled_iff_witness :
  exists b, check_stalled (VPath.of_names "k" ["a"]%string) (ImageId.from_slice []) example_peers = Some b /\ b = true.
Proof.
  destruct (check_stalled_iff "k" ["a"]%string (ImageId.from_slice []) example_peers) as (b & Hb & _);
    [by apply VPath.valid_of_names|].
  exists b. split; [exact Hb|]. assert (E : Some b = Some true); [rewrite <- Hb; by vm_compute|]. by injection E.
Defined.
