(* ===== verification/Gossip.v ===== *)
(** * The gossip protocol between servers: [src/daemon/peers/gossip.rs]

    A handler is a function from the state of the subsystem and a datagram to
    the new state and the effects it has on the rest of the daemon, in order:
    packets it sends and calls of the tracking subsystem.  What the tracking
    subsystem answers ([get_watching], [get_in_progress], ...) is an argument.
    [thread_rng] is a record [Rng] per call.  A set or map is iterated in an
    unspecified order ([elements], [map_to_list]). *)
From S2P Require Import Prelude Serde VirtualPath Ids Mask Config ConfigMap Peers.
Import VPath ImageId MachineId.

Definition MAX_BASE_DIRS : nat := 10.
Definition PACKETS_AT_ONCE : nat := 4.

(** [gen_range lo hi] at its [i]-th call and [rand::seq::sample_iter]
    followed by [unwrap_or_else(|v| v)]. *)
Record Rng := {
  gen_range : nat -> nat -> nat -> nat;
  sample_iter : forall A : Type, list A -> nat -> list A
}.
Record rng_ok (r : Rng) : Prop := {
  gen_range_bounds : forall i lo hi, lo < hi -> lo <= gen_range r i lo hi < hi;
  sample_sub : forall A (l : list A) n, sample_iter r A l n ⊆+ l;
  sample_length : forall A (l : list A) n, length (sample_iter r A l n) = Nat.min n (length l)
}.

(** [struct Gossip] without its socket, timer and configuration handle. *)
Record Gossip := {
  shared : Peers;
  self_id : MachineId;
  config_hash : Hash.Hash;
  config_list : gset VPath;
  future_peers : gmap SocketAddr string
}.

Inductive Effect :=
| SendPacket (to_addr : SocketAddr) (pkt : Packet)
| ReconcileDir (path : VPath) (hash : Hash.Hash) (peer_addr : SocketAddr) (peer_id : MachineId)
| ForwardReceived (image : ImageId) (path : VPath) (peer : Peer)
| CheckWatched (paths : list VPath).

Definition with_by_host (f : gmap MachineId HostData -> gmap MachineId HostData) (g : Gossip) : Gossip :=
  {| shared := {| by_host := f (by_host (shared g)); configs := configs (shared g);
                  peers := peers (shared g); messages := messages (shared g) |};
     self_id := self_id g; config_hash := config_hash g; config_list := config_list g;
     future_peers := future_peers g |}.
Definition with_configs (c : ConfigMap) (g : Gossip) : Gossip :=
  {| shared := {| by_host := by_host (shared g); configs := c;
                  peers := peers (shared g); messages := messages (shared g) |};
     self_id := self_id g; config_hash := config_hash g; config_list := config_list g;
     future_peers := future_peers g |}.
Definition with_messages (q : option (list Message)) (g : Gossip) : Gossip :=
  {| shared := {| by_host := by_host (shared g); configs := configs (shared g);
                  peers := peers (shared g); messages := q |};
     self_id := self_id g; config_hash := config_hash g; config_list := config_list g;
     future_peers := future_peers g |}.

(** [send_packet]. *)
Definition send_packet (g : Gossip) (to : SocketAddr) (id : option MachineId) (m : Message) : Effect :=
  SendPacket to {| pkt_machine_id := self_id g;
                   your_config := i ← id; ConfigMap.hash <$> get i (configs (shared g));
                   message := m |}.
Definition send_config (g : Gossip) (to : SocketAddr) (id : MachineId) : Effect :=
  send_packet g to (Some id) (ConfigSync (config_list g)).
Definition complete_ack (g : Gossip) (to : SocketAddr) (id : MachineId) (path : VPath) : Effect :=
  send_packet g to (Some id) (CompleteAck path).

(** [future_peers.remove(&addr)] and the new entry of [peers]. *)
Definition discover (from : SocketAddr) (mid : MachineId) (g : Gossip) : Gossip :=
  match future_peers g !! from with
  | None => g
  | Some nm =>
      {| shared := {| by_host := by_host (shared g); configs := configs (shared g);
                      peers := <[mid := {| id := mid; addr := from; peer_hostname := nm; name := nm |}]>
                                 (peers (shared g));
                      messages := messages (shared g) |};
         self_id := self_id g; config_hash := config_hash g; config_list := config_list g;
         future_peers := delete from (future_peers g) |}
  end.

Definition host_entry (mid : MachineId) (hosts : gmap MachineId HostData) : HostData :=
  default empty_host (hosts !! mid).

Definition add_watching (mid : MachineId) (path : VPath) (hosts : gmap MachineId HostData)
  : gmap MachineId HostData :=
  let h := host_entry mid hosts in
  <[mid := {| downloading := downloading h; complete := complete h;
              watching := {[path]} ∪ watching h; deleted := deleted h |}]> hosts.

(** [for mid in watches { if mid == self.machine_id { continue } .. }]. *)
Definition add_watchers (self : MachineId) (path : VPath) (ids : list MachineId)
    (hosts : gmap MachineId HostData) : gmap MachineId HostData :=
  foldl (fun hosts mid => if decide (mid = self) then hosts else add_watching mid path hosts) hosts ids.

Definition to_downloading (v : ImageId * Mask * bool * bool) : Downloading :=
  let '(image, mask, source, stalled) := v in
  {| dw_image := image; dw_mask := mask; dw_source := source; dw_stalled := stalled |}.

(** The notifications of a completed image, when the peer is known. *)
Definition notify_received (g : Gossip) (from : SocketAddr) (mid : MachineId) (path : VPath) (image : ImageId)
  : list Effect :=
  match peers (shared g) !! mid with
  | Some peer => [ForwardReceived image path peer; complete_ack g from mid path]
  | None => []
  end.

Section Handler.
Context (blake2b_256 : bytes -> bytes) (cbor : Value -> bytes) `{Wire (gset VPath)}.

(** The [match pkt.message] of [read_messages]; [None] is a panic. *)
Definition handle_message (g : Gossip) (from : SocketAddr) (mid : MachineId) (m : Message)
  : option (Gossip * list Effect) :=
  match m with
  | BaseDirs in_progress watching complete deleted base_dirs =>
      let effects :=
        map (fun e => ReconcileDir (fst e) (snd e) from mid) (map_to_list base_dirs) ++
        mjoin (map (fun e => notify_received g from mid (fst e) (snd e)) (map_to_list complete)) ++
        [CheckWatched (elements watching)] in
      let update hosts :=
        if bool_decide (size in_progress = 0) && bool_decide (size deleted = 0) &&
           bool_decide (size watching = 0) && bool_decide (size complete = 0)
        then delete mid hosts
        else <[mid := {| deleted := deleted; complete := complete; watching := watching;
                         downloading := to_downloading <$> in_progress |}]> hosts in
      Some (with_by_host update g, effects)
  | MDownloading path image mask source watches =>
      let update hosts :=
        let h := host_entry mid hosts in
        add_watchers (self_id g) path (elements watches)
          (<[mid := {| downloading := <[path := {| dw_image := image; dw_mask := mask; dw_source := source;
                                                   dw_stalled := false |}]> (downloading h);
                       complete := Peers.complete h; watching := watching h; deleted := deleted h |}]> hosts) in
      Some (with_by_host update g, [CheckWatched [path]])
  | Complete path image =>
      let update hosts :=
        let h := host_entry mid hosts in
        <[mid := {| downloading := delete path (downloading h);
                    complete := <[path := image]> (complete h);
                    watching := watching h; deleted := deleted h |}]> hosts in
      let g' := with_by_host update g in
      Some (g', notify_received g' from mid path image)
  | CompleteAck path =>
      let update hosts :=
        match hosts !! mid with
        | Some h => <[mid := {| downloading := downloading h; complete := complete h;
                                watching := watching h ∖ {[path]}; deleted := deleted h |}]> hosts
        | None => hosts
        end in
      Some (with_by_host update g, [])
  | ConfigSync paths =>
      c ← ConfigMap.set blake2b_256 cbor mid paths (configs (shared g));
      Some (with_configs c g, [])
  | Reconcile path hash watches =>
      let update hosts :=
        foldl (fun hosts w => add_watchers (self_id g) (fst w) (elements (snd w)) hosts)
              hosts (map_to_list watches) in
      Some (with_by_host update g, [ReconcileDir path hash from mid])
  end.

(** One datagram of [read_messages], decoded or not. *)
Definition read_message (g : Gossip) (from : SocketAddr) (pkt : DeRes Packet) : option (Gossip * list Effect) :=
  match pkt with
  | Err _ => Some (g, [])
  | Panic => None
  | Ok pkt =>
      let mid := pkt_machine_id pkt in
      if decide (mid = self_id g) then Some (g, [])
      else
        let g := discover from mid g in
        let sync :=
          if decide (your_config pkt <> Some (config_hash g)) then [send_config g from mid] else [] in
        r ← handle_message g from mid (message pkt);
        Some (fst r, sync ++ snd r)
  end.

Fixpoint read_messages (g : Gossip) (datagrams : list (SocketAddr * DeRes Packet))
  : option (Gossip * list Effect) :=
  match datagrams with
  | [] => Some (g, [])
  | (from, pkt) :: rest =>
      r ← read_message g from pkt;
      r' ← read_messages (fst r) rest;
      Some (fst r', snd r ++ snd r')
  end.
End Handler.

(** ** Where a notification goes *)

(** [position(|x| *x > self.machine_id)]. *)
Fixpoint position_gt (self : MachineId) (ids : list MachineId) : option nat :=
  match ids with
  | [] => None
  | x :: ids' => if ltb self x then Some 0 else S <$> position_gt self ids'
  end.

Definition add_peer (all : gmap MachineId Peer) (sorted : list MachineId) (idx : nat)
    (dests : gmap SocketAddr MachineId) : gmap SocketAddr MachineId :=
  match sorted !! (idx mod length sorted) with
  | Some mid => match all !! mid with Some p => <[addr p := mid]> dests | None => dests end
  | None => dests
  end.

(** The first loop: all watchers of the path. *)
Definition watchers_dest (all : gmap MachineId Peer) (hosts : gmap MachineId HostData) (path : VPath)
  : gmap SocketAddr MachineId :=
  foldl (fun dests e =>
           if decide (path ∈ watching (snd e)) then
             match all !! fst e with Some p => <[addr p := fst e]> dests | None => dests end
           else dests)
        ∅ (map_to_list hosts).

(** The second part: the next peer of the ring and random ones. *)
Definition ring_dest (r : Rng) (all : gmap MachineId Peer) (self : MachineId) (cpeers : gset MachineId)
    (dests : gmap SocketAddr MachineId) : gmap SocketAddr MachineId :=
  let sorted := stable_sort leb (elements cpeers) in
  if decide (1 < length sorted) then
    let myidx := default 0 (position_gt self sorted) in
    foldl (fun d i => add_peer all sorted (myidx + gen_range r i 1 (length sorted)) d)
          (add_peer all sorted myidx dests) (seq 0 (PACKETS_AT_ONCE - 1))
  else dests.

(** The last part: random peers when there are few. *)
Definition fill_dest (r : Rng) (all : gmap MachineId Peer) (dests : gmap SocketAddr MachineId)
  : gmap SocketAddr MachineId :=
  if decide (size dests < PACKETS_AT_ONCE) then
    foldl (fun d e => <[addr (snd e) := fst e]> d) dests
          (sample_iter r _ (map_to_list all) PACKETS_AT_ONCE)
  else dests.

Definition dest_for_path (r : Rng) (g : Gossip) (path : VPath) : option (gmap SocketAddr MachineId) :=
  k ← key_vpath path;
  let all := peers (shared g) in
  let dests := watchers_dest all (by_host (shared g)) path in
  let dests := match by_dir k (configs (shared g)) with
               | Some cpeers => ring_dest r all (self_id g) cpeers dests
               | None => dests
               end in
  Some (fill_dest r all dests).

(** [dest_for_packet]; [None] is [unreachable!()] or the panic of [key_vpath]. *)
Definition dest_for_packet (r : Rng) (g : Gossip) (m : Message) : option (gmap SocketAddr MachineId) :=
  match m with
  | BaseDirs _ _ _ _ _ | ConfigSync _ | CompleteAck _ => None
  | Reconcile path _ _ | MDownloading path _ _ _ _ | Complete path _ => dest_for_path r g path
  end.

(** ** Filling in the watchers *)

Definition add_watch (hpath : VPath) (mid : MachineId) (w : gmap VPath (gset MachineId))
  : gmap VPath (gset MachineId) := <[hpath := {[mid]} ∪ default ∅ (w !! hpath)]> w.

(** [for hpath in watching { if &hpath.parent() == path { .. } }]; [None] is
    the panic of [parent]. *)
Fixpoint watch_children (path : VPath) (mid : MachineId) (hpaths : list VPath)
    (w : gmap VPath (gset MachineId)) : option (gmap VPath (gset MachineId)) :=
  match hpaths with
  | [] => Some w
  | hpath :: rest =>
      p ← VPath.parent hpath;
      watch_children path mid rest (if decide (p = path) then add_watch hpath mid w else w)
  end.

Fixpoint watch_hosts (path : VPath) (hosts : list (MachineId * HostData)) (w : gmap VPath (gset MachineId))
  : option (gmap VPath (gset MachineId)) :=
  match hosts with
  | [] => Some w
  | (mid, host) :: rest =>
      w' ← watch_children path mid (elements (watching host)) w;
      watch_hosts path rest w'
  end.

(** [fill_msg], [my_watching] is [tracking.get_watching()]. *)
Definition fill_msg (g : Gossip) (my_watching : gset VPath) (m : Message) : option Message :=
  match m with
  | Reconcile path h watches =>
      w ← watch_hosts path (map_to_list (by_host (shared g))) watches;
      w' ← watch_children path (self_id g) (elements my_watching) w;
      Some (Reconcile path h w')
  | MDownloading path image mask source watches =>
      let w := foldl (fun w e => if decide (path ∈ watching (snd e)) then {[fst e]} ∪ w else w)
                     watches (map_to_list (by_host (shared g))) in
      Some (MDownloading path image mask source
              (if decide (path ∈ my_watching) then {[self_id g]} ∪ w else w))
  | _ => Some m
  end.

(** The body of [write_messages] for one message of the queue. *)
Definition write_message (r : Rng) (g : Gossip) (my_watching : gset VPath) (m : Message)
  : option (list Effect) :=
  dests ← dest_for_packet r g m;
  m' ← fill_msg g my_watching m;
  Some (map (fun e => send_packet g (fst e) (Some (snd e)) m') (map_to_list dests)).

(** [write_messages]; [rngs i] and [watch i] are what the [i]-th message sees. *)
Fixpoint write_queue (i : nat) (rngs : nat -> Rng) (watch : nat -> gset VPath) (g : Gossip) (q : list Message)
  : option (list Effect) :=
  match q with
  | [] => Some []
  | m :: q' =>
      e ← write_message (rngs i) g (watch i) m;
      es ← write_queue (S i) rngs watch g q';
      Some (e ++ es)
  end.
Definition write_messages (rngs : nat -> Rng) (watch : nat -> gset VPath) (g : Gossip)
  : option (Gossip * list Effect) :=
  es ← write_queue 0 rngs watch g (default [] (messages (shared g)));
  Some (with_messages ((fun _ => []) <$> messages (shared g)) g, es).

(** ** The periodic gossip *)

(** [ShortProgress] of [src/daemon/tracking/mod.rs]. *)
Record ShortProgress := { sp_image : ImageId; sp_mask : Mask; sp_stalled : bool; sp_source : bool }.

(** What the tracking subsystem answers during one [send_gossips]. *)
Record TrackingView := {
  get_in_progress : gmap VPath ShortProgress;
  get_deleted : list (VPath * ImageId);
  get_complete : gmap VPath ImageId;
  get_watching : gset VPath
}.

(** The loop over [MAX_BASE_DIRS] picks, until there is none. *)
Fixpoint pick_base_dirs (n : nat) (picks : list (option (VPath * Hash.Hash)))
    (base_dirs : gmap VPath Hash.Hash) : gmap VPath Hash.Hash :=
  match n, picks with
  | S n', Some (vpath, h) :: picks' => pick_base_dirs n' picks' (<[vpath := h]> base_dirs)
  | _, _ => base_dirs
  end.

Definition send_gossip (g : Gossip) (to : SocketAddr) (id : option MachineId) (tv : TrackingView)
    (picks : list (option (VPath * Hash.Hash))) : Effect :=
  send_packet g to id
    (BaseDirs ((fun s => (sp_image s, sp_mask s, sp_source s, sp_stalled s)) <$> get_in_progress tv)
       (get_watching tv) (get_complete tv) (set_of (get_deleted tv)) (pick_base_dirs MAX_BASE_DIRS picks ∅)).

(** The known hosts that watch a path that is complete here. *)
Definition complete_watchers (g : Gossip) (tv : TrackingView) : gmap MachineId Peer :=
  if decide (0 < size (get_complete tv)) then
    foldl (fun hosts e =>
             if existsb (fun path => bool_decide (is_Some (get_complete tv !! path)))
                        (elements (watching (snd e))) then
               match peers (shared g) !! fst e with Some p => <[fst e := p]> hosts | None => hosts end
             else hosts)
          ∅ (map_to_list (by_host (shared g)))
  else ∅.

Definition gossip_hosts (r : Rng) (g : Gossip) (tv : TrackingView) : gmap MachineId Peer :=
  let hosts := complete_watchers g tv in
  let hosts := if decide (PACKETS_AT_ONCE < size hosts)
               then list_to_map (sample_iter r _ (map_to_list hosts) PACKETS_AT_ONCE) else hosts in
  foldl (fun h e => <[fst e := snd e]> h) hosts
        (sample_iter r _ (map_to_list (peers (shared g))) PACKETS_AT_ONCE).

(** [send_gossips]; [picks a] is what [pick_random_dir] answers for the packet
    to the address [a]. *)
Definition send_gossips (r : Rng) (g : Gossip) (tv : TrackingView)
    (picks : SocketAddr -> list (option (VPath * Hash.Hash))) : list Effect :=
  map (fun e => send_gossip g (fst e) None tv (picks (fst e))) (map_to_list (future_peers g)) ++
  map (fun e => send_gossip g (addr (snd e)) (Some (fst e)) tv (picks (addr (snd e))))
      (map_to_list (gossip_hosts r g tv)).

(** The part of [start] that computes what this node announces. *)
Definition start_config_list (dirs : gmap string Directory) : option (gset VPath) :=
  set_of <$> mapM (fun x => VPath.from ("/" +:+ x)) (map fst (map_to_list dirs)).

(** ** Lemmas *)

(** Folding over the entries of a map (or over any list) keeps an invariant. *)
Lemma foldl_inv {A B} (P : B -> Prop) (f : B -> A -> B) (l : list A) (b : B) :
  P b -> (forall b a, a ∈ l -> P b -> P (f b a)) -> P (foldl f b l).
Proof.
  revert b. induction l as [|a l IH]; intros b Hb Hf; [done|]. apply IH; [apply Hf; [constructor|done]|].
  intros b' a' Ha. apply Hf. by constructor.
Qed.

Lemma foldl_hit {A B} (P : B -> Prop) (f : B -> A -> B) (l : list A) (b : B) (a : A) :
  a ∈ l -> (forall b, P (f b a)) -> (forall b a', P b -> P (f b a')) -> P (foldl f b l).
Proof.
  intros Ha Hhit Hkeep. revert b. induction l as [|a' l IH]; intros b; [by apply not_elem_of_nil in Ha|].
  simpl. apply elem_of_cons in Ha as [<-|Ha]; [|by apply IH]. apply foldl_inv; auto.
Qed.

Lemma host_entry_insert mid mid' h hosts :
  host_entry mid' (<[mid := h]> hosts) = if decide (mid' = mid) then h else host_entry mid' hosts.
Proof. unfold host_entry. rewrite lookup_insert. repeat case_decide; by subst. Qed.

Lemma host_entry_watching mid v hosts :
  v ∈ watching (host_entry mid hosts) -> exists h, hosts !! mid = Some h /\ v ∈ watching h.
Proof. unfold host_entry. destruct (hosts !! mid); simpl; [eauto|set_solver]. Qed.

Lemma add_watching_spec mid path hosts mid' :
  let h := host_entry mid' hosts in let h' := host_entry mid' (add_watching mid path hosts) in
  downloading h' = downloading h /\ complete h' = complete h /\ deleted h' = deleted h /\
  (forall v, v ∈ watching h' <-> v ∈ watching h \/ (mid' = mid /\ v = path)).
Proof.
  unfold add_watching. simpl. rewrite host_entry_insert. case_decide; subst; simpl; [|naive_solver].
  split_and!; [done..|]. set_solver.
Qed.

Lemma add_watchers_spec self path ids hosts mid' :
  let h := host_entry mid' hosts in let h' := host_entry mid' (add_watchers self path ids hosts) in
  downloading h' = downloading h /\ complete h' = complete h /\ deleted h' = deleted h /\
  (forall v, v ∈ watching h' <-> v ∈ watching h \/ (mid' <> self /\ mid' ∈ ids /\ v = path)).
Proof.
  revert hosts. induction ids as [|i ids IH]; intros hosts; cbn [add_watchers foldl].
  - split_and!; [done..|]. set_solver.
  - set (hosts1 := if decide (i = self) then hosts else add_watching i path hosts).
    destruct (IH hosts1) as (H1 & H2 & H3 & H4).
    assert (Hs : let h := host_entry mid' hosts in let h' := host_entry mid' hosts1 in
      downloading h' = downloading h /\ complete h' = complete h /\ deleted h' = deleted h /\
      (forall v, v ∈ watching h' <-> v ∈ watching h \/ (mid' <> self /\ mid' = i /\ v = path))).
    { unfold hosts1. case_decide; [naive_solver|].
      destruct (add_watching_spec i path hosts mid') as (?&?&?&Hw). split_and!; try done.
      intros v. rewrite Hw. naive_solver. }
    destruct Hs as (G1 & G2 & G3 & G4). cbn zeta in *. fold (add_watchers self path ids hosts1).
    split_and!; [congruence..|]. intros v. rewrite H4, G4, elem_of_cons. naive_solver.
Qed.

(** Only the hosts named gain an entry, and never this node itself. *)
Lemma add_watchers_self self path ids hosts :
  hosts !! self = None -> add_watchers self path ids hosts !! self = None.
Proof.
  intros Hs. apply (foldl_inv (fun h => h !! self = None)); [done|].
  intros h i _ Hh. case_decide; [done|]. unfold add_watching. by rewrite lookup_insert_ne.
Qed.

Lemma reconcile_watchers_spec self (ws : list (VPath * gset MachineId)) hosts mid' :
  let hosts' := foldl (fun hosts w => add_watchers self (fst w) (elements (snd w)) hosts) hosts ws in
  let h := host_entry mid' hosts in let h' := host_entry mid' hosts' in
  downloading h' = downloading h /\ complete h' = complete h /\ deleted h' = deleted h /\
  (forall v, v ∈ watching h' <->
     v ∈ watching h \/ (mid' <> self /\ exists s, (v, s) ∈ ws /\ mid' ∈ s)).
Proof.
  revert hosts. induction ws as [|[w s] ws IH]; intros hosts; cbn [foldl fst snd].
  - split_and!; [done..|]. set_solver.
  - destruct (IH (add_watchers self w (elements s) hosts)) as (H1 & H2 & H3 & H4).
    destruct (add_watchers_spec self w (elements s) hosts mid') as (G1 & G2 & G3 & G4). cbn zeta in *.
    split_and!; [congruence..|]. intros v. rewrite H4, G4, elem_of_elements. setoid_rewrite elem_of_cons.
    naive_solver.
Qed.

Section Step.
Context (blake2b_256 : bytes -> bytes) (cbor : Value -> bytes) `{Wire (gset VPath)}.

(** The state invariant: the configuration map is well formed and this node is
    not one of its own peers. *)
Definition gossip_ok (g : Gossip) : Prop :=
  well_formed blake2b_256 cbor (configs (shared g)) /\
  by_host (shared g) !! self_id g = None /\
  get (self_id g) (configs (shared g)) = None.

Lemma discover_fields from mid g :
  self_id (discover from mid g) = self_id g /\ config_hash (discover from mid g) = config_hash g /\
  config_list (discover from mid g) = config_list g /\
  by_host (shared (discover from mid g)) = by_host (shared g) /\
  configs (shared (discover from mid g)) = configs (shared g).
Proof. unfold discover. by destruct (future_peers g !! from). Qed.

Lemma discover_ok from mid g : gossip_ok g -> gossip_ok (discover from mid g).
Proof.
  unfold gossip_ok. destruct (discover_fields from mid g) as (-> & _ & _ & -> & ->). done.
Qed.

(** Packets the receiving side answers with: its own configuration or an
    acknowledgement, back to where the datagram came from. *)
Definition answer (self : MachineId) (list_ : gset VPath) (from : SocketAddr) (e : Effect) : Prop :=
  match e with
  | SendPacket to p =>
      to = from /\ pkt_machine_id p = self /\
      (message p = ConfigSync list_ \/ exists path, message p = CompleteAck path)
  | _ => True
  end.

Lemma notify_received_answer g from mid path image e :
  e ∈ notify_received g from mid path image -> answer (self_id g) (config_list g) from e.
Proof.
  unfold notify_received. destruct (peers (shared g) !! mid); [|by intros ?%not_elem_of_nil].
  rewrite !elem_of_cons, elem_of_nil. intros [->|[->|[]]]; simpl; eauto.
Qed.

Lemma handle_message_ok g from mid m :
  mid <> self_id g -> gossip_ok g ->
  exists g' es, handle_message blake2b_256 cbor g from mid m = Some (g', es) /\ gossip_ok g' /\
    self_id g' = self_id g /\ config_hash g' = config_hash g /\ config_list g' = config_list g /\
    (forall e, e ∈ es -> answer (self_id g) (config_list g) from e).
Proof.
  intros Hne (Hc & Hh & Hf). destruct m as [ip w c d bd|path image mask src ws|path h ws|path image|path|paths];
    cbn [handle_message].
  - eexists _, _. split; [done|]. unfold gossip_ok. split_and!; try done.
    + cbn [with_by_host shared by_host self_id].
      match goal with |- (if ?b then _ else _) !! _ = _ => destruct b end;
        [by rewrite lookup_delete_ne|by rewrite lookup_insert_ne].
    + intros e. rewrite !elem_of_app, elem_of_mjoin. intros [He|[(l & Hl & He)|He]].
      * apply list_elem_of_fmap in He as (? & -> & _). done.
      * apply list_elem_of_fmap in Hl as (? & -> & _). by eapply notify_received_answer.
      * apply list_elem_of_singleton in He as ->. done.
  - eexists _, _. split; [done|]. unfold gossip_ok. split_and!; try done.
    + cbn. apply add_watchers_self. by rewrite lookup_insert_ne.
    + intros e ->%list_elem_of_singleton. done.
  - eexists _, _. split; [done|]. unfold gossip_ok. split_and!; try done.
    + cbn. apply (foldl_inv (fun hs => hs !! self_id g = None)); [done|].
      intros hs e _ Hs. by apply add_watchers_self.
    + intros e ->%list_elem_of_singleton. done.
  - eexists _, _. split; [done|]. unfold gossip_ok. split_and!; try done.
    + cbn. by rewrite lookup_insert_ne.
    + intros e He. by apply notify_received_answer in He.
  - eexists _, _. split; [done|]. unfold gossip_ok. split_and!; try done.
    + cbn. destruct (by_host (shared g) !! mid); [by rewrite lookup_insert_ne|done].
    + by intros e ?%not_elem_of_nil.
  - destruct (set_spec blake2b_256 cbor mid paths _ Hc) as (c & -> & Hwf & Hoth & _).
    cbn [mbind option_bind]. eexists _, _. split; [done|]. unfold gossip_ok. split_and!; try done.
    + cbn. unfold get. rewrite Hoth; [done|congruence].
    + by intros e ?%not_elem_of_nil.
Qed.

Lemma read_message_ok g from pkt :
  pkt <> Panic -> gossip_ok g ->
  exists g' es, read_message blake2b_256 cbor g from pkt = Some (g', es) /\ gossip_ok g' /\
    self_id g' = self_id g /\ config_hash g' = config_hash g /\ config_list g' = config_list g /\
    (forall e, e ∈ es -> answer (self_id g) (config_list g) from e).
Proof.
  intros Hp Hg. destruct pkt as [pkt|e|]; [| |done]; cbn [read_message].
  - case_decide as Hs; [eexists _, _; split_and!; [done..|by intros e ?%not_elem_of_nil]|].
    destruct (discover_fields from (pkt_machine_id pkt) g) as (E1 & E2 & E3 & _).
    destruct (handle_message_ok (discover from (pkt_machine_id pkt) g) from (pkt_machine_id pkt) (message pkt))
      as (g' & es & -> & Hok & F1 & F2 & F3 & Hes); [congruence|by apply discover_ok|].
    cbn [mbind option_bind fst snd]. eexists _, _. split; [done|].
    rewrite E1, E3 in Hes. split_and!; [done|congruence..|].
    intros e. rewrite elem_of_app. intros [He|He]; [|by apply Hes].
    case_decide; [apply list_elem_of_singleton in He as ->|by apply not_elem_of_nil in He].
    cbn. rewrite E1, E3. auto.
  - eexists _, _. split_and!; [done..|by intros x ?%not_elem_of_nil].
Qed.
End Step.

Section Destinations.
Context (all : gmap MachineId Peer).

(** Every destination is the address of a known peer. *)
Definition known_dest (d : gmap SocketAddr MachineId) : Prop :=
  forall a m, d !! a = Some m -> exists p, all !! m = Some p /\ addr p = a.
Definition covers (d : gmap SocketAddr MachineId) (a : SocketAddr) : Prop := is_Some (d !! a).

Lemma known_insert d m p : known_dest d -> all !! m = Some p -> known_dest (<[addr p := m]> d).
Proof. intros Hd Hm a m'. rewrite lookup_insert. case_decide; [intros [= <-]; eauto|apply Hd]. Qed.

Lemma covers_insert d a m a' : covers d a' -> covers (<[a := m]> d) a'.
Proof. unfold covers. rewrite lookup_insert. case_decide; eauto. Qed.

Lemma covers_insert_eq d a m : covers (<[a := m]> d) a.
Proof. unfold covers. rewrite lookup_insert_eq. eauto. Qed.

Lemma watchers_dest_spec hosts path :
  known_dest (watchers_dest all hosts path) /\
  forall m h p, hosts !! m = Some h -> path ∈ watching h -> all !! m = Some p ->
    covers (watchers_dest all hosts path) (addr p).
Proof.
  unfold watchers_dest. split.
  - apply foldl_inv; [intros a m; by rewrite lookup_empty|].
    intros d [m h] _ Hd. simpl. case_decide; [|done].
    destruct (all !! m) eqn:E; [by apply known_insert|done].
  - intros m h p Hm Hw Hp.
    apply (foldl_hit (fun d => covers d (addr p)) _ _ _ (m, h)).
    + by apply elem_of_map_to_list.
    + intros d. simpl. rewrite decide_True, Hp by done. apply covers_insert_eq.
    + intros d [m' h'] Hd. simpl. case_decide; [|done]. destruct (all !! m'); [by apply covers_insert|done].
Qed.

Lemma add_peer_spec sorted idx d :
  (known_dest d -> known_dest (add_peer all sorted idx d)) /\
  (forall a, covers d a -> covers (add_peer all sorted idx d) a) /\
  (forall m p, sorted !! (idx mod length sorted) = Some m -> all !! m = Some p ->
     covers (add_peer all sorted idx d) (addr p)).
Proof.
  unfold add_peer. destruct (sorted !! _) as [m|]; [|done].
  destruct (all !! m) as [p|] eqn:E; [|split_and!; naive_solver]. split_and!.
  - intros Hd. by apply known_insert.
  - intros a. apply covers_insert.
  - intros m' p' [= <-] Hp. rewrite E in Hp. injection Hp as <-. apply covers_insert_eq.
Qed.

Lemma leb_total a b : leb a b = true \/ leb b a = true.
Proof. apply bytes_leb_total. Qed.
Lemma leb_trans a b c : leb a b = true -> leb b c = true -> leb a c = true.
Proof. apply bytes_leb_trans. Qed.

Lemma position_gt_spec self l :
  match position_gt self l with
  | Some i => exists x, l !! i = Some x /\ ltb self x = true /\
                forall j y, j < i -> l !! j = Some y -> ltb self y = false
  | None => forall y, y ∈ l -> ltb self y = false
  end.
Proof.
  induction l as [|z l IH]; simpl; [by intros y ?%not_elem_of_nil|].
  destruct (ltb self z) eqn:E; [exists z; split_and!; try done; lia|].
  destruct (position_gt self l) as [i|]; simpl.
  - destruct IH as (x & Hx & Hlt & Hb). exists x. split_and!; [done..|].
    intros [|j] y Hj Hy; [naive_solver|]. eapply Hb; [|done]. lia.
  - intros y [->|Hy]%elem_of_cons; auto.
Qed.

(** The successor of this node in the ring of the machine ids of [cpeers]. *)
Definition ring_next (self : MachineId) (cpeers : gset MachineId) (x : MachineId) : Prop :=
  x ∈ cpeers /\
  ((ltb self x = true /\ forall y, y ∈ cpeers -> ltb self y = true -> leb x y = true) \/
   ((forall y, y ∈ cpeers -> ltb self y = false) /\ forall y, y ∈ cpeers -> leb x y = true)).

Lemma sorted_lookup {A} (le : A -> A -> bool) (l : list A) i j x y :
  StronglySorted (fun a b => le a b = true) l -> (forall a, le a a = true) ->
  i <= j -> l !! i = Some x -> l !! j = Some y -> le x y = true.
Proof.
  intros Hs Hr. revert i j. induction Hs as [|z l Hs IH Hz]; intros [|i] [|j] Hij Hx Hy; simplify_eq/=;
    [apply Hr| |lia|apply (IH i j); [lia|done|done]].
  rewrite Forall_forall in Hz. apply Hz. by eapply list_elem_of_lookup_2.
Qed.

Lemma ring_index self cpeers :
  let sorted := stable_sort leb (elements cpeers) in
  1 < length sorted ->
  exists x, sorted !! (default 0 (position_gt self sorted) mod length sorted) = Some x /\
            ring_next self cpeers x.
Proof.
  intros sorted Hl.
  assert (Hs : StronglySorted (fun a b => leb a b = true) sorted)
    by apply (stable_sort_sorted _ leb_total leb_trans).
  assert (Hin : forall y, y ∈ sorted <-> y ∈ cpeers)
    by (intros y; unfold sorted; by rewrite stable_sort_elem, elem_of_elements).
  assert (Hrefl : forall a, leb a a = true) by (intros a; by destruct (leb_total a a)).
  pose proof (position_gt_spec self sorted) as Hp.
  destruct (position_gt self sorted) as [i|] eqn:E; simpl.
  - destruct Hp as (x & Hx & Hlt & Hb). pose proof (lookup_lt_Some _ _ _ Hx).
    rewrite Nat.mod_small by done. exists x. split; [done|]. split; [apply Hin; by eapply list_elem_of_lookup_2|].
    left. split; [done|]. intros y Hy Hlty. apply Hin, list_elem_of_lookup_1 in Hy as [j Hj].
    destruct (decide (j < i)) as [Hji|Hji]; [rewrite (Hb _ _ Hji Hj) in Hlty; done|].
    eapply (sorted_lookup leb sorted i j); eauto. lia.
  - rewrite Nat.mod_0_l by lia. destruct sorted as [|x sorted'] eqn:Es; [simpl in Hl; lia|].
    exists x. split; [done|]. split; [apply Hin; constructor|]. right. split.
    + intros y Hy. apply Hp. by apply Hin.
    + intros y Hy. apply Hin, list_elem_of_lookup_1 in Hy as [j Hj].
      eapply (sorted_lookup leb (x :: sorted') 0 j); eauto. lia.
Qed.

Lemma ring_dest_spec r self cpeers d :
  (known_dest d -> known_dest (ring_dest r all self cpeers d)) /\
  (forall a, covers d a -> covers (ring_dest r all self cpeers d) a) /\
  (1 < size cpeers -> exists x, ring_next self cpeers x /\
     forall p, all !! x = Some p -> covers (ring_dest r all self cpeers d) (addr p)).
Proof.
  assert (Hlen : length (stable_sort leb (elements cpeers)) = size cpeers).
  { by rewrite stable_sort_length. }
  unfold ring_dest. case_decide as Hl; [|split_and!; [done..|lia]].
  set (idx := default 0 _). split_and!.
  - intros Hd. apply foldl_inv; [by apply add_peer_spec|]. intros d' i _. apply add_peer_spec.
  - intros a Ha. apply foldl_inv; [by apply add_peer_spec|]. intros d' i _. apply add_peer_spec.
  - intros _. destruct (ring_index self cpeers Hl) as (x & Hx & Hn). exists x. split; [done|].
    intros p Hp. apply foldl_inv; [|intros d' i _; apply add_peer_spec].
    apply (proj2 (proj2 (add_peer_spec _ idx d)) x p); done.
Qed.

Lemma fill_dest_spec r d :
  rng_ok r ->
  (known_dest d -> known_dest (fill_dest r all d)) /\
  (forall a, covers d a -> covers (fill_dest r all d) a) /\
  ((forall m1 m2 p1 p2, all !! m1 = Some p1 -> all !! m2 = Some p2 -> addr p1 = addr p2 -> m1 = m2) ->
   Nat.min PACKETS_AT_ONCE (size all) <= size (fill_dest r all d)).
Proof.
  intros Hr. unfold fill_dest. case_decide as Hl; [|split_and!; [done..|lia]].
  set (smp := sample_iter r _ (map_to_list all) PACKETS_AT_ONCE).
  assert (Hin : forall m p, (m, p) ∈ smp -> all !! m = Some p).
  { intros m p Hm. apply elem_of_map_to_list. eapply elem_of_submseteq; [exact Hm|apply Hr]. }
  split_and!.
  - intros Hd. apply foldl_inv; [done|]. intros d' [m p] Hm Hd'. by apply known_insert, Hin.
  - intros a Ha. apply foldl_inv; [done|]. intros d' [m p] _ Hd'. by apply covers_insert.
  - intros Hinj. replace (size all) with (length (map_to_list all)) by apply length_map_to_list.
    rewrite <- (sample_length r Hr _ (map_to_list all) PACKETS_AT_ONCE). fold smp.
    assert (Hnd : NoDup (map (fun e => addr (snd e)) smp)).
    { assert (Hnd0 : NoDup smp) by (eapply sub_NoDup; [apply Hr|apply NoDup_map_to_list]).
      apply NoDup_fmap_2_strong; [|done]. intros [m1 p1] [m2 p2] H1 H2 He. simpl in He.
      apply Hin in H1, H2. pose proof (Hinj _ _ _ _ H1 H2 He) as ->. congruence. }
    set (d' := foldl _ _ _). rewrite <- (length_map (fun e => addr (snd e)) smp), <- (size_list_to_set (C := gset SocketAddr)) by done.
    rewrite <- (size_dom (D := gset SocketAddr) d'). apply subseteq_size. intros a Ha.
    apply elem_of_list_to_set, list_elem_of_fmap in Ha as (e & -> & He). apply elem_of_dom.
    apply (foldl_hit (fun d => covers d (addr (snd e))) _ _ _ e He).
    + intros b. apply covers_insert_eq.
    + intros b e'. apply covers_insert.
Qed.
End Destinations.

Lemma add_watch_spec v mid w v' m :
  m ∈ peers_of (add_watch v mid w) v' <-> m ∈ peers_of w v' \/ (m = mid /\ v' = v).
Proof.
  unfold add_watch. rewrite peers_of_insert. case_decide; subst; [|naive_solver].
  fold (peers_of w v). set_solver.
Qed.

Lemma watch_children_spec path mid hpaths w :
  (forall v, v ∈ hpaths -> is_Some (VPath.parent v)) ->
  exists w', watch_children path mid hpaths w = Some w' /\
    forall v m, m ∈ peers_of w' v <->
      m ∈ peers_of w v \/ (m = mid /\ v ∈ hpaths /\ VPath.parent v = Some path).
Proof.
  revert w. induction hpaths as [|i hpaths IH]; intros w Hp; cbn [watch_children].
  - exists w. split; [done|]. intros v m. rewrite elem_of_nil. naive_solver.
  - destruct (Hp i ltac:(constructor)) as [pi Hi]. rewrite Hi. cbn [mbind option_bind].
    destruct (IH (if decide (pi = path) then add_watch i mid w else w)) as (w' & Hw & Hs).
    { intros v Hv. apply Hp. by constructor. }
    exists w'. split; [done|]. intros v m. rewrite Hs, elem_of_cons.
    case_decide as Hd; [rewrite add_watch_spec|]; naive_solver.
Qed.

Lemma watch_children_none path mid hpaths w v :
  v ∈ hpaths -> VPath.parent v = None -> watch_children path mid hpaths w = None.
Proof.
  intros Hv Hn. revert w. induction hpaths as [|i hpaths IH]; intros w; [by apply not_elem_of_nil in Hv|].
  cbn [watch_children]. apply elem_of_cons in Hv as [<-|Hv]; [by rewrite Hn|].
  destruct (VPath.parent i) as [pi|]; [|done]. cbn [mbind option_bind]. by apply IH.
Qed.

Lemma watch_hosts_spec path hosts w :
  (forall m h v, (m, h) ∈ hosts -> v ∈ watching h -> is_Some (VPath.parent v)) ->
  exists w', watch_hosts path hosts w = Some w' /\
    forall v m, m ∈ peers_of w' v <->
      m ∈ peers_of w v \/ (VPath.parent v = Some path /\ exists h, (m, h) ∈ hosts /\ v ∈ watching h).
Proof.
  revert w. induction hosts as [|[i h] hosts IH]; intros w Hp; cbn [watch_hosts].
  - exists w. split; [done|]. intros v m. setoid_rewrite elem_of_nil. naive_solver.
  - destruct (watch_children_spec path i (elements (watching h)) w) as (w1 & -> & Hs1).
    { intros v Hv%elem_of_elements. eapply Hp; [constructor|done]. }
    cbn [mbind option_bind]. destruct (IH w1) as (w' & -> & Hs).
    { intros m h' v Hm Hv. eapply Hp; [by constructor|done]. }
    exists w'. split; [done|]. intros v m. rewrite Hs, Hs1, elem_of_elements. setoid_rewrite elem_of_cons.
    naive_solver.
Qed.

Lemma watch_hosts_none path hosts w m h v :
  (m, h) ∈ hosts -> v ∈ watching h -> VPath.parent v = None -> watch_hosts path hosts w = None.
Proof.
  intros Hm Hv Hn. revert w. induction hosts as [|[i h'] hosts IH]; intros w; [by apply not_elem_of_nil in Hm|].
  cbn [watch_hosts]. apply elem_of_cons in Hm as [[= <- <-]|Hm].
  - by rewrite (watch_children_none _ _ _ _ v) by (by rewrite ?elem_of_elements).
  - destruct (watch_children _ _ _ _); [|done]. cbn [mbind option_bind]. by apply IH.
Qed.

(** A filled message still names a node it is told watches the path. *)
Lemma watch_children_mono path mid hpaths w w' v m :
  watch_children path mid hpaths w = Some w' -> m ∈ peers_of w v -> m ∈ peers_of w' v.
Proof.
  revert w. induction hpaths as [|i hpaths IH]; intros w; cbn [watch_children]; [by intros [= <-]|].
  destruct (VPath.parent i) as [pi|]; [|done]. cbn [mbind option_bind]. intros Hw Hm. apply (IH _ Hw).
  case_decide; [|done]. apply add_watch_spec. auto.
Qed.

Lemma watch_children_hit path mid hpaths w w' v :
  watch_children path mid hpaths w = Some w' -> v ∈ hpaths -> VPath.parent v = Some path ->
  mid ∈ peers_of w' v.
Proof.
  revert w. induction hpaths as [|i hpaths IH]; intros w; cbn [watch_children]; [by intros _ ?%not_elem_of_nil|].
  destruct (VPath.parent i) as [pi|] eqn:Ei; [|done]. cbn [mbind option_bind]. intros Hw Hv Hp.
  apply elem_of_cons in Hv as [->|Hv]; [|by eapply IH].
  eapply watch_children_mono; [exact Hw|]. rewrite decide_True by congruence. apply add_watch_spec. auto.
Qed.

Lemma watch_hosts_hit path hosts w w' m h v :
  watch_hosts path hosts w = Some w' ->
  m ∈ peers_of w v \/ ((m, h) ∈ hosts /\ v ∈ watching h /\ VPath.parent v = Some path) ->
  m ∈ peers_of w' v.
Proof.
  revert w. induction hosts as [|[i h'] hosts IH]; intros w; cbn [watch_hosts].
  - intros [= <-] [?|[?%not_elem_of_nil _]]; done.
  - destruct (watch_children _ _ _ _) as [w1|] eqn:E; [|done]. cbn [mbind option_bind]. intros Hw Hor.
    apply (IH _ Hw). destruct Hor as [Hm|([[= <- <-]|Hm]%elem_of_cons & Hv & Hp)]; [left|left|auto].
    + by eapply watch_children_mono.
    + eapply watch_children_hit; [exact E|by apply elem_of_elements|done].
Qed.

Lemma fill_msg_names g mw path h ws m' x hd v :
  fill_msg g mw (Reconcile path h ws) = Some m' ->
  (x, hd) ∈ map_to_list (by_host (shared g)) -> v ∈ watching hd -> VPath.parent v = Some path ->
  exists w, m' = Reconcile path h w /\ x ∈ peers_of w v.
Proof.
  cbn [fill_msg]. destruct (watch_hosts _ _ _) as [w1|] eqn:E1; [|done]. cbn [mbind option_bind].
  destruct (watch_children _ _ _ _) as [w2|] eqn:E2; [|done]. cbn [mbind option_bind]. intros [= <-] Hin Hv Hp.
  exists w2. split; [done|]. eapply watch_children_mono; [exact E2|].
  eapply watch_hosts_hit; [exact E1|]. right. eauto.
Qed.

Lemma dest_for_path_some r g k ns :
  Path.name_ok k = true -> exists d, dest_for_path r g (VPath.of_names k ns) = Some d.
Proof.
  intros Hk. unfold dest_for_path, key_vpath. rewrite VPath.key_of_names. cbn [mbind option_bind].
  rewrite VPath.from_key by done. cbn [mbind option_bind]. eauto.
Qed.

Lemma dest_watcher r g path d m h p :
  rng_ok r -> dest_for_path r g path = Some d ->
  by_host (shared g) !! m = Some h -> path ∈ watching h -> peers (shared g) !! m = Some p ->
  covers d (addr p).
Proof.
  intros Hr. unfold dest_for_path. destruct (key_vpath path) as [k|]; [|done]. cbn [mbind option_bind].
  intros [= <-] Hh Hw Hp. apply fill_dest_spec; [done|].
  pose proof (proj2 (watchers_dest_spec (peers (shared g)) (by_host (shared g)) path) m h p Hh Hw Hp) as Hc.
  destruct (by_dir k _); [by apply ring_dest_spec|done].
Qed.

Lemma complete_watchers_spec g tv mid p :
  complete_watchers g tv !! mid = Some p <->
  peers (shared g) !! mid = Some p /\
  exists h v, by_host (shared g) !! mid = Some h /\ v ∈ watching h /\ is_Some (get_complete tv !! v).
Proof.
  unfold complete_watchers. split.
  - case_decide; [|by rewrite lookup_empty]. revert mid p.
    apply (foldl_inv (fun hosts : gmap MachineId Peer => forall mid p, hosts !! mid = Some p ->
      peers (shared g) !! mid = Some p /\ exists h v, by_host (shared g) !! mid = Some h /\
        v ∈ watching h /\ is_Some (get_complete tv !! v))).
    { intros mid p. by rewrite lookup_empty. }
    intros hosts [m h] Hin%elem_of_map_to_list Hinv mid p. cbn [fst snd].
    destruct (existsb _ _) eqn:E; [|apply Hinv].
    destruct (peers (shared g) !! m) as [q|] eqn:Eq; [|apply Hinv].
    rewrite lookup_insert. case_decide as Hm; [|apply Hinv]. subst m. intros [= <-]. split; [done|].
    apply existsb_exists in E as (v & Hv & Hs). apply list_elem_of_In, elem_of_elements in Hv.
    apply bool_decide_eq_true in Hs. eauto.
  - intros (Hp & h & v & Hh & Hv & Hc). rewrite decide_True.
    2:{ destruct Hc as [i Hi]. destruct (decide (size (get_complete tv) = 0)) as [Hz|]; [|lia].
        apply map_size_empty_inv in Hz. by rewrite Hz, lookup_empty in Hi. }
    apply (foldl_hit (fun hosts : gmap MachineId Peer => hosts !! mid = Some p) _ _ _ (mid, h)).
    + by apply elem_of_map_to_list.
    + intros hosts. cbn [fst snd]. destruct (existsb _ _) eqn:E; [rewrite Hp; apply lookup_insert_eq|].
      exfalso. apply not_true_iff_false in E. apply E, existsb_exists. exists v.
      split; [by apply list_elem_of_In, elem_of_elements|by apply bool_decide_eq_true].
    + intros hosts [m h'] Hm. cbn [fst snd]. destruct (existsb _ _); [|done].
      destruct (peers (shared g) !! m) eqn:Eq; [|done]. rewrite lookup_insert. case_decide; [congruence|done].
Qed.

(** Entries inserted in a map, in order. *)
Lemma foldl_insert_sub (l : list (MachineId * Peer)) (m all : gmap MachineId Peer) :
  (forall k p, (k, p) ∈ l -> all !! k = Some p) ->
  let m' := foldl (fun h e => <[fst e := snd e]> h) m l in
  (m ⊆ all -> m' ⊆ all) /\ (forall k p, all !! k = Some p -> m !! k = Some p -> m' !! k = Some p) /\
  (NoDup l -> length l <= size m').
Proof.
  intros Hl m'. split_and!.
  - intros Hm. unfold m'. apply foldl_inv; [done|]. intros b [k p] Hin Hb.
    apply insert_subseteq_l; [by apply Hl|done].
  - intros k p Ha Hm. unfold m'. apply (foldl_inv (fun b : gmap MachineId Peer => b !! k = Some p)); [done|].
    intros b [k' p'] Hin Hb. cbn. rewrite lookup_insert. case_decide; [|done]. subst. f_equal.
    apply Hl in Hin. congruence.
  - intros Hnd.
    assert (Hnd' : NoDup (map fst l)).
    { apply NoDup_fmap_2_strong; [|done]. intros [k1 p1] [k2 p2] H1 H2 He. simpl in He. subst k2.
      apply Hl in H1, H2. congruence. }
    rewrite <- (length_map fst l), <- (size_list_to_set (C := gset MachineId)) by done.
    rewrite <- (size_dom (D := gset MachineId) m'). apply subseteq_size. intros k Hk.
    apply elem_of_list_to_set, list_elem_of_fmap in Hk as ([k' p] & -> & Hin). apply elem_of_dom.
    apply (foldl_hit (fun b : gmap MachineId Peer => is_Some (b !! k')) _ _ _ (k', p) Hin).
    + intros b. cbn. rewrite lookup_insert_eq. eauto.
    + intros b [k2 p2] Hb. cbn. rewrite lookup_insert. case_decide; eauto.
Qed.

Lemma sample_map_sub r (m : gmap MachineId Peer) n k p :
  rng_ok r -> (k, p) ∈ sample_iter r _ (map_to_list m) n -> m !! k = Some p.
Proof.
  intros Hr Hin. apply elem_of_map_to_list. eapply elem_of_submseteq; [exact Hin|by apply sample_sub].
Qed.

Lemma gossip_hosts_spec r g tv :
  rng_ok r ->
  (forall mid p, gossip_hosts r g tv !! mid = Some p -> peers (shared g) !! mid = Some p) /\
  (forall mid h p v, size (complete_watchers g tv) <= PACKETS_AT_ONCE ->
     by_host (shared g) !! mid = Some h -> v ∈ watching h -> is_Some (get_complete tv !! v) ->
     peers (shared g) !! mid = Some p -> gossip_hosts r g tv !! mid = Some p) /\
  Nat.min PACKETS_AT_ONCE (size (peers (shared g))) <= size (gossip_hosts r g tv).
Proof.
  intros Hr. unfold gossip_hosts. set (hosts := if decide _ then _ else _).
  set (smp := sample_iter r _ (map_to_list (peers (shared g))) PACKETS_AT_ONCE).
  assert (Hsub : hosts ⊆ peers (shared g)).
  { apply map_subseteq_spec. intros k p. unfold hosts. case_decide.
    - intros Hk%elem_of_list_to_map_2. by apply (sample_map_sub r _ _ _ _ Hr), complete_watchers_spec in Hk as [? _].
    - by intros [? _]%complete_watchers_spec. }
  destruct (foldl_insert_sub smp hosts (peers (shared g))) as (F1 & F2 & F3).
  { intros k p. by apply sample_map_sub. }
  split_and!.
  - intros mid p. by apply map_subseteq_spec, F1.
  - intros mid h p v Hsz Hh Hv Hc Hp. apply F2; [done|]. unfold hosts. rewrite decide_False by lia.
    apply complete_watchers_spec. eauto 10.
  - etrans; [|apply F3; eapply sub_NoDup; [by apply sample_sub|apply NoDup_map_to_list]].
    unfold smp. by rewrite (sample_length r Hr), length_map_to_list.
Qed.

(** ** Properties *)

(** C22. No stream of datagrams crashes the receiver: whatever well-formed or
    malformed packets arrive from whatever addresses, they are all handled,
    the configuration map stays well formed, this node never becomes an entry
    of its own tables, its identity and configuration do not change, and every
    packet sent in reply goes to the address of a datagram and is this node's
    configuration or an acknowledgement. *)
Theorem read_messages_safe blake2b_256 cbor `{Wire (gset VPath)} g (datagrams : list (SocketAddr * DeRes Packet)) :
  gossip_ok blake2b_256 cbor g -> Forall (fun d => snd d <> Panic) datagrams ->
  exists g' es, read_messages blake2b_256 cbor g datagrams = Some (g', es) /\
    gossip_ok blake2b_256 cbor g' /\
    self_id g' = self_id g /\ config_hash g' = config_hash g /\ config_list g' = config_list g /\
    (forall e, e ∈ es -> exists from, from ∈ map fst datagrams /\ answer (self_id g) (config_list g) from e).
Proof.
  intros Hg Hd. revert g Hg. induction Hd as [|[from pkt] ds Hp Hd IH]; intros g Hg; cbn [read_messages].
  - eexists _, _. split_and!; [done..|by intros e ?%not_elem_of_nil].
  - destruct (read_message_ok blake2b_256 cbor g from pkt Hp Hg) as (g1 & e1 & -> & Hg1 & E1 & E2 & E3 & He1).
    cbn [mbind option_bind fst snd].
    destruct (IH g1 Hg1) as (g2 & e2 & -> & Hg2 & F1 & F2 & F3 & He2).
    cbn [mbind option_bind fst snd]. eexists _, _. split; [done|]. split_and!; [done|congruence..|].
    rewrite E1, E3 in He2. intros e. rewrite elem_of_app. intros [He|He].
    + exists from. split; [by constructor|by apply He1].
    + destruct (He2 e He) as (f & Hf & Ha). exists f. split; [by constructor|done].
Qed.

(** A node that knows nothing yet. *)
Definition example_node (self : MachineId) (ps : gmap MachineId Peer) (hosts : gmap MachineId HostData) : Gossip :=
  {| shared := {| by_host := hosts; configs := ConfigMap.new; peers := ps; messages := Some [] |};
     self_id := self; config_hash := Hash.mk []; config_list := ∅; future_peers := ∅ |}.

Lemma example_node_ok blake2b_256 cbor `{Wire (gset VPath)} self ps :
  gossip_ok blake2b_256 cbor (example_node self ps ∅).
Proof. split_and!; [apply new_well_formed|apply lookup_empty..]. Qed.

Lemma read_messages_safe_witness :
  exists g' es, read_messages (fun b => b) (fun _ => []) (H := {| to_value := fun _ => VNull; of_value := fun _ => Ok ∅ |})
    (example_node (MachineId.mk []) ∅ ∅)
    [({| ip := 1; sport := 2 |}, Err InvalidType);
     ({| ip := 1; sport := 2 |}, Ok {| pkt_machine_id := MachineId.mk [Byte.x01]; your_config := None;
                                       message := ConfigSync {[VPath.of_names "k" []]} |})] = Some (g', es).
Proof.
  destruct (read_messages_safe (fun b => b) (fun _ => []) (H := {| to_value := fun _ => VNull; of_value := fun _ => Ok ∅ |})
    (example_node (MachineId.mk []) ∅ ∅)
    [({| ip := 1; sport := 2 |}, Err InvalidType);
     ({| ip := 1; sport := 2 |}, Ok {| pkt_machine_id := MachineId.mk [Byte.x01]; your_config := None;
                                       message := ConfigSync {[VPath.of_names "k" []]} |})])
    as (g' & es & Hr & _); [apply example_node_ok|repeat constructor; discriminate|].
  exists g', es. exact Hr.
Defined.

(** What every packet of another node does to what is known of each host:
    [BaseDirs] replaces the entry of the sender, [Downloading], [Complete] and
    [CompleteAck] change the one path they are about, and the watchers named by
    [Downloading] and [Reconcile] are added for every node but this one.
    Nothing else of any host changes. *)
Theorem handle_message_hosts blake2b_256 cbor `{Wire (gset VPath)} g from mid m g' es other :
  handle_message blake2b_256 cbor g from mid m = Some (g', es) ->
  let h := host_entry other (by_host (shared g)) in
  let h' := host_entry other (by_host (shared g')) in
  match m with
  | BaseDirs ip w c d _ =>
      h' = if decide (other = mid)
           then {| downloading := to_downloading <$> ip; complete := c; watching := w; deleted := d |} else h
  | MDownloading path image mask source ws =>
      downloading h' = (if decide (other = mid)
                        then <[path := {| dw_image := image; dw_mask := mask; dw_source := source;
                                          dw_stalled := false |}]> (downloading h) else downloading h) /\
      Peers.complete h' = Peers.complete h /\ deleted h' = deleted h /\
      (forall v, v ∈ watching h' <-> v ∈ watching h \/ (other <> self_id g /\ other ∈ ws /\ v = path))
  | Complete path image =>
      h' = if decide (other = mid)
           then {| downloading := delete path (downloading h); complete := <[path := image]> (Peers.complete h);
                   watching := watching h; deleted := deleted h |} else h
  | CompleteAck path =>
      h' = if decide (other = mid)
           then {| downloading := downloading h; complete := Peers.complete h;
                   watching := watching h ∖ {[path]}; deleted := deleted h |} else h
  | ConfigSync _ => h' = h
  | Reconcile path _ ws =>
      downloading h' = downloading h /\ Peers.complete h' = Peers.complete h /\ deleted h' = deleted h /\
      (forall v, v ∈ watching h' <-> v ∈ watching h \/ (other <> self_id g /\ other ∈ peers_of ws v))
  end.
Proof.
  intros Hm. destruct m as [ip w c d bd|path image mask src ws|path h ws|path image|path|paths];
    cbn [handle_message] in Hm; [injection Hm as <- <- ..|]; cbn [with_by_host shared by_host].
  - destruct (_ && _) eqn:E; [|by rewrite host_entry_insert].
    rewrite !andb_true_iff, !bool_decide_eq_true in E. destruct E as [[[E1 E2] E3] E4].
    apply map_size_empty_inv in E1, E4. apply size_empty_inv, leibniz_equiv in E2, E3.
    subst. rewrite fmap_empty.
    unfold host_entry. rewrite lookup_delete. repeat case_decide; by subst.
  - set (hosts1 := <[mid := _]> _).
    destruct (add_watchers_spec (self_id g) path (elements ws) hosts1 other) as (H1 & H2 & H3 & H4).
    cbn zeta in *. unfold hosts1 in *. rewrite host_entry_insert in H1, H2, H3, H4.
    rewrite H1, H2, H3. case_decide; subst; cbn; (split_and!; [done..|]); intros v; rewrite H4, elem_of_elements; done.
  - destruct (reconcile_watchers_spec (self_id g) (map_to_list ws) (by_host (shared g)) other) as (H1 & H2 & H3 & H4).
    cbn zeta in *. split_and!; [done..|]. intros v. rewrite H4. setoid_rewrite elem_of_map_to_list.
    unfold peers_of. destruct (ws !! v); simpl; set_solver.
  - by rewrite host_entry_insert; case_decide; subst.
  - destruct (by_host (shared g) !! mid) as [h|] eqn:E.
    + rewrite host_entry_insert. case_decide; subst; [|done]. unfold host_entry. by rewrite E.
    + case_decide; subst; [|done]. unfold host_entry. rewrite E. cbn [default from_option].
      assert (Hd : watching empty_host ∖ {[path]} = watching empty_host) by (cbn [watching empty_host]; set_solver).
      by rewrite Hd.
  - destruct (ConfigMap.set _ _ _ _ _); [|done]. cbn in Hm. by injection Hm as <- <-.
Qed.

Definition example_peer (n : Byte.byte) (a : Z) : Peer :=
  {| id := MachineId.mk [n]; addr := {| ip := a; sport := 24783 |}; peer_hostname := ""; name := "" |}.
Definition example_all : gmap MachineId Peer :=
  <[MachineId.mk [Byte.x01] := example_peer Byte.x01 1]>
  {[MachineId.mk [Byte.x02] := example_peer Byte.x02 2]}.
Definition example_path : VPath := VPath.of_names "k" ["a"]%string.
(** The first elements of the list, and the least random number. *)
Definition example_rng : Rng := {| gen_range _ lo _ := lo; sample_iter A l n := take n l |}.
Lemma example_rng_ok : rng_ok example_rng.
Proof.
  split; simpl; [lia| |intros; by rewrite length_take]. intros A l n.
  rewrite <- (take_drop n l) at 2. by apply submseteq_inserts_r.
Qed.

Lemma handle_message_hosts_witness :
  exists g' es,
    handle_message (fun b => b) (fun _ => []) (H := {| to_value := fun _ => VNull; of_value := fun _ => Ok ∅ |})
      (example_node (MachineId.mk []) ∅ ∅) {| ip := 1; sport := 2 |} (MachineId.mk [Byte.x01])
      (Complete example_path (ImageId.from_slice [])) = Some (g', es) /\
    Peers.complete (host_entry (MachineId.mk [Byte.x01]) (by_host (shared g'))) !! example_path
      = Some (ImageId.from_slice []).
Proof.
  eexists _, _. split; [reflexivity|].
  pose proof (handle_message_hosts (fun b => b) (fun _ => [])
    (H := {| to_value := fun _ => VNull; of_value := fun _ => Ok ∅ |})
    (example_node (MachineId.mk []) ∅ ∅) {| ip := 1; sport := 2 |} (MachineId.mk [Byte.x01])
    (Complete example_path (ImageId.from_slice [])) _ _ (MachineId.mk [Byte.x01]) eq_refl) as Hh.
  etransitivity; [exact (f_equal (fun h => Peers.complete h !! example_path) Hh)|]. vm_compute. reflexivity.
Defined.

(** Where a notification about a path is sent: every destination is the
    address of a known peer; every known peer that watches the path gets it;
    so does, when at least two peers have the base directory and it is known,
    the peer that follows this node in the ring of their machine ids; and when
    no two peers share an address, at least [PACKETS_AT_ONCE] peers get it, or
    all there are.  No random choice changes any of this. *)
Theorem dest_for_packet_spec r g k ns m :
  rng_ok r -> Path.name_ok k = true ->
  (exists h ws, m = Reconcile (VPath.of_names k ns) h ws) \/
  (exists img mask src ws, m = MDownloading (VPath.of_names k ns) img mask src ws) \/
  (exists img, m = Complete (VPath.of_names k ns) img) ->
  exists d, dest_for_packet r g m = Some d /\
    known_dest (peers (shared g)) d /\
    (forall mid h p, by_host (shared g) !! mid = Some h -> VPath.of_names k ns ∈ watching h ->
       peers (shared g) !! mid = Some p -> covers d (addr p)) /\
    (forall s, by_dir (VPath.of_names k []) (configs (shared g)) = Some s -> 1 < size s ->
       exists x, ring_next (self_id g) s x /\ forall p, peers (shared g) !! x = Some p -> covers d (addr p)) /\
    ((forall m1 m2 p1 p2, peers (shared g) !! m1 = Some p1 -> peers (shared g) !! m2 = Some p2 ->
        addr p1 = addr p2 -> m1 = m2) ->
     Nat.min PACKETS_AT_ONCE (size (peers (shared g))) <= size d).
Proof.
  intros Hr Hk Hm.
  assert (Hd : dest_for_packet r g m = dest_for_path r g (VPath.of_names k ns))
    by (destruct Hm as [(?&?&->)|[(?&?&?&?&->)|(?&->)]]; done).
  rewrite Hd. destruct (dest_for_path_some r g k ns Hk) as [d Ed]. exists d. split; [done|].
  pose proof (fun m h p => dest_watcher r g _ d m h p Hr Ed) as Hw.
  unfold dest_for_path, key_vpath in Ed. rewrite VPath.key_of_names in Ed. cbn [mbind option_bind] in Ed.
  rewrite VPath.from_key in Ed by done. cbn [mbind option_bind] in Ed. injection Ed as <-.
  set (all := peers (shared g)) in *.
  destruct (watchers_dest_spec all (by_host (shared g)) (VPath.of_names k ns)) as [Hkn _].
  set (d0 := watchers_dest _ _ _) in *.
  set (d1 := match by_dir _ _ with Some _ => _ | None => _ end) in *.
  assert (Hkn1 : known_dest all d1)
    by (unfold d1; destruct (by_dir _ _); [by apply ring_dest_spec|done]).
  destruct (fill_dest_spec all r d1 Hr) as (F1 & F2 & F3). split_and!; [by apply F1|done| |done].
  - intros s Hs Hsz. unfold d1 in *. rewrite Hs in *.
    destruct (proj2 (proj2 (ring_dest_spec all r (self_id g) s d0)) Hsz) as (x & Hx & Hp).
    exists x. split; [done|]. intros p Hp'. by apply F2, Hp.
Qed.

Lemma dest_for_packet_spec_witness :
  exists d, dest_for_packet example_rng (example_node (MachineId.mk []) example_all ∅)
              (Complete example_path (ImageId.from_slice [])) = Some d /\ 2 <= size d.
Proof.
  destruct (dest_for_packet_spec example_rng (example_node (MachineId.mk []) example_all ∅) "k" ["a"]%string
    (Complete example_path (ImageId.from_slice []))) as (d & Hd & _ & _ & _ & Hs).
  - apply example_rng_ok.
  - reflexivity.
  - right. right. eexists. reflexivity.
  - exists d. split; [exact Hd|]. apply Hs. intros m1 m2 p1 p2. cbn [example_node shared peers]. unfold example_all.
    rewrite !lookup_insert, !lookup_singleton. repeat case_decide; naive_solver.
Defined.

(** The watchers attached to a [Reconcile] message: when every path
    watched, by another node or here, has a parent, the message is filled in
    and names a node for a path exactly when it did before, or that node (this
    one included) watches the path and the path lies directly in the directory
    the message is about.  A watched path that is a bare base directory has no
    parent, and then the call panics. *)
Theorem fill_msg_watchers g my_watching path h watches :
  let watched v m := (exists hd, by_host (shared g) !! m = Some hd /\ v ∈ watching hd) \/
                     (m = self_id g /\ v ∈ my_watching) in
  ((forall v m, watched v m -> is_Some (VPath.parent v)) ->
   exists w, fill_msg g my_watching (Reconcile path h watches) = Some (Reconcile path h w) /\
     forall v m, m ∈ peers_of w v <->
       m ∈ peers_of watches v \/ (watched v m /\ VPath.parent v = Some path)) /\
  (forall k m, watched (VPath.of_names k []) m ->
     fill_msg g my_watching (Reconcile path h watches) = None).
Proof.
  cbn [fill_msg]. split.
  - intros Hp.
    destruct (watch_hosts_spec path (map_to_list (by_host (shared g))) watches) as (w1 & -> & H1).
    { intros m hd v Hm%elem_of_map_to_list Hv. apply (Hp v m). eauto. }
    cbn [mbind option_bind].
    destruct (watch_children_spec path (self_id g) (elements my_watching) w1) as (w & -> & H2).
    { intros v Hv%elem_of_elements. apply (Hp v (self_id g)). auto. }
    cbn [mbind option_bind]. exists w. split; [done|]. intros v m.
    rewrite H2, H1, elem_of_elements. setoid_rewrite elem_of_map_to_list. naive_solver.
  - intros k m Hw. pose proof (proj1 (VPath.level_zero_key k)) as Hk.
    destruct Hw as [(hd & Hm & Hv)|[-> Hv]].
    + rewrite (watch_hosts_none _ _ _ m hd (VPath.of_names k [])); [done| |done|done].
      by apply elem_of_map_to_list.
    + destruct (watch_hosts _ _ _) as [w|]; [|done]. cbn [mbind option_bind].
      rewrite (watch_children_none _ _ _ _ (VPath.of_names k [])); [done| |done]. by apply elem_of_elements.
Qed.

(** News of a path find their way to its watchers: if a node knows that
    [x] watches a path and tells another node about the directory of the path,
    then the other node, once it has handled that packet, sends the
    announcement that the path is complete to [x], provided it knows an address
    of [x].  This is how a client that waits for an image at one server learns
    that some other server has it. *)
Theorem watch_propagation blake2b_256 cbor `{Wire (gset VPath)}
    a r_a my_a h0 ws es_a to pkt b from b' es_b r_b my_b k ns n x hd p img base h :
  let v := VPath.of_names k (ns ++ [n]) in
  Path.name_ok k = true -> base = VPath.of_names k ns ->
  by_host (shared a) !! x = Some hd -> v ∈ watching hd -> x <> self_id b -> self_id a <> self_id b ->
  h = Reconcile base h0 ws ->
  write_message r_a a my_a h = Some es_a -> SendPacket to pkt ∈ es_a ->
  read_message blake2b_256 cbor b from (Ok pkt) = Some (b', es_b) ->
  rng_ok r_b -> peers (shared b') !! x = Some p ->
  exists es pkt', write_message r_b b' my_b (Complete v img) = Some es /\
    SendPacket (addr p) pkt' ∈ es /\ message pkt' = Complete v img.
Proof.
  intros v Hk -> Hhd Hv Hxb Hab -> Hwa Hsend Hread Hr Hp.
  assert (Hpar : VPath.parent v = Some (VPath.of_names k ns)) by apply VPath.parent_snoc.
  (* the packet names [x] *)
  assert (Hpkt : exists w, message pkt = Reconcile (VPath.of_names k ns) h0 w /\ x ∈ peers_of w v /\
                           pkt_machine_id pkt = self_id a).
  { unfold write_message in Hwa. destruct (dest_for_packet _ _ _); [|done]. cbn [mbind option_bind] in Hwa.
    destruct (fill_msg a my_a _) as [m'|] eqn:Ef; [|done]. cbn [mbind option_bind] in Hwa. injection Hwa as <-.
    apply list_elem_of_fmap in Hsend as (e & [= -> ->] & _). cbn.
    assert (Hin : (x, hd) ∈ map_to_list (by_host (shared a))) by by apply elem_of_map_to_list.
    destruct (fill_msg_names a my_a (VPath.of_names k ns) h0 ws m' x hd v) as (w & -> & Hx); eauto. }
  destruct Hpkt as (w & Hmsg & Hxw & Hfrom).
  (* the receiver knows that [x] watches the path *)
  assert (Hb : exists hd', by_host (shared b') !! x = Some hd' /\ v ∈ watching hd').
  { cbn [read_message] in Hread. rewrite Hfrom, decide_False in Hread by done.
    rewrite Hmsg in Hread. cbn in Hread. injection Hread as <- _. cbn [with_by_host shared by_host].
    destruct (discover_fields from (self_id a) b) as (-> & _ & _ & -> & _).
    apply host_entry_watching.
    destruct (reconcile_watchers_spec (self_id b) (map_to_list w) (by_host (shared b)) x) as (_ & _ & _ & Hw).
    apply Hw. right. split; [done|]. unfold peers_of in Hxw. destruct (w !! v) as [s|] eqn:Es; [|done].
    exists s. by rewrite elem_of_map_to_list. }
  destruct Hb as (hd' & Hhd' & Hv').
  destruct (dest_for_path_some r_b b' k (ns ++ [n]) Hk) as [d Hd].
  destruct (dest_watcher r_b b' _ d x hd' p Hr Hd Hhd' Hv' Hp) as [mid Hmid].
  unfold write_message. cbn [dest_for_packet fill_msg]. fold v in Hd. rewrite Hd. cbn [mbind option_bind].
  eexists _, _. split; [done|]. split; [apply list_elem_of_fmap; exists (addr p, mid); split; [done|];
    by apply elem_of_map_to_list|done].
Qed.

Lemma watch_propagation_witness :
  let x := MachineId.mk [Byte.x01] in let ida := MachineId.mk [Byte.x0a] in let idb := MachineId.mk [Byte.x02] in
  let hd := {| downloading := ∅; complete := ∅; watching := {[example_path]}; deleted := ∅ |} in
  let a := example_node ida {[idb := example_peer Byte.x02 2]} {[x := hd]} in
  let b := example_node idb {[x := example_peer Byte.x01 1]} ∅ in
  let b' := with_by_host (fun _ => {[x := hd]}) b in
  exists es pkt, write_message example_rng b' ∅ (Complete example_path (ImageId.from_slice [])) = Some es /\
    SendPacket (addr (example_peer Byte.x01 1)) pkt ∈ es.
Proof.
  intros x ida idb hd a b b'.
  set (from := {| ip := 10; sport := 24783 |}).
  set (pkt := {| pkt_machine_id := ida; your_config := None;
                 message := Reconcile (VPath.of_names "k" []) (Hash.mk []) {[example_path := {[x]}]} |}).
  destruct (watch_propagation (fun b => b) (fun _ => []) (H := {| to_value := fun _ => VNull; of_value := fun _ => Ok ∅ |})
    a example_rng ∅ (Hash.mk []) ∅ [SendPacket (addr (example_peer Byte.x02 2)) pkt]
    (addr (example_peer Byte.x02 2)) pkt b from b'
    [send_config b from ida; ReconcileDir (VPath.of_names "k" []) (Hash.mk []) from ida]
    example_rng ∅ "k" [] "a" x hd (example_peer Byte.x01 1) (ImageId.from_slice [])
    (VPath.of_names "k" []) (Reconcile (VPath.of_names "k" []) (Hash.mk []) ∅)) as (es & pkt' & H1 & H2 & _).
  - reflexivity.
  - reflexivity.
  - apply lookup_singleton_eq.
  - change (example_path ∈ ({[example_path]} : gset VPath)). by apply elem_of_singleton.
  - discriminate.
  - discriminate.
  - reflexivity.
  - vm_compute. reflexivity.
  - by constructor.
  - vm_compute. reflexivity.
  - apply example_rng_ok.
  - apply lookup_singleton_eq.
  - exists es, pkt'. split; [exact H1|exact H2].
Defined.

(** The periodic gossip: every address of the peer file that has not
    answered yet gets this node's state; so does every known peer that watches
    a path complete here, as long as there are at most [PACKETS_AT_ONCE] of
    them; in all cases at least [PACKETS_AT_ONCE] known peers do, or all there
    are; and nobody else. *)
Theorem send_gossips_spec r g tv picks :
  rng_ok r ->
  let sent to id := send_gossip g to id tv (picks to) ∈ send_gossips r g tv picks in
  (forall a nm, future_peers g !! a = Some nm -> sent a None) /\
  (forall mid h p v, size (complete_watchers g tv) <= PACKETS_AT_ONCE ->
     by_host (shared g) !! mid = Some h -> v ∈ watching h -> is_Some (get_complete tv !! v) ->
     peers (shared g) !! mid = Some p -> sent (addr p) (Some mid)) /\
  (exists targets : list MachineId,
     NoDup targets /\ Nat.min PACKETS_AT_ONCE (size (peers (shared g))) <= length targets /\
     (forall mid, mid ∈ targets -> exists p, peers (shared g) !! mid = Some p /\ sent (addr p) (Some mid))) /\
  (forall e, e ∈ send_gossips r g tv picks ->
     (exists a nm, future_peers g !! a = Some nm /\ e = send_gossip g a None tv (picks a)) \/
     (exists mid p, peers (shared g) !! mid = Some p /\ e = send_gossip g (addr p) (Some mid) tv (picks (addr p)))).
Proof.
  intros Hr sent.
  assert (Hsent : forall mid p, gossip_hosts r g tv !! mid = Some p -> sent (addr p) (Some mid)).
  { intros mid p Hm. unfold sent, send_gossips. apply elem_of_app. right. apply list_elem_of_fmap.
    exists (mid, p). split; [done|]. by apply elem_of_map_to_list. }
  destruct (gossip_hosts_spec r g tv Hr) as (G1 & G2 & G3). split_and!.
  - intros a nm Ha. unfold sent, send_gossips. apply elem_of_app. left. apply list_elem_of_fmap.
    exists (a, nm). split; [done|]. by apply elem_of_map_to_list.
  - intros mid h p v Hsz Hh Hv Hc Hp. apply Hsent. by eapply G2.
  - exists (map fst (map_to_list (gossip_hosts r g tv))). split_and!.
    + apply NoDup_fst_map_to_list.
    + by rewrite length_map, length_map_to_list.
    + intros mid Hm. apply list_elem_of_fmap in Hm as ([m p] & -> & Hin). apply elem_of_map_to_list in Hin.
      exists p. split; [by apply G1|by apply Hsent].
  - intros e. unfold send_gossips. rewrite elem_of_app. intros [He|He]; apply list_elem_of_fmap in He as ([x y] & -> & Hin);
      apply elem_of_map_to_list in Hin; [left; eauto|right; exists x, y; split; [by apply G1|done]].
Qed.

Lemma send_gossips_spec_witness :
  let tv := {| get_in_progress := ∅; get_deleted := []; get_complete := ∅; get_watching := ∅ |} in
  exists targets : list MachineId, NoDup targets /\ 2 <= length targets /\
    forall mid, mid ∈ targets -> exists p, example_all !! mid = Some p.
Proof.
  intros tv.
  destruct (send_gossips_spec example_rng (example_node (MachineId.mk []) example_all ∅) tv (fun _ => []) example_rng_ok)
    as (_ & _ & (targets & H1 & H2 & H3) & _).
  exists targets. split; [exact H1|]. split; [exact H2|].
  intros mid Hm. destruct (H3 mid Hm) as (p & Hp & _). exists p. exact Hp.
Defined.
