(* ===== verification/Progress.v ===== *)
(** * The blocks of an image being downloaded: [src/daemon/tracking/progress.rs]

    The blocks to fetch are cut into chunks of 100 and dealt to at most 15
    slices; the mask says which slices are complete.  Atomics and the locked
    queue of slices are fields of [Downloading]; every operation is one step. *)
From S2P Require Import Prelude Serde VirtualPath Mask Ids Index Time Config Peers.
Import VPath ImageId.
Local Open Scope Z_scope.

Definition MAX_SLICES : nat := 15.

Record Block := { b_hash : BlockHash.BlockHash; b_path : Path.t; b_offset : Z }.
#[export] Instance Block_eq_dec : EqDecision Block.
Proof. solve_decision. Defined.

Abbreviation HostFailures := (Failures SocketAddr DefaultPolicy).

Record Slice := {
  sl_index : nat;
  sl_in_progress : nat;
  sl_blocks : list Block;
  sl_failures : HostFailures
}.

Record Downloading := {
  dl_path : VPath;
  dl_replacing : bool;
  dl_image : ImageId;
  dl_config : Directory;
  dl_slices : list Slice;
  dl_mask : AtomicMask;
  dl_index_fetched : bool;
  dl_bytes_total : Z;
  dl_bytes_fetched : Z;
  dl_blocks_total : Z;
  dl_blocks_fetched : Z;
  dl_stalled : bool
}.

(** The literal of [Tracking::fetch_dir]. *)
Definition new_downloading (path : VPath) (image : ImageId) (replacing : bool) (cfg : Directory) : Downloading :=
  {| dl_path := path; dl_replacing := replacing; dl_image := image; dl_config := cfg; dl_slices := [];
     dl_mask := amask_new; dl_index_fetched := false; dl_bytes_total := 0; dl_bytes_fetched := 0;
     dl_blocks_total := 0; dl_blocks_fetched := 0; dl_stalled := false |}.

Definition with_slices (l : list Slice) (d : Downloading) : Downloading :=
  {| dl_path := dl_path d; dl_replacing := dl_replacing d; dl_image := dl_image d; dl_config := dl_config d;
     dl_slices := l; dl_mask := dl_mask d; dl_index_fetched := dl_index_fetched d;
     dl_bytes_total := dl_bytes_total d; dl_bytes_fetched := dl_bytes_fetched d;
     dl_blocks_total := dl_blocks_total d; dl_blocks_fetched := dl_blocks_fetched d; dl_stalled := dl_stalled d |}.
Definition with_mask (m : AtomicMask) (d : Downloading) : Downloading :=
  {| dl_path := dl_path d; dl_replacing := dl_replacing d; dl_image := dl_image d; dl_config := dl_config d;
     dl_slices := dl_slices d; dl_mask := m; dl_index_fetched := dl_index_fetched d;
     dl_bytes_total := dl_bytes_total d; dl_bytes_fetched := dl_bytes_fetched d;
     dl_blocks_total := dl_blocks_total d; dl_blocks_fetched := dl_blocks_fetched d; dl_stalled := dl_stalled d |}.
Definition set_stalled (b : bool) (d : Downloading) : Downloading :=
  {| dl_path := dl_path d; dl_replacing := dl_replacing d; dl_image := dl_image d; dl_config := dl_config d;
     dl_slices := dl_slices d; dl_mask := dl_mask d; dl_index_fetched := dl_index_fetched d;
     dl_bytes_total := dl_bytes_total d; dl_bytes_fetched := dl_bytes_fetched d;
     dl_blocks_total := dl_blocks_total d; dl_blocks_fetched := dl_blocks_fetched d; dl_stalled := b |}.

Definition slice_new (index : nat) : Slice :=
  {| sl_index := index; sl_blocks := []; sl_failures := new_default; sl_in_progress := 0 |}.
Definition add_blocks (blocks : list Block) (s : Slice) : Slice :=
  {| sl_index := sl_index s; sl_in_progress := sl_in_progress s; sl_blocks := sl_blocks s ++ blocks;
     sl_failures := sl_failures s |}.

Definition is_stalled (d : Downloading) : bool := dl_stalled d.
Definition notify_stalled (d : Downloading) : Downloading := set_stalled true d.
Definition notify_unstalled (d : Downloading) : Downloading := set_stalled false d.

Definition index_fetched (index : IndexData) (d0 : Downloading) : Downloading :=
  let d := notify_unstalled d0 in
  {| dl_path := dl_path d; dl_replacing := dl_replacing d; dl_image := dl_image d; dl_config := dl_config d;
     dl_slices := dl_slices d; dl_mask := dl_mask d; dl_index_fetched := true;
     dl_bytes_total := bytes_total index; dl_bytes_fetched := dl_bytes_fetched d;
     dl_blocks_total := blocks_total index; dl_blocks_fetched := dl_blocks_fetched d;
     dl_stalled := dl_stalled d |}.

(** [fetch_add] of an atomic wraps around. *)
Definition report_block (block : bytes) (d0 : Downloading) : Downloading :=
  let d := notify_unstalled d0 in
  {| dl_path := dl_path d; dl_replacing := dl_replacing d; dl_image := dl_image d; dl_config := dl_config d;
     dl_slices := dl_slices d; dl_mask := dl_mask d; dl_index_fetched := dl_index_fetched d;
     dl_bytes_total := dl_bytes_total d;
     dl_bytes_fetched := wrap64 (dl_bytes_fetched d + Z.of_nat (length block));
     dl_blocks_total := dl_blocks_total d; dl_blocks_fetched := wrap64 (dl_blocks_fetched d + 1);
     dl_stalled := dl_stalled d |}.

Definition report_slice (slice : nat) (d : Downloading) : option Downloading :=
  m ← amask_set_fetched (dl_mask d) slice; Some (with_mask m d).

(** ** [fill_blocks] *)

(** The block number [i] of a file. *)
Definition file_block (path : Path.t) (block_size : Z) (i : nat) (hash : bytes) : option Block :=
  h ← BlockHash.from_bytes hash; off ← checked64 (Z.of_nat i * block_size);
  Some {| b_hash := h; b_path := path; b_offset := off |}.

Fixpoint file_blocks (path : Path.t) (block_size : Z) (i : nat) (hashes : list bytes) : option (list Block) :=
  match hashes with
  | [] => Some []
  | h :: hs => b ← file_block path block_size i h; bs ← file_blocks path block_size (S i) hs; Some (b :: bs)
  end.

Definition entry_to_fetch (hardlinks : gset Path.t) (block_size : Z) (e : Entry) : option (list Block) :=
  match e with
  | Dir _ => Some []
  | Link _ _ => Some []
  | File path _ _ hashes => if decide (path ∈ hardlinks) then Some [] else file_blocks path block_size 0 hashes
  end.

Definition blocks_to_fetch (index : IndexData) (hardlinks : gset Path.t) : option (list Block) :=
  mjoin <$> mapM (entry_to_fetch hardlinks (block_size index)) (entries index).

(** [slice::chunks]; a chunk is not empty, so the length of the list is fuel
    enough. *)
Fixpoint chunks_of {A} (fuel n : nat) (l : list A) : list (list A) :=
  match fuel, l with
  | S fuel', _ :: _ => take n l :: chunks_of fuel' n (drop n l)
  | _, _ => []
  end.
Definition chunks {A} (n : nat) (l : list A) : list (list A) := chunks_of (length l) n l.

(** [while slices.len() <= s { slices.push(Slice::new(..)) }]. *)
Definition grow (s : nat) (slices : list Slice) : list Slice :=
  slices ++ map slice_new (seq (length slices) (S s - length slices)).

(** The loop over the chunks; [slices[s]] exists after [grow]. *)
Fixpoint deal (idx : nat) (cs : list (list Block)) (slices : list Slice) (mask : Mask)
  : option (list Slice * Mask) :=
  match cs with
  | [] => Some (slices, mask)
  | chunk :: cs' =>
      let s := (idx mod MAX_SLICES)%nat in
      mask' ← slice_unfetched mask s;
      deal (S idx) cs' (alter (add_blocks chunk) s (grow s slices)) mask'
  end.

(** [shuffle] is [thread_rng().shuffle]. *)
Definition fill_blocks (shuffle : list Slice -> list Slice) (index : IndexData) (hardlinks : gset Path.t)
    (d : Downloading) : option Downloading :=
  blocks ← blocks_to_fetch index hardlinks;
  filled ← deal 0 (chunks 100 blocks) [] full;
  Some (with_mask (amask_set (dl_mask d) (snd filled)) (with_slices (dl_slices d ++ shuffle (fst filled)) d)).

(** ** Lemmas *)

Lemma chunks_of_spec {A} n fuel (l : list A) :
  (0 < n)%nat -> (length l <= fuel)%nat ->
  mjoin (chunks_of fuel n l) = l /\ Forall (fun c => c <> [] /\ (length c <= n)%nat) (chunks_of fuel n l).
Proof.
  intros Hn. revert l. induction fuel as [|fuel IH]; intros l Hl.
  - by destruct l; [|simpl in Hl; lia].
  - destruct l as [|x l]; [done|]. cbn [chunks_of].
    destruct (IH (drop n (x :: l))) as [Hj Hf]; [rewrite length_drop; simpl in *; lia|]. split.
    + change (take n (x :: l) ++ mjoin (chunks_of fuel n (drop n (x :: l))) = x :: l). rewrite Hj. apply take_drop.
    + constructor; [|done]. split; [by destruct n; [lia|]|]. rewrite length_take. lia.
Qed.

(** All blocks queued in a list of slices. *)
Definition queued (slices : list Slice) : list Block := mjoin (map sl_blocks slices).

Lemma queued_cons s l : queued (s :: l) = sl_blocks s ++ queued l.
Proof. done. Qed.

Lemma queued_app l k : queued (l ++ k) = queued l ++ queued k.
Proof. unfold queued. by rewrite map_app, join_app. Qed.

Lemma queued_fresh n k : queued (map slice_new (seq n k)) = [].
Proof. revert n. induction k as [|k IH]; intros n; [done|]. simpl. by rewrite queued_cons, IH. Qed.

Lemma queued_perm l k : l ≡ₚ k -> queued l ≡ₚ queued k.
Proof. intros H. unfold queued. by rewrite H. Qed.

Lemma queued_alter f c s l :
  (forall x, sl_blocks (f x) = sl_blocks x ++ c) -> (s < length l)%nat ->
  queued (alter f s l) ≡ₚ queued l ++ c.
Proof.
  intros Hf. revert s. induction l as [|x l IH]; intros [|s] Hs; simpl in Hs; try lia.
  - simpl. rewrite !queued_cons, Hf, <- !app_assoc. apply Permutation_app_head, Permutation_app_comm.
  - simpl. rewrite !queued_cons, <- app_assoc. apply Permutation_app_head, IH. lia.
Qed.

(** A slice nobody has asked for yet. *)
Definition fresh_slice (i : nat) (s : Slice) : Prop :=
  sl_index s = i /\ sl_in_progress s = 0%nat /\ sl_failures s = new_default.

(** The state of [deal] after [idx] chunks. *)
Record dealt (idx : nat) (done_blocks : list Block) (slices : list Slice) (mask : Mask) : Prop := {
  dt_length : length slices = Nat.min idx MAX_SLICES;
  dt_fresh : forall i s, slices !! i = Some s -> fresh_slice i s;
  dt_blocks : queued slices ≡ₚ done_blocks;
  dt_mask_ok : mask_ok mask;
  dt_mask : forall i, has mask i = bool_decide (length slices <= i < 16)%nat
}.

Lemma dealt_start : dealt 0 [] [] full.
Proof.
  split; [done|by intros i s ?|done|apply full_ok|].
  intros i. rewrite has_full. apply bool_decide_ext. simpl. lia.
Qed.

Lemma grow_length s slices : (length slices <= S s)%nat -> length (grow s slices) = S s.
Proof. intros Hl. unfold grow. rewrite length_app, length_map, length_seq. lia. Qed.

Lemma grow_none s slices : (s < length slices)%nat -> grow s slices = slices.
Proof. intros Hl. unfold grow. replace (S s - length slices)%nat with 0%nat by lia. apply app_nil_r. Qed.

Lemma grow_lookup s slices i x : grow s slices !! i = Some x ->
  slices !! i = Some x \/ ((length slices <= i)%nat /\ x = slice_new i).
Proof.
  unfold grow. intros [H|[Hl H]]%lookup_app_Some; [by left|right]. split; [done|].
  rewrite list_lookup_fmap in H. apply fmap_Some in H as (j & Hj & ->).
  apply lookup_seq in Hj as [-> _]. f_equal. lia.
Qed.

(** A chunk goes to the slice [idx mod 15], which is the next new slice for
    the first 15 chunks. *)
Lemma dealt_step idx done_blocks slices mask mask' chunk :
  dealt idx done_blocks slices mask ->
  let s := (idx mod MAX_SLICES)%nat in
  slice_unfetched mask s = Some mask' ->
  dealt (S idx) (done_blocks ++ chunk) (alter (add_blocks chunk) s (grow s slices)) mask'.
Proof.
  intros [Hl Hf Hb Hok Hm] s Hs.
  assert (Hs15 : (s < 15)%nat) by (by apply Nat.mod_upper_bound).
  assert (Hsl : (s <= length slices)%nat /\ length (grow s slices) = Nat.min (S idx) MAX_SLICES).
  { unfold MAX_SLICES in *. destruct (decide (idx < 15)%nat).
    - assert (Hsi : s = idx) by (by apply Nat.mod_small). rewrite grow_length by lia. lia.
    - rewrite grow_none by lia. lia. }
  destruct Hsl as [Hsl Hgl].
  destruct (unfetched_spec _ _ _ Hok Hs) as [Hok' Hm']. split.
  - by rewrite length_alter.
  - intros i x. destruct (decide (i = s)) as [->|Hi].
    + rewrite list_lookup_alter_eq. intros (y & Hy & ->)%fmap_Some.
      apply grow_lookup in Hy as [Hy|[_ ->]]; [|done]. by apply Hf in Hy.
    + rewrite list_lookup_alter_ne by done. intros [Hy|[_ ->]]%grow_lookup; [by apply Hf|done].
  - rewrite (queued_alter _ chunk) by (try done; rewrite Hgl; unfold MAX_SLICES in *; lia).
    unfold grow. by rewrite queued_app, queued_fresh, app_nil_r, Hb.
  - done.
  - intros i. rewrite Hm', Hm, length_alter, Hgl. apply Bool.eq_iff_eq_true.
    rewrite andb_true_iff, negb_true_iff, bool_decide_eq_false, !bool_decide_eq_true.
    unfold MAX_SLICES in *. destruct (decide (idx < 15)%nat).
    + assert (Hsi : s = idx) by (apply Nat.mod_small; done). lia.
    + lia.
Qed.

Lemma deal_spec cs idx done_blocks slices mask :
  dealt idx done_blocks slices mask ->
  exists slices' mask', deal idx cs slices mask = Some (slices', mask') /\
    dealt (idx + length cs) (done_blocks ++ mjoin cs) slices' mask'.
Proof.
  revert idx done_blocks slices mask. induction cs as [|c cs IH]; intros idx db slices mask H.
  - exists slices, mask. split; [done|]. by rewrite Nat.add_0_r, app_nil_r.
  - cbn [deal]. destruct (unfetched_total mask (idx mod MAX_SLICES)) as [mask' Hm].
    { pose proof (Nat.mod_upper_bound idx MAX_SLICES). unfold MAX_SLICES in *. lia. }
    rewrite Hm. simpl. destruct (IH _ _ _ _ (dealt_step _ _ _ _ _ c H Hm)) as (sl & m & Hd & Hdt).
    exists sl, m. split; [done|]. cbn [mjoin list_join length]. rewrite Nat.add_succ_r.
    by rewrite <- app_assoc in Hdt.
Qed.

Lemma file_blocks_elem path bs hashes i bl b :
  file_blocks path bs i hashes = Some bl ->
  b ∈ bl <-> exists j h, hashes !! j = Some h /\ b_path b = path /\ BlockHash.arr (b_hash b) = h /\
    b_offset b = Z.of_nat (i + j) * bs.
Proof.
  revert i bl. induction hashes as [|h hs IH]; intros i bl; cbn [file_blocks].
  - intros [= <-]. split; [by intros ?%not_elem_of_nil|]. by intros (j & h & Hj & _).
  - intros H. apply bind_Some in H as (b0 & Hb0 & H). apply bind_Some in H as (bl' & Hbl & [= <-]).
    unfold file_block in Hb0. apply bind_Some in Hb0 as (h0 & Hh0 & Hb0).
    unfold BlockHash.from_bytes in Hh0. case_decide; [|done]. injection Hh0 as <-.
    unfold checked64 in Hb0. case_decide; [|done]. injection Hb0 as <-.
    rewrite elem_of_cons, (IH _ _ Hbl). split.
    + intros [->|(j & h' & Hj & Hp & Ha & Ho)].
      * exists 0%nat, h. cbn. rewrite Nat.add_0_r. done.
      * exists (S j), h'. rewrite Ho. split_and!; try done. f_equal. lia.
    + intros ([|j] & h' & Hj & Hp & Ha & Ho).
      * left. injection Hj as ->. destruct b as [[a] p o]. cbn in *. subst. by rewrite Nat.add_0_r.
      * right. exists j, h'. rewrite Ho. split_and!; try done. f_equal. lia.
Qed.

Lemma blocks_to_fetch_elem index hardlinks bl b :
  blocks_to_fetch index hardlinks = Some bl ->
  b ∈ bl <-> exists exe size hashes j, File (b_path b) exe size hashes ∈ entries index /\
    b_path b ∉ hardlinks /\ hashes !! j = Some (BlockHash.arr (b_hash b)) /\
    b_offset b = Z.of_nat j * block_size index.
Proof.
  unfold blocks_to_fetch. intros (bls & Hbls & ->)%fmap_Some. revert bls Hbls.
  induction (entries index) as [|e es IH]; intros bls Hbls.
  - injection Hbls as <-. split; [by intros ?%not_elem_of_nil|]. by intros (?&?&?&?&?%not_elem_of_nil & _).
  - simpl in Hbls. apply bind_Some in Hbls as (el & Hel & H). apply bind_Some in H as (bls' & Hb' & [= <-]).
    change (mjoin (el :: bls')) with (el ++ mjoin bls'). rewrite elem_of_app, (IH _ Hb'). clear IH.
    setoid_rewrite elem_of_cons.
    enough (Hhead : b ∈ el <-> exists exe size hashes j, File (b_path b) exe size hashes = e /\
      b_path b ∉ hardlinks /\ hashes !! j = Some (BlockHash.arr (b_hash b)) /\
      b_offset b = Z.of_nat j * block_size index).
    { rewrite Hhead. split.
      - intros [(x & sz & hs & j & He & Hr)|(x & sz & hs & j & Hin & Hr)]; exists x, sz, hs, j; tauto.
      - intros (x & sz & hs & j & [He|Hin] & Hr); [left|right]; by exists x, sz, hs, j. }
    destruct e as [p|p dst|p exe size hs]; simpl in Hel.
    1,2: injection Hel as <-; split; [by intros ?%not_elem_of_nil|by intros (?&?&?&?&[=]&_)].
    case_decide as Hp.
    + injection Hel as <-. split; [by intros ?%not_elem_of_nil|]. intros (?&?&?&?&[= ? ? ?]&?&?); congruence.
    + rewrite (file_blocks_elem _ _ _ _ _ _ Hel). cbn [Nat.add]. split.
      * intros (j & h & Hj & <- & <- & Ho). by exists exe, size, hs, j.
      * intros (x & sz & hashes & j & [= <- _ _ <-] & Hnp & Hj & Ho). by exists j, (BlockHash.arr (b_hash b)).
Qed.

Lemma file_blocks_none path bs hashes i :
  file_blocks path bs i hashes = None ->
  exists j h, hashes !! j = Some h /\
    (length h <> 32%nat \/ ~ 0 <= Z.of_nat (i + j) * bs < u64_modulus).
Proof.
  revert i. induction hashes as [|h hs IH]; intros i; cbn [file_blocks]; [done|].
  intros [Hb|(b & Hb & H)]%bind_None.
  - exists 0%nat, h. split; [done|]. rewrite Nat.add_0_r. unfold file_block, BlockHash.from_bytes, checked64 in Hb.
    destruct (decide (length h = 32%nat)); [|by left]. right. intros Hr. simpl in Hb. by rewrite decide_True in Hb.
  - apply bind_None in H as [H|(bl & _ & [=])]. destruct (IH _ H) as (j & h' & Hj & Hn).
    exists (S j), h'. split; [done|]. by rewrite Nat.add_succ_r.
Qed.

Lemma blocks_to_fetch_none index hardlinks :
  blocks_to_fetch index hardlinks = None ->
  exists path exe size hashes j h, File path exe size hashes ∈ entries index /\ path ∉ hardlinks /\
    hashes !! j = Some h /\ (length h <> 32%nat \/ ~ 0 <= Z.of_nat j * block_size index < u64_modulus).
Proof.
  unfold blocks_to_fetch. intros H%fmap_None. revert H.
  induction (entries index) as [|e es IH]; [done|]. simpl. intros [He|(el & _ & H)]%bind_None.
  - clear IH. destruct e as [| |p exe size hs]; simpl in He; [done..|]. case_decide; [done|].
    apply file_blocks_none in He as (j & h & Hj & Hn). exists p, exe, size, hs, j, h.
    split_and!; [apply list_elem_of_here|done..].
  - apply bind_None in H as [H|(bl & _ & [=])]. destruct (IH H) as (p & exe & size & hs & j & h & Hin & Hr).
    exists p, exe, size, hs, j, h. split; [by apply list_elem_of_further|done].
Qed.

(** What [fill_blocks] leaves, for the rest of the download. *)
Lemma fill_blocks_run shuffle index hardlinks d blocks :
  (forall l, shuffle l ≡ₚ l) -> blocks_to_fetch index hardlinks = Some blocks ->
  exists slices mask, dealt (length (chunks 100 blocks)) blocks slices mask /\
    fill_blocks shuffle index hardlinks d =
      Some (with_mask (amask_set (dl_mask d) mask) (with_slices (dl_slices d ++ shuffle slices) d)).
Proof.
  intros Hsh Hb. destruct (deal_spec (chunks 100 blocks) 0 [] [] full dealt_start) as (sl & m & Hd & Hdt).
  destruct (chunks_of_spec 100 (length blocks) blocks) as [Hj _]; [lia..|].
  exists sl, m. unfold chunks in Hdt at 2. rewrite Hj in Hdt. split; [done|].
  unfold fill_blocks. rewrite Hb. cbn [mbind option_bind]. by rewrite Hd.
Qed.

Lemma dealt_indices idx bl slices mask : dealt idx bl slices mask ->
  map sl_index slices = seq 0 (length slices).
Proof.
  intros [_ Hf _ _ _]. apply list_eq. intros i. rewrite list_lookup_fmap.
  destruct (slices !! i) as [s|] eqn:Hs; simpl.
  - pose proof Hs as [-> _]%Hf. symmetry. apply lookup_seq. split; [done|]. by apply lookup_lt_Some in Hs.
  - symmetry. apply lookup_seq_ge. by apply lookup_ge_None in Hs.
Qed.

(** ** Properties *)

(** Filling in the blocks of an image.  Every block of every file that was not
    hard linked is put into exactly one slice, with its file, its hash and its
    offset, and nothing else is; there is a slice per hundred blocks and 15 at
    most, with different numbers; the mask has exactly the slices that are not
    there, and the index.  It panics only when a block hash does not have
    32 bytes or an offset does not fit a [u64]. *)
Theorem fill_blocks_deals shuffle index hardlinks d :
  (forall l, shuffle l ≡ₚ l) -> dl_slices d = [] ->
  match fill_blocks shuffle index hardlinks d with
  | Some d' =>
      (forall b, b ∈ queued (dl_slices d') <->
         exists exe size hashes j, File (b_path b) exe size hashes ∈ entries index /\
           b_path b ∉ hardlinks /\ hashes !! j = Some (BlockHash.arr (b_hash b)) /\
           b_offset b = Z.of_nat j * block_size index) /\
      (exists blocks, blocks_to_fetch index hardlinks = Some blocks /\ queued (dl_slices d') ≡ₚ blocks /\
         map sl_index (dl_slices d') ≡ₚ seq 0 (Nat.min (length (chunks 100 blocks)) 15)) /\
      (forall s, s ∈ dl_slices d' -> sl_in_progress s = 0%nat /\ sl_failures s = new_default) /\
      (forall i, has (amask_get (dl_mask d')) i =
         bool_decide (i < 16 /\ i ∉ map sl_index (dl_slices d'))%nat)
  | None =>
      exists path exe size hashes j h, File path exe size hashes ∈ entries index /\ path ∉ hardlinks /\
        hashes !! j = Some h /\ (length h <> 32%nat \/ ~ 0 <= Z.of_nat j * block_size index < u64_modulus)
  end.
Proof.
  intros Hsh Hd. destruct (blocks_to_fetch index hardlinks) as [blocks|] eqn:Hb;
    [|unfold fill_blocks; rewrite Hb; by apply blocks_to_fetch_none].
  destruct (fill_blocks_run shuffle index hardlinks d blocks Hsh Hb) as (sl & m & Hdt & ->).
  cbn [dl_slices with_mask with_slices dl_mask amask_set amask_get cell]. rewrite Hd. cbn [app].
  pose proof (dealt_indices _ _ _ _ Hdt) as Hix. destruct Hdt as [Hl Hf Hbl Hok Hm].
  assert (Hq : queued (shuffle sl) ≡ₚ blocks) by (by rewrite (queued_perm _ _ (Hsh sl))).
  assert (Hi : map sl_index (shuffle sl) ≡ₚ seq 0 (length sl)) by (by rewrite (Hsh sl), Hix).
  split_and!.
  - intros b. rewrite Hq. by apply blocks_to_fetch_elem.
  - exists blocks. split_and!; [done|done|]. by rewrite Hi, Hl.
  - intros s Hs. rewrite (Hsh sl) in Hs. apply list_elem_of_lookup in Hs as [i Hs]. by apply Hf in Hs as (_ & ? & ?).
  - intros i. change (has (Mask.mk (bits m)) i = bool_decide (i < 16 /\ i ∉ map sl_index (shuffle sl))%nat).
    replace (Mask.mk (bits m)) with m by (by destruct m). rewrite Hm.
    apply bool_decide_ext. rewrite Hi, elem_of_seq. lia.
Qed.

(** An index of one file of 250 blocks and one that is hard linked. *)
Definition example_index : IndexData :=
  {| ix_id := from_slice []; hash_type := Blake2b_256; block_size := 32768;
     entries := [Dir []; File [Path.Normal "a"] false 8192000 (repeat (repeat Byte.x00 32) 250);
                 File [Path.Normal "b"] true 1 [repeat Byte.x00 32]];
     bytes_total := 8192001; blocks_total := 251 |}.
Definition example_config : Directory :=
  {| directory := [Path.RootDir]; append_only := false; num_levels := 1; upload_keys := []; download_keys := [];
     auto_clean := false; keep_list_file := None; keep_min_directories := 0; keep_max_directories := 0;
     keep_recent := 0 |}.

Lemma fill_blocks_deals_witness :
  match fill_blocks (@rev Slice) example_index {[ [Path.Normal "b"] ]}
          (new_downloading (of_names "k" ["x"]%string) (from_slice []) false example_config) with
  | Some d' => (forall s, s ∈ dl_slices d' -> sl_in_progress s = 0%nat) /\
               map (fun s => length (sl_blocks s)) (dl_slices d') = [50; 100; 100]%nat
  | None => False
  end.
Proof.
  pose proof (fill_blocks_deals (@rev Slice) example_index {[ [Path.Normal "b"] ]}
    (new_downloading (of_names "k" ["x"]%string) (from_slice []) false example_config)
    (fun l => Permutation_sym (Permutation_rev l)) eq_refl) as H.
  destruct (fill_blocks _ _ _ _) as [d'|] eqn:E.
  - destruct H as (_ & _ & H & _). split; [apply H|].
    cut (Some (map (fun s => length (sl_blocks s)) (dl_slices d')) = Some [50; 100; 100]%nat); [by intros [=]|].
    change (Some (map (fun s => length (sl_blocks s)) (dl_slices d'))) with
      (option_map (fun d => map (fun s => length (sl_blocks s)) (dl_slices d)) (Some d')).
    rewrite <- E. vm_compute. reflexivity.
  - assert (Hn : option_map (fun _ => tt) (fill_blocks (@rev Slice) example_index {[ [Path.Normal "b"] ]}
      (new_downloading (of_names "k" ["x"]%string) (from_slice []) false example_config)) = Some tt)
      by (vm_compute; reflexivity).
    by rewrite E in Hn.
Defined.
