(* ===== verification/FetchBlocks.v ===== *)
(** * Fetching the blocks of an image: [src/daemon/tracking/fetch_blocks.rs]

    [FetchBlocks] is a future: the event loop polls it until it is ready.  A
    poll asks the outside many questions (is this request answered, who has
    this slice, what time is it); the answers are an [Env], and a question is
    numbered by the tick it is asked at, so that an [Env] can answer anything
    at any time.  Requests and writes are named by the tick they were made at.
    The slices are locked for one step of the loop at a time. *)
From S2P Require Import Prelude Serde VirtualPath Mask Ids Index Time Config Peers Progress.
Import VPath ImageId.
Local Open Scope Z_scope.

Definition FETCH_DEADLINE : Z := 3600000.
Definition RETRY_CLUSTER_FAILURE : Z := 120000.
Definition RETRY_INTERVAL : Z := 2000.
Definition CONCURRENCY : nat := 10.

(** ** The outside *)

Record Env := {
  e_request : nat -> nat -> Answer bytes;
  e_write : nat -> nat -> Answer unit;
  e_timeout : nat -> bool;
  e_deadline : nat -> bool;
  e_now : nat -> Z;
  e_connection : nat -> VPath -> ImageId -> Mask -> HostFailures -> option SocketAddr;
  e_image_source : nat -> ImageId -> bool;
  e_check_stalled : nat -> VPath -> ImageId -> option bool
}.

Inductive Effect :=
| SendGetBlock (req : nat) (addr : SocketAddr) (hash : BlockHash.BlockHash) (hint : VPath * Path.t * Z)
| WriteBlock (job : nat) (path : Path.t) (offset : Z) (data : bytes)
| NotifyProgress (path : VPath) (image : ImageId) (mask : Mask) (source : bool).

(** ** The state of the future *)

Inductive FetchBlock :=
| Fetching (blk : Block) (slice : nat) (addr : SocketAddr) (req : nat)
| Writing (job : nat).

Record FetchBlocks := {
  downloading : Downloading;
  futures : list FetchBlock;
  retry_timeout : bool;
  last_okay : Z;
  log : list Effect;
  tick : nat
}.

(** The deadline is asked of [e_deadline]. *)
Definition fetch_blocks_new (now : Z) (down : Downloading) : FetchBlocks :=
  {| downloading := down; futures := []; retry_timeout := false; last_okay := now; log := []; tick := 0 |}.

Definition on_downloading (f : Downloading -> Downloading) (s : FetchBlocks) : FetchBlocks :=
  {| downloading := f (downloading s); futures := futures s; retry_timeout := retry_timeout s;
     last_okay := last_okay s; log := log s; tick := tick s |}.
Definition with_futures (l : list FetchBlock) (s : FetchBlocks) : FetchBlocks :=
  {| downloading := downloading s; futures := l; retry_timeout := retry_timeout s;
     last_okay := last_okay s; log := log s; tick := tick s |}.
Definition with_retry (b : bool) (s : FetchBlocks) : FetchBlocks :=
  {| downloading := downloading s; futures := futures s; retry_timeout := b;
     last_okay := last_okay s; log := log s; tick := tick s |}.
Definition with_last_okay (z : Z) (s : FetchBlocks) : FetchBlocks :=
  {| downloading := downloading s; futures := futures s; retry_timeout := retry_timeout s;
     last_okay := z; log := log s; tick := tick s |}.
Definition emit (e : Effect) (s : FetchBlocks) : FetchBlocks :=
  {| downloading := downloading s; futures := futures s; retry_timeout := retry_timeout s;
     last_okay := last_okay s; log := log s ++ [e]; tick := tick s |}.
Definition next_tick (s : FetchBlocks) : FetchBlocks :=
  {| downloading := downloading s; futures := futures s; retry_timeout := retry_timeout s;
     last_okay := last_okay s; log := log s; tick := S (tick s) |}.

(** [Err(())] of the future; [process::exit(102)]; and a loop cut short. *)
Inductive Stop := Cancelled | ExitProcess | OutOfFuel.

Definition ask {A} (q : nat -> A) : ST FetchBlocks Stop A := fun s => (Ok (q (tick s)), next_tick s).

Definition set_slices (l : list Slice) : ST FetchBlocks Stop unit :=
  st_modify (on_downloading (with_slices l)).

Section Poll.
Context (blake2b_256 : bytes -> bytes) (env : Env).
Local Open Scope st_scope.

(** ** One block *)

(** [in_progress -= 1] in every slice of that number; an underflow panics. *)
Fixpoint release (slice : nat) (l : list Slice) : option (list Slice) :=
  match l with
  | [] => Some []
  | s :: l' =>
      s' ← (if decide (sl_index s = slice) then
              match sl_in_progress s with
              | O => None
              | S n => Some {| sl_index := sl_index s; sl_in_progress := n; sl_blocks := sl_blocks s;
                               sl_failures := sl_failures s |}
              end
            else Some s);
      rest ← release slice l'; Some (s' :: rest)
  end.

(** The first slice of that number gets the block back. *)
Fixpoint requeue (t0 now : Z) (slice : nat) (blk : Block) (addr : SocketAddr) (l : list Slice)
  : option (list Slice) :=
  match l with
  | [] => Some []
  | s :: l' =>
      if decide (sl_index s = slice) then
        match sl_in_progress s with
        | O => None
        | S n => Some ({| sl_index := sl_index s; sl_in_progress := n; sl_blocks := sl_blocks s ++ [blk];
                          sl_failures := add_failure t0 now addr (sl_failures s) |} :: l')
        end
      else rest ← requeue t0 now slice blk addr l'; Some (s :: rest)
  end.

Inductive Polled := Pending (f : FetchBlock) | Finished.

Definition slices_of : ST FetchBlocks Stop (list Slice) :=
  fun s => (Ok (dl_slices (downloading s)), s).

Definition give_back (slice : nat) (blk : Block) (addr : SocketAddr) : ST FetchBlocks Stop Polled :=
  t0 <-- ask (e_now env);; now <-- ask (e_now env);;
  l <-- slices_of;;
  l' <-- st_lift (expect (requeue t0 now slice blk addr l));;
  set_slices l' ;;; st_ret Finished.

Definition poll_writing (job : nat) : ST FetchBlocks Stop Polled :=
  a <-- ask (fun t => e_write env t job);;
  match a with
  | Ready _ => st_ret Finished
  | NotReady => st_ret (Pending (Writing job))
  | Failed => st_err ExitProcess
  end.

(** [disk.write_block] starts the write. *)
Definition write_block (path : Path.t) (offset : Z) (data : bytes) : ST FetchBlocks Stop nat :=
  job <-- ask (fun t => t);; st_modify (emit (WriteBlock job path offset data)) ;;; st_ret job.

Definition poll_block (f : FetchBlock) : ST FetchBlocks Stop Polled :=
  match f with
  | Writing job => poll_writing job
  | Fetching blk slice addr req =>
      a <-- ask (fun t => e_request env t req);;
      match a with
      | NotReady => st_ret (Pending f)
      | Ready data =>
          if decide (BlockHash.hash_bytes blake2b_256 data = b_hash blk) then
            l <-- slices_of;;
            l' <-- st_lift (expect (release slice l));;
            set_slices l' ;;;
            now <-- ask (e_now env);;
            st_modify (with_last_okay now) ;;;
            st_modify (on_downloading (report_block data)) ;;;
            job <-- write_block (b_path blk) (b_offset blk) data;;
            poll_writing job
          else give_back slice blk addr
      | Failed => give_back slice blk addr
      end
  end.

(** ** The loop of [FetchBlocks::poll] *)

Definition push_future (f : FetchBlock) : ST FetchBlocks Stop unit :=
  fun s => (Ok tt, with_futures (futures s ++ [f]) s).

(** [for _ in 0 .. self.futures.len()]. *)
Fixpoint poll_futures (n : nat) : ST FetchBlocks Stop unit :=
  match n with
  | O => st_ret tt
  | S n' => fun s =>
      match futures s with
      | [] => (Panic, s)
      | f :: rest =>
          (p <-- poll_block f;;
           match p with Pending x => push_future x | Finished => st_ret tt end ;;;
           poll_futures n') (with_futures rest s)
      end
  end.

(** [report_slice] and [notify_progress] of a slice that is complete. *)
Definition report_done (s : Slice) : ST FetchBlocks Stop unit := fun st =>
  match report_slice (sl_index s) (downloading st) with
  | None => (Panic, st)
  | Some d =>
      (source <-- ask (fun t => e_image_source env t (dl_image d));;
       st_modify (emit (NotifyProgress (dl_path d) (dl_image d) (amask_get (dl_mask d)) source)))
      (on_downloading (fun _ => d) st)
  end.

Definition unfinished (s : Slice) : bool :=
  (0 <? sl_in_progress s)%nat || (0 <? length (sl_blocks s))%nat.

(** [slices().retain(..)]. *)
Fixpoint retain_slices (l : list Slice) : ST FetchBlocks Stop (list Slice) :=
  match l with
  | [] => st_ret []
  | s :: l' =>
      if unfinished s then rest <-- retain_slices l';; st_ret (s :: rest)
      else report_done s ;;; retain_slices l'
  end.

Definition with_blocks (blocks : list Block) (in_progress : nat) (s : Slice) : Slice :=
  {| sl_index := sl_index s; sl_in_progress := in_progress; sl_blocks := blocks; sl_failures := sl_failures s |}.

(** [while let Some(blk) = s.blocks.pop_front()]: the slice after it, how many
    requests were made, and whether the limit was passed. *)
Fixpoint request_blocks (s : Slice) (blocks : list Block) (new : nat) : ST FetchBlocks Stop (Slice * nat * bool) :=
  match blocks with
  | [] => st_ret (with_blocks [] (sl_in_progress s) s, new, false)
  | blk :: rest => fun st =>
      let d := downloading st in
      (bit <-- st_lift (expect (slice_bit (sl_index s)));;
       conn <-- ask (fun t => e_connection env t (dl_path d) (dl_image d) bit (sl_failures s));;
       match conn with
       | Some addr =>
           req <-- ask (fun t => t);;
           st_modify (emit (SendGetBlock req addr (b_hash blk) (dl_path d, b_path blk, b_offset blk))) ;;;
           push_future (Fetching blk (sl_index s) addr req) ;;;
           let s' := with_blocks rest (S (sl_in_progress s)) s in
           fun st' => if (CONCURRENCY <? length (futures st'))%nat then (Ok (s', S new, true), st')
                      else request_blocks s' rest (S new) st'
       | None => st_ret (with_blocks (rest ++ [blk]) (sl_in_progress s) s, new, false)
       end) st
  end.

(** The loop over the slices, left by [continue 'outer]. *)
Fixpoint request_slices (l : list Slice) (new : nat) : ST FetchBlocks Stop (list Slice * nat * bool) :=
  match l with
  | [] => st_ret ([], new, false)
  | s :: l' =>
      r <-- request_blocks s (sl_blocks s) new;;
      let '(s', new', full) := r in
      if full : bool then st_ret (s' :: l', new', true)
      else
        r' <-- request_slices l' new';;
        let '(rest, new'', full') := r' in st_ret (s' :: rest, new'', full')
  end.

Inductive Verdict := Again | Return (ready : bool).

(** Nothing is in flight and nobody can be asked. *)
Definition wait_and_retry : ST FetchBlocks Stop Verdict :=
  st_modify (on_downloading notify_stalled) ;;;
  now <-- ask (e_now env);;
  (fun st =>
     if decide (last_okay st + RETRY_CLUSTER_FAILURE * nanos_per_ms < now) then
       let d := downloading st in
       (c <-- ask (fun t => e_check_stalled env t (dl_path d) (dl_image d));;
        cstalled <-- st_lift (expect c);;
        if cstalled : bool then st_err Cancelled else st_ret tt) st
     else (Ok tt, st)) ;;;
  t <-- ask (e_timeout env);;
  if t : bool then st_ret Again else st_modify (with_retry true) ;;; st_ret (Return false).

(** One round of ['outer: loop]. *)
Definition round : ST FetchBlocks Stop Verdict :=
  (fun st => poll_futures (length (futures st)) st) ;;;
  l <-- slices_of;; kept <-- retain_slices l;; set_slices kept ;;;
  fun st =>
    if bool_decide (length (futures st) = 0%nat) && bool_decide (length (dl_slices (downloading st)) = 0%nat)
    then (Ok (Return true), st)
    else
      (late <-- ask (e_deadline env);;
       if late : bool then st_err Cancelled
       else fun st =>
         if (CONCURRENCY <=? length (futures st))%nat then (Ok (Return false), st)
         else
           (l <-- slices_of;; r <-- request_slices l 0;;
            let '(l', new, full) := r in
            set_slices l' ;;;
            if (full : bool) || (0 <? new)%nat then st_ret Again
            else fun st =>
              if bool_decide (length (futures st) = 0%nat) then wait_and_retry st
              else (Ok (Return false), st)) st) st.

Fixpoint rounds (fuel : nat) : ST FetchBlocks Stop bool :=
  match fuel with
  | O => st_err OutOfFuel
  | S fuel' => v <-- round;; match v with Again => rounds fuel' | Return b => st_ret b end
  end.

(** [poll]: [true] is [Async::Ready(())]. *)
Definition poll (fuel : nat) : ST FetchBlocks Stop bool := fun st =>
  if retry_timeout st then
    (st_modify (with_retry false) ;;;
     t <-- ask (e_timeout env);;
     if t : bool then rounds fuel else st_modify (with_retry true) ;;; st_ret false) st
  else rounds fuel st.

End Poll.

(** ** The invariant *)

Definition in_flight (f : FetchBlock) : list Block :=
  match f with Fetching blk _ _ _ => [blk] | Writing _ => [] end.

(** How many requests of a slice are in flight. *)
Fixpoint flying (i : nat) (fs : list FetchBlock) : nat :=
  match fs with
  | [] => 0
  | Fetching _ j _ _ :: fs' => (if decide (j = i) then 1 else 0) + flying i fs'
  | Writing _ :: fs' => flying i fs'
  end.

Definition job_of (e : Effect) : list nat := match e with WriteBlock j _ _ _ => [j] | _ => [] end.

#[local] Arguments queued : simpl never.
#[local] Arguments Nat.ltb : simpl never.
#[local] Arguments Nat.leb : simpl never.

Section Invariant.
Context (blake2b_256 : bytes -> bytes) (env : Env).

(** The block a write stores, given back by the digest of its data. *)
Definition written (e : Effect) : list Block :=
  match e with
  | WriteBlock _ path offset data =>
      [{| b_hash := BlockHash.hash_bytes blake2b_256 data; b_path := path; b_offset := offset |}]
  | _ => []
  end.

(** [B0] are the blocks to fetch; the other arguments are what a poll works on. *)
Record Inv (B0 : list Block) (sl : list Slice) (fs : list FetchBlock) (m : AtomicMask)
    (lg : list Effect) (tk : nat) : Prop := {
  iv_blocks : queued sl ++ (fs ≫= in_flight) ++ (lg ≫= written) ≡ₚ B0;
  iv_count : forall s, s ∈ sl -> sl_in_progress s = flying (sl_index s) fs;
  iv_known : forall blk i a r, Fetching blk i a r ∈ fs -> i ∈ map sl_index sl;
  iv_nodup : NoDup (map sl_index sl);
  iv_range : forall i, i ∈ map sl_index sl -> (i < MAX_SLICES)%nat;
  iv_mask_ok : mask_ok (amask_get m);
  iv_mask : forall i, has (amask_get m) i = bool_decide (i < 16 /\ i ∉ map sl_index sl)%nat;
  iv_jobs : NoDup (lg ≫= job_of) /\ forall j, j ∈ lg ≫= job_of -> (j < tk)%nat;
  iv_writes : forall j, j ∈ lg ≫= job_of -> Writing j ∈ fs \/ exists t, e_write env t j = Ready tt
}.

Lemma flying_app i fs gs : flying i (fs ++ gs) = (flying i fs + flying i gs)%nat.
Proof. induction fs as [|[b j a r|j] fs IH]; simpl; [done|rewrite IH; lia|done]. Qed.

Lemma flying_perm i fs gs : fs ≡ₚ gs -> flying i fs = flying i gs.
Proof.
  induction 1 as [|f fs gs _ IH|f g fs|fs gs hs _ IH1 _ IH2]; simpl; [done|destruct f; lia|destruct f, g; lia|lia].
Qed.

Lemma Inv_tick B0 sl fs m lg tk tk' : (tk <= tk')%nat -> Inv B0 sl fs m lg tk -> Inv B0 sl fs m lg tk'.
Proof. intros Ht []; split; try done. destruct iv_jobs0 as [? H]. split; [done|]. intros j Hj. specialize (H j Hj). lia. Qed.

Lemma Inv_futures B0 sl fs gs m lg tk : fs ≡ₚ gs -> Inv B0 sl fs m lg tk -> Inv B0 sl gs m lg tk.
Proof.
  intros Hp []; split; try done.
  - by rewrite <- Hp.
  - intros s Hs. rewrite <- (flying_perm _ _ _ Hp). auto.
  - intros blk i a r Hin. rewrite <- Hp in Hin. eauto.
  - intros j Hj. rewrite <- Hp. auto.
Qed.

Lemma Inv_slices B0 sl sl' fs m lg tk : sl ≡ₚ sl' -> Inv B0 sl fs m lg tk -> Inv B0 sl' fs m lg tk.
Proof.
  intros Hp. assert (Hi : map sl_index sl ≡ₚ map sl_index sl') by (by rewrite Hp).
  intros []; split; try done.
  - by rewrite <- (queued_perm _ _ Hp).
  - intros s Hs. rewrite <- Hp in Hs. auto.
  - intros blk i a r Hin. rewrite <- Hi. eauto.
  - by rewrite <- Hi.
  - intros i. rewrite <- Hi. auto.
  - intros i. rewrite iv_mask0. apply bool_decide_ext. by rewrite Hi.
Qed.

(** Effects that are not writes do not matter. *)
Lemma Inv_emit B0 sl fs m lg tk e : job_of e = [] -> written e = [] ->
  Inv B0 sl fs m lg tk -> Inv B0 sl fs m (lg ++ [e]) tk.
Proof.
  intros Hj Hw.
  assert (Ej : (lg ++ [e]) ≫= job_of = lg ≫= job_of) by (rewrite bind_app; cbn; by rewrite Hj, !app_nil_r).
  assert (Ew : (lg ++ [e]) ≫= written = lg ≫= written) by (rewrite bind_app; cbn; by rewrite Hw, !app_nil_r).
  intros []; split; rewrite ?Ej, ?Ew; done.
Qed.

(** A slice with the same number and as many requests may have its blocks in
    another order. *)
Lemma Inv_head B0 s s' sl fs m lg tk :
  sl_index s' = sl_index s -> sl_in_progress s' = sl_in_progress s -> sl_blocks s' ≡ₚ sl_blocks s ->
  Inv B0 (s :: sl) fs m lg tk -> Inv B0 (s' :: sl) fs m lg tk.
Proof.
  intros Hi Hp Hb []; cbn in *; split; cbn; rewrite ?Hi; try done.
  - rewrite queued_cons in *. by rewrite Hb.
  - intros x [->|Hx]%elem_of_cons; [rewrite Hp, Hi|]; apply iv_count0; set_solver.
Qed.

(** A request leaves the queue of its slice. *)
Lemma Inv_request B0 s sl blk rest fs m lg tk a r :
  sl_blocks s = blk :: rest -> Inv B0 (s :: sl) fs m lg tk ->
  Inv B0 (with_blocks rest (S (sl_in_progress s)) s :: sl) (fs ++ [Fetching blk (sl_index s) a r]) m lg tk.
Proof.
  intros Hb []; cbn in *. split; cbn; try done.
  - rewrite queued_cons in *. cbn. rewrite Hb in iv_blocks0. rewrite bind_app. cbn.
    rewrite <- iv_blocks0. cbn. rewrite <- !app_assoc. rewrite !(Permutation_middle _ _ blk). solve_Permutation.
  - apply NoDup_cons in iv_nodup0 as [Hn _].
    intros x [->|Hx]%elem_of_cons; rewrite flying_app; cbn.
    + rewrite decide_True by done. rewrite iv_count0 by apply list_elem_of_here. lia.
    + rewrite decide_False, iv_count0 by (try (apply list_elem_of_further; done); intros Heq; apply Hn;
        rewrite Heq; by apply list_elem_of_fmap_2). lia.
  - intros b i a' r' [Hin|Hin]%elem_of_app; [eauto|].
    apply list_elem_of_singleton in Hin. injection Hin as _ -> _ _. apply list_elem_of_here.
  - intros j Hj. rewrite elem_of_app. destruct (iv_writes0 j Hj); auto.
Qed.

(** A complete slice is dropped and its bit set. *)
Lemma Inv_report B0 s sl fs m lg tk : unfinished s = false -> Inv B0 (s :: sl) fs m lg tk ->
  exists m', amask_set_fetched m (sl_index s) = Some m' /\ Inv B0 sl fs m' lg tk.
Proof.
  unfold unfinished. intros [Hp%Nat.ltb_ge Hb%Nat.ltb_ge]%orb_false_iff []. cbn in *.
  apply NoDup_cons in iv_nodup0 as [Hn Hnd].
  assert (Hr : (sl_index s < 16)%nat).
  { pose proof (iv_range0 _ (list_elem_of_here _ _)). unfold MAX_SLICES in *. lia. }
  destruct (amask_set_fetched m (sl_index s)) as [m'|] eqn:Em.
  2: { unfold amask_set_fetched in Em. rewrite shl16_some in Em by done. done. }
  pose proof (fetched_spec _ _ _ iv_mask_ok0 Em) as [Hok Hm]. exists m'. split; [done|]. split; try done.
  - rewrite queued_cons in iv_blocks0. destruct (sl_blocks s); [done|cbn in Hb; lia].
  - intros x Hx. apply iv_count0. by apply list_elem_of_further.
  - intros blk i a r Hin. specialize (iv_known0 _ _ _ _ Hin). apply elem_of_cons in iv_known0 as [->|]; [|done].
    exfalso. pose proof (iv_count0 s (list_elem_of_here _ _)) as Hc.
    apply list_elem_of_split in Hin as (l1 & l2 & ->). rewrite flying_app in Hc. cbn in Hc.
    rewrite decide_True in Hc by done. lia.
  - intros i Hi. apply iv_range0. by apply list_elem_of_further.
  - intros i. rewrite Hm, iv_mask0. apply Bool.eq_iff_eq_true. rewrite orb_true_iff, !bool_decide_eq_true.
    rewrite not_elem_of_cons. split; [|destruct (decide (i = sl_index s)); tauto].
    intros [?| ->]; [tauto|done].
Qed.

(** The slice of a request in flight. *)
Lemma Inv_find B0 sl blk i a r fs m lg tk : Inv B0 sl (Fetching blk i a r :: fs) m lg tk ->
  exists l1 s l2, sl = l1 ++ s :: l2 /\ sl_index s = i /\ i ∉ map sl_index (l1 ++ l2) /\
    sl_in_progress s = S (flying i fs).
Proof.
  intros []. pose proof (iv_known0 _ _ _ _ (list_elem_of_here _ _)) as (s & -> & Hs)%list_elem_of_fmap_1.
  apply list_elem_of_split in Hs as (l1 & l2 & ->). exists l1, s, l2. split_and!; try done.
  - rewrite map_app in *. cbn in iv_nodup0. rewrite <- Permutation_middle in iv_nodup0. by apply NoDup_cons in iv_nodup0 as [? _].
  - rewrite iv_count0 by set_solver. cbn. by rewrite decide_True.
Qed.

Lemma release_mid l1 s l2 n : sl_index s ∉ map sl_index (l1 ++ l2) -> sl_in_progress s = S n ->
  release (sl_index s) (l1 ++ s :: l2) = Some (l1 ++ with_blocks (sl_blocks s) n s :: l2).
Proof.
  assert (Hskip : forall l, sl_index s ∉ map sl_index l -> release (sl_index s) l = Some l).
  { induction l as [|x l IH]; [done|]. cbn. intros [Hx Hl]%not_elem_of_cons. rewrite decide_False by done.
    cbn. by rewrite (IH Hl). }
  rewrite map_app. intros [H1 H2]%not_elem_of_app Hn. induction l1 as [|x l1 IH]; cbn.
  - rewrite decide_True, Hn by done. cbn. by rewrite (Hskip l2).
  - apply not_elem_of_cons in H1 as [Hx H1]. rewrite decide_False by done. cbn. by rewrite (IH H1).
Qed.

Lemma requeue_mid t0 now blk a l1 s l2 n : sl_index s ∉ map sl_index (l1 ++ l2) -> sl_in_progress s = S n ->
  requeue t0 now (sl_index s) blk a (l1 ++ s :: l2) =
    Some (l1 ++ {| sl_index := sl_index s; sl_in_progress := n; sl_blocks := sl_blocks s ++ [blk];
                   sl_failures := add_failure t0 now a (sl_failures s) |} :: l2).
Proof.
  rewrite map_app. intros [H1 H2]%not_elem_of_app Hn. induction l1 as [|x l1 IH]; cbn.
  - by rewrite decide_True, Hn.
  - apply not_elem_of_cons in H1 as [Hx H1]. rewrite decide_False by done. by rewrite (IH H1).
Qed.

(** ** What a poll keeps *)

(** From this tick on nobody answers and no new timer is over at once. *)
Definition quiet_from (k : nat) : Prop :=
  forall t, (k <= t)%nat -> (forall r, e_request env t r = NotReady) /\ (forall j, e_write env t j = NotReady) /\
    e_timeout env t = false.

(** [n] requests were made since there were [q] blocks queued; both count only
    when nobody answers any more. *)
Record Safe (B0 : list Block) (lo k q n : nat) (sl : list Slice) (fs : list FetchBlock) (s : FetchBlocks) : Prop := {
  sf_inv : Inv B0 sl fs (dl_mask (downloading s)) (log s) (tick s);
  sf_tick : (k <= lo <= tick s)%nat;
  sf_queue : quiet_from k -> (length (queued sl) + n)%nat = q;
  sf_len : (length fs <= S CONCURRENCY)%nat
}.

Lemma Safe_slices B0 lo k q n sl sl' fs s : sl ≡ₚ sl' -> Safe B0 lo k q n sl fs s -> Safe B0 lo k q n sl' fs s.
Proof.
  intros Hp []; split; try done; [by eapply Inv_slices|]. by rewrite <- (queued_perm _ _ Hp).
Qed.

Lemma Safe_futures B0 lo k q n sl fs gs s : fs ≡ₚ gs -> Safe B0 lo k q n sl fs s -> Safe B0 lo k q n sl gs s.
Proof. intros Hp []; split; try done; [by eapply Inv_futures|]. by rewrite <- Hp. Qed.

(** Only these parts of the state matter. *)
Lemma Safe_same B0 lo k q n sl fs s s' : dl_mask (downloading s') = dl_mask (downloading s) -> log s' = log s ->
  (tick s <= tick s')%nat -> Safe B0 lo k q n sl fs s -> Safe B0 lo k q n sl fs s'.
Proof.
  intros Hm Hl Ht []; split; try done; [|lia]. rewrite Hm, Hl. by eapply Inv_tick.
Qed.

Lemma Inv_returned B0 sl blk i a r fs m lg tk tk' t0 now : Inv B0 sl (Fetching blk i a r :: fs) m lg tk ->
  (tk <= tk')%nat ->
  exists sl', requeue t0 now i blk a sl = Some sl' /\ Inv B0 sl' fs m lg tk'.
Proof.
  intros Hi Htk. destruct (Inv_find _ _ _ _ _ _ _ _ _ _ Hi) as (l1 & s & l2 & -> & <- & Hn & Hp).
  eexists. split; [by apply requeue_mid|].
  apply (Inv_tick _ _ _ _ _ _ _ Htk). eapply Inv_slices; [apply Permutation_middle|].
  eapply Inv_slices in Hi; [|symmetry; apply Permutation_middle]. destruct Hi; cbn in *.
  apply NoDup_cons in iv_nodup0 as Hnd. destruct Hnd as [Hs _]. split; cbn; try done.
  - rewrite queued_cons in *. cbn in *. rewrite <- iv_blocks0. solve_Permutation.
  - intros x [->|Hx]%elem_of_cons; [done|]. rewrite iv_count0 by by apply list_elem_of_further.
    rewrite decide_False; [done|]. intros He. apply Hs. rewrite He. by apply list_elem_of_fmap_2.
  - intros b j a' r' Hin. eapply iv_known0. by apply list_elem_of_further.
  - intros j Hj. destruct (iv_writes0 j Hj) as [[?|?]%elem_of_cons|]; [done|by left|by right].
Qed.

Lemma Inv_written B0 sl blk i a r fs m lg tk job data : Inv B0 sl (Fetching blk i a r :: fs) m lg tk ->
  (tk <= job)%nat -> BlockHash.hash_bytes blake2b_256 data = b_hash blk ->
  exists sl', release i sl = Some sl' /\
    Inv B0 sl' (Writing job :: fs) m (lg ++ [WriteBlock job (b_path blk) (b_offset blk) data]) (S job).
Proof.
  intros Hi Htk Hh. destruct (Inv_find _ _ _ _ _ _ _ _ _ _ Hi) as (l1 & s & l2 & -> & <- & Hn & Hp).
  eexists. split; [by apply release_mid|].
  eapply Inv_slices; [apply Permutation_middle|].
  eapply Inv_slices in Hi; [|symmetry; apply Permutation_middle]. destruct Hi; cbn in *.
  apply NoDup_cons in iv_nodup0 as Hnd. destruct Hnd as [Hs _]. destruct iv_jobs0 as [Hj1 Hj2].
  split; cbn; try done.
  - rewrite queued_cons in *. rewrite bind_app. cbn in *. rewrite Hh, <- iv_blocks0.
    replace {| b_hash := b_hash blk; b_path := b_path blk; b_offset := b_offset blk |} with blk by (by destruct blk).
    solve_Permutation.
  - intros x [->|Hx]%elem_of_cons; [done|]. rewrite iv_count0 by by apply list_elem_of_further.
    rewrite decide_False; [done|]. intros He. apply Hs. rewrite He. by apply list_elem_of_fmap_2.
  - intros b j a' r' [?|Hin]%elem_of_cons; [done|]. eapply iv_known0. by apply list_elem_of_further.
  - rewrite bind_app. cbn. split.
    + apply NoDup_app. split_and!; [done| |apply NoDup_singleton]. intros j Hj ->%list_elem_of_singleton.
      specialize (Hj2 _ Hj). lia.
    + intros j [Hj| ->%list_elem_of_singleton]%elem_of_app; [specialize (Hj2 _ Hj)|]; lia.
  - intros j. rewrite bind_app. cbn. intros [Hj| ->%list_elem_of_singleton]%elem_of_app.
    + destruct (iv_writes0 j Hj) as [[?|?]%elem_of_cons|]; [done|left; by apply list_elem_of_further|by right].
    + left. apply list_elem_of_here.
Qed.

Lemma Inv_stored B0 sl job fs m lg tk t : e_write env t job = Ready tt ->
  Inv B0 sl (Writing job :: fs) m lg tk -> Inv B0 sl fs m lg tk.
Proof.
  intros Ht []; cbn in *; split; try done.
  - intros b j a' r' Hin. eapply iv_known0. by apply list_elem_of_further.
  - intros j Hj. destruct (iv_writes0 j Hj) as [[[= ->]|?]%elem_of_cons|]; [right; by exists t|by left|by right].
Qed.

(** *** One block *)

Definition not_fuel (e : Stop) (_ : FetchBlocks) : Prop := e <> OutOfFuel.

Definition polled (p : Polled) (rest : list FetchBlock) : list FetchBlock :=
  match p with Pending x => x :: rest | Finished => rest end.

Definition resting B0 lo k q n (fs rest : list FetchBlock) (s : FetchBlocks) : Prop :=
  Safe B0 lo k q n (dl_slices (downloading s)) fs s /\ futures s = rest.

Lemma poll_writing_safe B0 lo k q n job rest :
  triple (resting B0 lo k q n (Writing job :: rest) rest) (poll_writing env job)
    (fun p s => resting B0 lo k q n (polled p rest) rest s) not_fuel.
Proof.
  intros s [Hs Hf]. unfold poll_writing, ask, st_bind.
  destruct (e_write env (tick s) job) as [|[]|] eqn:Ea; cbn.
  - split; [|done]. by eapply (Safe_same _ _ _ _ _ _ _ s); [done|done|cbn; lia|].
  - split; [|done]. destruct Hs. split; cbn; try done; [|lia|cbn in sf_len0; lia].
    eapply Inv_tick; [|by eapply Inv_stored]. lia.
  - done.
Qed.

Lemma give_back_safe B0 lo k q n blk i a r rest : ~ quiet_from k ->
  triple (resting B0 lo k q n (Fetching blk i a r :: rest) rest) (give_back env i blk a)
    (fun p s => resting B0 lo k q n (polled p rest) rest s) not_fuel.
Proof.
  intros Hq s [[Hs Hk _ Hl] Hf]. unfold give_back, slices_of, st_bind, ask. cbn.
  destruct (Inv_returned _ _ _ _ _ _ _ _ _ _ (S (S (tick s))) (e_now env (tick s)) (e_now env (S (tick s))) Hs)
    as (sl' & -> & Hi); [lia|]. cbn. split; [|done]. split; cbn; try done; cbn in Hl; lia.
Qed.

Lemma poll_block_safe B0 lo k q n f rest :
  triple (resting B0 lo k q n (f :: rest) rest) (poll_block blake2b_256 env f)
    (fun p s => resting B0 lo k q n (polled p rest) rest s) not_fuel.
Proof.
  destruct f as [blk i a r|job]; [|apply poll_writing_safe]. intros s [Hs Hf].
  assert (Hq : e_request env (tick s) r <> NotReady -> ~ quiet_from k).
  { intros Hne Hq. apply Hne, Hq. destruct Hs. lia. }
  assert (Hs1 : resting B0 lo k q n (Fetching blk i a r :: rest) rest (next_tick s)).
  { split; [|done]. by eapply (Safe_same _ _ _ _ _ _ _ s); [done|done|cbn; lia|]. }
  cbn [poll_block]. unfold st_bind at 1, ask at 1. cbn.
  destruct (e_request env (tick s) r) as [|data|] eqn:Ea; cbn.
  - done.
  - specialize (Hq ltac:(done)). case_decide as Hh; [|exact (give_back_safe B0 lo k q n blk i a r rest Hq (next_tick s) Hs1)].
    destruct Hs1 as [[Hi Hk _ Hl] _].
    destruct (Inv_written _ _ _ _ _ _ _ _ _ _ (S (S (tick s))) data Hi) as (sl' & Hrel & Hi'); [cbn; lia|done|].
    unfold slices_of, st_bind, ask. cbn in *. rewrite Hrel. cbn.
    refine (poll_writing_safe B0 lo k q n (S (S (tick s))) rest _ _). split; [|done]. split; cbn; try done; lia.
  - specialize (Hq ltac:(done)). exact (give_back_safe B0 lo k q n blk i a r rest Hq (next_tick s) Hs1).
Qed.

Lemma poll_futures_safe B0 lo k q n m : 
  triple (fun s => resting B0 lo k q n (futures s) (futures s) s /\ (m <= length (futures s))%nat)
    (poll_futures blake2b_256 env m)
    (fun _ s => resting B0 lo k q n (futures s) (futures s) s) not_fuel.
Proof.
  induction m as [|m IH]; intros s [[Hs Hf] Hm]; cbn [poll_futures]; [done|].
  destruct (futures s) as [|f rest] eqn:Ef; [cbn in Hm; lia|].
  pose proof (poll_block_safe B0 lo k q n f rest (with_futures rest s)) as Hp.
  unfold st_bind at 1. destruct (poll_block _ _ f (with_futures rest s)) as [[p|e|] s1].
  - destruct Hp as [Hp Hr]; [split; [|done]; by eapply (Safe_same _ _ _ _ _ _ _ s)|].
    destruct p as [x|]; cbn [polled] in Hp; unfold st_bind, push_future; cbn.
    + apply IH. cbn. rewrite Hr. split; [split; [|done]|rewrite length_app; cbn in *; lia].
      eapply Safe_futures; [apply Permutation_cons_append|]. by eapply (Safe_same _ _ _ _ _ _ _ s1).
    + apply IH. rewrite Hr. split; [done|cbn in Hm; lia].
  - apply Hp. split; [|done]. by eapply (Safe_same _ _ _ _ _ _ _ s).
  - apply Hp. split; [|done]. by eapply (Safe_same _ _ _ _ _ _ _ s).
Qed.

(** *** Complete slices *)

Lemma Safe_report B0 lo k q n s sl fs st : unfinished s = false -> Safe B0 lo k q n (s :: sl) fs st ->
  exists m', amask_set_fetched (dl_mask (downloading st)) (sl_index s) = Some m' /\
    forall st', dl_mask (downloading st') = m' -> tick st' = S (tick st) ->
      (exists e, log st' = log st ++ [e] /\ job_of e = [] /\ written e = []) -> Safe B0 lo k q n sl fs st'.
Proof.
  intros Hu [Hi Hk Hq Hl]. destruct (Inv_report _ _ _ _ _ _ _ Hu Hi) as (m' & Hm & Hi'). exists m'. split; [done|].
  intros st' Em Et (e & El & Hj & Hw). split; [|lia| |done].
  - rewrite Em, Et, El. apply Inv_emit; [done..|]. eapply Inv_tick; [|done]. lia.
  - intros Hqf. specialize (Hq Hqf). rewrite queued_cons in Hq.
    unfold unfinished in Hu. apply orb_false_iff in Hu as [_ Hb%Nat.ltb_ge]. rewrite length_app in Hq. lia.
Qed.

Lemma retain_slices_safe B0 lo k q n l : forall kept,
  triple (fun s => Safe B0 lo k q n (kept ++ l) (futures s) s) (retain_slices env l)
    (fun l' s => Safe B0 lo k q n (kept ++ l') (futures s) s /\ forall x, x ∈ l' -> unfinished x = true) not_fuel.
Proof.
  induction l as [|s l IH]; intros kept; cbn [retain_slices].
  - apply triple_ret. intros st H. split; [done|]. by intros x ?%not_elem_of_nil.
  - destruct (unfinished s) eqn:Eu.
    + eapply triple_bind; [eapply triple_conseq; [apply (IH (kept ++ [s]))|..]|].
      * intros st H. by rewrite <- app_assoc.
      * intros l' st H. exact H.
      * done.
      * intros l'. apply triple_ret. intros st [H Hl']. rewrite <- app_assoc in H. split; [done|].
        intros x [->|Hx]%elem_of_cons; auto.
    + eapply triple_bind; [|intros ?; apply IH]. intros st H.
      eapply Safe_slices in H; [|symmetry; apply Permutation_middle].
      destruct (Safe_report _ _ _ _ _ _ _ _ _ Eu H) as (m' & Hm & Hnext).
      unfold report_done, report_slice. rewrite Hm. cbn. apply Hnext; try done. cbn. by eexists.
Qed.

(** *** Requests *)

Lemma Inv_slice_bit B0 s sl fs m lg tk : Inv B0 (s :: sl) fs m lg tk -> is_Some (slice_bit (sl_index s)).
Proof.
  intros []. pose proof (iv_range0 _ (list_elem_of_here _ _)). unfold slice_bit.
  rewrite shl16_some by (unfold MAX_SLICES in *; lia). by eexists.
Qed.

Definition requested B0 lo k q others (new : nat) (r : Slice * nat * bool) (st : FetchBlocks) : Prop :=
  let '(s', new', full) := r in
  Safe B0 lo k q new' (s' :: others) (futures st) st /\ (new <= new')%nat /\
  if full : bool then (new < new')%nat else (length (futures st) <= CONCURRENCY)%nat.

Lemma request_blocks_safe B0 lo k q others blocks : forall s new, sl_blocks s = blocks ->
  triple (fun st => Safe B0 lo k q new (s :: others) (futures st) st /\ (length (futures st) <= CONCURRENCY)%nat)
    (request_blocks env s blocks new) (requested B0 lo k q others new) not_fuel.
Proof.
  induction blocks as [|blk rest IH]; intros s new Hb; cbn [request_blocks].
  - apply triple_ret. intros st [H Hl]. split; [|done]. destruct H as [Hi ? Hq ?]. split; try done.
    + eapply Inv_head; [..|exact Hi]; [done|done|]. cbn. by rewrite Hb.
    + intros Hqf. specialize (Hq Hqf). rewrite queued_cons in *. cbn. by rewrite Hb in Hq.
  - intros st [H Hl]. pose proof H as [Hi Hk Hq Hlen].
    destruct (Inv_slice_bit _ _ _ _ _ _ _ Hi) as [bit Hbit].
    unfold st_bind, st_lift, ask, push_future. rewrite Hbit. cbn.
    destruct (e_connection env (tick st) _ _ bit (sl_failures s)) as [addr|] eqn:Ec; cbn.
    + set (st1 := with_futures _ _).
      assert (H1 : Safe B0 lo k q (S new) (with_blocks rest (S (sl_in_progress s)) s :: others) (futures st1) st1).
      { split; cbn; try lia; [|intros Hqf; specialize (Hq Hqf); rewrite queued_cons in *; cbn; rewrite Hb in Hq;
          cbn in *; lia|rewrite length_app; cbn; lia].
        apply Inv_emit; [done..|]. apply Inv_request; [done|]. eapply Inv_tick; [|done]. lia. }
      change (futures st ++ [_]) with (futures st1).
      destruct (CONCURRENCY <? length (futures st1))%nat eqn:Ef.
      * split_and!; [done|lia|lia].
      * apply Nat.ltb_ge in Ef.
        pose proof (IH (with_blocks rest (S (sl_in_progress s)) s) (S new) eq_refl st1 (conj H1 Ef)) as Hr.
        destruct (request_blocks env _ rest (S new) st1) as [[[[s' new'] full]|e|] st2]; [|done..].
        destruct Hr as (Hr1 & Hr2 & Hr3). split_and!; [done|lia|]. destruct full; [lia|done].
    + split_and!; [|lia|done]. split; cbn; [|lia| |done].
      * eapply Inv_head; [..|eapply Inv_tick; [|exact Hi]; lia]; [done|done|]. cbn. rewrite Hb. symmetry.
        apply Permutation_cons_append.
      * intros Hqf. specialize (Hq Hqf). rewrite queued_cons in *. cbn. rewrite Hb in Hq. rewrite !length_app in *.
        cbn in *. lia.
Qed.

Lemma request_slices_safe B0 lo k q l : forall before new,
  triple (fun st => Safe B0 lo k q new (before ++ l) (futures st) st /\ (length (futures st) <= CONCURRENCY)%nat)
    (request_slices env l new)
    (fun r st => let '(l', new', full) := r in
       Safe B0 lo k q new' (before ++ l') (futures st) st /\ (new <= new')%nat /\
       if full : bool then (new < new')%nat else True) not_fuel.
Proof.
  induction l as [|s l IH]; intros before new; cbn [request_slices].
  - apply triple_ret. intros st [H Hl]. done.
  - eapply triple_bind.
    + eapply triple_conseq; [apply (request_blocks_safe B0 lo k q (before ++ l) (sl_blocks s) s new eq_refl)|..]; [|done..].
      intros st [H Hl]. split; [|done]. eapply Safe_slices; [|exact H]. symmetry. apply Permutation_middle.
    + intros [[s' new'] full]. destruct full.
      * apply triple_ret. intros st (H & Hn & Hf). split_and!; [|done|done].
        eapply Safe_slices; [|exact H]. apply Permutation_middle.
      * eapply triple_at. intros st0 (H & Hn & Hf).
        eapply triple_bind; [eapply triple_conseq; [apply (IH (before ++ [s']) new')|..]|].
        { intros st <-. split; [|done]. rewrite <- app_assoc. eapply Safe_slices; [|exact H]. apply Permutation_middle. }
        { intros r st Hr. exact Hr. } { done. }
        intros [[rest new''] full']. apply triple_ret. intros st (H' & Hn' & Hf'). rewrite <- app_assoc in H'.
        split_and!; [done|lia|]. destruct full'; [lia|done].
Qed.

(** *** A round and a poll *)

(** What holds between polls. *)
Definition Good B0 (s : FetchBlocks) : Prop :=
  Inv B0 (dl_slices (downloading s)) (futures s) (dl_mask (downloading s)) (log s) (tick s) /\
  (length (futures s) <= S CONCURRENCY)%nat.

Definition left (s : FetchBlocks) : nat := length (queued (dl_slices (downloading s))).

Lemma Good_safe B0 s : Good B0 s -> Safe B0 (tick s) (tick s) (left s) 0 (dl_slices (downloading s)) (futures s) s.
Proof. intros [Hi Hl]. split; [done|done| |done]. intros _. by rewrite Nat.add_0_r. Qed.

Lemma Safe_good B0 lo k q n s : Safe B0 lo k q n (dl_slices (downloading s)) (futures s) s -> Good B0 s.
Proof. by intros []. Qed.

Lemma Good_same B0 s s' : dl_slices (downloading s') = dl_slices (downloading s) -> futures s' = futures s ->
  dl_mask (downloading s') = dl_mask (downloading s) -> log s' = log s -> (tick s <= tick s')%nat ->
  Good B0 s -> Good B0 s'.
Proof. intros Hs Hf Hm Hl Ht [Hi Hn]. split; [|by rewrite Hf]. rewrite Hs, Hf, Hm, Hl. by eapply Inv_tick. Qed.

(** What a round leaves that began at tick [k] with [q] blocks queued. *)
Definition after_round B0 (k q : nat) (v : Verdict) (s : FetchBlocks) : Prop :=
  Good B0 s /\ (k <= tick s)%nat /\
  match v with
  | Again => (k < tick s)%nat /\ (quiet_from k -> (left s < q)%nat)
  | Return true => futures s = [] /\ dl_slices (downloading s) = []
  | Return false => futures s <> [] \/ retry_timeout s = true
  end.

Lemma ask_good {A} B0 k (f : nat -> A) :
  triple (fun s => Good B0 s /\ (k <= tick s)%nat) (ask f)
    (fun a s => (Good B0 s /\ (k < tick s)%nat) /\ exists t, (k <= t)%nat /\ a = f t) not_fuel.
Proof.
  intros s [Hg Hk]. cbn. split; [|by exists (tick s)]. split; [|lia].
  eapply (Good_same B0 s); try done. cbn. lia.
Qed.

Lemma wait_and_retry_safe B0 k q :
  (forall t p i, is_Some (e_check_stalled env t p i)) ->
  triple (fun s => Good B0 s /\ (k <= tick s)%nat) (wait_and_retry env) (after_round B0 k q) not_fuel.
Proof.
  intros Hcs. unfold wait_and_retry.
  eapply (triple_bind (fun _ s => Good B0 s /\ (k <= tick s)%nat)).
  { apply triple_modify. intros s [Hg Hk]. split; [|done]. by eapply (Good_same B0 s). }
  intros _. eapply triple_bind; [apply ask_good|]. intros now.
  eapply (triple_bind (fun _ s => Good B0 s /\ (k <= tick s)%nat)).
  { intros s [[Hg Hk] _]. case_decide; [|cbn; lia || (split; [done|lia])].
    destruct (ask_good B0 k (fun t => e_check_stalled env t (dl_path (downloading s)) (dl_image (downloading s))) s)
      as [[Hg' Hk'] (t & _ & Ht)]; [split; [done|lia]|].
    unfold st_bind, ask, st_lift. cbn in *.
    destruct (Hcs (tick s) (dl_path (downloading s)) (dl_image (downloading s))) as [[] ->]; cbn; [done|].
    split; [done|lia]. }
  intros _. eapply triple_bind; [apply ask_good|]. intros b s [[Hg Hk] (t & Ht & ->)].
  destruct (e_timeout env t) eqn:Et; cbn.
  - split_and!; [done|lia|done|]. intros Hq. destruct (Hq t Ht) as (_ & _ & Hn). congruence.
  - split_and!; [by eapply (Good_same B0 s)|cbn; lia|by right].
Qed.

Lemma round_safe B0 s0 : (forall t p i, is_Some (e_check_stalled env t p i)) -> Good B0 s0 ->
  triple (eq s0) (round blake2b_256 env) (after_round B0 (tick s0) (left s0)) not_fuel.
Proof.
  intros Hcs Hg. set (k := tick s0). set (q := left s0). unfold round.
  eapply (triple_bind (fun _ s => resting B0 k k q 0 (futures s) (futures s) s)).
  { intros s <-. apply (poll_futures_safe B0 k k q 0 (length (futures s0)) s0).
    split; [split; [by apply Good_safe|done]|done]. }
  intros _. eapply (triple_bind (fun l s => Safe B0 k k q 0 l (futures s) s)); [by intros s [Hs _]|]. intros l.
  eapply (triple_bind (fun l' s => Safe B0 k k q 0 l' (futures s) s)).
  { eapply triple_conseq; [apply (retain_slices_safe B0 k k q 0 l [])|..]; [done| |done]. by intros l' s [H _]. }
  intros kept. eapply (triple_bind (fun _ s => Safe B0 k k q 0 (dl_slices (downloading s)) (futures s) s)).
  { apply triple_modify. intros s H. by eapply Safe_same; [..|exact H]. }
  intros _ s H. destruct (bool_decide _ && _) eqn:Edone.
  { apply andb_true_iff in Edone as [E1%bool_decide_eq_true E2%bool_decide_eq_true].
    split_and!; [by eapply Safe_good|apply H|by apply nil_length_inv|by apply nil_length_inv]. }
  unfold st_bind at 1, ask at 1. destruct (e_deadline env (tick s)); [done|].
  set (s1 := next_tick s). assert (H1 : Safe B0 (S k) k q 0 (dl_slices (downloading s1)) (futures s1) s1).
  { destruct H. split; cbn; [|lia|done|done]. eapply Inv_tick; [|done]. lia. }
  destruct (CONCURRENCY <=? length (futures s1))%nat eqn:El.
  { split_and!; [by eapply Safe_good|destruct H1; lia|]. left. apply Nat.leb_le in El. intros Hn. rewrite Hn in El. unfold CONCURRENCY in El. cbn in El. lia. }
  apply Nat.leb_gt in El.
  assert (Hw : triple (fun s => s = s1) (l <-- slices_of;; r <-- request_slices env l 0;;
    let '(l', new, full) := r in
    set_slices l' ;;;
    (if (full : bool) || (0 <? new)%nat then st_ret Again
     else fun st => if bool_decide (length (futures st) = 0%nat) then wait_and_retry env st
                    else (Ok (Return false), st)))%st (after_round B0 k q) not_fuel); [|by apply (Hw s1)].
  eapply (triple_bind (fun l s => s = s1 /\ l = dl_slices (downloading s1))); [by intros ? ->|]. intros l1.
  eapply triple_bind; [eapply triple_conseq; [apply (request_slices_safe B0 (S k) k q l1 [] 0)|..]|].
  { intros ? [-> ->]. split; [done|lia]. } { intros r st Hr. exact Hr. } { done. }
  intros [[l' new] full].
  eapply (triple_bind (fun _ s => Safe B0 (S k) k q new (dl_slices (downloading s)) (futures s) s /\
    (full = true -> (0 < new)%nat))).
  { apply triple_modify. intros st (Hs & _ & Hf). split; [by eapply Safe_same; [..|exact Hs]|].
    by intros ->. }
  intros _ st (Hs & Hf). pose proof (sf_tick _ _ _ _ _ _ _ _ Hs) as Ht. pose proof (sf_queue _ _ _ _ _ _ _ _ Hs) as Hq.
  assert (Hgood : Good B0 st) by (by eapply Safe_good).
  destruct (full || _) eqn:Ea.
  - assert (Hn : (0 < new)%nat) by (apply orb_true_iff in Ea as [?|?%Nat.ltb_lt]; auto).
    cbn. split_and!; [done|lia|lia|]. intros Hqf. specialize (Hq Hqf). unfold left. lia.
  - clear Edone. case_bool_decide as Hn.
    + apply wait_and_retry_safe; [done|]. split; [done|lia].
    + split_and!; [done|lia|left]. by intros Hf0; rewrite Hf0 in Hn.
Qed.

Lemma Good_left B0 s : Good B0 s -> (left s <= length B0)%nat.
Proof. intros [[Hb] _]. unfold left. rewrite <- Hb, !length_app. lia. Qed.

(** Rounds that are enough from [s] if all is quiet from tick [T] on. *)
Definition rounds_needed (T : nat) (B0 : list Block) (s : FetchBlocks) : nat :=
  if decide (tick s < T)%nat then (T - tick s) + length B0 + 1 else left s + 1.

(** What a poll leaves. *)
Definition after_poll B0 (ready : bool) (s : FetchBlocks) : Prop :=
  Good B0 s /\
  if ready then futures s = [] /\ dl_slices (downloading s) = [] else futures s <> [] \/ retry_timeout s = true.

Lemma rounds_safe B0 fuel : (forall t p i, is_Some (e_check_stalled env t p i)) -> forall s0, Good B0 s0 ->
  triple (eq s0) (rounds blake2b_256 env fuel) (after_poll B0)
    (fun e _ => e = OutOfFuel -> forall T, quiet_from T -> (fuel < rounds_needed T B0 s0)%nat).
Proof.
  intros Hcs. induction fuel as [|fuel IH]; intros s0 Hg; cbn [rounds].
  - apply triple_err. intros s <- _ T _. unfold rounds_needed. case_decide; lia.
  - eapply triple_bind.
    { eapply triple_conseq; [apply (round_safe B0 s0 Hcs Hg)|done|intros v s H; exact H|]. by intros e s ? ->. }
    intros v s (Hg' & Hk & Hv). destruct v as [|[]].
    + destruct Hv as [Hlt Hq]. specialize (IH s Hg' s eq_refl).
      destruct (rounds _ _ fuel s) as [[b|e|] s']; [done| |done]. intros He T HT. specialize (IH He T HT).
      assert (Hl : (left s <= length B0)%nat) by (by apply Good_left).
      assert (Hql : ~ (tick s0 < T)%nat -> (left s < left s0)%nat).
      { intros Hn. apply Hq. intros t Ht. apply HT. lia. }
      unfold rounds_needed in *. repeat case_decide; lia.
    + by split.
    + by split.
Qed.

Lemma quiet_mono k k' : (k <= k')%nat -> quiet_from k -> quiet_from k'.
Proof. intros Hk Hq t Ht. apply Hq. lia. Qed.

Lemma poll_safe B0 fuel : (forall t p i, is_Some (e_check_stalled env t p i)) -> forall s0, Good B0 s0 ->
  triple (eq s0) (poll blake2b_256 env fuel) (after_poll B0)
    (fun e _ => e = OutOfFuel -> forall T, quiet_from T -> (fuel < T + length B0 + 1)%nat).
Proof.
  intros Hcs s0 Hg s <-. unfold poll.
  assert (Hr : forall s1, Good B0 s1 -> match rounds blake2b_256 env fuel s1 with
    | (Ok b, s') => after_poll B0 b s'
    | (Err e, _) => e = OutOfFuel -> forall T, quiet_from T -> (fuel < T + length B0 + 1)%nat
    | (Panic, _) => False end).
  { intros s1 Hg1. pose proof (rounds_safe B0 fuel Hcs s1 Hg1 s1 eq_refl) as H.
    destruct (rounds _ _ fuel s1) as [[b|e|] s']; [done| |done]. intros He T HT. specialize (H He T HT).
    pose proof (Good_left B0 s1 Hg1). unfold rounds_needed in H. case_decide; lia. }
  destruct (retry_timeout s0); [|by apply Hr].
  unfold st_bind, ask, st_modify. cbn. destruct (e_timeout env (tick s0)); cbn.
  - apply Hr. eapply (Good_same B0 s0); try done. cbn. lia.
  - split; [|by right]. eapply (Good_same B0 s0); try done. cbn. lia.
Qed.
End Invariant.

(** ** Properties *)

Section Properties.
Context (blake2b_256 : bytes -> bytes) (env : Env).

(** Any number of polls that were not ready. *)
Inductive polls : FetchBlocks -> FetchBlocks -> Prop :=
| polls_none s : polls s s
| polls_more fuel s s1 s2 : poll blake2b_256 env fuel s = (Ok false, s1) -> polls s1 s2 -> polls s s2.

Lemma fill_blocks_good shuffle index hardlinks d d' now blocks :
  (forall l, shuffle l ≡ₚ l) -> dl_slices d = [] -> blocks_to_fetch index hardlinks = Some blocks ->
  fill_blocks shuffle index hardlinks d = Some d' -> Good blake2b_256 env blocks (fetch_blocks_new now d').
Proof.
  intros Hsh Hd Hb Hf. destruct (fill_blocks_run shuffle index hardlinks d blocks Hsh Hb) as (sl & m & Hdt & Hr).
  rewrite Hf in Hr. injection Hr as ->. pose proof (dealt_indices _ _ _ _ Hdt) as Hix.
  destruct Hdt as [Hl Hfr Hbl Hok Hm].
  assert (Hi : map sl_index (shuffle sl) ≡ₚ seq 0 (length sl)) by (by rewrite (Hsh sl), Hix).
  split; [|cbn; lia]. cbn -[queued]. rewrite Hd. cbn -[queued].
  assert (Em : amask_get (amask_set (dl_mask d) m) = m) by (by destruct m).
  split; rewrite ?Em; cbn -[queued].
  - rewrite app_nil_r. by rewrite (queued_perm _ _ (Hsh sl)).
  - intros s Hs. rewrite (Hsh sl) in Hs. apply list_elem_of_lookup in Hs as [i Hs]. by apply Hfr in Hs as (_ & ? & _).
  - by intros blk i a r ?%not_elem_of_nil.
  - rewrite Hi. apply NoDup_ListNoDup, seq_NoDup.
  - intros i. rewrite Hi, elem_of_seq, Hl. lia.
  - done.
  - intros i. rewrite Hm. apply bool_decide_ext. rewrite Hi, elem_of_seq. lia.
  - split; [apply NoDup_nil_2|]. by intros j ?%not_elem_of_nil.
  - by intros j ?%not_elem_of_nil.
Qed.

Lemma polls_good B0 s s' : (forall t p i, is_Some (e_check_stalled env t p i)) ->
  polls s s' -> Good blake2b_256 env B0 s -> Good blake2b_256 env B0 s'.
Proof.
  intros Hcs. induction 1 as [|fuel s s1 s2 Hp _ IH]; [done|]. intros Hg.
  pose proof (poll_safe blake2b_256 env B0 fuel Hcs s Hg s eq_refl) as H. rewrite Hp in H. by apply IH, H.
Qed.

(** C21. Fetching loses and duplicates nothing.  Whatever the network, the disk, the
    clock and the peers answer, after any number of polls of the future made
    for a filled-in image a poll does not panic, and if it is not ready: every
    block to fetch is queued in a slice, requested, or written (at its place,
    with data of its hash), and no other block is; at most 11 requests and
    writes are under way; the slices that are not complete are exactly the bits
    missing in the mask; and something will wake the future up again. *)
Theorem fetch_blocks_conserves shuffle index hardlinks d d' now blocks s s' fuel r :
  (forall l, shuffle l ≡ₚ l) -> dl_slices d = [] ->
  (forall t p i, is_Some (e_check_stalled env t p i)) ->
  blocks_to_fetch index hardlinks = Some blocks -> fill_blocks shuffle index hardlinks d = Some d' ->
  polls (fetch_blocks_new now d') s -> poll blake2b_256 env fuel s = (r, s') ->
  r <> Panic /\
  (r = Ok false ->
   queued (dl_slices (downloading s')) ++ (futures s' ≫= in_flight) ++ (log s' ≫= written blake2b_256) ≡ₚ blocks /\
   (length (futures s') <= CONCURRENCY + 1)%nat /\
   (forall i, has (amask_get (dl_mask (downloading s'))) i =
      bool_decide (i < 16 /\ i ∉ map sl_index (dl_slices (downloading s')))%nat) /\
   (futures s' <> [] \/ retry_timeout s' = true)).
Proof.
  intros Hsh Hd Hcs Hb Hf Hps Hp.
  pose proof (polls_good _ _ _ Hcs Hps (fill_blocks_good _ _ _ _ _ now _ Hsh Hd Hb Hf)) as Hg.
  pose proof (poll_safe blake2b_256 env blocks fuel Hcs s Hg s eq_refl) as H. rewrite Hp in H.
  destruct r as [[]|e|]; [done| |done|done]. destruct H as [[[] Hl] Hw]. split; [done|]. intros _.
  split_and!; [done|unfold CONCURRENCY in *; lia|done|done].
Qed.

(** C24. When the future is ready, every block of the image that is not hard linked
    has been written exactly once, at its file and offset, with data of its
    hash; every write that was started has finished; and the mask says that
    the image is complete. *)
Theorem fetch_blocks_complete shuffle index hardlinks d d' now blocks s s' fuel :
  (forall l, shuffle l ≡ₚ l) -> dl_slices d = [] ->
  (forall t p i, is_Some (e_check_stalled env t p i)) ->
  blocks_to_fetch index hardlinks = Some blocks -> fill_blocks shuffle index hardlinks d = Some d' ->
  polls (fetch_blocks_new now d') s -> poll blake2b_256 env fuel s = (Ok true, s') ->
  log s' ≫= written blake2b_256 ≡ₚ blocks /\
  NoDup (log s' ≫= job_of) /\ (forall j, j ∈ log s' ≫= job_of -> exists t, e_write env t j = Ready tt) /\
  amask_get (dl_mask (downloading s')) = full.
Proof.
  intros Hsh Hd Hcs Hb Hf Hps Hp.
  pose proof (polls_good _ _ _ Hcs Hps (fill_blocks_good _ _ _ _ _ now _ Hsh Hd Hb Hf)) as Hg.
  pose proof (poll_safe blake2b_256 env blocks fuel Hcs s Hg s eq_refl) as H. rewrite Hp in H.
  destruct H as [[[] _] [Ef Es]]. rewrite Ef, Es in *. split_and!.
  - done.
  - apply iv_jobs0.
  - intros j Hj. destruct (iv_writes0 j Hj) as [?%not_elem_of_nil|]; done.
  - apply mask_ext; [apply iv_mask_ok0|done|]. intros i. rewrite iv_mask0, has_full.
    apply bool_decide_ext. set_solver.
Qed.

(** C29. A poll terminates: if from some tick on nobody answers any more and new
    timers are not over at once, the loop is left after as many rounds as that
    tick plus the number of blocks. *)
Theorem fetch_poll_returns shuffle index hardlinks d d' now blocks s T :
  (forall l, shuffle l ≡ₚ l) -> dl_slices d = [] ->
  (forall t p i, is_Some (e_check_stalled env t p i)) ->
  blocks_to_fetch index hardlinks = Some blocks -> fill_blocks shuffle index hardlinks d = Some d' ->
  polls (fetch_blocks_new now d') s -> quiet_from env T ->
  let r := fst (poll blake2b_256 env (T + length blocks + 1) s) in
  (exists ready, r = Ok ready) \/ r = Err Cancelled \/ r = Err ExitProcess.
Proof.
  intros Hsh Hd Hcs Hb Hf Hps HT r.
  pose proof (polls_good _ _ _ Hcs Hps (fill_blocks_good _ _ _ _ _ now _ Hsh Hd Hb Hf)) as Hg.
  pose proof (poll_safe blake2b_256 env blocks (T + length blocks + 1) Hcs s Hg s eq_refl) as H.
  subst r. destruct (poll _ _ _ s) as [[b|[]|] s']; cbn; [by left; exists b|tauto|tauto| |done].
  specialize (H eq_refl T HT). lia.
Qed.
End Properties.

(** ** Examples *)

Module Example.

Definition peer : SocketAddr := {| ip := 1; sport := 24783 |}.
(** Everybody answers at once; [written_at] says when the disk does. *)
Definition env_of (written_at : nat) (quiet : nat) : Env :=
  {| e_request t _ := if (t <? quiet)%nat then Ready [Byte.x01] else NotReady;
     e_write t _ := if (written_at <=? t)%nat && (t <? quiet)%nat then Ready tt else NotReady;
     e_timeout _ := false; e_deadline _ := false; e_now t := Z.of_nat t;
     e_connection _ _ _ _ _ := Some peer; e_image_source _ _ := false; e_check_stalled _ _ _ := Some false |}.
Definition zero_hash (_ : bytes) : bytes := repeat Byte.x00 32.
Definition hardlinked : gset Path.t := {[ [Path.Normal "b"] ]}.
Definition start : Downloading := new_downloading (of_names "k" ["x"]%string) (from_slice []) false example_config.
Definition filled : Downloading := default start (fill_blocks (@rev Slice) example_index hardlinked start).
Definition all_blocks : list Block := default [] (blocks_to_fetch example_index hardlinked).
Definition first_poll (env : Env) := poll zero_hash env 200 (fetch_blocks_new 0 filled).

Lemma filled_run : fill_blocks (@rev Slice) example_index hardlinked start = Some filled.
Proof. vm_compute. reflexivity. Qed.
Lemma all_blocks_run : blocks_to_fetch example_index hardlinked = Some all_blocks.
Proof. vm_compute. reflexivity. Qed.

(** A slice counts as complete, and is announced to the peers as such, when its
    last block has arrived, while the block is still being written. *)
Lemma reported_before_written :
  let d := default start (fill_blocks (@rev Slice) example_index {[ [Path.Normal "a"] ]} start) in
  let r := poll zero_hash (env_of 100 100) 10 (fetch_blocks_new 0 d) in
  fst r = Ok false /\ futures (snd r) = [Writing 5] /\
  exists src, NotifyProgress (dl_path d) (dl_image d) full src ∈ log (snd r).
Proof. vm_compute. split_and!; [done|done|]. exists false. right. right. left. Qed.

End Example.

Import Example.

Lemma fetch_blocks_conserves_witness :
  let s' := snd (first_poll (env_of 0 50)) in
  (length (futures s') <= 11)%nat /\
  queued (dl_slices (downloading s')) ++ (futures s' ≫= in_flight) ++ (log s' ≫= written zero_hash) ≡ₚ all_blocks.
Proof.
  pose proof (run_result (first_poll (env_of 0 50)) (Ok false) ltac:(vm_compute; reflexivity)) as Hr.
  destruct (fetch_blocks_conserves zero_hash (env_of 0 50) (@rev Slice) example_index hardlinked start filled 0 all_blocks
    (fetch_blocks_new 0 filled) _ 200 (Ok false)
    (fun l => Permutation_sym (Permutation_rev l)) eq_refl (fun _ _ _ => ex_intro _ false eq_refl)
    all_blocks_run filled_run (polls_none _ _ _) Hr) as [_ H].
  destruct (H eq_refl) as (H1 & H2 & _). split; [exact H2|exact H1].
Defined.

Lemma fetch_blocks_complete_witness :
  let s' := snd (first_poll (env_of 0 2000)) in
  log s' ≫= written zero_hash ≡ₚ all_blocks /\ amask_get (dl_mask (downloading s')) = full /\
  length all_blocks = 250%nat.
Proof.
  pose proof (run_result (first_poll (env_of 0 2000)) (Ok true) ltac:(vm_compute; reflexivity)) as Hr.
  destruct (fetch_blocks_complete zero_hash (env_of 0 2000) (@rev Slice) example_index hardlinked start filled 0 all_blocks
    (fetch_blocks_new 0 filled) _ 200
    (fun l => Permutation_sym (Permutation_rev l)) eq_refl (fun _ _ _ => ex_intro _ false eq_refl)
    all_blocks_run filled_run (polls_none _ _ _) Hr) as (H1 & _ & _ & H2).
  split; [exact H1|]. split; [exact H2|]. vm_compute. reflexivity.
Defined.

Lemma quiet_example q : quiet_from (env_of 0 q) q.
Proof.
  intros t Ht. cbn. assert (E : (t <? q)%nat = false) by (by apply Nat.ltb_ge).
  change (t <? q)%nat with (Nat.ltb t q). rewrite E. split_and!; [done| |done]. intros j. by rewrite andb_false_r.
Qed.

Lemma fetch_poll_returns_witness :
  let r := fst (poll zero_hash (env_of 0 50) (50 + length all_blocks + 1) (fetch_blocks_new 0 filled)) in
  (exists ready, r = Ok ready) \/ r = Err Cancelled \/ r = Err ExitProcess.
Proof.
  exact (fetch_poll_returns zero_hash (env_of 0 50) (@rev Slice) example_index hardlinked start filled 0 all_blocks
    (fetch_blocks_new 0 filled) 50
    (fun l => Permutation_sym (Permutation_rev l)) eq_refl (fun _ _ _ => ex_intro _ false eq_refl)
    all_blocks_run filled_run (polls_none _ _ _) (quiet_example 50)).
Defined.
