(* ===== verification/Blocks.v ===== *)
(** * What a client serves: [src/blocks.rs] and [src/index.rs]

    A client that uploads an image answers requests for blocks and for the
    index.  [ThreadedBlockReader] maps the hash of a block to where it is, on
    disk or in memory; [InMemoryIndexes] keeps indexes.  Both are shared maps
    behind a lock, and a state here.  Hashing is [dir_signature], a parameter. *)
From S2P Require Import Prelude Serde VirtualPath Ids Index Fs Progress.
Import ImageId.
Local Open Scope Z_scope.
Local Open Scope st_scope.

Abbreviation BlockHash := BlockHash.BlockHash.

(** ** [ThreadedBlockReader] *)

Inductive BlockPointer :=
| PDisk (path : Path.t) (offset : Z) (size : nat)
| PMem (data : bytes) (offset size : nat).

Abbreviation Blocks := (gmap BlockHash BlockPointer).

Section Register.
Context `{IndexParser}.

(** [enum DirError]; a poisoned lock is a panic elsewhere. *)
Inductive DirError := DParseError (e : Index.ParseError) | HashSize.
Abbreviation R A := (ST Blocks DirError A).

Definition insert_block (id : BlockHash) (p : BlockPointer) : R unit := st_modify (insert id p).

(** The loop over the hashes of a file; [left] is a [u64]. *)
Fixpoint register_hashes (path : Path.t) (block_size : Z) (idx : nat) (left : Z) (hashes : list bytes) : R unit :=
  match hashes with
  | [] => st_ret tt
  | hash :: hashes' =>
      id <-- st_lift (ok_or HashSize (BlockHash.from_bytes hash));;
      offset <-- st_lift (expect (checked64 (Z.of_nat idx * block_size)));;
      insert_block id (PDisk path offset (Z.to_nat (Z.min left block_size))) ;;;
      register_hashes path block_size (S idx) (sat_sub left block_size) hashes'
  end.

Definition register_entry (dir : Path.t) (block_size : Z) (entry : Res Index.ParseError Index.Entry) : R unit :=
  match entry with
  | Ok (Index.File path _ size hashes) =>
      p <-- st_lift (expect (Path.strip_root path));;
      register_hashes (Path.join dir p) block_size 0 size hashes
  | Ok _ => st_ret tt
  | _ => st_lift Panic
  end.

Fixpoint register_entries (dir : Path.t) (block_size : Z) (l : list (Res Index.ParseError Index.Entry)) : R unit :=
  match l with
  | [] => st_ret tt
  | entry :: l' => register_entry dir block_size entry ;;; register_entries dir block_size l'
  end.

Definition register_dir (dir : Path.t) (index_data : bytes) : R unit :=
  parsed <-- st_lift (res_map_err DParseError (parser_new index_data));;
  register_entries dir (hd_block_size (fst parsed)) (snd parsed).

(** The blocks of data in memory; the bound of [min] is the end of the block. *)
Fixpoint register_mem (data : bytes) (block_size idx : nat) (hashes : list bytes) : R unit :=
  match hashes with
  | [] => st_ret tt
  | hash :: hashes' =>
      id <-- st_lift (expect (BlockHash.from_bytes hash));;
      insert_block id (PMem data (idx * block_size)%nat (length data `min` ((idx + 1) * block_size))%nat) ;;;
      register_mem data block_size (S idx) hashes'
  end.

(** [hash_file] is [Hashes::hash_file]. *)
Definition register_memory_blocks (hash_file : nat -> bytes -> list bytes) (block_size : nat) (data : bytes) : R unit :=
  register_mem data block_size 0 (hash_file block_size data).
End Register.

(** [enum ReadError]. *)
Inductive ReadError := RFs (path : Path.t) (e : IoError) | RNotFound (h : BlockHash).

Section Read.
(** Opening, seeking and one [read] of a file: its bytes from an offset, at most
    so many. *)
Context (read : Path.t -> Z -> nat -> Res IoError bytes).

(** [data[offset..][..size]]; [None] is a panic. *)
Definition slice_of (data : bytes) (offset size : nat) : option bytes :=
  if decide (offset <= length data)%nat then
    if decide (size <= length data - offset)%nat then Some (take size (drop offset data)) else None
  else None.

Definition read_pointer (p : BlockPointer) : Res ReadError bytes :=
  match p with
  | PDisk path offset size =>
      match read path offset size with
      | Ok result => if decide (length result = size) then Ok result else Panic
      | Err e => Err (RFs path e)
      | Panic => Panic
      end
  | PMem data offset size => expect (slice_of data offset size)
  end.

Definition read_block (hash : BlockHash) (blocks : Blocks) : Res ReadError bytes :=
  res_bind read_pointer (ok_or (RNotFound hash) (blocks !! hash)).
End Read.

(** ** [InMemoryIndexes] *)

Abbreviation Indexes := (gmap ImageId bytes).
Inductive IndexError := IndexParseError.

(** [get_hash] of [dir_signature] finds the hash at the end of an index. *)
Definition register_index (get_hash : bytes -> option bytes) (data : bytes) : ST Indexes IndexError ImageId :=
  h <-- st_lift (ok_or IndexParseError (get_hash data));;
  st_modify (insert (from_vec h) data) ;;; st_ret (from_vec h).
Definition read_index (id : ImageId) (s : Indexes) : option bytes := s !! id.

(** ** Lemmas *)

Lemma chunks_of_fuel {A} n fuel fuel' (l : list A) : (0 < n)%nat -> (length l <= fuel)%nat -> (length l <= fuel')%nat ->
  chunks_of fuel n l = chunks_of fuel' n l.
Proof.
  intros Hn. revert fuel' l. induction fuel as [|fuel IH]; intros [|fuel'] [|x l] Hl Hl'; try done; cbn in Hl, Hl'; try lia.
  cbn [chunks_of]. f_equal. apply IH; rewrite length_drop; cbn; lia.
Qed.

Lemma chunks_cons {A} n (l : list A) : (0 < n)%nat -> l <> [] -> chunks n l = take n l :: chunks n (drop n l).
Proof.
  intros Hn Hl. unfold chunks. destruct l as [|x l]; [done|]. cbn [length chunks_of]. f_equal.
  apply chunks_of_fuel; [done|..]; rewrite length_drop; cbn; lia.
Qed.

Section Serve.
Context `{IndexParser}.
Context (read : Path.t -> Z -> nat -> Res IoError bytes) (disk : Path.t -> option bytes) (hash : bytes -> bytes).
Context (hash_size : forall b, length (hash b) = 32%nat).
Context (read_all : forall p c off n, disk p = Some c -> 0 <= off ->
  read p off n = Ok (take n (drop (Z.to_nat off) c))).

(** Every block that is known can be read, and has its hash. *)
Definition serves (s : Blocks) : Prop :=
  forall h p, s !! h = Some p -> exists d, read_pointer read p = Ok d /\ hash d = BlockHash.arr h.

Definition hash_of (b : bytes) : BlockHash := BlockHash.mk (hash b).

Lemma serves_insert b p s : serves s -> read_pointer read p = Ok b -> serves (<[hash_of b := p]> s).
Proof.
  intros Hs Hp h q. rewrite lookup_insert. case_decide as Hh; [|by apply Hs].
  intros [= <-]. exists b. split; [done|]. by rewrite <- Hh.
Qed.

Lemma register_hashes_run path c bs idx s :
  disk path = Some c -> 0 < bs -> Z.of_nat (length c) + bs < u64_modulus -> serves s ->
  let rest := drop (idx * Z.to_nat bs) c in
  exists s', register_hashes path bs idx (Z.of_nat (length rest)) (map hash (chunks (Z.to_nat bs) rest)) s = (Ok tt, s') /\
    serves s' /\ forall h, is_Some (s' !! h) <-> is_Some (s !! h) \/ exists b, b ∈ chunks (Z.to_nat bs) rest /\ h = hash_of b.
Proof.
  intros Hc Hbs Hlen. set (n := Z.to_nat bs). assert (Hn : (0 < n)%nat) by (unfold n; lia).
  intros Hs rest. remember (length rest) as m eqn:Hm. assert (Hle : (length rest <= m)%nat) by lia. rewrite Hm. clear Hm.
  revert idx rest s Hs Hle. induction m as [m IH] using lt_wf_ind. intros idx rest s Hs Hle.
  destruct (decide (rest = [])) as [Hr|Hr].
  { rewrite Hr. cbn. exists s. split; [done|]. split; [done|]. intros h. split; [by left|].
    intros [?|(b & Hb & _)]; [done|by apply not_elem_of_nil in Hb]. }
  rewrite (chunks_cons n rest Hn Hr). cbn [map register_hashes].
  assert (Hpos : (0 < length rest)%nat) by (destruct rest; [done|cbn; lia]).
  assert (Hidx : (idx * n < length c)%nat) by (unfold rest in Hpos; rewrite length_drop in Hpos; lia).
  unfold BlockHash.from_bytes. rewrite decide_True by apply hash_size. unfold st_bind at 1, st_lift at 1, ok_or.
  unfold checked64. rewrite decide_True by nia. unfold st_bind at 1, st_lift at 1, expect.
  unfold st_bind at 1, insert_block, st_modify.
  set (p := PDisk path _ _).
  assert (Hp : read_pointer read p = Ok (take n rest)).
  { unfold p, read_pointer. rewrite (read_all path c) by (done || lia).
    replace (Z.to_nat (Z.of_nat idx * bs)) with (idx * n)%nat by (unfold n; nia). fold rest.
    rewrite decide_True by (rewrite length_take; lia). f_equal.
    destruct (decide (n <= length rest)%nat).
    - f_equal. lia.
    - rewrite !take_ge; [done|lia|lia]. }
  destruct (IH (length rest - n)%nat ltac:(lia) (S idx) (<[hash_of (take n rest) := p]> s)) as (s' & Hrun & Hs' & Hdom).
  { by apply serves_insert. }
  { rewrite length_drop. unfold rest. rewrite length_drop. lia. }
  assert (Hd : drop (S idx * n) c = drop n rest) by (unfold rest; rewrite drop_drop; f_equal; lia).
  rewrite Hd in Hrun, Hdom. rewrite length_drop in Hrun.
  replace (sat_sub (Z.of_nat (length rest)) bs) with (Z.of_nat (length rest - n)) by (unfold sat_sub; lia).
  exists s'. split; [exact Hrun|]. split; [done|]. intros h. rewrite Hdom, lookup_insert_is_Some.
  setoid_rewrite elem_of_cons. split.
  - intros [[<-|[_ ?]]|(b & Hb & ->)]; [right; eexists; split; [by left|done]|by left|right; exists b; auto].
  - intros [?|(b & [->|Hb] & ->)]; [|left; by left|right; by exists b].
    destruct (decide (hash_of (take n rest) = h)); [left; by left|left; by right].
Qed.

(** What an index says of the files of a directory. *)
Definition describes (dir : Path.t) (bs : Z) (e : Index.Entry) : Prop :=
  match e with
  | Index.File path _ size hashes =>
      exists p c, path = Path.RootDir :: p /\ disk (Path.join dir p) = Some c /\ size = Z.of_nat (length c) /\
        size + bs < u64_modulus /\ hashes = map hash (chunks (Z.to_nat bs) c)
  | _ => True
  end.
Definition content_blocks (dir : Path.t) (bs : Z) (e : Index.Entry) : list bytes :=
  match e with
  | Index.File (Path.RootDir :: p) _ _ _ => from_option (chunks (Z.to_nat bs)) [] (disk (Path.join dir p))
  | _ => []
  end.

Lemma register_entries_run dir bs l s : 0 < bs -> Forall (describes dir bs) l -> serves s ->
  exists s', register_entries dir bs (map Ok l) s = (Ok tt, s') /\ serves s' /\
    forall h, is_Some (s' !! h) <-> is_Some (s !! h) \/ exists b, b ∈ l ≫= content_blocks dir bs /\ h = hash_of b.
Proof.
  intros Hbs Hl. revert s. induction Hl as [|e l He Hl IH]; intros s Hs.
  { exists s. split; [done|]. split; [done|]. intros h. split; [by left|].
    intros [?|(b & Hb & _)]; [done|by apply not_elem_of_nil in Hb]. }
  cbn [map register_entries]. rewrite bind_cons.
  assert (H1 : exists s1, register_entry dir bs (Ok e) s = (Ok tt, s1) /\ serves s1 /\
    forall h, is_Some (s1 !! h) <-> is_Some (s !! h) \/ exists b, b ∈ content_blocks dir bs e /\ h = hash_of b).
  { destruct e as [path|path dest|path exe size hashes].
    1, 2: exists s; split; [done|]; split; [done|]; intros h; split; [by left|];
      intros [?|(b & Hb & _)]; [done|by apply not_elem_of_nil in Hb].
    destruct He as (p & c & -> & Hc & -> & Hsz & ->). unfold register_entry. cbn [Path.strip_root content_blocks].
    unfold st_bind, st_lift, expect. rewrite Hc. cbn [from_option].
    exact (register_hashes_run (Path.join dir p) c bs 0 s Hc Hbs Hsz Hs). }
  destruct H1 as (s1 & Hrun1 & Hs1 & Hd1). destruct (IH s1 Hs1) as (s' & Hrun & Hs' & Hd).
  exists s'. unfold st_bind. rewrite Hrun1. split; [done|]. split; [done|]. intros h. rewrite Hd, Hd1.
  setoid_rewrite elem_of_app. naive_solver.
Qed.

Lemma register_mem_run data bs idx l s :
  exists s', register_mem data bs idx (map hash l) s = (Ok tt, s') /\
    forall h p, s' !! h = Some p -> s !! h = Some p \/
      exists i, p = PMem data (i * bs)%nat (length data `min` ((i + 1) * bs))%nat.
Proof.
  revert idx s. induction l as [|b l IH]; intros idx s; [exists s; split; [done|auto]|].
  cbn [map register_mem]. unfold BlockHash.from_bytes. rewrite decide_True by apply hash_size.
  unfold st_bind at 1, st_lift, expect. unfold st_bind at 1, insert_block, st_modify.
  match goal with |- context [register_mem _ _ _ _ ?x] => destruct (IH (S idx) x) as (s' & Hrun & Hinv) end.
  exists s'. split; [done|]. intros h p Hp. destruct (Hinv h p Hp) as [Hold|?]; [|by right].
  apply lookup_insert_Some in Hold as [[_ <-]|[_ ?]]; [right; by exists idx|by left].
Qed.

(** ** Properties *)

(** A client serves exactly the blocks of the directories it registered: if
    the index describes the files on disk, registering a directory succeeds,
    and afterwards a request for a hash is answered for the hashes that were
    known and those of the blocks of the files, always with data of that hash;
    any other hash is not found. *)
Theorem register_dir_serves dir index_data header l s :
  parser_new index_data = Ok (header, map Ok l) -> 0 < hd_block_size header ->
  Forall (describes dir (hd_block_size header)) l -> serves s ->
  exists s', register_dir dir index_data s = (Ok tt, s') /\
    forall h, (is_Some (s !! h) \/ (exists b, b ∈ l ≫= content_blocks dir (hd_block_size header) /\ h = hash_of b) ->
               exists d, read_block read h s' = Ok d /\ hash d = BlockHash.arr h) /\
              (s !! h = None -> (forall b, b ∈ l ≫= content_blocks dir (hd_block_size header) -> h <> hash_of b) ->
               read_block read h s' = Err (RNotFound h)).
Proof.
  intros Hp Hbs Hl Hs. destruct (register_entries_run dir _ l s Hbs Hl Hs) as (s' & Hrun & Hs' & Hd).
  exists s'. split; [unfold register_dir, st_bind, st_lift; rewrite Hp; exact Hrun|]. intros h. unfold read_block. split.
  - intros Hh%Hd. destruct Hh as [p Hp']. rewrite Hp'. by apply (Hs' h).
  - intros Hn Hb. assert (s' !! h = None) as ->; [|done]. apply eq_None_not_Some. rewrite Hd, Hn.
    intros [[? ?]|(b & Hin & ->)]; [done|]. by apply (Hb b).
Qed.

(** Data in memory is served rightly only when it is a single block.  Of
    every later block the size that was recorded is its end: whatever is answered
    for a hash that was registered with the data is the first block, or longer
    than any block. *)
Theorem memory_blocks_served hash_file bs data s :
  (0 < bs)%nat -> hash_file bs data = map hash (chunks bs data) -> serves s ->
  exists s', register_memory_blocks hash_file bs data s = (Ok tt, s') /\
  ((length data <= bs)%nat -> serves s' /\
     forall h, is_Some (s' !! h) <-> is_Some (s !! h) \/ exists b, b ∈ chunks bs data /\ h = hash_of b) /\
  (forall h d, s' !! h <> s !! h -> read_block read h s' = Ok d -> d = take bs data \/ (bs < length d)%nat).
Proof.
  intros Hbs Hh Hs. unfold register_memory_blocks. rewrite Hh.
  destruct (register_mem_run data bs 0 (chunks bs data) s) as (s' & Hrun & Hinv). exists s'. split; [done|]. split.
  - intros Hlen. destruct (decide (data = [])) as [->|Hne].
    { injection Hrun as <-. split; [done|]. intros h. split; [by left|].
      intros [?|(b & Hb & _)]; [done|by apply not_elem_of_nil in Hb]. }
    assert (Hd0 : chunks bs (drop bs data) = []) by by rewrite drop_ge.
    rewrite chunks_cons, Hd0 in * by done. rewrite take_ge in * by done. cbn [map register_mem] in Hrun.
    unfold BlockHash.from_bytes in Hrun. rewrite decide_True in Hrun by apply hash_size. injection Hrun as <-. split.
    + apply serves_insert; [done|]. unfold read_pointer, slice_of. rewrite !decide_True by lia. cbn.
      rewrite drop_0, take_ge; [done|lia].
    + intros h. rewrite lookup_insert_is_Some. setoid_rewrite list_elem_of_singleton. fold (hash_of data). split.
      * intros [<-|[_ ?]]; [right; by eexists|by left].
      * intros [?|(b & -> & ->)]; [|by left]. destruct (decide (hash_of data = h)); [by left|by right].
  - intros h d Hne. unfold read_block. destruct (s' !! h) as [p|] eqn:Hp; [|done]. cbn.
    destruct (Hinv h p Hp) as [?|(idx & ->)]; [congruence|]. cbn. unfold slice_of.
    case_decide; [|done]. case_decide; [|done]. cbn. intros [= <-].
    destruct idx as [|idx]; [left|right; rewrite length_take, length_drop; nia].
    rewrite drop_0. cbn. destruct (decide (length data <= bs)%nat); [rewrite !take_ge by lia; done|f_equal; lia].
Qed.
End Serve.

Lemma register_dir_serves_witness :
  let content := [Byte.x61; Byte.x62; Byte.x63] in
  let hash := fun b : bytes => take 32 (b ++ replicate 32 Byte.x00) in
  let entry := Index.File [Path.RootDir; Path.Normal "f"] false 3 (map hash (chunks 2 content)) in
  let disk := fun p => if decide (p = [Path.RootDir; Path.Normal "d"; Path.Normal "f"]) then Some content else None in
  let read := fun p off n => match disk p with Some c => Ok (take n (drop (Z.to_nat off) c)) | None => Err MemFs.not_found end in
  let parser := {| Index.ParseError := unit;
                   parser_new := fun _ => Ok ({| hd_hash_type := Blake2b_256; hd_block_size := 2 |}, [Ok entry]) |} in
  exists s', register_dir (H := parser) [Path.RootDir; Path.Normal "d"] [] ∅ = (Ok tt, s') /\
    exists d, read_block read (hash_of hash [Byte.x63]) s' = Ok d /\ hash d = hash [Byte.x63].
Proof.
  intros content hash entry disk read parser.
  destruct (register_dir_serves (H := parser) read disk hash) with (dir := [Path.RootDir; Path.Normal "d"])
    (index_data := [] : bytes) (header := {| hd_hash_type := Blake2b_256; hd_block_size := 2 |}) (l := [entry])
    (s := ∅ : Blocks) as (s' & Hrun & H).
  - intros b. unfold hash. rewrite length_take, length_app, length_replicate. lia.
  - intros p c off n Hc _. unfold read. by rewrite Hc.
  - reflexivity.
  - cbn. lia.
  - repeat constructor. exists [Path.Normal "f"], content. done.
  - intros h p. by rewrite lookup_empty.
  - exists s'. split; [exact Hrun|]. apply (proj1 (H (hash_of hash [Byte.x63]))). right. exists [Byte.x63].
    split; [|done]. vm_compute. right. left.
Defined.

Lemma memory_blocks_served_witness :
  let data := [Byte.x61; Byte.x62; Byte.x63] in
  let hash := fun b : bytes => take 32 (b ++ replicate 32 Byte.x00) in
  exists s', register_memory_blocks (H := {| Index.ParseError := unit; parser_new := fun _ => Err tt |})
      (fun bs data => map hash (chunks bs data)) 2 data ∅ = (Ok tt, s') /\
    (forall d, read_block (fun _ _ _ => Panic) (hash_of hash [Byte.x63]) s' = Ok d ->
       s' !! hash_of hash [Byte.x63] <> None -> d = [Byte.x61; Byte.x62] \/ (2 < length d)%nat).
Proof.
  intros data hash.
  destruct (memory_blocks_served (H := {| Index.ParseError := unit; parser_new := fun _ => Err tt |})
    (fun _ _ _ => Panic) hash) with (hash_file := fun bs data => map hash (chunks bs data)) (bs := 2%nat)
    (data := data) (s := ∅ : Blocks) as (s' & Hrun & _ & H).
  - intros b. unfold hash. rewrite length_take, length_app, length_replicate. lia.
  - lia.
  - reflexivity.
  - intros h p. by rewrite lookup_empty.
  - exists s'. split; [exact Hrun|]. intros d Hd Hne. by apply (H (hash_of hash [Byte.x63])).
Defined.
