(* ===== verification/Commands.v ===== *)
(** * The commands of the protocol: [src/proto/*_commands.rs]

    One record per command, with the field names of the source behind a short
    prefix.  Their (de)serializers are generated by [serde_derive]: they are an
    instance of [Wire] per type, a parameter wherever they matter. *)
From S2P Require Import Prelude Serde VirtualPath Ids Time Signature.
Import VPath ImageId MachineId BlockHash.

(** ** [dir_commands.rs] *)

Record AppendDir := {
  ad_path : VPath; ad_image : ImageId; ad_timestamp : Z; ad_signatures : list Signature.Signature
}.
Record ReplaceDir := {
  rd_path : VPath; rd_image : ImageId; rd_old_image : option ImageId; rd_timestamp : Z;
  rd_signatures : list Signature.Signature
}.
Record AppendDirAck := {
  ada_accepted : bool; ada_reject_reason : option string; ada_hosts : gmap MachineId string
}.
Record ReplaceDirAck := {
  rda_accepted : bool; rda_reject_reason : option string; rda_hosts : gmap MachineId string
}.

(** [sig_data]; [None] is the panic of [to_ms] for a time before the epoch. *)
Definition append_sig_data (c : AppendDir) : option Signature.SigData :=
  ms ← to_ms (ad_timestamp c);
  Some {| Signature.sd_path := Path.render (path (ad_path c));
          Signature.sd_image := as_ref (ad_image c); Signature.sd_timestamp := ms |}.
Definition replace_sig_data (c : ReplaceDir) : option Signature.SigData :=
  ms ← to_ms (rd_timestamp c);
  Some {| Signature.sd_path := Path.render (path (rd_path c));
          Signature.sd_image := as_ref (rd_image c); Signature.sd_timestamp := ms |}.

(** ** [index_commands.rs] *)

Record PublishImage := { pi_id : ImageId }.
Record ReceivedImage := {
  ri_id : ImageId; ri_path : VPath; ri_machine_id : MachineId; ri_hostname : string; ri_forwarded : bool
}.
Record AbortedImage := {
  ai_id : ImageId; ai_path : VPath; ai_machine_id : MachineId; ai_hostname : string; ai_forwarded : bool;
  ai_reason : string
}.
Record GetIndex := { gi_id : ImageId; gi_hint : option VPath }.
Record GetIndexResponse := { gir_data : bytes }.
Record GetIndexAt := { gia_path : VPath }.
Record GetIndexAtResponse := { giar_data : option bytes; giar_hosts : gmap MachineId string }.

(** ** [block_commands.rs] *)

Record GetBlock := { gb_hash : BlockHash; gb_hint : option (VPath * Path.t * Z) }.
Record GetBlockResponse := { gbr_data : bytes }.

(** ** [p2p_commands.rs] *)

Record GetBaseDir := { gbd_path : VPath }.
Record GetBaseDirResponse := {
  gbdr_config_hash : Hash.Hash; gbdr_keep_list_hash : Hash.Hash; gbdr_dirs : gmap string Database.State
}.
Record BaseDirState := {
  bds_path : VPath; bds_config_hash : Hash.Hash; bds_keep_list_hash : Hash.Hash;
  bds_dirs : gmap string Database.State
}.

(** ** [enum Request], [enum Response], [enum Notification] of [message.rs] *)

Inductive Request :=
| ReqAppendDir (c : AppendDir) | ReqReplaceDir (c : ReplaceDir) | ReqGetIndex (c : GetIndex)
| ReqGetIndexAt (c : GetIndexAt) | ReqGetBlock (c : GetBlock) | ReqGetBaseDir (c : GetBaseDir).

Inductive Response :=
| RespAppendDir (r : AppendDirAck) | RespReplaceDir (r : ReplaceDirAck) | RespGetIndex (r : GetIndexResponse)
| RespGetIndexAt (r : GetIndexAtResponse) | RespGetBlock (r : GetBlockResponse)
| RespGetBaseDir (r : GetBaseDirResponse) | RespError (e : string).

Inductive Notification :=
| NPublishImage (n : PublishImage) | NReceivedImage (n : ReceivedImage) | NAbortedImage (n : AbortedImage).

(** The types of the three enums ([message::RequestType] and so on). *)
Inductive RequestType := TAppendDir | TReplaceDir | TGetIndex | TGetIndexAt | TGetBlock | TGetBaseDir.
Inductive ResponseType := RtRequest (t : RequestType) | RtError.
Inductive NotificationType := TPublishImage | TReceivedImage | TAbortedImage.

#[global] Instance RequestType_eq_dec : EqDecision RequestType.
Proof. solve_decision. Defined.

#[global] Instance ResponseType_eq_dec : EqDecision ResponseType.
Proof. solve_decision. Defined.

Definition request_type (r : Request) : RequestType :=
  match r with
  | ReqAppendDir _ => TAppendDir | ReqReplaceDir _ => TReplaceDir | ReqGetIndex _ => TGetIndex
  | ReqGetIndexAt _ => TGetIndexAt | ReqGetBlock _ => TGetBlock | ReqGetBaseDir _ => TGetBaseDir
  end.
Definition response_type (r : Response) : ResponseType :=
  match r with
  | RespAppendDir _ => RtRequest TAppendDir | RespReplaceDir _ => RtRequest TReplaceDir
  | RespGetIndex _ => RtRequest TGetIndex | RespGetIndexAt _ => RtRequest TGetIndexAt
  | RespGetBlock _ => RtRequest TGetBlock | RespGetBaseDir _ => RtRequest TGetBaseDir
  | RespError _ => RtError
  end.
Definition notification_type (n : Notification) : NotificationType :=
  match n with
  | NPublishImage _ => TPublishImage | NReceivedImage _ => TReceivedImage | NAbortedImage _ => TAbortedImage
  end.

(** [type_name] of the [Request], [Response] and [Notification] traits. *)
Definition request_type_name (t : RequestType) : string :=
  match t with
  | TAppendDir => "AppendDir" | TReplaceDir => "ReplaceDir" | TGetIndex => "GetIndex"
  | TGetIndexAt => "GetIndexAt" | TGetBlock => "GetBlock" | TGetBaseDir => "GetBaseDir"
  end.
Definition response_type_name (t : ResponseType) : string :=
  match t with RtRequest t => request_type_name t | RtError => "Error" end.
Definition notification_type_name (t : NotificationType) : string :=
  match t with
  | TPublishImage => "PublishImage" | TReceivedImage => "ReceivedImage" | TAbortedImage => "AbortedImage"
  end.
