(* ===== verification/Wire.v ===== *)
(** * Frames of the protocol: [src/proto/message.rs], the serializers of
    [src/proto/request.rs] and [src/proto/server.rs]

    A frame is a CBOR array: the kind, the name of the type, the request id
    (not for a notification) and the payload.  The serializers write it, the
    [MessageVisitor] reads it element by element.  Payload codecs are [Wire]
    instances, the CBOR codec is a pair of functions. *)
From S2P Require Import Prelude Serde VirtualPath Ids Time Signature Commands.
Local Open Scope Z_scope.

Definition NOTIFICATION : Z := 0.
Definition REQUEST : Z := 1.
Definition RESPONSE : Z := 2.

Inductive Message :=
| MRequest (id : Z) (r : Request)
| MResponse (id : Z) (r : Response)
| MNotification (n : Notification).

(** ** The visitors of the type names *)

Definition request_type_visitor : Visitor RequestType := {|
  visit_bytes := no_visit;
  visit_str value :=
    if decide (value = "AppendDir")%string then Ok TAppendDir
    else if decide (value = "ReplaceDir")%string then Ok TReplaceDir
    else if decide (value = "GetIndex")%string then Ok TGetIndex
    else if decide (value = "GetIndexAt")%string then Ok TGetIndexAt
    else if decide (value = "GetBlock")%string then Ok TGetBlock
    else if decide (value = "GetBaseDir")%string then Ok TGetBaseDir
    else Err (UnknownVariant value);
  visit_seq := no_visit
|}.

Definition response_type_visitor : Visitor ResponseType := {|
  visit_bytes := no_visit;
  visit_str value :=
    if decide (value = "AppendDir")%string then Ok (RtRequest TAppendDir)
    else if decide (value = "ReplaceDir")%string then Ok (RtRequest TReplaceDir)
    else if decide (value = "GetIndex")%string then Ok (RtRequest TGetIndex)
    else if decide (value = "GetIndexAt")%string then Ok (RtRequest TGetIndexAt)
    else if decide (value = "GetBlock")%string then Ok (RtRequest TGetBlock)
    else if decide (value = "GetBaseDir")%string then Ok (RtRequest TGetBaseDir)
    else if decide (value = "Error")%string then Ok RtError
    else Err (UnknownVariant value);
  visit_seq := no_visit
|}.

Definition notification_type_visitor : Visitor NotificationType := {|
  visit_bytes := no_visit;
  visit_str value :=
    if decide (value = "PublishImage")%string then Ok TPublishImage
    else if decide (value = "ReceivedImage")%string then Ok TReceivedImage
    else if decide (value = "AbortedImage")%string then Ok TAbortedImage
    else Err (UnknownField value);
  visit_seq := no_visit
|}.

(** ** Reading a sequence: [serde::de::SeqAccess] *)

(** [next_element]: the next element decoded, or [None] at the end; the rest of
    the sequence is threaded. *)
Definition SeqM (A : Type) := ST (list Value) DeError A.
Definition next_element {A} (de : Value -> DeRes A) : SeqM (option A) :=
  fun vs => match vs with
            | [] => (Ok None, [])
            | v :: vs' => (res_map Some (de v), vs')
            end.
(** [match visitor.next_element()? { Some(x) => x, None => return
    Err(Error::invalid_length(n, &self)) }]. *)
Definition required {A} (n : nat) (de : Value -> DeRes A) : SeqM A :=
  fun vs => match next_element de vs with
            | (Ok (Some a), vs') => (Ok a, vs')
            | (Ok None, vs') => (Err (InvalidLength n), vs')
            | (Err e, vs') => (Err e, vs')
            | (Panic, vs') => (Panic, vs')
            end.

Definition de_u8 (v : Value) : DeRes Z :=
  match v with VU64 n => if decide (n < 256) then Ok n else Err InvalidValue | _ => Err InvalidType end.
Definition de_u64 (v : Value) : DeRes Z :=
  match v with VU64 n => Ok n | _ => Err InvalidType end.

Section Frames.
Context `{Wire AppendDir} `{Wire ReplaceDir} `{Wire GetIndex} `{Wire GetIndexAt} `{Wire GetBlock} `{Wire GetBaseDir}.
Context `{Wire AppendDirAck} `{Wire ReplaceDirAck} `{Wire GetIndexResponse} `{Wire GetIndexAtResponse}
        `{Wire GetBlockResponse} `{Wire GetBaseDirResponse} `{Wire string}.
Context `{Wire PublishImage} `{Wire ReceivedImage} `{Wire AbortedImage}.

Local Open Scope st_scope.

Definition de_payload {A} `{Wire A} (v : Value) : DeRes A := of_value v.

Definition visit_notification : SeqM Notification :=
  typ <-- required 1 (drive notification_type_visitor) ;;
  match typ with
  | TPublishImage => d <-- required 3 de_payload ;; st_ret (NPublishImage d)
  | TReceivedImage => d <-- required 3 de_payload ;; st_ret (NReceivedImage d)
  | TAbortedImage => d <-- required 3 de_payload ;; st_ret (NAbortedImage d)
  end.

Definition visit_request : SeqM Message :=
  typ <-- required 1 (drive request_type_visitor) ;;
  request_id <-- required 2 de_u64 ;;
  data <-- match typ with
           | TAppendDir => d <-- required 3 de_payload ;; st_ret (ReqAppendDir d)
           | TReplaceDir => d <-- required 3 de_payload ;; st_ret (ReqReplaceDir d)
           | TGetIndex => d <-- required 3 de_payload ;; st_ret (ReqGetIndex d)
           | TGetIndexAt => d <-- required 2 de_payload ;; st_ret (ReqGetIndexAt d)
           | TGetBlock => d <-- required 3 de_payload ;; st_ret (ReqGetBlock d)
           | TGetBaseDir => d <-- required 3 de_payload ;; st_ret (ReqGetBaseDir d)
           end ;;
  st_ret (MRequest request_id data).

Definition visit_response : SeqM Message :=
  typ <-- required 1 (drive response_type_visitor) ;;
  request_id <-- required 2 de_u64 ;;
  data <-- match typ with
           | RtRequest TAppendDir => d <-- required 3 de_payload ;; st_ret (RespAppendDir d)
           | RtRequest TReplaceDir => d <-- required 3 de_payload ;; st_ret (RespReplaceDir d)
           | RtRequest TGetIndex => d <-- required 3 de_payload ;; st_ret (RespGetIndex d)
           | RtRequest TGetIndexAt => d <-- required 3 de_payload ;; st_ret (RespGetIndexAt d)
           | RtRequest TGetBlock => d <-- required 3 de_payload ;; st_ret (RespGetBlock d)
           | RtRequest TGetBaseDir => d <-- required 3 de_payload ;; st_ret (RespGetBaseDir d)
           | RtError => d <-- required 3 de_payload ;; st_ret (RespError d)
           end ;;
  st_ret (MResponse request_id data).

(** [MessageVisitor::visit_seq]. *)
Definition message_visit_seq : SeqM Message :=
  kind <-- next_element de_u8 ;;
  match kind with
  | Some k =>
      if decide (k = NOTIFICATION) then n <-- visit_notification ;; st_ret (MNotification n)
      else if decide (k = REQUEST) then visit_request
      else if decide (k = RESPONSE) then visit_response
      else st_err (Custom "invalid message kind")
  | None => st_err (InvalidLength 0)
  end.

Definition message_visitor : Visitor Message := {|
  visit_bytes := no_visit;
  visit_str := no_visit;
  visit_seq vs := fst (message_visit_seq vs)
|}.
Definition deserialize_message (v : Value) : DeRes Message := drive message_visitor v.

(** ** Writing: the [WrapTrait] implementations *)

Definition request_payload (r : Request) : Value :=
  match r with
  | ReqAppendDir c => to_value c | ReqReplaceDir c => to_value c | ReqGetIndex c => to_value c
  | ReqGetIndexAt c => to_value c | ReqGetBlock c => to_value c | ReqGetBaseDir c => to_value c
  end.
Definition response_payload (r : Response) : Value :=
  match r with
  | RespAppendDir c => to_value c | RespReplaceDir c => to_value c | RespGetIndex c => to_value c
  | RespGetIndexAt c => to_value c | RespGetBlock c => to_value c | RespGetBaseDir c => to_value c
  | RespError e => to_value e
  end.
Definition notification_payload (n : Notification) : Value :=
  match n with NPublishImage d => to_value d | NReceivedImage d => to_value d | NAbortedImage d => to_value d end.

(** [RequestWrap::serialize_req]. *)
Definition serialize_req (request_id : Z) (r : Request) : Value :=
  VSeq [VU64 REQUEST; VStr (request_type_name (request_type r)); VU64 request_id; request_payload r].
(** [NotificationWrap::serialize]. *)
Definition serialize_notification (n : Notification) : Value :=
  VSeq [VU64 NOTIFICATION; VStr (notification_type_name (notification_type n)); notification_payload n].
(** [serialize_response] of [server.rs]. *)
Definition serialize_response (request_id : Z) (kind : string) (value : Value) : Value :=
  VSeq [VU64 RESPONSE; VStr kind; VU64 request_id; value].
(** [ResponseWrap::serialize] and [ErrorWrap::serialize]. *)
Definition serialize_resp (request_id : Z) (r : Response) : Value :=
  VSeq [VU64 RESPONSE; VStr (response_type_name (response_type r)); VU64 request_id; response_payload r].

Definition serialize_message (m : Message) : Value :=
  match m with
  | MRequest id r => serialize_req id r
  | MResponse id r => serialize_resp id r
  | MNotification n => serialize_notification n
  end.

(** The payload of a message is read back by its own codec. *)
Definition request_payload_ok (r : Request) : Prop :=
  match r with
  | ReqAppendDir c => of_value (to_value c) = Ok c | ReqReplaceDir c => of_value (to_value c) = Ok c
  | ReqGetIndex c => of_value (to_value c) = Ok c | ReqGetIndexAt c => of_value (to_value c) = Ok c
  | ReqGetBlock c => of_value (to_value c) = Ok c | ReqGetBaseDir c => of_value (to_value c) = Ok c
  end.
Definition response_payload_ok (r : Response) : Prop :=
  match r with
  | RespAppendDir c => of_value (to_value c) = Ok c | RespReplaceDir c => of_value (to_value c) = Ok c
  | RespGetIndex c => of_value (to_value c) = Ok c | RespGetIndexAt c => of_value (to_value c) = Ok c
  | RespGetBlock c => of_value (to_value c) = Ok c | RespGetBaseDir c => of_value (to_value c) = Ok c
  | RespError e => of_value (to_value e) = Ok e
  end.
Definition payload_ok (m : Message) : Prop :=
  match m with
  | MRequest _ r => request_payload_ok r
  | MResponse _ r => response_payload_ok r
  | MNotification (NPublishImage d) => of_value (to_value d) = Ok d
  | MNotification (NReceivedImage d) => of_value (to_value d) = Ok d
  | MNotification (NAbortedImage d) => of_value (to_value d) = Ok d
  end.

(** ** Lemmas *)

Lemma required_ok {A} n (de : Value -> DeRes A) v vs a :
  de v = Ok a -> required n de (v :: vs) = (Ok a, vs).
Proof. intros E. unfold required, next_element. by rewrite E. Qed.

Lemma request_type_name_visited t : drive request_type_visitor (VStr (request_type_name t)) = Ok t.
Proof. by destruct t. Qed.
Lemma response_type_name_visited t : drive response_type_visitor (VStr (response_type_name t)) = Ok t.
Proof. by destruct t as [[]|]. Qed.
Lemma notification_type_name_visited t :
  drive notification_type_visitor (VStr (notification_type_name t)) = Ok t.
Proof. by destruct t. Qed.

Lemma st_bind_run {S E A B} (m : ST S E A) (f : A -> ST S E B) s a s' r :
  m s = (Ok a, s') -> f a s' = r -> st_bind f m s = r.
Proof. intros Hrun <-. by apply st_bind_ok. Qed.

Lemma visit_request_ok id r : request_payload_ok r ->
  visit_request [VStr (request_type_name (request_type r)); VU64 id; request_payload r]
  = (Ok (MRequest id r), []).
Proof.
  intros Hr. unfold visit_request.
  eapply st_bind_run; [apply required_ok, request_type_name_visited|].
  eapply st_bind_run; [by apply required_ok|].
  destruct r; cbn in Hr |- *; (eapply st_bind_run;
    [eapply st_bind_run; [by apply required_ok|reflexivity]|reflexivity]).
Qed.

Lemma visit_response_ok id r : response_payload_ok r ->
  visit_response [VStr (response_type_name (response_type r)); VU64 id; response_payload r]
  = (Ok (MResponse id r), []).
Proof.
  intros Hr. unfold visit_response.
  eapply st_bind_run; [apply required_ok, response_type_name_visited|].
  eapply st_bind_run; [by apply required_ok|].
  destruct r; cbn in Hr |- *; (eapply st_bind_run;
    [eapply st_bind_run; [by apply required_ok|reflexivity]|reflexivity]).
Qed.

Lemma visit_notification_ok n : payload_ok (MNotification n) ->
  visit_notification [VStr (notification_type_name (notification_type n)); notification_payload n]
  = (Ok n, []).
Proof.
  intros Hr. unfold visit_notification.
  eapply st_bind_run; [apply required_ok, notification_type_name_visited|].
  destruct n; cbn in Hr |- *; (eapply st_bind_run; [by apply required_ok|reflexivity]).
Qed.

Lemma message_visit_seq_ok m : payload_ok m ->
  exists vs, serialize_message m = VSeq vs /\ message_visit_seq vs = (Ok m, []).
Proof.
  intros Hm. destruct m as [id r|id r|n]; eexists; (split; [reflexivity|]); unfold message_visit_seq;
    (eapply st_bind_run; [reflexivity|]).
  - by apply visit_request_ok.
  - by apply visit_response_ok.
  - eapply st_bind_run; [by apply visit_notification_ok|reflexivity].
Qed.

Lemma required_inv {A} n (de : Value -> DeRes A) vs a vs' :
  required n de vs = (Ok a, vs') -> exists v, vs = v :: vs' /\ de v = Ok a.
Proof.
  unfold required, next_element. destruct vs as [|v vs]; [done|].
  destruct (de v) eqn:E; cbn; intros [= -> ->]. eauto.
Qed.

Lemma request_type_inv v t : drive request_type_visitor v = Ok t -> v = VStr (request_type_name t).
Proof.
  destruct v; cbn; try done. repeat case_decide; intros [= <-]; by subst.
Qed.
Lemma response_type_inv v t : drive response_type_visitor v = Ok t -> v = VStr (response_type_name t).
Proof.
  destruct v; cbn; try done. repeat case_decide; intros [= <-]; by subst.
Qed.
Lemma notification_type_inv v t :
  drive notification_type_visitor v = Ok t -> v = VStr (notification_type_name t).
Proof.
  destruct v; cbn; try done. repeat case_decide; intros [= <-]; by subst.
Qed.
Lemma de_u64_inv v n : de_u64 v = Ok n -> v = VU64 n.
Proof. by destruct v; cbn; intros [= ->]. Qed.
Lemma de_u8_inv v n : de_u8 v = Ok n -> v = VU64 n.
Proof. destruct v; cbn; try done. case_decide; by intros [= ->]. Qed.

(** The payload of a frame is decoded by the codec of the message's type. *)
Definition payload_decodes (m : Message) (p : Value) : Prop :=
  match m with
  | MRequest _ (ReqAppendDir c) => of_value p = Ok c | MRequest _ (ReqReplaceDir c) => of_value p = Ok c
  | MRequest _ (ReqGetIndex c) => of_value p = Ok c | MRequest _ (ReqGetIndexAt c) => of_value p = Ok c
  | MRequest _ (ReqGetBlock c) => of_value p = Ok c | MRequest _ (ReqGetBaseDir c) => of_value p = Ok c
  | MResponse _ (RespAppendDir c) => of_value p = Ok c | MResponse _ (RespReplaceDir c) => of_value p = Ok c
  | MResponse _ (RespGetIndex c) => of_value p = Ok c | MResponse _ (RespGetIndexAt c) => of_value p = Ok c
  | MResponse _ (RespGetBlock c) => of_value p = Ok c | MResponse _ (RespGetBaseDir c) => of_value p = Ok c
  | MResponse _ (RespError c) => of_value p = Ok c
  | MNotification (NPublishImage c) => of_value p = Ok c | MNotification (NReceivedImage c) => of_value p = Ok c
  | MNotification (NAbortedImage c) => of_value p = Ok c
  end.

(** The elements before the payload. *)
Definition header (m : Message) : list Value :=
  match m with
  | MRequest id r => [VU64 REQUEST; VStr (request_type_name (request_type r)); VU64 id]
  | MResponse id r => [VU64 RESPONSE; VStr (response_type_name (response_type r)); VU64 id]
  | MNotification n => [VU64 NOTIFICATION; VStr (notification_type_name (notification_type n))]
  end.

Ltac visit_inv Hv :=
  repeat match type of Hv with
  | st_bind _ _ _ = _ => st_inv Hv
  | st_ret _ _ = _ => injection Hv as <- <-
  end;
  repeat match goal with
  | Hr : st_bind _ _ _ = (Ok _, _) |- _ => st_inv Hr
  | Hr : st_ret _ _ = (Ok _, _) |- _ => injection Hr as <- <-
  | Hr : required _ _ _ = (Ok _, _) |- _ => apply required_inv in Hr as (? & -> & ?)
  end.

Lemma visit_request_inv vs m rest :
  visit_request vs = (Ok m, rest) -> exists p, VU64 REQUEST :: vs = header m ++ p :: rest /\ payload_decodes m p.
Proof.
  unfold visit_request. intros Hv. st_inv Hv. st_inv Hv. st_inv Hv.
  apply required_inv in Hrun as (v1 & -> & E1%request_type_inv).
  apply required_inv in Hrun0 as (v2 & -> & E2%de_u64_inv). subst.
  destruct a; visit_inv Hv; eexists; (split; [reflexivity|done]).
Qed.

Lemma visit_response_inv vs m rest :
  visit_response vs = (Ok m, rest) -> exists p, VU64 RESPONSE :: vs = header m ++ p :: rest /\ payload_decodes m p.
Proof.
  unfold visit_response. intros Hv. st_inv Hv. st_inv Hv. st_inv Hv.
  apply required_inv in Hrun as (v1 & -> & E1%response_type_inv).
  apply required_inv in Hrun0 as (v2 & -> & E2%de_u64_inv). subst.
  destruct a as [[]|]; visit_inv Hv; eexists; (split; [reflexivity|done]).
Qed.

Lemma visit_notification_inv vs n rest :
  visit_notification vs = (Ok n, rest) ->
  exists p, VU64 NOTIFICATION :: vs = header (MNotification n) ++ p :: rest /\ payload_decodes (MNotification n) p.
Proof.
  unfold visit_notification. intros Hv. st_inv Hv.
  apply required_inv in Hrun as (v1 & -> & E1%notification_type_inv). subst.
  destruct a; visit_inv Hv; eexists; (split; [reflexivity|done]).
Qed.

Lemma message_visit_seq_inv vs m rest :
  message_visit_seq vs = (Ok m, rest) -> exists p, vs = header m ++ p :: rest /\ payload_decodes m p.
Proof.
  unfold message_visit_seq. intros Hv. st_inv Hv.
  unfold next_element in Hrun. destruct vs as [|v vs]; [by injection Hrun as <- <-|].
  destruct (de_u8 v) as [k| |] eqn:Ek; [|done|done]. injection Hrun as <- <-. apply de_u8_inv in Ek as ->.
  repeat case_decide; subst; [|by apply visit_request_inv|by apply visit_response_inv|done].
  st_inv Hv. injection Hv as <- <-. by apply visit_notification_inv.
Qed.

(** *** No panic *)

Definition no_panic {A} (m : SeqM A) : Prop := forall vs, fst (m vs) <> Panic.

Lemma no_panic_bind {A B} (f : A -> SeqM B) (m : SeqM A) :
  no_panic m -> (forall a, no_panic (f a)) -> no_panic (st_bind f m).
Proof.
  intros Hm Hf vs. unfold st_bind. specialize (Hm vs). destruct (m vs) as [[a|e|] vs']; [apply Hf|done|done].
Qed.
Lemma no_panic_ret {A} (a : A) : no_panic (st_ret a).
Proof. done. Qed.
Lemma no_panic_required {A} n (de : Value -> DeRes A) :
  (forall v, de v <> Panic) -> no_panic (required n de).
Proof.
  intros Hd vs. unfold required, next_element. destruct vs as [|v vs]; [done|].
  specialize (Hd v). by destruct (de v).
Qed.

(** What the generated payload decoders are relied on for. *)
Definition total {A} `{Wire A} : Prop := forall v, of_value (A := A) v <> Panic.

Hypothesis (T1 : total (A := AppendDir)) (T2 : total (A := ReplaceDir)) (T3 : total (A := GetIndex))
  (T4 : total (A := GetIndexAt)) (T5 : total (A := GetBlock)) (T6 : total (A := GetBaseDir))
  (T7 : total (A := AppendDirAck)) (T8 : total (A := ReplaceDirAck)) (T9 : total (A := GetIndexResponse))
  (T10 : total (A := GetIndexAtResponse)) (T11 : total (A := GetBlockResponse))
  (T12 : total (A := GetBaseDirResponse)) (T13 : total (A := string)) (T14 : total (A := PublishImage))
  (T15 : total (A := ReceivedImage)) (T16 : total (A := AbortedImage)).

Lemma type_visitors_total v :
  drive request_type_visitor v <> Panic /\ drive response_type_visitor v <> Panic /\
  drive notification_type_visitor v <> Panic /\ de_u64 v <> Panic.
Proof. destruct v; cbn; repeat case_decide; split_and!; done. Qed.

Ltac no_panic_step :=
  first [apply no_panic_ret | apply no_panic_required; first [assumption | intros; apply type_visitors_total]
        | apply no_panic_bind; [|intros ?]].

Lemma message_visit_seq_total : no_panic message_visit_seq.
Proof.
  unfold message_visit_seq. apply no_panic_bind.
  - intros [|v vs]; [done|]. cbn. destruct v; cbn; try done. by case_decide.
  - intros [k|]; [|done]. unfold visit_notification, visit_request, visit_response.
    repeat case_decide; try done; repeat no_panic_step; try (destruct a as [[]|] || destruct a);
      repeat no_panic_step.
Qed.
End Frames.

(** ** Properties *)


Definition dummy_wire {A} : Wire A := {| to_value _ := VNull; of_value _ := Err InvalidType |}.
#[local] Instance string_wire : Wire string :=
  {| to_value s := VStr s; of_value v := match v with VStr s => Ok s | _ => Err InvalidType end |}.


