(* ===== verification/Registry.v ===== *)
(** * Requests in flight: [src/proto/request.rs] and the dispatcher of
    [src/proto/client.rs]

    One connection: the queue of things to send (an unbounded channel), the
    registry of requests that wait for a response, and the one-shot channels
    whose receiving ends are the [RequestFuture]s.  A dropped sender of a
    one-shot channel cancels its future; this is how a request fails.  The
    request counter is a [u64] and wraps around. *)
From S2P Require Import Prelude Serde VirtualPath Ids Time Signature Commands Wire.
Local Open Scope Z_scope.

(** [Box<WrapTrait>]: the four implementations.  A channel is named by a
    number. *)
Inductive Wrap :=
| RequestWrap (request : Request) (chan : option nat)
| NotificationWrap (data : Notification)
| ResponseWrap (request_id : Z) (data : Response)
| ErrorWrap (request_id : Z) (error : string).

Definition is_request (w : Wrap) : bool := match w with RequestWrap _ _ => true | _ => false end.
Definition wrap_chan (w : Wrap) : option nat := match w with RequestWrap _ c => c | _ => None end.

(** A one-shot channel: waiting, completed, cancelled because its sender was
    dropped, or abandoned because its [RequestFuture] was. *)
Inductive Oneshot := Waiting | Delivered (r : Response) | Canceled | Gone.
#[export] Instance Oneshot_inhabited : Inhabited Oneshot := populate Waiting.

(** [queue] is [None] once the receiving end is gone. *)
Record Conn := {
  queue : option (list Wrap);
  requests : gmap Z Wrap;
  last_request_id : Z;
  chans : gmap nat Oneshot;
  next_chan : nat;
  sent : list Value
}.

(** [Registry::new] and [Sender::channel]. *)
Definition conn_new : Conn :=
  {| queue := Some []; requests := ∅; last_request_id := 0; chans := ∅; next_chan := 0; sent := [] |}.

(** [OneShot::send] and the drop of its sender. *)
Definition chan_send (c : nat) (r : Response) (chans : gmap nat Oneshot) : gmap nat Oneshot :=
  match chans !! c with Some Waiting => <[c := Delivered r]> chans | _ => chans end.
Definition chan_drop (c : nat) (chans : gmap nat Oneshot) : gmap nat Oneshot :=
  match chans !! c with Some Waiting => <[c := Canceled]> chans | _ => chans end.
Definition wrap_drop (w : Wrap) (chans : gmap nat Oneshot) : gmap nat Oneshot :=
  match wrap_chan w with Some c => chan_drop c chans | None => chans end.

Definition with_chans (f : gmap nat Oneshot -> gmap nat Oneshot) (s : Conn) : Conn :=
  {| queue := queue s; requests := requests s; last_request_id := last_request_id s; chans := f (chans s);
     next_chan := next_chan s; sent := sent s |}.

(** [unbounded_send]: a failed send drops the box. *)
Definition enqueue (w : Wrap) (s : Conn) : Conn :=
  match queue s with
  | Some q => {| queue := Some (q ++ [w]); requests := requests s; last_request_id := last_request_id s;
                 chans := chans s; next_chan := next_chan s; sent := sent s |}
  | None => with_chans (wrap_drop w) s
  end.

(** [RequestClient::request]. *)
Definition request (r : Request) (s : Conn) : nat * Conn :=
  let c := next_chan s in
  (c, enqueue (RequestWrap r (Some c))
        {| queue := queue s; requests := requests s; last_request_id := last_request_id s;
           chans := <[c := Waiting]> (chans s); next_chan := S c; sent := sent s |}).

(** [Sender::notification], [Sender::response], [Sender::error_response]. *)
Definition notification (n : Notification) (s : Conn) : Conn := enqueue (NotificationWrap n) s.
Definition response (request_id : Z) (data : Response) (s : Conn) : Conn :=
  enqueue (ResponseWrap request_id data) s.
Definition error_response (request_id : Z) (e : string) (s : Conn) : Conn :=
  enqueue (ErrorWrap request_id e) s.

Definition get_size (s : Conn) : nat := size (requests s).

(** [while reg.requests.contains_key(&reg.last_request_id) { += 1 }]. *)
Fixpoint find_id (fuel : nat) (reqs : gmap Z Wrap) (id : Z) : option Z :=
  match fuel with
  | O => None
  | S fuel' => if decide (is_Some (reqs !! id)) then find_id fuel' reqs (wrap64 (id + 1)) else Some id
  end.

Section Frames.
Context `{Wire AppendDir} `{Wire ReplaceDir} `{Wire GetIndex} `{Wire GetIndexAt} `{Wire GetBlock} `{Wire GetBaseDir}.
Context `{Wire AppendDirAck} `{Wire ReplaceDirAck} `{Wire GetIndexResponse} `{Wire GetIndexAtResponse}
        `{Wire GetBlockResponse} `{Wire GetBaseDirResponse} `{Wire string}.
Context `{Wire PublishImage} `{Wire ReceivedImage} `{Wire AbortedImage}.

(** [WrapTrait::serialize]; [None] is [unreachable!()]. *)
Definition wrap_serialize (w : Wrap) : option Value :=
  match w with
  | RequestWrap _ _ => None
  | NotificationWrap n => Some (serialize_notification n)
  | ResponseWrap id r => Some (serialize_resp id r)
  | ErrorWrap id e => Some (serialize_resp id (RespError e))
  end.

(** What [PacketStream::poll] answers. *)
Inductive Polled := PReady (packet : Value) | PEnd | PNotReady.

(** [PacketStream::poll]; [None] is a panic or a search that does not end. *)
Definition poll (s : Conn) : option (Polled * Conn) :=
  match queue s with
  | None => Some (PEnd, s)
  | Some [] => Some (PNotReady, s)
  | Some (val :: q) =>
      match val with
      | RequestWrap req _ =>
          r_id ← find_id (S (size (requests s))) (requests s) (wrap64 (last_request_id s + 1));
          let packet := serialize_req r_id req in
          Some (PReady packet,
                {| queue := Some q; requests := <[r_id := val]> (requests s); last_request_id := r_id;
                   chans := chans s; next_chan := next_chan s; sent := sent s ++ [packet] |})
      | _ =>
          packet ← wrap_serialize val;
          Some (PReady packet,
                {| queue := Some q; requests := requests s; last_request_id := last_request_id s;
                   chans := chans s; next_chan := next_chan s; sent := sent s ++ [packet] |})
      end
  end.
End Frames.

(** [Registry::remove]. *)
Definition remove (request_id : Z) (s : Conn) : option Wrap * Conn :=
  (requests s !! request_id,
   {| queue := queue s; requests := delete request_id (requests s); last_request_id := last_request_id s;
      chans := chans s; next_chan := next_chan s; sent := sent s |}).

(** [respond::<T>]: the entry of a request of the type [t] is completed, an
    entry of another type is dropped; [None] is the panic of [unwrap]. *)
Definition respond_typed (t : RequestType) (request_id : Z) (value : Response) (s : Conn) : option Conn :=
  let '(r, s') := remove request_id s in
  match r with
  | Some (RequestWrap req chan) =>
      if decide (request_type req = t) then
        c ← chan; Some (with_chans (chan_send c value) s')
      else Some (with_chans (wrap_drop (RequestWrap req chan)) s')
  | Some w => Some (with_chans (wrap_drop w) s')
  | None => Some s'
  end.

(** [respond_error]; [send_error] is [unreachable!()] for what is not a
    request. *)
Definition respond_error (request_id : Z) (s : Conn) : option Conn :=
  let '(r, s') := remove request_id s in
  match r with
  | Some (RequestWrap _ chan) => c ← chan; Some (with_chans (chan_drop c) s')
  | Some _ => None
  | None => Some s'
  end.

(** [RequestDispatcher::respond]. *)
Definition respond (request_id : Z) (resp : Response) (s : Conn) : option Conn :=
  match response_type resp with
  | RtRequest t => respond_typed t request_id resp s
  | RtError => respond_error request_id s
  end.

(** The drop of a [RequestFuture]. *)
Definition drop_future (c : nat) (s : Conn) : Conn :=
  with_chans (fun chans => match chans !! c with Some _ => <[c := Gone]> chans | None => chans end) s.

(** The end of the connection: the queue and the registry are dropped with
    everything in them. *)
Definition wraps (s : Conn) : list Wrap := default [] (queue s) ++ map snd (map_to_list (requests s)).
Definition close (s : Conn) : Conn :=
  {| queue := None; requests := ∅; last_request_id := last_request_id s;
     chans := foldr wrap_drop (chans s) (wraps s); next_chan := next_chan s; sent := sent s |}.

(** ** The dispatcher of a client: [MyDispatcher::frame] *)

(** What a frame makes the client do; [read_index] and [read_block] answer
    through a future. *)
Inductive ClientEffect :=
| SpawnReadIndex (req_id : Z) (id : ImageId.ImageId)
| SpawnReadBlock (req_id : Z) (hash : BlockHash.BlockHash)
| Notified (n : Notification)
| BadFrame.

Definition client_message (m : DeRes Message) (s : Conn) : option (Conn * list ClientEffect) :=
  match m with
  | Ok (MRequest req_id (ReqGetIndex idx)) => Some (s, [SpawnReadIndex req_id (gi_id idx)])
  | Ok (MRequest req_id (ReqGetBlock req)) => Some (s, [SpawnReadBlock req_id (gb_hash req)])
  | Ok (MRequest _ _) => None (* [unimplemented!()] *)
  | Ok (MResponse request_id resp) => s' ← respond request_id resp s; Some (s', [])
  | Ok (MNotification n) => Some (s, [Notified n])
  | Err _ => Some (s, [BadFrame])
  | Panic => None
  end.

(** The continuations of the two futures. *)
Definition index_read (req_id : Z) (res : option bytes) (s : Conn) : Conn :=
  match res with
  | Some data => response req_id (RespGetIndex {| gir_data := data |}) s
  | None => error_response req_id "IndexNotFound" s
  end.
Definition block_read (req_id : Z) (res : option bytes) (s : Conn) : Conn :=
  match res with
  | Some data => response req_id (RespGetBlock {| gbr_data := data |}) s
  | None => error_response req_id "CantReadBlock" s
  end.

(** ** Lemmas *)

Lemma wrap64_range z : 0 <= wrap64 z < u64_modulus.
Proof. apply Z.mod_pos_bound. done. Qed.

Lemma wrap64_add_1 z i : wrap64 (wrap64 (z + i) + 1) = wrap64 (z + (i + 1)).
Proof. unfold wrap64. rewrite Zplus_mod_idemp_l. f_equal. lia. Qed.

Lemma find_id_none fuel reqs z :
  find_id fuel reqs (wrap64 z) = None -> forall i : nat, (i < fuel)%nat -> is_Some (reqs !! wrap64 (z + Z.of_nat i)).
Proof.
  revert z. induction fuel as [|fuel IH]; intros z; cbn [find_id]; [lia|]. case_decide as Hd; [|done].
  intros Hn [|i] Hi; [by rewrite Z.add_0_r|].
  replace (wrap64 (wrap64 z + 1)) with (wrap64 (z + 1)) in Hn
    by (unfold wrap64; by rewrite Zplus_mod_idemp_l).
  specialize (IH _ Hn i ltac:(lia)). by replace (z + Z.of_nat (S i)) with (z + 1 + Z.of_nat i) by lia.
Qed.

Lemma find_id_some fuel reqs z id :
  0 <= z < u64_modulus -> find_id fuel reqs z = Some id -> reqs !! id = None /\ 0 <= id < u64_modulus.
Proof.
  revert z. induction fuel as [|fuel IH]; intros z Hz; cbn [find_id]; [done|]. case_decide as Hd.
  - apply IH, wrap64_range.
  - intros [= <-]. split; [by apply eq_None_not_Some|done].
Qed.

(** [size + 1] consecutive ids cannot all be taken. *)
Lemma find_id_total reqs z :
  Z.of_nat (size reqs) < u64_modulus -> exists id, find_id (S (size reqs)) reqs (wrap64 z) = Some id.
Proof.
  intros Hs. destruct (find_id _ _ _) as [id|] eqn:E; [by exists id|]. exfalso.
  pose proof (find_id_none _ _ _ E) as Hn.
  set (ids := map (fun i : nat => wrap64 (z + Z.of_nat i)) (seq 0 (S (size reqs)))).
  assert (Hnd : NoDup ids).
  { apply NoDup_fmap_2_strong; [|apply NoDup_seq]. intros i j Hi%elem_of_seq Hj%elem_of_seq Heq.
    unfold wrap64 in Heq. unfold u64_modulus in *.
    rewrite (Z.mod_eq (z + Z.of_nat i)), (Z.mod_eq (z + Z.of_nat j)) in Heq by done. lia. }
  assert (Hsub : list_to_set (C := gset Z) ids ⊆ dom reqs).
  { intros i Hi. apply elem_of_list_to_set, list_elem_of_fmap in Hi as (j & -> & Hj%elem_of_seq).
    apply elem_of_dom, Hn. lia. }
  apply subseteq_size in Hsub. rewrite size_list_to_set, size_dom in Hsub by done.
  unfold ids in Hsub. rewrite length_map, length_seq in Hsub. lia.
Qed.

(** The channels of the requests queued or registered. *)
Definition pending (s : Conn) : list nat := omap wrap_chan (wraps s).

Record conn_ok (s : Conn) : Prop := {
  ok_reqs : forall id w, requests s !! id = Some w ->
    0 <= id < u64_modulus /\ exists req c, w = RequestWrap req (Some c);
  ok_queue : forall q req o, queue s = Some q -> RequestWrap req o ∈ q -> is_Some o;
  ok_nodup : NoDup (pending s);
  ok_pending : forall c, c ∈ pending s -> chans s !! c = Some Waiting \/ chans s !! c = Some Gone;
  ok_waiting : forall c, chans s !! c = Some Waiting -> c ∈ pending s;
  ok_bound : forall c, is_Some (chans s !! c) -> (c < next_chan s)%nat;
  ok_last : 0 <= last_request_id s < u64_modulus
}.

Lemma conn_new_ok : conn_ok conn_new.
Proof.
  split; cbn [conn_new requests queue chans next_chan last_request_id]; try done.
  - intros q req o [= <-] ?%not_elem_of_nil. done.
  - apply NoDup_nil_2.
  - by intros c ?%not_elem_of_nil.
  - intros c. rewrite lookup_empty. by intros [].
Qed.

Lemma pending_queue q reqs l ch n st :
  pending {| queue := q; requests := reqs; last_request_id := l; chans := ch; next_chan := n; sent := st |} =
  omap wrap_chan (default [] q) ++ omap wrap_chan (map snd (map_to_list reqs)).
Proof. unfold pending, wraps. by rewrite omap_app. Qed.

Lemma pending_insert (reqs : gmap Z Wrap) id w :
  reqs !! id = None ->
  omap wrap_chan (map snd (map_to_list (<[id := w]> reqs))) ≡ₚ
  option_list (wrap_chan w) ++ omap wrap_chan (map snd (map_to_list reqs)).
Proof.
  intros Hn. rewrite (map_to_list_insert reqs id w Hn). simpl. by destruct (wrap_chan w).
Qed.

Lemma pending_delete (reqs : gmap Z Wrap) id w :
  reqs !! id = Some w ->
  omap wrap_chan (map snd (map_to_list reqs)) ≡ₚ
  option_list (wrap_chan w) ++ omap wrap_chan (map snd (map_to_list (delete id reqs))).
Proof.
  intros Hs. rewrite <- pending_insert by apply lookup_delete_eq. by rewrite insert_delete_id.
Qed.

(** A state that differs in the order of what is pending only. *)
Lemma conn_ok_perm s s' :
  conn_ok s -> pending s' ≡ₚ pending s -> chans s' = chans s -> next_chan s' = next_chan s ->
  (forall id w, requests s' !! id = Some w -> 0 <= id < u64_modulus /\ exists req c, w = RequestWrap req (Some c)) ->
  (forall q req o, queue s' = Some q -> RequestWrap req o ∈ q -> is_Some o) ->
  0 <= last_request_id s' < u64_modulus -> conn_ok s'.
Proof.
  intros Hok Hp Hc Hn Hr Hq Hl. split; try done.
  - rewrite Hp. apply Hok.
  - intros c. rewrite Hp, Hc. apply Hok.
  - intros c. rewrite Hp, Hc. apply Hok.
  - intros c. rewrite Hc, Hn. apply Hok.
Qed.

(** Completing or cancelling the channel of an entry that is removed. *)
Definition settles (c : nat) (f : gmap nat Oneshot -> gmap nat Oneshot) : Prop :=
  forall ch, (forall c', c' <> c -> f ch !! c' = ch !! c') /\
    f ch !! c <> Some Waiting /\
    (forall o, ch !! c = Some o -> o <> Waiting -> f ch !! c = Some o) /\
    (ch !! c = None -> f ch !! c = None).

Lemma settles_send c r : settles c (chan_send c r).
Proof.
  intros ch. unfold chan_send. split_and!.
  - intros c' Hc. destruct (ch !! c) as [[]|]; try done. by rewrite lookup_insert_ne.
  - destruct (ch !! c) as [[]|] eqn:E; try by rewrite E. by rewrite lookup_insert_eq.
  - intros o Ho Hw. rewrite Ho. by destruct o.
  - intros Hn. by rewrite Hn.
Qed.
Lemma settles_drop c : settles c (chan_drop c).
Proof.
  intros ch. unfold chan_drop. split_and!.
  - intros c' Hc. destruct (ch !! c) as [[]|]; try done. by rewrite lookup_insert_ne.
  - destruct (ch !! c) as [[]|] eqn:E; try by rewrite E. by rewrite lookup_insert_eq.
  - intros o Ho Hw. rewrite Ho. by destruct o.
  - intros Hn. by rewrite Hn.
Qed.

Lemma conn_ok_settle s id req c f :
  conn_ok s -> requests s !! id = Some (RequestWrap req (Some c)) -> settles c f ->
  conn_ok (with_chans f (snd (remove id s))).
Proof.
  intros Hok Hreq Hf. pose proof (Hf (chans s)) as (F1 & F2 & F3 & F4).
  assert (Hp : pending s ≡ₚ c :: pending (with_chans f (snd (remove id s)))).
  { unfold with_chans. cbn [remove snd queue requests last_request_id next_chan sent chans].
    destruct s as [q rs l ch n st]. rewrite !pending_queue. cbn [requests] in *.
    rewrite (pending_delete _ _ _ Hreq). simpl. by rewrite Permutation_middle. }
  pose proof (ok_nodup _ Hok) as Hnd. rewrite Hp in Hnd. apply NoDup_cons in Hnd as [Hnin Hnd].
  split; cbn [with_chans remove snd requests queue chans next_chan last_request_id].
  - intros i w. rewrite lookup_delete. case_decide; [done|]. apply Hok.
  - apply Hok.
  - done.
  - intros c' Hc'. assert (c' <> c) by (by intros ->). rewrite F1 by done. apply Hok. rewrite Hp. by constructor.
  - intros c' Hc'. destruct (decide (c' = c)) as [->|Hne]; [done|]. rewrite F1 in Hc' by done.
    apply Hok in Hc'. rewrite Hp in Hc'. by apply elem_of_cons in Hc' as [?|?].
  - intros c' Hc'. destruct (decide (c' = c)) as [->|Hne]; [|rewrite F1 in Hc' by done; by apply Hok].
    apply Hok. destruct (chans s !! c) eqn:E; [eauto|]. rewrite F4 in Hc' by done. by destruct Hc'.
  - apply Hok.
Qed.

Lemma remove_absent id s : requests s !! id = None -> requests (snd (remove id s)) = requests s.
Proof. intros Hn. simpl. by apply delete_id. Qed.

Lemma respond_ok id resp s :
  conn_ok s ->
  exists s', respond id resp s = Some s' /\ conn_ok s' /\
    match requests s !! id with
    | None => chans s' = chans s /\ requests s' = requests s
    | Some w => exists req c, w = RequestWrap req (Some c) /\ requests s' = delete id (requests s) /\
        chans s' = (if decide (response_type resp = RtRequest (request_type req))
                    then chan_send c resp (chans s) else chan_drop c (chans s))
    end.
Proof.
  intros Hok. unfold respond, respond_typed, respond_error. cbn [remove].
  destruct (requests s !! id) as [w|] eqn:E.
  - destruct (ok_reqs _ Hok _ _ E) as (_ & req & c & ->).
    destruct (response_type resp) as [t|].
    + case_decide as Ht; cbn [mbind option_bind].
      * eexists. split; [done|]. split; [apply (conn_ok_settle s id req c); [done..|apply settles_send]|].
        exists req, c. split_and!; try done. subst t. by rewrite decide_True.
      * eexists. split; [done|]. split; [apply (conn_ok_settle s id req c (chan_drop c)); [done..|apply settles_drop]|].
        exists req, c. split_and!; try done. by rewrite decide_False by congruence.
    + cbn [mbind option_bind]. eexists. split; [done|].
      split; [apply (conn_ok_settle s id req c (chan_drop c)); [done..|apply settles_drop]|].
      exists req, c. split_and!; try done. 
  - assert (Hs : snd (remove id s) = s).
    { cbn [remove snd]. rewrite delete_id by done. by destruct s. }
    destruct (response_type resp); (eexists; split; [reflexivity|]); cbn [remove snd] in Hs; rewrite Hs; done.
Qed.

Lemma enqueue_ok w s :
  conn_ok s -> wrap_chan w = None -> is_request w = false -> conn_ok (enqueue w s).
Proof.
  intros Hok Hw Hr. unfold enqueue. destruct (queue s) as [q|] eqn:Eq.
  - apply (conn_ok_perm s); try done; try apply Hok.
    + destruct s as [q' rs l ch n st]. rewrite !pending_queue. cbn [queue] in Eq. subst q'. simpl.
      rewrite omap_app. simpl. rewrite Hw. by rewrite app_nil_r.
    + intros q' req o [= <-] [Hin|Hin%list_elem_of_singleton]%elem_of_app; [by eapply Hok|by subst w].
  - unfold with_chans, wrap_drop. rewrite Hw. by destruct s.
Qed.

Lemma request_ok r s : conn_ok s -> conn_ok (snd (request r s)).
Proof.
  intros Hok. unfold request. cbn [snd]. unfold enqueue. cbn [queue].
  assert (Hfresh : chans s !! next_chan s = None).
  { destruct (chans s !! next_chan s) eqn:E; [|done].
    pose proof (ok_bound _ Hok (next_chan s) ltac:(eauto)). lia. }
  assert (Hnp : next_chan s ∉ pending s).
  { intros Hp. apply Hok in Hp. rewrite Hfresh in Hp. naive_solver. }
  destruct (queue s) as [q|] eqn:Eq.
  - set (s' := {| queue := _ |}).
    assert (Hp : pending s' ≡ₚ next_chan s :: pending s).
    { unfold s'. destruct s as [q' rs l ch n st]. cbn [queue] in Eq. subst q'. rewrite !pending_queue. simpl.
      rewrite omap_app. simpl. rewrite <- app_assoc. simpl. symmetry. apply Permutation_middle. }
    split; cbn [s' requests queue chans next_chan last_request_id].
    + apply Hok.
    + intros q' req o [= <-] [Hin|Hin%list_elem_of_singleton]%elem_of_app; [by eapply Hok|].
      injection Hin as _ ->. eauto.
    + rewrite Hp. constructor; [done|apply Hok].
    + intros c. rewrite Hp. intros [Hc|Hc]%elem_of_cons; [subst c; rewrite lookup_insert_eq; by left|].
      rewrite lookup_insert_ne by (intros Heq; by subst c). by apply Hok.
    + intros c. rewrite Hp, lookup_insert, elem_of_cons. case_decide; [auto|]. intros Hc. right. by apply Hok.
    + intros c. rewrite lookup_insert. case_decide; [lia|]. intros Hc. apply Hok in Hc. lia.
    + apply Hok.
  - unfold with_chans, wrap_drop. cbn [wrap_chan chans].
    assert (Hch : chan_drop (next_chan s) (<[next_chan s := Waiting]> (chans s)) =
                  <[next_chan s := Canceled]> (chans s)).
    { unfold chan_drop. rewrite lookup_insert_eq. by rewrite insert_insert_eq. }
    set (s' := {| queue := _ |}).
    assert (Hp : pending s' = pending s).
    { unfold s'. destruct s as [q' rs l ch n st]. cbn [queue] in Eq. subst q'. by rewrite !pending_queue. }
    split; cbn [s' requests queue chans next_chan last_request_id]; rewrite ?Hch.
    + apply Hok.
    + rewrite <- Eq. apply Hok.
    + rewrite Hp. apply Hok.
    + intros c. rewrite Hp. intros Hc. rewrite lookup_insert_ne by (intros Heq; by subst c). by apply Hok.
    + intros c. rewrite Hp, lookup_insert. case_decide; [done|]. apply Hok.
    + intros c. rewrite lookup_insert. case_decide; [lia|]. intros Hc. apply Hok in Hc. lia.
    + apply Hok.
Qed.

Section Steps.
Context `{Wire AppendDir} `{Wire ReplaceDir} `{Wire GetIndex} `{Wire GetIndexAt} `{Wire GetBlock} `{Wire GetBaseDir}.
Context `{Wire AppendDirAck} `{Wire ReplaceDirAck} `{Wire GetIndexResponse} `{Wire GetIndexAtResponse}
        `{Wire GetBlockResponse} `{Wire GetBaseDirResponse} `{Wire string}.
Context `{Wire PublishImage} `{Wire ReceivedImage} `{Wire AbortedImage}.

Lemma poll_ok s :
  conn_ok s -> Z.of_nat (size (requests s)) < u64_modulus ->
  exists p s', poll s = Some (p, s') /\ conn_ok s' /\ chans s' = chans s /\
    match queue s with
    | Some (RequestWrap req (Some c) :: q) =>
        exists id, 0 <= id < u64_modulus /\ requests s !! id = None /\
          p = PReady (serialize_req id req) /\ sent s' = sent s ++ [serialize_req id req] /\
          requests s' = <[id := RequestWrap req (Some c)]> (requests s) /\ queue s' = Some q
    | _ => requests s' = requests s
    end.
Proof.
  intros Hok Hsz. unfold poll. destruct (queue s) as [[|w q]|] eqn:Eq.
  - eexists _, _. split; [done|]. done.
  - destruct w as [req o|n|id r|id e]; cbn [wrap_serialize mbind option_bind].
    2-4: (eexists _, _; split; [done|]; split; [|done]; apply (conn_ok_perm s); try done; try apply Hok;
      [destruct s as [q' rs l ch nx st]; cbn [queue] in Eq; subst q'; by rewrite !pending_queue
      |intros q' req o [= <-] Hin; eapply Hok; [exact Eq|by constructor]]).
    destruct (ok_queue _ Hok _ req o Eq ltac:(constructor)) as [c ->].
    destruct (find_id_total (requests s) (last_request_id s + 1) Hsz) as [id Hid]. rewrite Hid.
    cbn [mbind option_bind]. apply find_id_some in Hid as [Hfree Hr]; [|apply wrap64_range].
    eexists _, _. split; [done|]. split; [|split; [done|]; exists id; split_and!; done || lia].
    apply (conn_ok_perm s); try done.
    + destruct s as [q' rs l ch nx st]. cbn [queue requests] in *. subst q'. rewrite !pending_queue.
      rewrite pending_insert by done. simpl. by rewrite Permutation_middle.
    + cbn [requests]. intros i w. rewrite lookup_insert. case_decide; [|apply Hok].
      subst i. intros [= <-]. eauto.
    + cbn [queue]. intros q' req' o [= <-] Hin. eapply Hok; [exact Eq|by constructor].
  - eexists _, _. split; [done|]. done.
Qed.

Lemma drop_future_ok c s : conn_ok s -> conn_ok (drop_future c s).
Proof.
  intros Hok. unfold drop_future, with_chans.
  assert (Hp : forall f, pending {| queue := queue s; requests := requests s; last_request_id := last_request_id s;
    chans := f; next_chan := next_chan s; sent := sent s |} = pending s) by (intros; by destruct s).
  split; rewrite ?Hp; cbn [queue requests last_request_id chans next_chan]; try apply Hok.
  - intros c' Hc'. pose proof (ok_pending _ Hok c' Hc').
    destruct (chans s !! c) eqn:E; [|done]. rewrite lookup_insert. case_decide; [auto|done].
  - intros c'. destruct (chans s !! c) eqn:E; [|apply Hok]. rewrite lookup_insert.
    case_decide; [done|]. apply Hok.
  - intros c'. destruct (chans s !! c) eqn:E; [|apply Hok]. rewrite lookup_insert.
    case_decide; [subst c'; intros _; apply Hok; eauto|apply Hok].
Qed.

Lemma drop_all_spec ws (ch : gmap nat Oneshot) c :
  foldr wrap_drop ch ws !! c =
  match ch !! c with
  | Some Waiting => if decide (c ∈ omap wrap_chan ws) then Some Canceled else Some Waiting
  | o => o
  end.
Proof.
  induction ws as [|w ws IH]; cbn [foldr].
  - by destruct (ch !! c) as [[]|].
  - set (m := foldr wrap_drop ch ws) in *. unfold wrap_drop. cbn [omap list_omap]. destruct (wrap_chan w) as [c'|]; [|exact IH].
    unfold chan_drop. destruct (decide (c = c')) as [<-|Hne].
    + rewrite IH. destruct (ch !! c) as [[]|] eqn:E; try done.
      rewrite (decide_True (P := c ∈ c :: _)) by constructor.
      case_decide; [done|by rewrite lookup_insert_eq].
    + assert (Hl : forall m' : gmap nat Oneshot, match m' !! c' with Some Waiting => <[c' := Canceled]> m' | _ => m' end !! c = m' !! c).
      { intros m'. destruct (m' !! c') as [[]|]; try done. by rewrite lookup_insert_ne. }
      rewrite Hl, IH. destruct (ch !! c) as [[]|]; try done.
      repeat case_decide; set_solver.
Qed.

Lemma close_ok s : conn_ok s -> conn_ok (close s) /\ forall c, chans (close s) !! c <> Some Waiting.
Proof.
  intros Hok.
  assert (Hw : forall c, chans (close s) !! c <> Some Waiting).
  { intros c. cbn [close chans]. rewrite drop_all_spec. destruct (chans s !! c) as [[]|] eqn:E; try done.
    apply Hok in E. by rewrite decide_True. }
  assert (Hp : pending (close s) = []) by by unfold close; rewrite pending_queue.
  split; [|done]. split; rewrite ?Hp; cbn [close requests queue next_chan last_request_id]; try done.
  - constructor.
  - by intros c ?%not_elem_of_nil.
  - intros c Hc. by apply Hw in Hc.
  - intros c Hc. apply Hok. cbn [close chans] in Hc. rewrite drop_all_spec in Hc.
    destruct (chans s !! c); [eauto|by destruct Hc].
  - apply Hok.
Qed.

(** One thing that happens to a connection. *)
Inductive step : Conn -> Conn -> Prop :=
| s_request r s c s' : request r s = (c, s') -> step s s'
| s_notification n s : step s (notification n s)
| s_response id r s : step s (response id r s)
| s_error id e s : step s (error_response id e s)
| s_poll s p s' : Z.of_nat (size (requests s)) < u64_modulus -> poll s = Some (p, s') -> step s s'
| s_respond id resp s s' : respond id resp s = Some s' -> step s s'
| s_drop c s : step s (drop_future c s)
| s_close s : step s (close s).

Definition reachable (s : Conn) : Prop := rtc step conn_new s.

Lemma step_ok s s' : conn_ok s -> step s s' -> conn_ok s'.
Proof.
  intros Hok Hs. destruct Hs as [r s c s' Hr|n s|id r s|id e s|s p s' Hsz Hp|id resp s s' Hr|c s|s].
  - change s' with (snd (c, s')). rewrite <- Hr. by apply request_ok.
  - by apply enqueue_ok.
  - by apply enqueue_ok.
  - by apply enqueue_ok.
  - destruct (poll_ok s Hok Hsz) as (p' & s1 & E & Hok' & _). rewrite E in Hp. by injection Hp as <- <-.
  - destruct (respond_ok id resp s Hok) as (s1 & E & Hok' & _). rewrite E in Hr. by injection Hr as <-.
  - by apply drop_future_ok.
  - by apply close_ok.
Qed.

Lemma reachable_ok s : reachable s -> conn_ok s.
Proof.
  assert (Hrtc : forall x y, rtc step x y -> conn_ok x -> conn_ok y).
  { induction 1; [done|]. eauto using step_ok. }
  intros Hr. eapply Hrtc; [exact Hr|apply conn_new_ok].
Qed.

(** A settled channel only changes when its future is dropped. *)
Lemma step_settled s s' c o :
  conn_ok s -> step s s' -> chans s !! c = Some o -> o <> Waiting ->
  chans s' !! c = Some o \/ chans s' !! c = Some Gone.
Proof.
  intros Hok Hs Hc Ho. pose proof (ok_bound _ Hok c ltac:(eauto)) as Hb.
  destruct Hs as [r s c' s' Hr|n s|id r s|id e s|s p s' Hsz Hp|id resp s s' Hr|c' s|s].
  - left. unfold request, enqueue in Hr. cbn [queue] in Hr. destruct (queue s); injection Hr as _ <-.
    + cbn [chans]. by rewrite lookup_insert_ne by lia.
    + cbn [with_chans chans wrap_drop wrap_chan]. unfold chan_drop. rewrite lookup_insert_eq.
      by rewrite !lookup_insert_ne by lia.
  - left. unfold notification, enqueue. by destruct (queue s).
  - left. unfold response, enqueue. by destruct (queue s).
  - left. unfold error_response, enqueue. by destruct (queue s).
  - left. destruct (poll_ok s Hok Hsz) as (p' & s1 & E & _ & Ech & _). rewrite E in Hp.
    injection Hp as <- <-. by rewrite Ech.
  - left. destruct (respond_ok id resp s Hok) as (s1 & E & _ & Hm). rewrite E in Hr. injection Hr as <-.
    destruct (requests s !! id) as [w|]; [|destruct Hm as [-> _]; done].
    destruct Hm as (req & c1 & _ & _ & ->). case_decide; unfold chan_send, chan_drop;
      (destruct (decide (c = c1)) as [<-|Hne];
       [rewrite Hc; by destruct o | destruct (chans s !! c1) as [[]|]; try done; by rewrite lookup_insert_ne]).
  - unfold drop_future, with_chans. cbn [chans]. destruct (chans s !! c') eqn:E; [|by left].
    rewrite lookup_insert. case_decide; auto.
  - left. cbn [close chans]. rewrite drop_all_spec, Hc. by destruct o.
Qed.
End Steps.

(** ** Properties *)

(** C18. No request is lost and none is answered twice: whatever is sent,
    received and dropped on a connection, in whatever order, a future that
    still waits has its request in exactly one place, the queue or the
    registry; nothing a peer answers and nothing that is queued makes the
    dispatcher panic or the search for a free request id run forever (fewer
    than 2^64 requests being in flight); and a future that has its response or
    its cancellation keeps it. *)
Theorem registry_exactly_once `{Wire AppendDir} `{Wire ReplaceDir} `{Wire GetIndex} `{Wire GetIndexAt}
    `{Wire GetBlock} `{Wire GetBaseDir} `{Wire AppendDirAck} `{Wire ReplaceDirAck} `{Wire GetIndexResponse}
    `{Wire GetIndexAtResponse} `{Wire GetBlockResponse} `{Wire GetBaseDirResponse} `{Wire string}
    `{Wire PublishImage} `{Wire ReceivedImage} `{Wire AbortedImage} (s : Conn) :
  reachable s ->
  NoDup (pending s) /\
  (forall c, chans s !! c = Some Waiting <-> c ∈ pending s /\ chans s !! c <> Some Gone) /\
  (forall id resp, is_Some (respond id resp s)) /\
  (Z.of_nat (size (requests s)) < u64_modulus -> is_Some (poll s)) /\
  (forall s' c o, step s s' -> chans s !! c = Some o -> o <> Waiting ->
     chans s' !! c = Some o \/ chans s' !! c = Some Gone).
Proof.
  intros Hr. pose proof (reachable_ok s Hr) as Hok. split_and!.
  - apply Hok.
  - intros c. split.
    + intros Hc. split; [by apply Hok|congruence].
    + intros [Hp Hg]. destruct (ok_pending _ Hok c Hp); done.
  - intros id resp. destruct (respond_ok id resp s Hok) as (s' & -> & _). eauto.
  - intros Hs. destruct (poll_ok s Hok Hs) as (p & s' & -> & _). eauto.
  - intros s' c o. by apply step_settled.
Qed.

(** A response reaches the request it answers: polling a queued request
    sends it with an id no other request in flight has; the response with that
    id and the type of the request then completes exactly the channel of that
    request, a response of another type and an error cancel it, and in every
    case the id is free again and no other channel changes.  A response to an
    unknown id changes nothing. *)
Theorem response_routing `{Wire AppendDir} `{Wire ReplaceDir} `{Wire GetIndex} `{Wire GetIndexAt}
    `{Wire GetBlock} `{Wire GetBaseDir} `{Wire AppendDirAck} `{Wire ReplaceDirAck} `{Wire GetIndexResponse}
    `{Wire GetIndexAtResponse} `{Wire GetBlockResponse} `{Wire GetBaseDirResponse} `{Wire string}
    `{Wire PublishImage} `{Wire ReceivedImage} `{Wire AbortedImage} (s : Conn) req c q :
  reachable s -> Z.of_nat (size (requests s)) < u64_modulus ->
  queue s = Some (RequestWrap req (Some c) :: q) -> chans s !! c = Some Waiting ->
  exists id s1, poll s = Some (PReady (serialize_req id req), s1) /\ requests s !! id = None /\
    (forall resp, exists s2, respond id resp s1 = Some s2 /\ requests s2 = requests s /\
       chans s2 !! c = Some (if decide (response_type resp = RtRequest (request_type req))
                             then Delivered resp else Canceled) /\
       (forall c', c' <> c -> chans s2 !! c' = chans s !! c')) /\
    (forall id' resp, requests s1 !! id' = None ->
       exists s2, respond id' resp s1 = Some s2 /\ chans s2 = chans s1 /\ requests s2 = requests s1).
Proof.
  intros Hr Hsz Hq Hc. pose proof (reachable_ok s Hr) as Hok.
  destruct (poll_ok s Hok Hsz) as (p & s1 & Hp & Hok1 & Hch & Hm). rewrite Hq in Hm.
  destruct Hm as (id & _ & Hfree & -> & _ & Hreqs & _). exists id, s1. split; [done|]. split; [done|]. split.
  - intros resp. destruct (respond_ok id resp s1 Hok1) as (s2 & Hs2 & _ & Hm).
    rewrite Hreqs, lookup_insert_eq in Hm. destruct Hm as (req' & c1 & [= <- <-] & Hd & Hc2).
    exists s2. split; [done|]. split; [by rewrite Hd, delete_insert_id|].
    rewrite Hc2, Hch. case_decide; unfold chan_send, chan_drop; rewrite Hc;
      (split; [by rewrite lookup_insert_eq|intros c' Hne; by rewrite lookup_insert_ne]).
  - intros id' resp Hn. destruct (respond_ok id' resp s1 Hok1) as (s2 & Hs2 & _ & Hm). rewrite Hn in Hm.
    exists s2. by destruct Hm.
Qed.

#[local] Existing Instance dummy_wire.
Definition example_request : Request := ReqGetIndexAt {| gia_path := VPath.of_names "k" ["a"]%string |}.
Definition example_conn : Conn := snd (request example_request conn_new).
Lemma example_reachable : reachable example_conn.
Proof. apply rtc_once. by apply (s_request example_request conn_new 0). Qed.

Lemma registry_exactly_once_witness :
  chans example_conn !! 0%nat = Some Waiting /\ (0%nat ∈ pending example_conn) /\ is_Some (poll example_conn).
Proof.
  destruct (registry_exactly_once example_conn example_reachable) as (_ & Hw & _ & Hp & _).
  assert (H0 : chans example_conn !! 0%nat = Some Waiting) by reflexivity.
  split; [exact H0|]. split; [by apply Hw|]. by apply Hp.
Defined.

Lemma response_routing_witness :
  exists id s1 s2, poll example_conn = Some (PReady (serialize_req id example_request), s1) /\
    respond id (RespGetIndexAt {| giar_data := None; giar_hosts := ∅ |}) s1 = Some s2 /\
    chans s2 !! 0%nat = Some (Delivered (RespGetIndexAt {| giar_data := None; giar_hosts := ∅ |})).
Proof.
  destruct (response_routing example_conn example_request 0 [] example_reachable) as (id & s1 & Hp & _ & Hr & _);
    [done..|].
  destruct (Hr (RespGetIndexAt {| giar_data := None; giar_hosts := ∅ |})) as (s2 & Hs2 & _ & Hc & _).
  exists id, s1, s2. split; [exact Hp|]. split; [exact Hs2|exact Hc].
Defined.
