(* ===== verification/Remote.v ===== *)
(** * Connections of a server: [src/daemon/remote/mod.rs], [websocket.rs] and
    [outgoing.rs]

    A [Connection] is a shared object ([Arc]): it is a number here, and the
    objects are in the store [conns].  [Remote] keeps the tables of incoming and
    outgoing connections and of the images that clients declared; a [Token] is
    held by the task of a connection, and its drop takes the connection out of
    the tables.  Each connection has the queue and the request registry of
    [Registry].  The lock of the tables is taken for one step at a time.
    Iteration over a [HashSet] is [elements]. *)
From S2P Require Import Prelude Serde VirtualPath Ids Time Commands Wire Registry Peers.
Import VPath ImageId.

(** ** State *)

(** [struct ConnectionState].  [c_accepted] tells the two constructors apart;
    it is used in statements only. *)
Record ConnState := {
  c_addr : SocketAddr;
  c_connected : bool;
  c_images : gset ImageId;
  c_watches : gset VPath;
  c_wire : Conn;
  c_accepted : bool
}.

(** [struct Connections] and the fields of [RemoteState]; [tokens] are the
    tokens that exist, [next_conn] is [CONNECTION_ID]. *)
Record Remote := {
  hostname : string;
  machine_id : MachineId.MachineId;
  conns : gmap nat ConnState;
  next_conn : nat;
  incoming : gset nat;
  outgoing : gmap SocketAddr nat;
  failures : Failures SocketAddr DefaultPolicy;
  declared_images : gmap ImageId (gset nat);
  tokens : gset nat
}.

Definition remote_new (my_hostname : string) (my_id : MachineId.MachineId) : Remote :=
  {| hostname := my_hostname; machine_id := my_id; conns := ∅; next_conn := 0; incoming := ∅; outgoing := ∅;
     failures := new_default; declared_images := ∅; tokens := ∅ |}.

Definition with_conns (f : gmap nat ConnState -> gmap nat ConnState) (r : Remote) : Remote :=
  {| hostname := hostname r; machine_id := machine_id r; conns := f (conns r); next_conn := next_conn r;
     incoming := incoming r; outgoing := outgoing r; failures := failures r;
     declared_images := declared_images r; tokens := tokens r |}.
Definition with_failures (f : Failures SocketAddr DefaultPolicy) (r : Remote) : Remote :=
  {| hostname := hostname r; machine_id := machine_id r; conns := conns r; next_conn := next_conn r;
     incoming := incoming r; outgoing := outgoing r; failures := f;
     declared_images := declared_images r; tokens := tokens r |}.

(** ** [websocket.rs] *)

(** [Connection::incoming]: its dispatcher is made at once. *)
Definition conn_incoming (addr : SocketAddr) : ConnState :=
  {| c_addr := addr; c_connected := true; c_images := ∅; c_watches := ∅; c_wire := conn_new; c_accepted := true |}.
Definition conn_outgoing (addr : SocketAddr) : ConnState :=
  {| c_addr := addr; c_connected := false; c_images := ∅; c_watches := ∅; c_wire := conn_new; c_accepted := false |}.
(** [Dispatcher::new]. *)
Definition set_connected (c : ConnState) : ConnState :=
  {| c_addr := c_addr c; c_connected := true; c_images := c_images c; c_watches := c_watches c;
     c_wire := c_wire c; c_accepted := c_accepted c |}.
Definition hanging_requests (c : ConnState) : nat := get_size (c_wire c).
Definition add_image (id : ImageId) (c : ConnState) : ConnState :=
  {| c_addr := c_addr c; c_connected := c_connected c; c_images := {[id]} ∪ c_images c; c_watches := c_watches c;
     c_wire := c_wire c; c_accepted := c_accepted c |}.
Definition add_watch (path : VPath) (c : ConnState) : ConnState :=
  {| c_addr := c_addr c; c_connected := c_connected c; c_images := c_images c; c_watches := {[path]} ∪ c_watches c;
     c_wire := c_wire c; c_accepted := c_accepted c |}.
Definition has_image (id : ImageId) (c : ConnState) : bool := bool_decide (id ∈ c_images c).
Definition has_watch (path : VPath) (c : ConnState) : bool := bool_decide (path ∈ c_watches c).
Definition on_wire (f : Conn -> Conn) (c : ConnState) : ConnState :=
  {| c_addr := c_addr c; c_connected := c_connected c; c_images := c_images c; c_watches := c_watches c;
     c_wire := f (c_wire c); c_accepted := c_accepted c |}.
Definition conn_notification (n : Notification) (c : ConnState) : ConnState := on_wire (notification n) c.

(** ** The tables *)

(** A new [Connection] object. *)
Definition allocate (c : ConnState) (r : Remote) : nat * Remote :=
  (next_conn r,
   {| hostname := hostname r; machine_id := machine_id r; conns := <[next_conn r := c]> (conns r);
      next_conn := S (next_conn r); incoming := incoming r; outgoing := outgoing r; failures := failures r;
      declared_images := declared_images r; tokens := tokens r |}).

(** The token of a connection that was registered. *)
Definition register_connection (cli : nat) (r : Remote) : Remote :=
  {| hostname := hostname r; machine_id := machine_id r; conns := conns r; next_conn := next_conn r;
     incoming := {[cli]} ∪ incoming r; outgoing := outgoing r; failures := failures r;
     declared_images := declared_images r; tokens := {[cli]} ∪ tokens r |}.

Definition get_incoming_connection_for_image (id : ImageId) (r : Remote) : option nat :=
  conns ← declared_images r !! id; head (elements conns).

Definition split_connected (now : Z) (inp : list SocketAddr) (r : Remote) : list nat * list SocketAddr :=
  (omap (fun sa => outgoing r !! sa) inp,
   filter (fun sa => outgoing r !! sa = None /\ can_try now sa (failures r) = true) inp).

(** The connection, and whether a task to connect it was started. *)
Definition ensure_connected (addr : SocketAddr) (r : Remote) : nat * bool * Remote :=
  match outgoing r !! addr with
  | Some conn => (conn, false, r)
  | None =>
      let (cli, r1) := allocate (conn_outgoing addr) r in
      (cli, true,
       {| hostname := hostname r1; machine_id := machine_id r1; conns := conns r1; next_conn := next_conn r1;
          incoming := incoming r1; outgoing := <[addr := cli]> (outgoing r1); failures := failures r1;
          declared_images := declared_images r1; tokens := {[cli]} ∪ tokens r1 |})
  end.

(** [outgoing.rs]: the handshake succeeded in time. *)
Definition established (cli : nat) (addr : SocketAddr) (r : Remote) : Remote :=
  with_conns (alter set_connected cli) (with_failures (reset addr (failures r)) r).

Definition get_watching (r : Remote) : gset VPath :=
  foldr (fun c res => from_option c_watches ∅ (conns r !! c) ∪ res) ∅ (elements (incoming r)).

(** The loop over the incoming connections. *)
Definition notify_conns (test : ConnState -> bool) (n : Notification) (r : Remote) : Remote :=
  with_conns
    (fun cs => foldl (fun cs c => alter (fun x => if test x then conn_notification n x else x) c cs) cs
                     (elements (incoming r))) r.

Definition received_image (id : ImageId) (path : VPath) (source : option Peer) (r : Remote) : Remote :=
  notify_conns (fun c => has_image id c || has_watch path c)
    (NReceivedImage {| ri_id := id; ri_hostname := from_option peer_hostname (hostname r) source;
                       ri_machine_id := from_option Peers.id (machine_id r) source;
                       ri_forwarded := bool_decide (is_Some source); ri_path := path |}) r.
Definition notify_received_image (id : ImageId) (path : VPath) (r : Remote) : Remote :=
  received_image id path None r.
Definition forward_notify_received_image (id : ImageId) (path : VPath) (peer : Peer) (r : Remote) : Remote :=
  received_image id path (Some peer) r.
Definition notify_aborted_image (id : ImageId) (path : VPath) (reason : string) (r : Remote) : Remote :=
  notify_conns (has_image id)
    (NAbortedImage {| ai_id := id; ai_hostname := hostname r; ai_machine_id := machine_id r;
                      ai_forwarded := false; ai_path := path; ai_reason := reason |}) r.

Definition has_image_source (id : ImageId) (r : Remote) : bool := bool_decide (is_Some (declared_images r !! id)).

(** ** [impl Drop for Token] *)

(** One image of a connection that is gone. *)
Definition undeclare (cli : nat) (declared : gmap ImageId (gset nat)) (img : ImageId) : gmap ImageId (gset nat) :=
  match declared !! img with
  | Some item =>
      let item' := item ∖ {[cli]} in
      if decide (size item' = 0%nat) then delete img declared else <[img := item']> declared
  | None => declared
  end.

Definition drop_token (t0 now : Z) (cli : nat) (r : Remote) : Remote :=
  match conns r !! cli with
  | None => r
  | Some c =>
      let was_incoming := bool_decide (cli ∈ incoming r) in
      {| hostname := hostname r; machine_id := machine_id r; conns := conns r; next_conn := next_conn r;
         incoming := incoming r ∖ {[cli]};
         outgoing := if decide (outgoing r !! c_addr c = Some cli) then delete (c_addr c) (outgoing r)
                     else outgoing r;
         failures := if (0 <? hanging_requests c)%nat || negb (c_connected c)
                     then add_failure t0 now (c_addr c) (failures r) else failures r;
         declared_images := if was_incoming
                            then foldl (undeclare cli) (declared_images r) (elements (c_images c))
                            else declared_images r;
         tokens := tokens r ∖ {[cli]} |}
  end.

(** ** Frames *)

(** A binary frame that decodes, and everything else. *)
Inductive Frame := FMessage (m : Wire.Message) | FBad.

(** What a request makes the tracking subsystem do: the call named after it,
    with a [Responder] of this id. *)
Definition Call : Type := Z * Request.

Definition frame (cli : nat) (f : Frame) (r : Remote) : option (Remote * option Call) :=
  match f with
  | FMessage (MRequest rid req) =>
      Some (match req with
            | ReqAppendDir ad => with_conns (alter (add_watch (ad_path ad)) cli) r
            | ReqReplaceDir ad => with_conns (alter (add_watch (rd_path ad)) cli) r
            | _ => r
            end, Some (rid, req))
  | FMessage (MResponse request_id resp) =>
      match conns r !! cli with
      | Some c =>
          w ← respond request_id resp (c_wire c);
          Some (with_conns (insert cli (on_wire (fun _ => w) c)) r, None)
      | None => Some (r, None)
      end
  | FMessage (MNotification (NPublishImage idx)) =>
      let r1 := with_conns (alter (add_image (pi_id idx)) cli) r in
      Some ({| hostname := hostname r1; machine_id := machine_id r1; conns := conns r1; next_conn := next_conn r1;
               incoming := incoming r1; outgoing := outgoing r1; failures := failures r1;
               declared_images :=
                 <[pi_id idx := {[cli]} ∪ default ∅ (declared_images r1 !! pi_id idx)]> (declared_images r1);
               tokens := tokens r1 |}, None)
  | FMessage (MNotification (NReceivedImage _)) => Some (r, None)
  | FMessage (MNotification (NAbortedImage _)) => Some (r, None)
  | FBad => Some (r, None)
  end.

(** [Responder]: the answer goes to the connection of the request. *)
Definition respond_now (cli : nat) (request_id : Z) (value : Response) (r : Remote) : Remote :=
  with_conns (alter (on_wire (response request_id value)) cli) r.
Definition error_now (cli : nat) (request_id : Z) (e : string) (r : Remote) : Remote :=
  with_conns (alter (on_wire (error_response request_id e)) cli) r.
Definition respond_with_future (cli : nat) (request_id : Z) (res : Response + string) (r : Remote) : Remote :=
  match res with
  | inl value => respond_now cli request_id value r
  | inr e => error_now cli request_id e r
  end.

(** A client is accepted: the caller makes the connection and registers it. *)
Definition accept (addr : SocketAddr) (r : Remote) : Remote :=
  let (cli, r1) := allocate (conn_incoming addr) r in register_connection cli r1.

(** ** Sequences of steps *)

Section Steps.
Context `{Wire AppendDir} `{Wire ReplaceDir} `{Wire GetIndex} `{Wire GetIndexAt} `{Wire GetBlock} `{Wire GetBaseDir}.
Context `{Wire AppendDirAck} `{Wire ReplaceDirAck} `{Wire GetIndexResponse} `{Wire GetIndexAtResponse}
  `{Wire GetBlockResponse} `{Wire GetBaseDirResponse} `{Wire string}.
Context `{Wire PublishImage} `{Wire ReceivedImage} `{Wire AbortedImage}.

(** Frames, handshakes and drops belong to a task that holds a token;
    [st_wire] is anything else that happens to the queue and the requests of a
    connection. *)
Inductive remote_step : Remote -> Remote -> Prop :=
| st_accept addr r : remote_step r (accept addr r)
| st_ensure addr r : remote_step r (snd (ensure_connected addr r))
| st_established cli addr c r :
    cli ∈ tokens r -> conns r !! cli = Some c -> c_addr c = addr -> remote_step r (established cli addr r)
| st_frame cli f r r' call : cli ∈ tokens r -> frame cli f r = Some (r', call) -> remote_step r r'
| st_drop t0 now cli r : cli ∈ tokens r -> remote_step r (drop_token t0 now cli r)
| st_received id path source r : remote_step r (received_image id path source r)
| st_aborted id path reason r : remote_step r (notify_aborted_image id path reason r)
| st_respond cli rid res r : remote_step r (respond_with_future cli rid res r)
| st_wire cli c w r :
    conns r !! cli = Some c -> Registry.step (c_wire c) w ->
    remote_step r (with_conns (insert cli (on_wire (fun _ => w) c)) r).

Record tables_ok (r : Remote) : Prop := {
  t_fresh : forall c, next_conn r <= c -> conns r !! c = None;
  t_tokens : forall c, c ∈ tokens r -> is_Some (conns r !! c);
  t_in : forall c, c ∈ incoming r <-> c ∈ tokens r /\ exists s, conns r !! c = Some s /\ c_accepted s = true;
  t_out : forall a c, outgoing r !! a = Some c <->
    c ∈ tokens r /\ exists s, conns r !! c = Some s /\ c_accepted s = false /\ c_addr s = a;
  t_declared : forall img S, declared_images r !! img = Some S ->
    S <> ∅ /\ forall c, c ∈ S -> exists s, conns r !! c = Some s /\ img ∈ c_images s /\
                                  (c_accepted s = true -> c ∈ tokens r);
  t_published : forall c s img, c ∈ tokens r -> conns r !! c = Some s -> img ∈ c_images s ->
    c ∈ default ∅ (declared_images r !! img);
  t_wire : forall c s, conns r !! c = Some s -> conn_ok (c_wire s)
}.

(** What a change of a connection object must keep for the tables. *)
Definition same_tables (x y : ConnState) : Prop :=
  c_addr x = c_addr y /\ c_images x = c_images y /\ c_accepted x = c_accepted y /\
  (conn_ok (c_wire x) -> conn_ok (c_wire y)).
Global Instance same_tables_refl : Reflexive same_tables.
Proof. by intros x. Qed.

Lemma tables_conns r r' :
  (forall c, match conns r !! c, conns r' !! c with
             | Some x, Some y => same_tables x y | None, None => True | _, _ => False end) ->
  next_conn r' = next_conn r -> incoming r' = incoming r -> outgoing r' = outgoing r ->
  declared_images r' = declared_images r -> tokens r' = tokens r -> tables_ok r -> tables_ok r'.
Proof.
  intros Hc Hn Hi Ho Hd Ht [].
  assert (Hto : forall c s, conns r !! c = Some s -> exists s', conns r' !! c = Some s' /\ same_tables s s').
  { intros c s Hs. specialize (Hc c). rewrite Hs in Hc. destruct (conns r' !! c); [eauto|done]. }
  assert (Hfrom : forall c s', conns r' !! c = Some s' -> exists s, conns r !! c = Some s /\ same_tables s s').
  { intros c s Hs. specialize (Hc c). rewrite Hs in Hc. destruct (conns r !! c); [eauto|done]. }
  split; rewrite ?Hn, ?Hi, ?Ho, ?Hd, ?Ht.
  - intros c Hle. specialize (t_fresh0 c Hle). specialize (Hc c). rewrite t_fresh0 in Hc. by destruct (conns r' !! c).
  - intros c Htk. destruct (t_tokens0 c Htk) as [s Hs]. destruct (Hto c s Hs) as (s' & Hs' & _). eauto.
  - intros c. rewrite t_in0. split; intros [Htk (s & Hs & Ha)]; (split; [done|]).
    + destruct (Hto c s Hs) as (s' & Hs' & _ & _ & E & _). exists s'. by rewrite <- E.
    + destruct (Hfrom c s Hs) as (s' & Hs' & _ & _ & E & _). exists s'. by rewrite E.
  - intros a c. rewrite t_out0. split; intros [Htk (s & Hs & Ha & Haddr)]; (split; [done|]).
    + destruct (Hto c s Hs) as (s' & Hs' & E1 & _ & E & _). exists s'. by rewrite <- E, <- E1.
    + destruct (Hfrom c s Hs) as (s' & Hs' & E1 & _ & E & _). exists s'. by rewrite E, E1.
  - intros img S HS. destruct (t_declared0 img S HS) as [Hne Hin]. split; [done|]. intros c HcS.
    destruct (Hin c HcS) as (s & Hs & Himg & Hacc). destruct (Hto c s Hs) as (s' & Hs' & _ & E2 & E & _).
    exists s'. by rewrite <- E, <- E2.
  - intros c s' img Htk Hs' Himg. destruct (Hfrom c s' Hs') as (s & Hs & _ & E2 & _). rewrite <- E2 in Himg. eauto.
  - intros c s' Hs'. destruct (Hfrom c s' Hs') as (s & Hs & _ & _ & _ & E). eauto.
Qed.

(** Changing one object. *)
Lemma tables_alter f cli r r' :
  (forall x, same_tables x (f x)) -> conns r' = alter f cli (conns r) ->
  next_conn r' = next_conn r -> incoming r' = incoming r -> outgoing r' = outgoing r ->
  declared_images r' = declared_images r -> tokens r' = tokens r -> tables_ok r -> tables_ok r'.
Proof.
  intros Hf Hc. apply tables_conns. intros c. rewrite Hc, lookup_alter.
  case_decide; subst; destruct (conns r !! _); cbn; done || apply Hf.
Qed.

Lemma on_wire_same f : (forall w, conn_ok w -> conn_ok (f w)) -> forall x, same_tables x (on_wire f x).
Proof. intros Hf x. split_and!; try done. apply Hf. Qed.

Lemma notification_same n : forall x, same_tables x (conn_notification n x).
Proof. apply on_wire_same. intros w Hw. by apply enqueue_ok. Qed.

(** What [notify_conns] does to every object. *)
Lemma notify_lookup (test : ConnState -> bool) n (l : list nat) (cs : gmap nat ConnState) c : NoDup l ->
  foldl (fun cs c => alter (fun x => if test x then conn_notification n x else x) c cs) cs l !! c =
  (if decide (c ∈ l) then (fun x => if test x then conn_notification n x else x) <$> cs !! c else cs !! c).
Proof.
  intros Hnd. revert cs. induction Hnd as [|x l Hx Hnd IH]; intros cs; cbn [foldl]; [done|].
  rewrite IH, lookup_alter. destruct (decide (x = c)) as [->|Hne].
  - rewrite (decide_False (P := c ∈ l)) by done. by rewrite decide_True by apply list_elem_of_here.
  - destruct (decide (c ∈ l)).
    + by rewrite decide_True by by apply list_elem_of_further.
    + rewrite decide_False; [done|]. set_solver.
Qed.

Lemma notify_conns_ok test n r : tables_ok r -> tables_ok (notify_conns test n r).
Proof.
  apply tables_conns; try done. intros c. unfold notify_conns, with_conns. cbn [conns].
  rewrite notify_lookup by apply NoDup_elements. case_decide; destruct (conns r !! c) as [x|]; cbn; try done.
  destruct (test x); [apply notification_same|done].
Qed.

Lemma undeclare_lookup cli l (declared : gmap ImageId (gset nat)) img : NoDup l ->
  foldl (undeclare cli) declared l !! img =
  (if decide (img ∈ l) then
     S ← declared !! img; if decide (size (S ∖ {[cli]}) = 0%nat) then None else Some (S ∖ {[cli]})
   else declared !! img).
Proof.
  intros Hnd. revert declared. induction Hnd as [|x l Hx Hnd IH]; intros declared; cbn [foldl]; [done|].
  rewrite IH. unfold undeclare at 1 2. destruct (decide (img = x)) as [->|Hne].
  - rewrite decide_False by done. rewrite decide_True by apply list_elem_of_here.
    destruct (declared !! x) as [S|] eqn:E; [|by rewrite E]. cbn.
    destruct (decide (size (S ∖ {[cli]}) = 0)); [by rewrite lookup_delete_eq|by rewrite lookup_insert_eq].
  - assert (E : forall S, declared !! x = Some S ->
      (if decide (size (S ∖ {[cli]}) = 0%nat) then delete x declared else <[x := S ∖ {[cli]}]> declared) !! img =
      declared !! img).
    { intros S _. destruct (decide (size (S ∖ {[cli]}) = 0)); [by rewrite lookup_delete_ne|by rewrite lookup_insert_ne]. }
    assert (E' : match declared !! x with
      | Some item => if decide (size (item ∖ {[cli]}) = 0%nat) then delete x declared
                     else <[x := item ∖ {[cli]}]> declared
      | None => declared end !! img = declared !! img).
    { destruct (declared !! x) as [S|] eqn:ES; [by apply E|done]. }
    rewrite E'. destruct (decide (img ∈ l)).
    + by rewrite decide_True by by apply list_elem_of_further.
    + rewrite decide_False; [done|]. set_solver.
Qed.

(** A new object does not disturb the old ones. *)
Lemma fresh_ne r c s : tables_ok r -> conns r !! c = Some s -> next_conn r <> c.
Proof. intros Hok Hs <-. rewrite (t_fresh _ Hok) in Hs; done. Qed.

Lemma fresh_token r : tables_ok r -> next_conn r ∉ tokens r.
Proof. intros Hok Ht. apply (t_tokens _ Hok) in Ht as [s Hs]. by rewrite (t_fresh _ Hok) in Hs. Qed.

(** Registering a new connection [x], as a client's or as an outgoing one. *)
Lemma tables_allocate x r r' :
  c_images x = ∅ -> c_wire x = conn_new ->
  (c_accepted x = false -> outgoing r !! c_addr x = None) ->
  conns r' = <[next_conn r := x]> (conns r) -> next_conn r' = S (next_conn r) ->
  incoming r' = (if c_accepted x then {[next_conn r]} ∪ incoming r else incoming r) ->
  outgoing r' = (if c_accepted x then outgoing r else <[c_addr x := next_conn r]> (outgoing r)) ->
  declared_images r' = declared_images r -> tokens r' = {[next_conn r]} ∪ tokens r ->
  tables_ok r -> tables_ok r'.
Proof.
  intros Himg Hw Hfree Hc Hn Hi Ho Hd Ht Hok.
  pose proof (fresh_token r Hok) as Hft. pose proof (fresh_ne r) as Hne.
  assert (Hold : forall c, c ∈ tokens r -> conns r' !! c = conns r !! c).
  { intros c Hct. rewrite Hc, lookup_insert_ne; [done|]. intros <-. done. }
  assert (Hnew : conns r' !! next_conn r = Some x) by (by rewrite Hc, lookup_insert_eq).
  split.
  - intros c Hle. rewrite Hn in Hle. rewrite Hc, lookup_insert_ne by lia. apply (t_fresh _ Hok). lia.
  - intros c. rewrite Ht, elem_of_union, elem_of_singleton. intros [->|Hct]; [eauto|].
    rewrite Hold by done. by apply (t_tokens _ Hok).
  - intros c. rewrite Hi, Ht, elem_of_union, elem_of_singleton. destruct (decide (c = next_conn r)) as [->|Hcn].
    + rewrite Hnew. destruct (c_accepted x) eqn:Ea.
      * split; [intros _; split; [by left|eauto]|intros _; set_solver].
      * split; [intros Hin%(t_in _ Hok); tauto|intros [_ (s & [= <-] & Hs)]; congruence].
    + assert (Hin : c ∈ incoming r' <-> c ∈ incoming r) by (rewrite Hi; destruct (c_accepted x); set_solver).
      rewrite <- Hi, Hin, (t_in _ Hok), Hc, lookup_insert_ne by done. naive_solver.
  - intros a c. rewrite Ho, Ht, elem_of_union, elem_of_singleton. destruct (decide (c = next_conn r)) as [->|Hcn].
    + rewrite Hnew. destruct (c_accepted x) eqn:Ea.
      * split; [intros Hin%(t_out _ Hok); tauto|intros [_ (s & [= <-] & Hs & _)]; congruence].
      * rewrite lookup_insert. case_decide as Hca.
        { subst a. split; [intros _; split; [by left|eauto]|done]. }
        split; [intros Hin%(t_out _ Hok); tauto|intros [_ (s & [= <-] & _ & ?)]; done].
    + rewrite Hc, lookup_insert_ne by done. destruct (c_accepted x) eqn:Ea.
      * rewrite (t_out _ Hok). naive_solver.
      * rewrite lookup_insert. case_decide as Hca.
        { subst a. split; [naive_solver|]. intros [[?|Hct] Hs]; [done|].
          assert (outgoing r !! c_addr x = Some c) by by apply (t_out _ Hok). rewrite Hfree in *; done. }
        rewrite (t_out _ Hok). naive_solver.
  - intros img S. rewrite Hd. intros HS. destruct (t_declared _ Hok _ _ HS) as [HS0 Hin]. split; [done|].
    intros c HcS. destruct (Hin c HcS) as (s & Hs & Himgs & Hacc). exists s.
    rewrite Hc, lookup_insert_ne by eauto. rewrite Ht. set_solver.
  - intros c s img. rewrite Hd, Ht, elem_of_union, elem_of_singleton. intros [->|Hct].
    + rewrite Hnew. intros [= <-]. rewrite Himg. set_solver.
    + rewrite Hold by done. by apply (t_published _ Hok).
  - intros c s. rewrite Hc, lookup_insert. case_decide.
    + intros [= <-]. rewrite Hw. apply conn_new_ok.
    + by apply (t_wire _ Hok).
Qed.

Lemma drop_token_ok t0 now cli r : cli ∈ tokens r -> tables_ok r -> tables_ok (drop_token t0 now cli r).
Proof.
  intros Hct Hok. unfold drop_token. destruct (t_tokens _ Hok _ Hct) as [x Hx]. rewrite Hx.
  assert (Hinc : bool_decide (cli ∈ incoming r) = c_accepted x).
  { apply Bool.eq_iff_eq_true. rewrite bool_decide_eq_true, (t_in _ Hok). split; [|eauto].
    intros [_ (s & Hs & Ha)]. congruence. }
  assert (Hdecl : forall img, (if bool_decide (cli ∈ incoming r)
      then foldl (undeclare cli) (declared_images r) (elements (c_images x)) else declared_images r) !! img =
    if decide (c_accepted x = true /\ img ∈ c_images x) then
      S ← declared_images r !! img; if decide (size (S ∖ {[cli]}) = 0) then None else Some (S ∖ {[cli]})
    else declared_images r !! img).
  { intros img. rewrite Hinc. destruct (c_accepted x).
    - rewrite undeclare_lookup by apply NoDup_elements.
      destruct (decide (img ∈ elements (c_images x))) as [He|He]; rewrite elem_of_elements in He;
        [by rewrite decide_True|by rewrite decide_False by naive_solver].
    - by rewrite decide_False by naive_solver. }
  split; cbn [conns next_conn incoming outgoing declared_images tokens].
  - apply (t_fresh _ Hok).
  - intros c Hc. apply (t_tokens _ Hok). set_solver.
  - intros c. rewrite elem_of_difference, (t_in _ Hok). set_solver.
  - intros a c. destruct (decide (outgoing r !! c_addr x = Some cli)) as [Ho|Ho].
    + rewrite lookup_delete. destruct (decide (c_addr x = a)) as [Ha|Ha].
      * subst a. split; [done|]. intros [Hc (s & Hs & Hacc & Haddr)].
        assert (Hoc : outgoing r !! c_addr x = Some c) by (apply (t_out _ Hok); set_solver).
        rewrite Ho in Hoc. injection Hoc as ->. set_solver.
      * rewrite (t_out _ Hok). split; [|set_solver]. intros [Hc Hs]. split; [|done].
        apply elem_of_difference. split; [done|]. intros ->%elem_of_singleton. naive_solver.
    + rewrite (t_out _ Hok). split; [|set_solver]. intros [Hc (s & Hs & Hacc & Haddr)]. split; [|eauto].
      apply elem_of_difference. split; [done|]. intros ->%elem_of_singleton. apply Ho, (t_out _ Hok).
      rewrite Hx in Hs. injection Hs as ->. eauto.
  - intros img S. rewrite Hdecl. clear Hdecl. destruct (decide (c_accepted x = true /\ img ∈ c_images x)) as [Hcase|Hcase].
    + intros (S0 & HS0 & HS)%bind_Some. destruct (decide (size (S0 ∖ {[cli]}) = 0)) as [Hsz|Hsz]; [done|]. injection HS as <-.
      destruct (t_declared _ Hok _ _ HS0) as [_ Hin]. split.
      * intros He. apply Hsz. rewrite He. apply size_empty.
      * intros c [Hc Hne]%elem_of_difference. destruct (Hin c Hc) as (s & Hs & Hi & Ha). exists s. set_solver.
    + intros HS. destruct (t_declared _ Hok _ _ HS) as [Hne Hin]. split; [done|]. intros c Hc.
      destruct (Hin c Hc) as (s & Hs & Hi & Ha). exists s. split_and!; [done|done|]. intros Hacc.
      apply elem_of_difference. split; [auto|]. intros ->%elem_of_singleton.
      rewrite Hx in Hs. injection Hs as ->. tauto.
  - intros c s img [Hc Hne]%elem_of_difference Hs Himg. rewrite Hdecl.
    clear Hdecl.
    pose proof (t_published _ Hok c s img Hc Hs Himg) as Hp.
    destruct (decide (c_accepted x = true /\ img ∈ c_images x)) as [Hcase|Hcase]; [|done].
    destruct (declared_images r !! img) as [S|]; cbn in *; [|done].
    destruct (decide (size (S ∖ {[cli]}) = 0)) as [Hsz|Hsz].
    + apply size_empty_inv in Hsz. set_solver.
    + cbn. set_solver.
  - apply (t_wire _ Hok).
Qed.

Lemma publish_ok cli img r r' : cli ∈ tokens r -> tables_ok r ->
  conns r' = alter (add_image img) cli (conns r) ->
  next_conn r' = next_conn r -> incoming r' = incoming r -> outgoing r' = outgoing r ->
  declared_images r' = <[img := {[cli]} ∪ default ∅ (declared_images r !! img)]> (declared_images r) ->
  tokens r' = tokens r -> tables_ok r'.
Proof.
  intros Hct Hok Hc Hn Hi Ho Hd Ht.
  assert (Hl : forall c, conns r' !! c = (if decide (cli = c) then add_image img <$> conns r !! c else conns r !! c)).
  { intros c. rewrite Hc, lookup_alter. destruct (decide (cli = c)); by subst. }
  split; rewrite ?Hn, ?Hi, ?Ho, ?Ht.
  - intros c Hle. rewrite Hl, (t_fresh _ Hok c Hle). by destruct (decide (cli = c)).
  - intros c Htk. rewrite Hl. destruct (t_tokens _ Hok c Htk) as [s ->]. destruct (decide (cli = c)); eauto.
  - intros c. rewrite Hl, (t_in _ Hok). destruct (decide (cli = c)); [|done]. destruct (conns r !! c) as [s|]; cbn; naive_solver.
  - intros a c. rewrite Hl, (t_out _ Hok). destruct (decide (cli = c)); [|done]. destruct (conns r !! c) as [s|]; cbn; naive_solver.
  - intros i S. rewrite Hd, lookup_insert. destruct (decide (img = i)) as [Hii|Hii].
    + subst i. intros [= <-]. split; [set_solver|]. intros c [Hcc|Hin]%elem_of_union.
      * apply elem_of_singleton in Hcc; subst c. destruct (t_tokens _ Hok cli Hct) as [s Hs]. exists (add_image img s). rewrite Hl, decide_True, Hs by done.
        split_and!; [done|cbn; set_solver|done].
      * destruct (declared_images r !! img) as [S|] eqn:ES; [|set_solver].
        destruct (t_declared _ Hok _ _ ES) as [_ HS]. destruct (HS c Hin) as (s & Hs & Hi' & Ha).
        rewrite Hl, Hs. destruct (decide (cli = c)); [exists (add_image img s)|exists s]; split_and!; try done. cbn. set_solver.
    + intros ES. destruct (t_declared _ Hok _ _ ES) as [Hne HS]. split; [done|]. intros c Hin.
      destruct (HS c Hin) as (s & Hs & Hi' & Ha). rewrite Hl, Hs.
      destruct (decide (cli = c)); [exists (add_image img s)|exists s]; split_and!; try done. cbn. set_solver.
  - intros c s i Htk. rewrite Hl, Hd, lookup_insert. intros Hs Hin.
    assert (Hold : forall s0, conns r !! c = Some s0 -> i ∈ c_images s0 -> c ∈ default ∅ (declared_images r !! i)).
    { intros s0 Hs0 Hi0. by eapply (t_published _ Hok). }
    destruct (decide (img = i)) as [Hii|Hii]; subst; cbn.
    + destruct (decide (cli = c)) as [->|]; [set_solver|]. specialize (Hold s Hs Hin). set_solver.
    + destruct (decide (cli = c)) as [->|]; [|eauto]. apply fmap_Some in Hs as (s0 & Hs0 & ->).
      eapply Hold; [done|]. cbn in Hin. set_solver.
  - intros c s. rewrite Hl. destruct (decide (cli = c)); [|by apply (t_wire _ Hok)]. intros (s0 & Hs0 & ->)%fmap_Some.
    by apply (t_wire _ Hok c s0).
Qed.

Lemma respond_future_ok cli rid res r : tables_ok r -> tables_ok (respond_with_future cli rid res r).
Proof.
  intros Hok. destruct res as [v|e];
    [eapply (tables_alter (on_wire (response rid v)) cli r)|eapply (tables_alter (on_wire (error_response rid e)) cli r)];
    try done; apply on_wire_same; intros w Hw; by apply enqueue_ok.
Qed.

Lemma frame_total cli f r : cli ∈ tokens r -> tables_ok r ->
  exists r' call, frame cli f r = Some (r', call) /\ tables_ok r'.
Proof.
  intros Hct Hok. destruct f as [[rid req|rid resp|[]]|]; cbn [frame].
  - eexists _, _. split; [done|].
    destruct req as [ad|ad| | | |]; try done; eapply (tables_alter (add_watch _) cli r); try done.
  - destruct (t_tokens _ Hok _ Hct) as [x Hx]. rewrite Hx.
    destruct (respond_ok rid resp (c_wire x) (t_wire _ Hok _ _ Hx)) as (w & Hr & Hw & _). rewrite Hr.
    eexists _, _. split; [done|]. apply (tables_conns r); [|done..]. intros c. cbn. rewrite lookup_insert.
    case_decide as Hc; [subst c; rewrite Hx; by split_and!|]. by destruct (conns r !! c).
  - eexists _, _. split; [done|]. by eapply publish_ok.
  - eauto.
  - eauto.
  - eauto.
Qed.

Lemma remote_step_ok r r' : remote_step r r' -> tables_ok r -> tables_ok r'.
Proof.
  intros Hs Hok. destruct Hs as [addr r|addr r|cli addr c r Ht Hc Ha|cli f r r' call Ht Hf|t0 now cli r Ht
    |id path source r|id path reason r|cli rid res r|cli c w r Hc Hw].
  - eapply (tables_allocate (conn_incoming addr) r); try done.
  - unfold ensure_connected. destruct (outgoing r !! addr) as [c|] eqn:E; [done|].
    eapply (tables_allocate (conn_outgoing addr) r); try done.
  - by apply (tables_alter set_connected cli r).
  - destruct (frame_total cli f r Ht Hok) as (r2 & call2 & E & Hok2). rewrite E in Hf. by injection Hf as <- _.
  - by apply drop_token_ok.
  - by apply notify_conns_ok.
  - by apply notify_conns_ok.
  - by apply respond_future_ok.
  - apply (tables_conns r); [|done..]. intros i. cbn. rewrite lookup_insert. case_decide as Hi.
    + subst i. rewrite Hc. split_and!; try done. intros Hcw. by eapply step_ok.
    + by destruct (conns r !! i).
Qed.

Lemma remote_new_ok h m : tables_ok (remote_new h m).
Proof.
  split; cbn; set_solver.
Qed.

Definition remote_reachable (r : Remote) : Prop := exists h m, rtc remote_step (remote_new h m) r.

Lemma remote_reachable_ok r : remote_reachable r -> tables_ok r.
Proof.
  intros (h & m & Hr). assert (Hall : forall x y, rtc remote_step x y -> tables_ok x -> tables_ok y).
  { induction 1; [done|]. eauto using remote_step_ok. }
  eapply Hall; [exact Hr|apply remote_new_ok].
Qed.
End Steps.

(** ** Properties *)

(** C25. The tables of connections agree with the connections that exist, whatever
    the clients, the peers and the network do: the connections with a running
    task are exactly the incoming and the outgoing ones, and none is both; an
    address has at most one outgoing connection and it goes there; an image
    published over a connection that is still there has a source; the source
    chosen for an image published it, and if a client did, it is still
    connected; no frame makes the dispatcher panic; and when the task of a
    connection ends, the connection is in no table and the others stay. *)
Theorem remote_tables `{Wire AppendDir} `{Wire ReplaceDir} `{Wire GetIndex} `{Wire GetIndexAt}
    `{Wire GetBlock} `{Wire GetBaseDir} `{Wire AppendDirAck} `{Wire ReplaceDirAck} `{Wire GetIndexResponse}
    `{Wire GetIndexAtResponse} `{Wire GetBlockResponse} `{Wire GetBaseDirResponse} `{Wire string}
    `{Wire PublishImage} `{Wire ReceivedImage} `{Wire AbortedImage} (r : Remote) :
  remote_reachable r ->
  (forall c, c ∈ tokens r <-> c ∈ incoming r \/ exists a, outgoing r !! a = Some c) /\
  (forall a c, outgoing r !! a = Some c -> c ∉ incoming r /\ exists s, conns r !! c = Some s /\ c_addr s = a) /\
  (forall c s img, c ∈ tokens r -> conns r !! c = Some s -> img ∈ c_images s -> has_image_source img r = true) /\
  (forall img, has_image_source img r = true ->
     exists c s, get_incoming_connection_for_image img r = Some c /\ conns r !! c = Some s /\ img ∈ c_images s /\
       (c_accepted s = true -> c ∈ incoming r)) /\
  (forall c f, c ∈ tokens r -> is_Some (frame c f r)) /\
  (forall t0 now c, c ∈ tokens r ->
     let r' := drop_token t0 now c r in
     tokens r' = tokens r ∖ {[c]} /\ incoming r' = incoming r ∖ {[c]} /\
     forall a d, outgoing r' !! a = Some d <-> outgoing r !! a = Some d /\ d <> c).
Proof.
  intros Hr. pose proof (remote_reachable_ok r Hr) as Hok. split_and!.
  - intros c. split.
    + intros Hc. destruct (t_tokens _ Hok _ Hc) as [s Hs]. destruct (c_accepted s) eqn:Ea.
      * left. apply (t_in _ Hok). eauto.
      * right. exists (c_addr s). apply (t_out _ Hok). eauto.
    + intros [Hc|[a Ha]]; [by apply (t_in _ Hok) in Hc as [? _]|by apply (t_out _ Hok) in Ha as [? _]].
  - intros a c (Hc & s & Hs & Ha & Haddr)%(t_out _ Hok). split; [|eauto].
    intros (_ & s' & Hs' & Ha')%(t_in _ Hok). congruence.
  - intros c s img Hc Hs Hi. unfold has_image_source. apply bool_decide_eq_true.
    pose proof (t_published _ Hok c s img Hc Hs Hi). destruct (declared_images r !! img); [eauto|set_solver].
  - intros img [S HS]%bool_decide_eq_true. destruct (t_declared _ Hok _ _ HS) as [Hne Hin].
    unfold get_incoming_connection_for_image. rewrite HS. cbn.
    destruct (elements S) as [|c l] eqn:El; [by apply elements_empty_inv, leibniz_equiv in El|].
    destruct (Hin c) as (s & Hs & Hi & Ha); [apply elem_of_elements; rewrite El; apply list_elem_of_here|].
    exists c, s. split_and!; [done|done|done|]. intros Hacc. apply (t_in _ Hok). eauto.
  - intros c f Hc. destruct (frame_total c f r Hc Hok) as (r' & call & -> & _). eauto.
  - intros t0 now c Hc. destruct (t_tokens _ Hok _ Hc) as [s Hs]. unfold drop_token. rewrite Hs. cbn.
    split_and!; [done|done|]. intros a d.
    destruct (decide (outgoing r !! c_addr s = Some c)) as [Ho|Ho].
    + rewrite lookup_delete. destruct (decide (c_addr s = a)) as [Ha|Ha].
      * subst a. rewrite Ho. split; [done|]. intros [[= ->] ?]. done.
      * split; [|tauto]. intros Had. split; [done|]. intros ->.
        apply (t_out _ Hok) in Had as (_ & s' & Hs' & _ & Ha'). congruence.
    + split; [|tauto]. intros Had. split; [done|]. intros ->. apply Ho.
      pose proof Had as (_ & s' & Hs' & _ & Ha')%(t_out _ Hok). congruence.
Qed.

(** Who is told about an image: exactly the incoming connections that published
    it or watch its path get one message more, at the end of their queue, with
    the name of the server that has it; nothing else changes. *)
Theorem received_image_notifies id path source (r : Remote) :
  let r' := received_image id path source r in
  incoming r' = incoming r /\ outgoing r' = outgoing r /\ declared_images r' = declared_images r /\
  forall c s, conns r !! c = Some s -> exists s', conns r' !! c = Some s' /\
    c_images s' = c_images s /\ c_watches s' = c_watches s /\
    c_wire s' = if bool_decide (c ∈ incoming r /\ (id ∈ c_images s \/ path ∈ c_watches s))
                then notification (NReceivedImage
                  {| ri_id := id; ri_path := path;
                     ri_machine_id := from_option Peers.id (machine_id r) source;
                     ri_hostname := from_option peer_hostname (hostname r) source;
                     ri_forwarded := bool_decide (is_Some source) |}) (c_wire s)
                else c_wire s.
Proof.
  intros r'. split_and!; [done..|]. intros c s Hs.
  unfold r', received_image, notify_conns, with_conns. cbn [conns].
  rewrite notify_lookup by apply NoDup_elements. rewrite Hs. unfold has_image, has_watch.
  destruct (decide (c ∈ elements (incoming r))) as [Hin|Hin]; rewrite elem_of_elements in Hin; cbn.
  - rewrite <- bool_decide_or. destruct (decide (id ∈ c_images s \/ path ∈ c_watches s)) as [Ho|Ho].
    + rewrite (bool_decide_eq_true_2 (id ∈ _ \/ _)), (bool_decide_eq_true_2 (c ∈ _ /\ _)) by done. by eexists.
    + rewrite (bool_decide_eq_false_2 (id ∈ _ \/ _)), (bool_decide_eq_false_2 (c ∈ _ /\ _)) by tauto. by eexists.
  - exists s. by rewrite bool_decide_eq_false_2 by tauto.
Qed.

(** ** Examples *)

Module Example.

Definition img : ImageId := from_slice [].
Definition client : SocketAddr := {| ip := 10; sport := 40000 |}.
Definition peer : SocketAddr := {| ip := 11; sport := 24783 |}.
Definition publish (cli : nat) (r : Remote) : Remote :=
  from_option fst r (frame cli (FMessage (MNotification (NPublishImage {| pi_id := img |}))) r).

(** A client publishes an image, another server is connected. *)
Definition r1 : Remote := accept client (remote_new "h" (MachineId.mk [])).
Definition r2 : Remote := publish 0 r1.
Definition r3 : Remote := snd (ensure_connected peer r2).

(** The image of a client is forgotten with it. *)
Lemma client_gone : has_image_source img r3 = true /\ has_image_source img (drop_token 0 0 0 r3) = false.
Proof. vm_compute. done. Qed.

(** An image published over an outgoing connection is never forgotten: the
    dead connection stays its source. *)
Lemma outgoing_source_leaks :
  let r := drop_token 0 0 0 (publish 0 (established 0 peer
             (snd (ensure_connected peer (remote_new "h" (MachineId.mk [])))))) in
  tokens r = ∅ /\ has_image_source img r = true /\ get_incoming_connection_for_image img r = Some 0.
Proof. vm_compute. done. Qed.

End Example.

#[local] Existing Instance dummy_wire.

Lemma remote_tables_witness :
  tokens Example.r3 = {[0; 1]} /\ (1 ∈ tokens Example.r3) /\
  (exists c s, get_incoming_connection_for_image Example.img Example.r3 = Some c /\
     conns Example.r3 !! c = Some s /\ (c_accepted s = true -> c ∈ incoming Example.r3)).
Proof.
  assert (Hr : remote_reachable Example.r3).
  { exists "h"%string, (MachineId.mk []).
    apply (rtc_l _ _ Example.r1); [apply st_accept|]. apply (rtc_l _ _ Example.r2).
    - apply (st_frame 0 (FMessage (MNotification (NPublishImage {| pi_id := Example.img |}))) _ _ None).
      + vm_compute. done.
      + reflexivity.
    - apply rtc_once. apply st_ensure. }
  destruct (remote_tables Example.r3 Hr) as (H1 & _ & _ & H4 & _).
  split; [reflexivity|]. split.
  - apply H1. right. exists Example.peer. reflexivity.
  - destruct (H4 Example.img) as (c & s & E1 & E2 & _ & E3); [reflexivity|].
    exists c, s. split; [exact E1|]. split; [exact E2|exact E3].
Defined.
