(* ===== verification/Upload.v ===== *)
(** * Progress of an upload: [src/cluster/upload.rs], [src/cluster/config.rs]

    The client keeps a book of what every server answered and decides from it
    whether the upload succeeded.  The book is behind a lock that every
    operation takes once.  [f32] arithmetic is that of [SpecFloat] with the
    precision of binary32. *)
From S2P Require Import Prelude Serde VirtualPath Ids Time Commands Peers.
From stdpp Require Import pretty.
From Stdlib Require Import Floats.SpecFloat.
Import VPath MachineId.
Local Open Scope Z_scope.

(** ** [f32] *)

Definition f32 : Set := spec_float.
Definition u32_as_f32 (n : Z) : f32 := binary_normalize 24 128 n 0 false.
Definition f32_mul (x y : f32) : f32 := SFmul 24 128 x y.
Definition usize_max : Z := u64_modulus - 1.
(** [x.ceil() as usize]: the cast saturates, and [NaN] is 0. *)
Definition f32_ceil_usize (x : f32) : Z :=
  match x with
  | S754_zero _ => 0
  | S754_infinity s => if s then 0 else usize_max
  | S754_nan => 0
  | S754_finite s m e =>
      let v := if s then Z.neg m else Z.pos m in
      let c := if decide (0 <= e) then v * 2 ^ e else - ((- v) / 2 ^ (- e)) in
      Z.max 0 (Z.min usize_max c)
  end.

(** ** [cluster/config.rs] *)

(** [struct Config]; durations in nanoseconds. *)
Record Config := {
  initial_connections : Z;
  port : Z;
  early_hosts : Z;
  early_fraction : f32;
  early_timeout : Z;
  maximum_timeout : Z
}.
(** The literal [0.75]. *)
Definition three_quarters : f32 := S754_finite false 12582912 (-24).
Definition config_new : Config :=
  {| initial_connections := 3; port := 24783; early_hosts := 3; early_fraction := three_quarters;
     early_timeout := 10 * nanos_per_sec; maximum_timeout := 30 * 60 * nanos_per_sec |}.
Definition early_upload (hosts : Z) (fraction : f32) (timeout : Z) (c : Config) : Config :=
  {| initial_connections := initial_connections c; port := port c; early_hosts := hosts;
     early_fraction := fraction; early_timeout := timeout; maximum_timeout := maximum_timeout c |}.

(** ** The book *)

Record Bookkeeping := {
  accepted_ips : gset SocketAddr;
  discovered_servers : gmap MachineId string;
  done_ips : gset SocketAddr;
  done_servers : gmap MachineId string;
  aborted_ips : gmap SocketAddr string;
  aborted_ids : gmap MachineId string;
  aborted_hostnames : gmap string string;
  rejected_no_config : gset SocketAddr;
  rejected_ips : gmap SocketAddr string
}.

Record Stats := {
  cluster_name : list string;
  started : Z;
  st_path : VPath;
  weak_errors : bool;
  book : Bookkeeping;
  total_responses : Z
}.

Definition empty_book : Bookkeeping :=
  {| discovered_servers := ∅; accepted_ips := ∅; done_ips := ∅; done_servers := ∅; aborted_ips := ∅;
     aborted_ids := ∅; aborted_hostnames := ∅; rejected_ips := ∅; rejected_no_config := ∅ |}.
Definition stats_new (now : Z) (name : list string) (path : VPath) (weak : bool) : Stats :=
  {| cluster_name := name; started := now; st_path := path; weak_errors := weak; book := empty_book;
     total_responses := 0 |}.

Definition with_book (b : Bookkeeping) (s : Stats) : Stats :=
  {| cluster_name := cluster_name s; started := started s; st_path := st_path s; weak_errors := weak_errors s;
     book := b; total_responses := total_responses s |}.
(** [self.total_responses.fetch_add(1)], which wraps around. *)
Definition count_response (new : bool) (s : Stats) : Stats :=
  {| cluster_name := cluster_name s; started := started s; st_path := st_path s; weak_errors := weak_errors s;
     book := book s; total_responses := if new then wrap64 (total_responses s + 1) else total_responses s |}.

Definition received_image (addr : SocketAddr) (info : ReceivedImage) (s : Stats) : Stats :=
  let b := book s in
  with_book
    {| accepted_ips := accepted_ips b;
       discovered_servers := <[ri_machine_id info := ri_hostname info]> (discovered_servers b);
       done_ips := if negb (ri_forwarded info) then {[addr]} ∪ done_ips b else done_ips b;
       done_servers := <[ri_machine_id info := ri_hostname info]> (done_servers b);
       aborted_ips := aborted_ips b; aborted_ids := aborted_ids b; aborted_hostnames := aborted_hostnames b;
       rejected_no_config := rejected_no_config b; rejected_ips := rejected_ips b |} s.

Definition aborted_image (addr : SocketAddr) (info : AbortedImage) (s : Stats) : Stats :=
  let b := book s in
  with_book
    {| accepted_ips := accepted_ips b; discovered_servers := discovered_servers b; done_ips := done_ips b;
       done_servers := done_servers b;
       aborted_ips := if negb (ai_forwarded info) then <[addr := ai_reason info]> (aborted_ips b)
                      else aborted_ips b;
       aborted_ids := <[ai_machine_id info := ai_reason info]> (aborted_ids b);
       aborted_hostnames := <[ai_hostname info := ai_reason info]> (aborted_hostnames b);
       rejected_no_config := rejected_no_config b; rejected_ips := rejected_ips b |} s.

Definition accept_ip (source : SocketAddr) (b : Bookkeeping) : Bookkeeping :=
  {| accepted_ips := {[source]} ∪ accepted_ips b; discovered_servers := discovered_servers b;
     done_ips := done_ips b; done_servers := done_servers b; aborted_ips := aborted_ips b;
     aborted_ids := aborted_ids b; aborted_hostnames := aborted_hostnames b;
     rejected_no_config := rejected_no_config b; rejected_ips := rejected_ips b |}.
Definition done_ip (source : SocketAddr) (b : Bookkeeping) : Bookkeeping :=
  {| accepted_ips := accepted_ips b; discovered_servers := discovered_servers b;
     done_ips := {[source]} ∪ done_ips b; done_servers := done_servers b; aborted_ips := aborted_ips b;
     aborted_ids := aborted_ids b; aborted_hostnames := aborted_hostnames b;
     rejected_no_config := rejected_no_config b; rejected_ips := rejected_ips b |}.
Definition no_config_ip (source : SocketAddr) (b : Bookkeeping) : Bookkeeping :=
  {| accepted_ips := accepted_ips b; discovered_servers := discovered_servers b; done_ips := done_ips b;
     done_servers := done_servers b; aborted_ips := aborted_ips b; aborted_ids := aborted_ids b;
     aborted_hostnames := aborted_hostnames b;
     rejected_no_config := {[source]} ∪ rejected_no_config b; rejected_ips := rejected_ips b |}.
Definition reject_ip (source : SocketAddr) (reason : string) (b : Bookkeeping) : Bookkeeping :=
  {| accepted_ips := accepted_ips b; discovered_servers := discovered_servers b; done_ips := done_ips b;
     done_servers := done_servers b; aborted_ips := aborted_ips b; aborted_ids := aborted_ids b;
     aborted_hostnames := aborted_hostnames b; rejected_no_config := rejected_no_config b;
     rejected_ips := <[source := reason]> (rejected_ips b) |}.
(** [for (id, val) in hosts { book.discovered_servers.insert(id, val); }]. *)
Definition discover_hosts (hosts : gmap MachineId string) (b : Bookkeeping) : Bookkeeping :=
  {| accepted_ips := accepted_ips b; discovered_servers := hosts ∪ discovered_servers b;
     done_ips := done_ips b; done_servers := done_servers b; aborted_ips := aborted_ips b;
     aborted_ids := aborted_ids b; aborted_hostnames := aborted_hostnames b;
     rejected_no_config := rejected_no_config b; rejected_ips := rejected_ips b |}.

Definition is_weak_reason (r : option string) : bool :=
  bool_decide (r = Some "already_exists")%string ||
  bool_decide (r = Some "already_uploading_different_version")%string.

(** [add_response]: the new state and what it returns. *)
Definition add_response (source : SocketAddr) (accepted : bool) (reject_reason : option string)
    (hosts : gmap MachineId string) (s : Stats) : bool * Stats :=
  let b := book s in
  let '(accepted', s') :=
    if negb accepted && is_weak_reason reject_reason && weak_errors s then
      (true, count_response (bool_decide (source ∉ accepted_ips b))
               (with_book (done_ip source (accept_ip source b)) s))
    else if negb accepted && bool_decide (reject_reason = Some "no_config")%string then
      (false, count_response (bool_decide (source ∉ rejected_no_config b)) (with_book (no_config_ip source b) s))
    else if negb accepted then
      (false, count_response (bool_decide (rejected_ips b !! source = None))
                (with_book (reject_ip source (default "unknown"%string reject_reason) b) s))
    else
      (true, count_response (bool_decide (source ∉ accepted_ips b)) (with_book (accept_ip source b) s)) in
  (accepted', with_book (discover_hosts hosts (book s')) s').

Definition is_rejected (addr : SocketAddr) (s : Stats) : bool :=
  bool_decide (is_Some (rejected_ips (book s) !! addr)) || bool_decide (addr ∈ rejected_no_config (book s)).

(** [discovered_num], a [u32]. *)
Definition u32_modulus : Z := 4294967296.
Definition discovered_num (b : Bookkeeping) : Z :=
  let explicit := Z.of_nat (size (discovered_servers b)) mod u32_modulus in
  if bool_decide (size (accepted_ips b) = 1%nat) && bool_decide (rejected_ips b = ∅) &&
     bool_decide (rejected_no_config b = ∅)
  then (explicit + 1) mod u32_modulus else explicit.

Definition is_superset (dn discovered : gmap MachineId string) : bool :=
  forallb (fun x => bool_decide (is_Some (dn !! x))) (map fst (map_to_list discovered)).

Inductive ErrorKind := DeadlineReached | Rejected.

(** The number of hosts that suffices after the early timeout. *)
Definition early_threshold (config : Config) (b : Bookkeeping) : Z :=
  let fract_hosts := f32_ceil_usize (f32_mul (u32_as_f32 (discovered_num b)) (early_fraction config)) in
  Z.min (discovered_num b) (Z.max (early_hosts config) fract_hosts).

(** [check]; [addrs] is [initial_addr.get().addresses_at(0)], [addr_done]
    [initial_addr.is_done()].  [Some (Ok tt)] is [UploadOk]. *)
Definition check (stats : Stats) (config : Config) (addr_done : bool) (addrs : list SocketAddr)
    (early_timeout_timed_out no_candidates : bool) : option (Res ErrorKind ()) :=
  let b := book stats in
  if bool_decide (accepted_ips b = ∅) && addr_done && no_candidates &&
     (bool_decide (rejected_ips b <> ∅) || bool_decide (rejected_no_config b <> ∅)) &&
     forallb (fun a => bool_decide (is_Some (rejected_ips b !! a)) ||
                       bool_decide (is_Some (aborted_ips b !! a)) ||
                       bool_decide (a ∈ rejected_no_config b)) addrs
  then Some (Err Rejected)
  else if early_timeout_timed_out then
    let hosts := early_threshold config b in
    if bool_decide (0 < hosts) && bool_decide (hosts <= Z.of_nat (size (done_servers b))) then
      if bool_decide (0 < size (rejected_ips b))%nat || bool_decide (0 < size (aborted_ids b))%nat
      then Some (Err Rejected) else Some (Ok tt)
    else None
  else if bool_decide (accepted_ips b ⊆ done_ips b) && is_superset (done_servers b) (discovered_servers b) &&
          bool_decide (0 < size (done_servers b))%nat then
    if bool_decide (0 < size (rejected_ips b))%nat || bool_decide (0 < size (aborted_ips b))%nat
    then Some (Err Rejected) else Some (Ok tt)
  else None.

(** ** Printing *)

Section Print.
(** [Display for SocketAddr] and the [{:.0}] format of an [f32]. *)
Context (show_addr : SocketAddr -> string) (show_f32_0 : f32 -> string) (f32_div : f32 -> f32 -> f32).
Local Open Scope string_scope.

Definition fmt_iter (items : list string) : string :=
  match items with
  | [] => ""
  | x :: xs => foldl (fun s item => s +:+ ", " +:+ item) x xs
  end.
Definition show_len (n : nat) : string := pretty n.

Definition fmt_downloaded (s : Stats) : string :=
  let b := book s in
  "fetched from " +:+
  (if decide (3 < size (done_servers b))%nat then show_len (size (done_servers b)) +:+ " hosts"
   else fmt_iter (map snd (map_to_list (done_servers b)))) +:+
  (if decide (size (done_servers b) < size (discovered_servers b))%nat
   then " (out of " +:+ show_len (size (discovered_servers b)) +:+ " hosts)" else "") +:+
  (if decide (rejected_ips b = ∅) then ""
   else ", rejected by " +:+ fmt_iter (map (fun e => show_addr (fst e) +:+ ": " +:+ snd e)
                                           (map_to_list (rejected_ips b)))) +:+
  (if decide (aborted_ids b = ∅) then ""
   else ", aborted by " +:+ fmt_iter (map (fun e => fst e +:+ ": " +:+ snd e)
                                          (map_to_list (aborted_hostnames b)))).

(** [Display for UploadName]. *)
Definition upload_name (s : Stats) : string :=
  match cluster_name s with
  | [n] => n
  | ns => "(" +:+ show_len (length ns) +:+ " hosts)"
  end +:+ ":" +:+ Path.render (path (st_path s)).

(** The servers named as left: at most three. *)
Definition servers_left (b : Bookkeeping) : list string :=
  take 3 (map snd (filter (fun e => done_servers b !! fst e = None) (map_to_list (discovered_servers b)))).

(** [Display for ProgressOneLiner]. *)
Definition progress_one_liner (s : Stats) : string :=
  let b := book s in
  let dn := (Z.of_nat (size (done_servers b)) mod u32_modulus)%Z in
  let disc := discovered_num b in
  let percent := if decide (0 < disc)%Z
                 then f32_mul (f32_div (u32_as_f32 dn) (u32_as_f32 disc)) (u32_as_f32 100)
                 else S754_zero false in
  "Progress of " +:+ upload_name s +:+ ": " +:+ show_f32_0 percent +:+ "%" +:+
  (if decide (rejected_ips b = ∅) then ""
   else ", rejected by " +:+ fmt_iter (map (fun e => show_addr (fst e) +:+ ": " +:+ snd e)
                                           (map_to_list (rejected_ips b)))) +:+
  (if decide (aborted_ids b = ∅) then ""
   else ", aborted by " +:+ fmt_iter (map (fun e => fst e +:+ ": " +:+ snd e)
                                          (map_to_list (aborted_hostnames b)))) +:+
  (if decide (dn < disc)%Z then
     ", " +:+ pretty (Z.to_N (disc - dn)) +:+ " servers left: " +:+ fmt_iter (servers_left b) +:+
     (if decide (Z.of_nat (length (servers_left b)) < disc - dn)%Z then "..." else "")
   else "").
End Print.

(** ** Lemmas *)

Lemma is_superset_iff dn discovered :
  is_superset dn discovered = true <-> dom discovered ⊆ dom dn.
Proof.
  unfold is_superset. rewrite forallb_forall. split.
  - intros Hall x Hx. apply elem_of_dom in Hx as [v Hv]. apply elem_of_dom.
    apply (bool_decide_eq_true (is_Some (dn !! x))), Hall, list_elem_of_In, list_elem_of_fmap.
    exists (x, v). split; [done|]. by apply elem_of_map_to_list.
  - intros Hsub x Hx%list_elem_of_In%list_elem_of_fmap. destruct Hx as ([y v] & -> & Hin%elem_of_map_to_list).
    apply bool_decide_eq_true. apply elem_of_dom, Hsub, elem_of_dom. eauto.
Qed.

(** What happens to the book of an upload. *)
Inductive Event :=
| EReceived (addr : SocketAddr) (info : ReceivedImage)
| EAborted (addr : SocketAddr) (info : AbortedImage)
| EResponse (source : SocketAddr) (accepted : bool) (reason : option string) (hosts : gmap MachineId string).

Definition apply_event (e : Event) (s : Stats) : Stats :=
  match e with
  | EReceived a i => received_image a i s
  | EAborted a i => aborted_image a i s
  | EResponse a acc r hosts => snd (add_response a acc r hosts s)
  end.

(** The responses counted and the relations between the tables. *)
Record stats_ok (s : Stats) : Prop := {
  so_total : total_responses s =
    wrap64 (Z.of_nat (size (accepted_ips (book s)) + size (rejected_no_config (book s)) + size (rejected_ips (book s))));
  so_discovered : dom (done_servers (book s)) ⊆ dom (discovered_servers (book s));
  so_weak : weak_errors s = true -> forall a r, rejected_ips (book s) !! a = Some r -> is_weak_reason (Some r) = false
}.

Lemma wrap64_succ (n : nat) : wrap64 (wrap64 (Z.of_nat n) + 1) = wrap64 (Z.of_nat (S n)).
Proof. unfold wrap64. rewrite Zplus_mod_idemp_l. f_equal. lia. Qed.

Lemma size_add {A} `{Countable A} (x : A) (X : gset A) :
  size ({[x]} ∪ X) = if bool_decide (x ∉ X) then S (size X) else size X.
Proof.
  case_bool_decide.
  - rewrite size_union by set_solver. by rewrite size_singleton.
  - by replace ({[x]} ∪ X) with X by set_solver.
Qed.

Lemma size_put {A} (k : SocketAddr) (v : A) (m : gmap SocketAddr A) :
  size (<[k := v]> m) = if bool_decide (m !! k = None) then S (size m) else size m.
Proof.
  case_bool_decide as Hk; [by rewrite map_size_insert_None|].
  apply map_size_insert_Some. by apply not_eq_None_Some.
Qed.

(** The branch [add_response] takes. *)
Inductive Verdict := VWeak | VNoConfig | VReject | VAccept.
Definition verdict (weak accepted : bool) (reason : option string) : Verdict :=
  if accepted then VAccept
  else if is_weak_reason reason && weak then VWeak
  else if bool_decide (reason = Some "no_config")%string then VNoConfig else VReject.

Lemma add_response_verdict a acc r hosts s :
  let b := book s in let s' := snd (add_response a acc r hosts s) in
  weak_errors s' = weak_errors s /\
  done_servers (book s') = done_servers b /\ discovered_servers (book s') = hosts ∪ discovered_servers b /\
  match verdict (weak_errors s) acc r with
  | VWeak | VAccept =>
      accepted_ips (book s') = {[a]} ∪ accepted_ips b /\ rejected_no_config (book s') = rejected_no_config b /\
      rejected_ips (book s') = rejected_ips b /\
      total_responses s' = total_responses (count_response (bool_decide (a ∉ accepted_ips b)) s)
  | VNoConfig =>
      accepted_ips (book s') = accepted_ips b /\ rejected_no_config (book s') = {[a]} ∪ rejected_no_config b /\
      rejected_ips (book s') = rejected_ips b /\
      total_responses s' = total_responses (count_response (bool_decide (a ∉ rejected_no_config b)) s)
  | VReject =>
      accepted_ips (book s') = accepted_ips b /\ rejected_no_config (book s') = rejected_no_config b /\
      rejected_ips (book s') = <[a := default "unknown"%string r]> (rejected_ips b) /\
      total_responses s' = total_responses (count_response (bool_decide (rejected_ips b !! a = None)) s)
  end.
Proof.
  unfold add_response, verdict. destruct acc; cbn [negb andb]; [done|].
  destruct (is_weak_reason r && weak_errors s); [done|].
  destruct (bool_decide (r = Some "no_config"%string)); done.
Qed.

Lemma count_response_total new n s :
  total_responses s = wrap64 (Z.of_nat n) ->
  total_responses (count_response new s) = wrap64 (Z.of_nat (if new then S n else n)).
Proof. intros Ht. destruct new; cbn [count_response total_responses]; [|done]. by rewrite Ht, wrap64_succ. Qed.

Lemma apply_event_ok e s : stats_ok s -> stats_ok (apply_event e s).
Proof.
  intros [Ht Hd Hw]. destruct e as [a i|a i|a acc r hosts]; cbn [apply_event].
  - split; try done. cbn. rewrite !dom_insert_L. set_solver.
  - done.
  - destruct (add_response_verdict a acc r hosts s) as (Ew & Edn & Edisc & Hv).
    set (s' := snd (add_response a acc r hosts s)) in *. split.
    + destruct (verdict _ acc r); destruct Hv as (-> & -> & -> & ->); rewrite (count_response_total _ _ _ Ht);
        rewrite ?size_add, ?size_put; case_bool_decide; do 2 f_equal; lia.
    + rewrite Edn, Edisc, dom_union_L. set_solver.
    + rewrite Ew. intros Hwe a' r'. unfold verdict in Hv. rewrite Hwe in Hv.
      destruct acc; [destruct Hv as (_ & _ & -> & _); by apply Hw|].
      destruct (is_weak_reason r) eqn:Er; cbn [andb] in Hv; [destruct Hv as (_ & _ & -> & _); by apply Hw|].
      destruct (bool_decide (r = _)); destruct Hv as (_ & _ & -> & _); [by apply Hw|].
      rewrite lookup_insert. case_decide; [|by apply Hw]. intros [= <-]. by destruct r.
Qed.

Lemma stats_new_ok now name p weak : stats_ok (stats_new now name p weak).
Proof. split; [by vm_compute|done|]. intros _ a r. cbn. by rewrite lookup_empty. Qed.

(** ** Properties *)

(** The book of an upload: after any sequence of responses and
    notifications the number of responses counted is the number of servers
    that accepted, plus those without a configuration, plus those that
    rejected (counted once each), every server that is done is a discovered
    one, and with weak errors no server counts as rejecting because the
    directory already exists or another version is being uploaded. *)
Theorem upload_book now name p weak (events : list Event) :
  let s := foldl (fun s e => apply_event e s) (stats_new now name p weak) events in
  weak_errors s = weak /\
  total_responses s =
    wrap64 (Z.of_nat (size (accepted_ips (book s)) + size (rejected_no_config (book s)) + size (rejected_ips (book s)))) /\
  dom (done_servers (book s)) ⊆ dom (discovered_servers (book s)) /\
  (weak = true -> forall a r, rejected_ips (book s) !! a = Some r ->
     r <> "already_exists"%string /\ r <> "already_uploading_different_version"%string).
Proof.
  assert (Hok : forall s, stats_ok s -> stats_ok (foldl (fun s e => apply_event e s) s events) /\
            weak_errors (foldl (fun s e => apply_event e s) s events) = weak_errors s).
  { induction events as [|e es IH]; intros s Hs; [done|]. cbn [foldl].
    destruct (IH _ (apply_event_ok e s Hs)) as [H1 H2]. split; [done|]. rewrite H2.
    destruct e; try done. apply add_response_verdict. }
  intros s. destruct (Hok _ (stats_new_ok now name p weak)) as [[Ht Hd Hw] He]. fold s in Ht, Hd, Hw, He.
  cbn in He. split_and!; try done.
  intros -> a r Hr. specialize (Hw He a r Hr). unfold is_weak_reason in Hw.
  apply orb_false_iff in Hw as [H1 H2]. apply bool_decide_eq_false in H1, H2. naive_solver.
Qed.

Lemma gmap_empty_size {K A} `{Countable K} (m : gmap K A) : (0 < size m)%nat <-> m <> ∅.
Proof.
  destruct (decide (size m = 0%nat)) as [Hz|Hz].
  - rewrite Hz. apply map_size_empty_inv in Hz. naive_solver lia.
  - split; [|lia]. intros _ ->. by rewrite map_size_empty in Hz.
Qed.

(** When an upload is reported as done: before the early timeout, exactly
    when every server that accepted it has it, every discovered server is done
    and there is one, and none rejected or aborted it; after it, exactly when
    the threshold of the configuration is positive and reached and none
    rejected or aborted it; in neither case when all initial addresses turned
    it down. *)
Theorem check_ok_iff stats config addr_done addrs early no_candidates :
  let b := book stats in
  check stats config addr_done addrs early no_candidates = Some (Ok tt) <->
  ~ (accepted_ips b = ∅ /\ addr_done = true /\ no_candidates = true /\
     (rejected_ips b <> ∅ \/ rejected_no_config b <> ∅) /\
     forall a, a ∈ addrs -> is_Some (rejected_ips b !! a) \/ is_Some (aborted_ips b !! a) \/
                            a ∈ rejected_no_config b) /\
  if early then
    0 < early_threshold config b <= Z.of_nat (size (done_servers b)) /\ rejected_ips b = ∅ /\ aborted_ids b = ∅
  else
    accepted_ips b ⊆ done_ips b /\ dom (discovered_servers b) ⊆ dom (done_servers b) /\ done_servers b <> ∅ /\
    rejected_ips b = ∅ /\ aborted_ips b = ∅.
Proof.
  intros b. unfold check. fold b.
  assert (Hall : forallb (fun a => bool_decide (is_Some (rejected_ips b !! a)) ||
                       bool_decide (is_Some (aborted_ips b !! a)) ||
                       bool_decide (a ∈ rejected_no_config b)) addrs = true <->
    forall a, a ∈ addrs -> is_Some (rejected_ips b !! a) \/ is_Some (aborted_ips b !! a) \/ a ∈ rejected_no_config b).
  { rewrite forallb_forall. setoid_rewrite orb_true_iff. setoid_rewrite orb_true_iff.
    setoid_rewrite bool_decide_eq_true. setoid_rewrite list_elem_of_In. naive_solver. }
  set (rej := bool_decide (accepted_ips b = ∅) && _ && _ && _ && _).
  assert (Hrej : rej = true <-> accepted_ips b = ∅ /\ addr_done = true /\ no_candidates = true /\
     (rejected_ips b <> ∅ \/ rejected_no_config b <> ∅) /\
     forall a, a ∈ addrs -> is_Some (rejected_ips b !! a) \/ is_Some (aborted_ips b !! a) \/
                            a ∈ rejected_no_config b).
  { unfold rej. rewrite !andb_true_iff, orb_true_iff, !bool_decide_eq_true, Hall. tauto. }
  destruct rej; [naive_solver|].
  assert (Hn : forall P Q : Prop, (false = true <-> P) -> (Q <-> ~ P /\ Q)) by naive_solver.
  etrans; [|apply (Hn _ _ Hrej)]. clear Hn Hrej Hall.
  assert (Hfin : forall (X : gmap SocketAddr string) (A : Prop) {K} `{Countable K} (Y : gmap K string),
    A -> (if bool_decide (0 < size X)%nat || bool_decide (0 < size Y)%nat
          then Some (Err Rejected) else Some (Ok tt)) = Some (Ok tt) <-> A /\ X = ∅ /\ Y = ∅).
  { intros X A K ? ? Y HA. destruct (bool_decide (0 < size X)%nat) eqn:EX;
      [apply bool_decide_eq_true, gmap_empty_size in EX; naive_solver|].
    destruct (bool_decide (0 < size Y)%nat) eqn:EY;
      [apply bool_decide_eq_true, gmap_empty_size in EY; naive_solver|].
    apply bool_decide_eq_false in EX, EY. rewrite gmap_empty_size in EX. rewrite gmap_empty_size in EY.
    apply dec_stable in EX, EY. naive_solver. }
  destruct early.
  - destruct (bool_decide (0 < early_threshold config b) && _) eqn:E.
    + apply andb_true_iff in E as [E1%bool_decide_eq_true E2%bool_decide_eq_true].
      apply Hfin. lia.
    + split; [done|]. intros ([H1 H2] & _). rewrite !bool_decide_eq_true_2 in E; done.
  - destruct (bool_decide (accepted_ips b ⊆ done_ips b) && _ && _) eqn:E.
    + apply andb_true_iff in E as [[E1%bool_decide_eq_true E2%is_superset_iff]%andb_true_iff E3%bool_decide_eq_true].
      apply gmap_empty_size in E3.
      rewrite (Hfin _ (accepted_ips b ⊆ done_ips b /\ dom (discovered_servers b) ⊆ dom (done_servers b) /\
        done_servers b <> ∅)); tauto.
    + split; [done|]. intros (H1 & H2%is_superset_iff & H3%gmap_empty_size & _).
      rewrite H2, !bool_decide_eq_true_2 in E; done.
Qed.

(** The threshold after the early timeout never exceeds the number of
    hosts discovered and never falls below the smaller of that number and the
    configured minimum, whatever the fraction; and with the default
    configuration it is, for up to 1000 hosts, what the documentation says:
    three quarters of the hosts rounded up, at least three, at most all. *)
Theorem early_threshold_bounds config b :
  0 <= early_hosts config ->
  Z.min (discovered_num b) (early_hosts config) <= early_threshold config b <= discovered_num b /\
  (0 <= discovered_num b <= 1000 ->
   early_threshold config_new b =
     Z.min (discovered_num b) (Z.max 3 ((3 * discovered_num b + 3) / 4))).
Proof.
  intros Hh. unfold early_threshold. split; [lia|]. intros Hn.
  assert (Hall : forallb (fun n => bool_decide (f32_ceil_usize (f32_mul (u32_as_f32 (Z.of_nat n)) three_quarters)
                    = (3 * Z.of_nat n + 3) / 4)) (seq 0 1001) = true) by (vm_compute; reflexivity).
  rewrite forallb_forall in Hall. specialize (Hall (Z.to_nat (discovered_num b))).
  rewrite bool_decide_eq_true, Z2Nat.id in Hall by lia. cbn [config_new early_hosts early_fraction].
  rewrite Hall; [done|]. apply in_seq. lia.
Qed.

Lemma early_threshold_bounds_witness :
  early_threshold config_new empty_book <= discovered_num empty_book.
Proof. apply (early_threshold_bounds config_new empty_book). cbn. lia. Defined.

(** A cluster of one server cannot finish late: when the only server that
    accepted the upload is the only one ever discovered, then after the early
    timeout the check never reports success, although that server has received
    the image, reported it done and nobody rejected or aborted it; before the
    early timeout the same book is a success. *)
Theorem late_single_server addr info now name p weak hosts fraction timeout :
  1 < hosts ->
  let config := early_upload hosts fraction timeout config_new in
  let s := received_image addr info (snd (add_response addr true None ∅ (stats_new now name p weak))) in
  ri_forwarded info = false ->
  check s config true [addr] false true = Some (Ok tt) /\
  check s config true [addr] true true = None.
Proof.
  intros Hh config s Hf.
  assert (Hb : book s = {| accepted_ips := {[addr]} ∪ ∅;
    discovered_servers := <[ri_machine_id info := ri_hostname info]> (∅ ∪ ∅);
    done_ips := {[addr]} ∪ ∅; done_servers := <[ri_machine_id info := ri_hostname info]> ∅;
    aborted_ips := ∅; aborted_ids := ∅; aborted_hostnames := ∅; rejected_no_config := ∅; rejected_ips := ∅ |}).
  { unfold s, received_image, add_response. cbn. by rewrite Hf. }
  unfold check. rewrite Hb. cbn [accepted_ips discovered_servers done_ips done_servers aborted_ips aborted_ids
    rejected_no_config rejected_ips].
  rewrite (bool_decide_eq_false_2 ({[addr]} ∪ ∅ = ∅)) by set_solver. cbn [andb].
  assert (Hn : forall v : string, size (<[ri_machine_id info := v]> (∅ : gmap MachineId string)) = 1%nat)
    by (intros v; by rewrite map_size_insert_None, map_size_empty by apply lookup_empty).
  split.
  - rewrite (bool_decide_eq_true_2 ({[addr]} ∪ ∅ ⊆ _)) by done.
    rewrite (proj2 (is_superset_iff _ _)) by (rewrite !dom_insert_L; set_solver).
    rewrite Hn, map_size_empty. done.
  - unfold early_threshold, discovered_num. cbn [accepted_ips discovered_servers rejected_no_config rejected_ips].
    rewrite (bool_decide_eq_true_2 (size ({[addr]} ∪ ∅) = 1%nat)) by (by rewrite union_empty_r_L, size_singleton).
    rewrite (map_empty_union ∅), !Hn. cbn [andb].
    do 2 (rewrite (bool_decide_eq_true_2 (∅ = ∅)) by done). cbn [andb].
    change ((Z.of_nat 1 mod u32_modulus + 1) mod u32_modulus) with 2.
    unfold config, early_upload. cbn [early_hosts early_fraction].
    rewrite (bool_decide_eq_false_2 (_ <= Z.of_nat 1)) by lia. by rewrite andb_false_r.
Qed.

Lemma late_single_server_witness :
  exists s, check s (early_upload 3 three_quarters (10 * nanos_per_sec) config_new) true
              [{| ip := 1; sport := 24783 |}] true true = None /\ size (done_servers (book s)) = 1%nat.
Proof.
  set (info := {| ri_id := ImageId.from_slice []; ri_path := VPath.of_names "k" ["a"]%string;
                  ri_machine_id := MachineId.mk []; ri_hostname := "h"; ri_forwarded := false |}).
  exists (received_image {| ip := 1; sport := 24783 |} info
    (snd (add_response {| ip := 1; sport := 24783 |} true None ∅
      (stats_new 0 ["cluster"%string] (VPath.of_names "k" ["a"]%string) false)))).
  split; [|reflexivity].
  apply (late_single_server {| ip := 1; sport := 24783 |} info 0 ["cluster"%string]
    (VPath.of_names "k" ["a"]%string) false 3 three_quarters (10 * nanos_per_sec)); reflexivity.
Defined.
