(* ===== verification/MetaDir.v ===== *)
(** * Directories of the metadata store: [src/daemon/metadata/dir.rs],
    [src/daemon/metadata/error.rs], [src/daemon/dir_util.rs]

    [Dir] wraps an [openat::Dir]; its methods translate the errors of the
    operating system, treat some of them as an answer ([NotFound]), and build
    atomic replacement of a file out of a temporary file and a rename. *)
From S2P Require Import Prelude Serde VirtualPath Fs.
Local Open Scope st_scope.
Import VPath.

(** [enum Error], with the boxed causes as text. *)
Inductive Error :=
| InvalidPath
| PathNotFound (path : VPath)
| FileWasVanished (path : Path.t)
| CleanupCanceled (path : VPath)
| LevelMismatch (has required : nat)
| OpenRoot (dir : Path.t) (e : IoError)
| CreateDirRace (dir : Path.t) (e : IoError)
| Open (dir : Path.t) (e : IoError)
| Read (dir : Path.t) (e : IoError)
| Encode (dir : Path.t) (e : string)
| Decode (dir : Path.t) (e : string)
| ListDir (dir : Path.t) (e : IoError)
| Rename (from to : Path.t) (e : IoError)
| CreateDir (dir : Path.t) (e : IoError)
| WriteMeta (dir : Path.t) (e : IoError)
| Remove (path : Path.t) (e : IoError)
| ReadKey (path : Path.t) (e : IoError)
| SerializeError (e : string)
| IndexNotFound
| IndexError (e : string)
| MergeError (e : string)
| ResumeConflict (vpath : VPath)
| ResumeNoFile (vpath : VPath)
| IndexGcInterrupted.

(** [name.ends_with(suffix)]. *)
Definition ends_with (suffix s : string) : bool :=
  bool_decide (String.length suffix <= String.length s) &&
  bool_decide (String.substring (String.length s - String.length suffix) (String.length suffix) s = suffix).

(** [name.find("/").is_none()] and the other parts of the assertion of
    [dir_if_exists]. *)
Definition plain_name (name : string) : bool :=
  bool_decide (name <> "."%string) && bool_decide (name <> ".."%string) && Path.no_slash name.

Definition check_component (cmp : Path.Component) : Res Error string :=
  match cmp with Path.Normal x => Ok x | _ => Err InvalidPath end.

Section Dir.
Context {W : Type} `{OpenAt W}.

(** [struct Dir]. *)
Definition Dir : Type := handle.
Definition Op (A : Type) : Type := ST W Error A.

(** [recover_path]. *)
Definition recover_path (d : Dir) (name : string) (w : W) : Path.t :=
  match oa_recover_path d w with
  | Ok p => Path.join p (Path.parse name)
  | _ => Path.join [Path.Normal "<unknown>"] (Path.parse name)
  end.

(** [match operation { .. }]: look at the result of an operation. *)
Definition io_match {A B} (m : ST W IoError A) (k : Res IoError A -> Op B) : Op B :=
  fun w => let (r, w') := m w in k r w'.
(** An error that names a path of the directory. *)
Definition fail {A} (f : W -> Error) : Op A := fun w => (Err (f w), w).
Definition panic {A} : Op A := fun w => (Panic, w).
(** [map_err]. *)
Definition map_io {A} (m : ST W IoError A) (f : IoError -> W -> Error) : Op A :=
  io_match m (fun r => match r with Ok a => st_ret a | Err e => fail (f e) | Panic => panic end).
(** [Ok(x) => Some, NotFound => None, other error => f]. *)
Definition if_exists {A} (m : ST W IoError A) (f : IoError -> W -> Error) : Op (option A) :=
  io_match m (fun r => match r with
    | Ok a => st_ret (Some a)
    | Err e => if decide (io_kind e = NotFound) then st_ret None else fail (f e)
    | Panic => panic
    end).

Definition open_root (path : Path.t) : Op Dir := map_io (oa_open path) (fun e _ => OpenRoot path e).

Definition create_component (d : Dir) (name : string) : Op Dir :=
  io_match (oa_sub_dir d name) (fun r => match r with
    | Ok h => st_ret h
    | Err e =>
        if decide (io_kind e = NotFound) then
          io_match (oa_create_dir d name) (fun r => match r with
            | Ok _ => map_io (oa_sub_dir d name) (fun e w => CreateDirRace (recover_path d name w) e)
            | Err e =>
                if decide (io_kind e = AlreadyExists) then
                  map_io (oa_sub_dir d name) (fun e w => Open (recover_path d name w) e)
                else fail (fun w => CreateDir (recover_path d name w) e)
            | Panic => panic
            end)
        else fail (fun w => Open (recover_path d name w) e)
    | Panic => panic
    end).

Fixpoint ensure_dir (d : Dir) (path : Path.t) : Op Dir :=
  match path with
  | [] => st_ret d
  | cmp :: path' =>
      name <-- st_lift (check_component cmp) ;;
      d' <-- create_component d name ;;
      ensure_dir d' path'
  end.

(** [for cmp in .. { dir = dir.sub_dir(cmp)?; }]. *)
Fixpoint open_names (d : Dir) (names : list string) : Op Dir :=
  match names with
  | [] => st_ret d
  | n :: names' =>
      d' <-- map_io (oa_sub_dir d n) (fun e w => Open (recover_path d n w) e) ;;
      open_names d' names'
  end.

(** [open_vpath]; panics where [key] or [suffix] do. *)
Definition open_vpath (d : Dir) (path : VPath) : Op Dir :=
  key <-- st_lift (expect (key path)) ;;
  d' <-- map_io (oa_sub_dir d key) (fun e w => Open (recover_path d key w) e) ;;
  suffix <-- st_lift (expect (suffix path)) ;;
  open_names d' (Path.iter suffix).

Fixpoint open_path (d : Dir) (path : Path.t) : Op Dir :=
  match path with
  | [] => st_ret d
  | cmp :: path' =>
      val <-- st_lift (check_component cmp) ;;
      d' <-- map_io (oa_sub_dir d val) (fun e w => Open (recover_path d val w) e) ;;
      open_path d' path'
  end.

Definition dir_if_exists (d : Dir) (name : string) : Op (option Dir) :=
  if plain_name name then if_exists (oa_sub_dir d name) (fun e w => Open (recover_path d name w) e)
  else panic.

Definition file_meta (d : Dir) (name : string) : Op (option Metadata) :=
  if_exists (oa_metadata d name) (fun e w => Read (recover_path d name w) e).

Definition remove_file (d : Dir) (name : string) : Op () :=
  st_bind (fun _ => st_ret ())
    (if_exists (oa_remove_file d name) (fun e w => Remove (recover_path d name w) e)).

(** [replace_file]; [f] writes the file it is given, here by its name. *)
Definition replace_file (d : Dir) (name : string) (f : string -> ST W string ()) : Op () :=
  let tmpname := (".tmp." +:+ name)%string in
  io_match (oa_write_file d tmpname) (fun r => match r with
    | Ok _ =>
        fun w => match f tmpname w with
                 | (Ok _, w') =>
                     map_io (oa_local_rename d tmpname name) (fun e w => WriteMeta (recover_path d name w) e) w'
                 | (Err e, w') => (Err (Encode (recover_path d name w') e), w')
                 | (Panic, w') => (Panic, w')
                 end
    | Err e => fail (fun w => WriteMeta (recover_path d name w) e)
    | Panic => panic
    end).

Definition rename (d : Dir) (from to : string) : Op () :=
  map_io (oa_local_rename d from to) (fun e w => Rename (recover_path d from w) (recover_path d to w) e).

(** Only logs when it fails. *)
Definition rename_broken_file (d : Dir) (name : string) : Op () :=
  io_match (oa_local_rename d name ("." +:+ name +:+ ".backup")%string)
    (fun r => match r with Panic => panic | _ => st_ret () end).

Definition open_file (d : Dir) (name : string) : Op (option File) :=
  if_exists (oa_open_file d name) (fun e w => Read (recover_path d name w) e).

(** [read_file]; [f] reads the file. *)
Definition read_file {R} (d : Dir) (name : string) (f : File -> Res string R) : Op (option R) :=
  file <-- open_file d name ;;
  match file with
  | None => st_ret None
  | Some file =>
      fun w => match f file with
               | Ok r => (Ok (Some r), w)
               | Err e => (Err (Decode (recover_path d name w) e), w)
               | Panic => (Panic, w)
               end
  end.

(** The type of an entry, asked of the system when the listing has none. *)
Definition entry_simple_type (d : Dir) (e : Entry) (name : string) : Op SimpleType :=
  match entry_type e with
  | Some t => st_ret t
  | None => m <-- map_io (oa_metadata d name) (fun e w => ListDir (recover_path d "" w) e) ;;
            st_ret (meta_type m)
  end.

(** The loops of [list_dirs] and [list_files]: the names [keep] accepts whose
    entries have the type [want]. *)
Fixpoint list_entries (d : Dir) (keep : string -> bool) (want : SimpleType) (entries : list (Res IoError Entry))
  : Op (list string) :=
  match entries with
  | [] => st_ret []
  | entry :: rest =>
      match entry with
      | Err e => fail (fun w => ListDir (recover_path d "" w) e)
      | Panic => panic
      | Ok e =>
          match entry_name e with
          | None => list_entries d keep want rest
          | Some filename =>
              if keep filename then
                t <-- entry_simple_type d e filename ;;
                result <-- list_entries d keep want rest ;;
                st_ret (if decide (t = want) then filename :: result else result)
              else list_entries d keep want rest
          end
      end
  end.

Definition list_dirs (d : Dir) : Op (list string) :=
  entries <-- map_io (oa_list_dir d) (fun e w => ListDir (recover_path d "" w) e) ;;
  list_entries d (fun _ => true) TDir entries.

Definition list_files (d : Dir) (suffix : string) : Op (list string) :=
  entries <-- map_io (oa_list_dir d) (fun e w => ListDir (recover_path d "" w) e) ;;
  list_entries d (fun f => negb (String.prefix "." f) && ends_with suffix f) TFile entries.
End Dir.

(** ** Lemmas *)

Section Laws.
Context {W : Type} `{OpenAtLaws W}.

(** An operation that changes no file. *)
Definition quiet {A} (m : Op (W := W) A) : Prop := forall w, contents (snd (m w)) = contents w.

Lemma quiet_ret {A} (a : A) : quiet (st_ret a).
Proof. done. Qed.
Lemma quiet_fail {A} f : quiet (fail (A := A) f).
Proof. done. Qed.
Lemma quiet_panic {A} : quiet (panic (A := A)).
Proof. done. Qed.
Lemma quiet_lift {A} (r : Res Error A) : quiet (st_lift r).
Proof. done. Qed.
Lemma quiet_bind {A B} (m : Op A) (f : A -> Op B) : quiet m -> (forall a, quiet (f a)) -> quiet (st_bind f m).
Proof.
  intros Hm Hf w. unfold st_bind. specialize (Hm w). destruct (m w) as [[a|e|] w']; cbn in *; try done.
  by rewrite Hf.
Qed.
Lemma quiet_io {A B} (m : ST W IoError A) (k : Res IoError A -> Op B) :
  (forall w, contents (snd (m w)) = contents w) -> (forall r, quiet (k r)) -> quiet (io_match m k).
Proof.
  intros Hm Hk w. unfold io_match. specialize (Hm w). destruct (m w) as [r w']. cbn in *. by rewrite Hk.
Qed.
Lemma quiet_map_io {A} (m : ST W IoError A) f :
  (forall w, contents (snd (m w)) = contents w) -> quiet (map_io m f).
Proof. intros Hm. apply quiet_io; [done|]. by intros [a|e|]. Qed.
Lemma quiet_if_exists {A} (m : ST W IoError A) f :
  (forall w, contents (snd (m w)) = contents w) -> quiet (if_exists m f).
Proof. intros Hm. apply quiet_io; [done|]. intros [a|e|]; try done. by case_decide. Qed.

Lemma sub_dir_quiet h n w : contents (snd (oa_sub_dir h n w)) = contents w.
Proof. destruct (oa_sub_dir h n w) as [r w'] eqn:E. by apply sub_dir_law in E as [? _]. Qed.
Lemma create_dir_quiet h n w : contents (snd (oa_create_dir h n w)) = contents w.
Proof. destruct (oa_create_dir h n w) as [r w'] eqn:E. by apply create_dir_law in E. Qed.
Lemma open_file_quiet h n w : contents (snd (oa_open_file h n w)) = contents w.
Proof. destruct (oa_open_file h n w) as [r w'] eqn:E. by apply open_file_law in E as [? _]. Qed.
Lemma metadata_quiet h n w : contents (snd (oa_metadata h n w)) = contents w.
Proof. destruct (oa_metadata h n w) as [r w'] eqn:E. by apply metadata_law in E as [? _]. Qed.
Lemma list_dir_quiet h w : contents (snd (oa_list_dir h w)) = contents w.
Proof. destruct (oa_list_dir h w) as [r w'] eqn:E. by apply list_dir_law in E as [? _]. Qed.

#[local] Hint Resolve sub_dir_quiet create_dir_quiet open_file_quiet metadata_quiet list_dir_quiet
  quiet_ret quiet_fail quiet_panic quiet_lift quiet_map_io quiet_if_exists : ciruela.

Lemma create_component_quiet d n : quiet (create_component d n).
Proof.
  apply quiet_io; [apply sub_dir_quiet|]. intros [h|e|]; auto with ciruela. case_decide; auto with ciruela.
  apply quiet_io; [apply create_dir_quiet|]. intros [?|?|]; auto with ciruela. case_decide; auto with ciruela.
Qed.
Lemma ensure_dir_quiet d p : quiet (ensure_dir d p).
Proof.
  revert d. induction p as [|c p IH]; intros d; cbn [ensure_dir]; auto with ciruela.
  apply quiet_bind; auto with ciruela. intros n. apply quiet_bind; [apply create_component_quiet|auto].
Qed.
Lemma open_path_quiet d p : quiet (open_path d p).
Proof.
  revert d. induction p as [|c p IH]; intros d; cbn [open_path]; auto with ciruela.
  apply quiet_bind; auto with ciruela. intros n. apply quiet_bind; auto with ciruela.
Qed.
Lemma open_names_quiet d ns : quiet (open_names d ns).
Proof.
  revert d. induction ns as [|n ns IH]; intros d; cbn [open_names]; auto with ciruela.
  apply quiet_bind; auto with ciruela.
Qed.
Lemma open_vpath_quiet d v : quiet (open_vpath d v).
Proof.
  apply quiet_bind; auto with ciruela. intros k. apply quiet_bind; auto with ciruela. intros d'.
  apply quiet_bind; auto with ciruela. intros s. apply open_names_quiet.
Qed.
Lemma dir_if_exists_quiet d n : quiet (dir_if_exists d n).
Proof. unfold dir_if_exists. destruct (plain_name n); auto with ciruela. Qed.
Lemma file_meta_quiet d n : quiet (file_meta d n).
Proof. unfold file_meta. auto with ciruela. Qed.
Lemma read_file_quiet {R} d n (f : File -> Res string R) : quiet (read_file d n f).
Proof.
  apply quiet_bind; [unfold open_file; auto with ciruela|]. intros [file|]; auto with ciruela.
  intros w. by destruct (f file).
Qed.
Lemma entry_simple_type_quiet d e n : quiet (entry_simple_type d e n).
Proof. unfold entry_simple_type. destruct (entry_type e); [done|]. apply quiet_bind; auto with ciruela. Qed.
Lemma list_entries_quiet d keep want es : quiet (list_entries d keep want es).
Proof.
  induction es as [|[e|e|] es IH]; cbn [list_entries]; auto with ciruela.
  destruct (entry_name e) as [n|]; [|done]. destruct (keep n); [|done].
  apply quiet_bind; [apply entry_simple_type_quiet|].
  intros t. apply quiet_bind; auto with ciruela.
Qed.
Lemma list_dirs_quiet d : quiet (list_dirs d).
Proof. apply quiet_bind; auto with ciruela. intros es. apply list_entries_quiet. Qed.
Lemma list_files_quiet d s : quiet (list_files d s).
Proof. apply quiet_bind; auto with ciruela. intros es. apply list_entries_quiet. Qed.

(** Where the directory a successful [ensure_dir] returns is. *)
Lemma map_io_ok {A} (m : ST W IoError A) f w a w' : map_io m f w = (Ok a, w') -> m w = (Ok a, w').
Proof. unfold map_io, io_match, fail, panic, st_ret. destruct (m w) as [[x|e|] w1]; intros E; by simplify_eq. Qed.

Lemma create_component_path d n w d' w' :
  create_component d n w = (Ok d', w') -> path_of d' = path_of d ++ [n].
Proof.
  unfold create_component, io_match. destruct (oa_sub_dir d n w) as [[h|e|] w1] eqn:E1; cbn.
  - intros [= <- _]. apply sub_dir_law in E1 as (_ & Hp & _). by apply Hp.
  - case_decide; [|done]. destruct (oa_create_dir d n w1) as [[h|e'|] w2]; cbn; [|case_decide; [|done]|done];
      intros Hm%map_io_ok; apply sub_dir_law in Hm as [_ Hp]; by apply Hp.
  - done.
Qed.

Lemma ensure_dir_path d p w d' w' :
  ensure_dir d p w = (Ok d', w') -> exists ns, p = map Path.Normal ns /\ path_of d' = path_of d ++ ns.
Proof.
  revert d w. induction p as [|c p IH]; intros d w; cbn [ensure_dir].
  - intros [= <- _]. exists []. by rewrite app_nil_r.
  - intros Hr. st_inv Hr. st_inv Hr. destruct c as [| | |n]; cbn in Hrun; try done. injection Hrun as <- <-.
    apply create_component_path in Hrun0. apply IH in Hr as (ns & -> & Hp).
    exists (n :: ns). split; [done|]. by rewrite Hp, Hrun0, <- app_assoc.
Qed.

Lemma open_path_path d p w d' w' :
  open_path d p w = (Ok d', w') -> exists ns, p = map Path.Normal ns /\ path_of d' = path_of d ++ ns.
Proof.
  revert d w. induction p as [|c p IH]; intros d w; cbn [open_path].
  - intros [= <- _]. exists []. by rewrite app_nil_r.
  - intros Hr. st_inv Hr. st_inv Hr. destruct c as [| | |n]; cbn in Hrun; try done. injection Hrun as <- <-.
    apply map_io_ok, sub_dir_law in Hrun0 as (_ & Hrun0 & _). specialize (Hrun0 _ eq_refl). apply IH in Hr as (ns & -> & Hp).
    exists (n :: ns). split; [done|]. by rewrite Hp, Hrun0, <- app_assoc.
Qed.

(** A listing that succeeds has every entry of the wanted type. *)
Lemma list_entries_in d keep want es names n w0 w w' :
  contents w = contents w0 -> keep n = true ->
  (forall m w1 w2, contents w1 = contents w0 -> oa_metadata d n w1 = (Ok m, w2) -> meta_type m = want) ->
  (exists e, Err e ∈ es) \/
    (exists e, Ok e ∈ es /\ entry_name e = Some n /\ (entry_type e = Some want \/ entry_type e = None)) ->
  list_entries d keep want es w = (Ok names, w') -> n ∈ names.
Proof.
  intros Hw Hkeep Hmeta. revert w names Hw.
  induction es as [|x es IH]; intros w names Hw Hin Hr; cbn [list_entries] in Hr.
  { destruct Hin as [[? ?%not_elem_of_nil]|(? & ?%not_elem_of_nil & _)]; done. }
  destruct x as [e|e|]; [|done..].
  assert (Hcase : (exists e', Err e' ∈ es) \/
    (exists e, Ok e ∈ es /\ entry_name e = Some n /\ (entry_type e = Some want \/ entry_type e = None)) \/
    (entry_name e = Some n /\ (entry_type e = Some want \/ entry_type e = None))).
  { destruct Hin as [[e' He]|(e' & He & Hn)]; apply elem_of_cons in He as [He|He]; [done|left; eauto|..].
    - injection He as ->. auto.
    - right. left. eauto. }
  destruct (entry_name e) as [f|] eqn:En.
  2: { eapply IH; [exact Hw| |exact Hr]. destruct Hcase as [?|[?|[? _]]]; [by left|by right|done]. }
  destruct (keep f) eqn:Ek.
  2: { eapply IH; [exact Hw| |exact Hr]. destruct Hcase as [?|[?|[[= ->] _]]]; [by left|by right|congruence]. }
  st_inv Hr. assert (Hw1 : contents s = contents w0).
  { pose proof (entry_simple_type_quiet d e f w) as Hq. rewrite Hrun in Hq. cbn in Hq. congruence. }
  st_inv Hr. injection Hr as <- <-.
  destruct Hcase as [Hc|[Hc|[[= ->] Hty]]].
  - assert (n ∈ a0) by (eapply IH; [exact Hw1|left; exact Hc|exact Hrun0]). case_decide; [by right|done].
  - assert (n ∈ a0) by (eapply IH; [exact Hw1|right; exact Hc|exact Hrun0]). case_decide; [by right|done].
  - assert (a = want) as ->; [|rewrite decide_True by done; left].
    unfold entry_simple_type in Hrun. destruct Hty as [Ht|Ht]; rewrite Ht in Hrun; [by injection Hrun as <- _|].
    st_inv Hrun. injection Hrun as <- <-. apply map_io_ok in Hrun1. exact (Hmeta _ _ _ Hw Hrun1).
Qed.

Lemma list_dirs_in d w names w' n rest f :
  list_dirs d w = (Ok names, w') -> is_Some (contents w !! (path_of d ++ n :: rest, f)) -> n ∈ names.
Proof.
  unfold list_dirs. intros Hr Hs. st_inv Hr. apply map_io_ok, list_dir_law in Hrun as (Hw & _ & Hl).
  eapply list_entries_in; [exact Hw|done| |by eapply Hl|exact Hr].
  intros m w1 w2 Hw1 Hm. apply metadata_law in Hm as (_ & _ & Hm & _). eapply Hm; [done|]. by rewrite Hw1.
Qed.

Lemma list_files_in d suffix w names w' n :
  list_files d suffix w = (Ok names, w') -> is_Some (contents w !! (path_of d, n)) ->
  String.prefix "." n = false -> ends_with suffix n = true -> n ∈ names.
Proof.
  unfold list_files. intros Hr Hs Hp He. st_inv Hr. apply map_io_ok, list_dir_law in Hrun as (Hw & Hl & _).
  eapply (list_entries_in d (fun f => negb (String.prefix "." f) && ends_with suffix f));
    [exact Hw|by rewrite Hp, He| |by eapply Hl|exact Hr].
  intros m w1 w2 Hw1 Hm. apply metadata_law in Hm as (_ & Hm & _). eapply Hm; [done|]. by rewrite Hw1.
Qed.

(** A listing has only names that are kept. *)
Lemma list_entries_keep d keep want es w names w' n :
  list_entries d keep want es w = (Ok names, w') -> n ∈ names -> keep n = true.
Proof.
  revert w names w'. induction es as [|[e|e|] es IH]; intros w names w'; cbn [list_entries];
    [by intros [= <- _] ?%not_elem_of_nil| |done|done].
  destruct (entry_name e) as [f|]; [|by apply IH]. destruct (keep f) eqn:Ek; [|by apply IH].
  intros Hr Hin. st_inv Hr. st_inv Hr. injection Hr as <- _. case_decide; [|by eapply IH].
  apply elem_of_cons in Hin as [->|Hin]; [done|by eapply IH].
Qed.
Lemma list_files_keep d suffix w names w' n :
  list_files d suffix w = (Ok names, w') -> n ∈ names -> String.prefix "." n = false /\ ends_with suffix n = true.
Proof.
  unfold list_files. intros Hr Hin. st_inv Hr. apply (list_entries_keep _ _ _ _ _ _ _ _ Hr) in Hin.
  apply andb_true_iff in Hin as [Hp He]. split; [by apply negb_true_iff|done].
Qed.

(** A directory that is said to be absent has no file below it. *)
Lemma dir_if_exists_none d n w w' rest f :
  dir_if_exists d n w = (Ok None, w') -> contents w !! (path_of d ++ n :: rest, f) = None.
Proof.
  unfold dir_if_exists. destruct (plain_name n); [|done]. unfold if_exists, io_match.
  destruct (oa_sub_dir d n w) as [[h|e|] w1] eqn:E; cbn; [done| |done].
  case_decide; [|done]. intros _. apply sub_dir_law in E as (_ & _ & E). by eapply E.
Qed.

Lemma open_names_absent d ns w p e w' f :
  open_names d ns w = (Err (Open p e), w') -> io_kind e = NotFound -> contents w !! (path_of d ++ ns, f) = None.
Proof.
  revert d w. induction ns as [|n ns IH]; intros d w; cbn [open_names]; [done|].
  unfold st_bind, map_io, io_match. destruct (oa_sub_dir d n w) as [[h|e'|] w1] eqn:E; cbn; [| |done];
    apply sub_dir_law in E as (Hw & Hp & Hn).
  - intros Hr Hk. rewrite <- Hw. rewrite <- (IH _ _ Hr Hk), (Hp h) by done. by rewrite <- app_assoc.
  - intros [= _ <- _] Hk. by eapply Hn.
Qed.

Lemma open_vpath_absent d k ns w p e w' f :
  open_vpath d (of_names k ns) w = (Err (Open p e), w') -> io_kind e = NotFound ->
  contents w !! (path_of d ++ k :: ns, f) = None.
Proof.
  unfold open_vpath. rewrite key_of_names. unfold st_bind at 1. cbn [st_lift expect].
  unfold st_bind at 1, map_io, io_match. destruct (oa_sub_dir d k w) as [[h|e'|] w1] eqn:E; cbn; [| |done];
    apply sub_dir_law in E as (Hw & Hp & Hn).
  - intros Hr Hk. unfold Path.iter in Hr. rewrite map_map, map_id in Hr.
    rewrite <- Hw, <- (open_names_absent _ _ _ _ _ _ f Hr Hk), (Hp h) by done. by rewrite <- app_assoc.
  - intros [= _ <- _] Hk. by eapply Hn.
Qed.

Lemma open_names_path d ns w d' w' : open_names d ns w = (Ok d', w') -> path_of d' = path_of d ++ ns.
Proof.
  revert d w. induction ns as [|n ns IH]; intros d w; cbn [open_names].
  - intros [= <- _]. by rewrite app_nil_r.
  - intros Hr. st_inv Hr. apply map_io_ok, sub_dir_law in Hrun as (_ & Hp & _). apply IH in Hr.
    by rewrite Hr, (Hp a), <- app_assoc.
Qed.

Lemma open_vpath_path d k ns w d' w' :
  open_vpath d (of_names k ns) w = (Ok d', w') -> path_of d' = path_of d ++ k :: ns.
Proof.
  unfold open_vpath. rewrite key_of_names, suffix_of_names. intros Hr. st_inv Hr. injection Hrun as <- <-.
  st_inv Hr. apply map_io_ok, sub_dir_law in Hrun as (_ & Hp & _). st_inv Hr. injection Hrun as <- <-.
  unfold Path.iter in Hr. rewrite map_map, map_id in Hr. apply open_names_path in Hr.
  by rewrite Hr, (Hp a), <- app_assoc.
Qed.

(** What is read from a file that can be read to its end. *)
Lemma open_file_some d n w f w' :
  open_file d n w = (Ok (Some f), w') -> file_error f = None ->
  contents w !! (path_of d, n) = Some (file_data f).
Proof.
  unfold open_file, if_exists, io_match. destruct (oa_open_file d n w) as [[f'|e|] w1] eqn:E; cbn.
  - intros [= <- _]. apply open_file_law in E as (_ & Hf & _). by apply Hf.
  - by case_decide.
  - done.
Qed.
Lemma open_file_none d n w w' :
  open_file d n w = (Ok None, w') -> contents w !! (path_of d, n) = None.
Proof.
  unfold open_file, if_exists, io_match. destruct (oa_open_file d n w) as [[f'|e|] w1] eqn:E; cbn; try done.
  case_decide; [|done]. intros _. apply open_file_law in E as (_ & _ & Hn). by eapply Hn.
Qed.
End Laws.

(** How [replace_file] ends: it fails and only the temporary file may have
    changed, or the writer succeeded and its file took the place of [name]. *)
Section Replace.
Context {W : Type} `{OpenAtLaws W}.

(** A writer touches nothing but the file it is given. *)
Definition writes_only (d : Dir (W := W)) (f : string -> ST W string ()) : Prop :=
  forall t w r w', is_Some (contents w !! (path_of d, t)) -> f t w = (r, w') ->
    forall k, k <> (path_of d, t) -> contents w' !! k = contents w !! k.

Lemma tmp_name_ne name : (".tmp." +:+ name)%string <> name.
Proof. intros E. apply (f_equal String.length) in E. rewrite string_length_app in E. cbn in E. lia. Qed.

Lemma replace_file_run d name f w r w' :
  writes_only d f -> replace_file d name f w = (r, w') ->
  let tmp := (path_of d, (".tmp." +:+ name)%string) in
  (r <> Ok () /\ forall k, k <> tmp -> contents w' !! k = contents w !! k) \/
  (r = Ok () /\ exists w0 w1 c, contents w0 = <[tmp := []]> (contents w) /\ f (".tmp." +:+ name)%string w0 = (Ok (), w1) /\ contents w1 !! tmp = Some c /\ contents w' = <[(path_of d, name) := c]> (delete tmp (contents w1))).
Proof.
  intros Hf Hr tmp. unfold replace_file, io_match in Hr.
  destruct (oa_write_file d (".tmp." +:+ name)%string w) as [[[]|e|] w0] eqn:E0; apply write_file_law in E0;
    [|injection Hr as <- <-; left; rewrite E0; auto..].
  fold tmp in E0. assert (Hs : is_Some (contents w0 !! tmp)) by (rewrite E0, lookup_insert_eq; eauto).
  destruct (f (".tmp." +:+ name)%string w0) as [[[]|e|] w1] eqn:E1; pose proof (Hf _ _ _ _ Hs E1) as Hk.
  - unfold map_io, io_match in Hr.
    destruct (oa_local_rename d (".tmp." +:+ name)%string name w1) as [[[]|e|] w2] eqn:E2;
      apply rename_law in E2; injection Hr as <- <-.
    + destruct E2 as (c & Hc & Hw2). right. split; [done|]. by exists w0, w1, c.
    + left. split; [done|]. intros k Hkt. by rewrite E2, Hk, E0, lookup_insert_ne.
    + left. split; [done|]. intros k Hkt. by rewrite E2, Hk, E0, lookup_insert_ne.
  - injection Hr as <- <-. left. split; [done|]. intros k Hkt. by rewrite Hk, E0, lookup_insert_ne.
  - injection Hr as <- <-. left. split; [done|]. intros k Hkt. by rewrite Hk, E0, lookup_insert_ne.
Qed.
End Replace.

(** Replacing a file is atomic whatever fails: with a writer that touches
    nothing but the file it is given, every other file of the store keeps its
    contents, the file itself keeps its old contents unless the call succeeds,
    and when it succeeds it holds exactly what the writer left and the
    temporary file is gone. *)
Theorem replace_file_atomic {W} `{OpenAtLaws W} d name f w r w' :
  writes_only d f ->
  replace_file d name f w = (r, w') ->
  let tmp := (path_of d, (".tmp." +:+ name)%string) in let key := (path_of d, name) in
  (forall k, k <> tmp -> k <> key -> contents w' !! k = contents w !! k) /\
  (r <> Ok () -> contents w' !! key = contents w !! key) /\
  (r = Ok () -> contents w' !! tmp = None /\
     exists w0 w1, contents w0 = <[tmp := []]> (contents w) /\ f (".tmp." +:+ name)%string w0 = (Ok (), w1) /\
       contents w' !! key = contents w1 !! tmp).
Proof.
  intros Hf Hr tmp key. assert (Htk : key <> tmp) by (intros [= E]; by eapply tmp_name_ne).
  destruct (replace_file_run _ _ _ _ _ _ Hf Hr) as [[Hne Hk]|(Hok & w0 & w1 & c & Hw0 & Hr1 & Hc & Hw')].
  - split_and!; [intros k Hkt _|intros _|done]; by apply Hk.
  - fold tmp key in Hw0, Hc, Hw'. 
    assert (Hs : is_Some (contents w0 !! tmp)) by (rewrite Hw0, lookup_insert_eq; eauto).
    pose proof (Hf _ _ _ _ Hs Hr1) as Hk. split_and!; [|done|intros _; split].
    + intros k Hkt Hkk. by rewrite Hw', lookup_insert_ne, lookup_delete_ne, Hk, Hw0, lookup_insert_ne.
    + by rewrite Hw', lookup_insert_ne, lookup_delete_eq.
    + exists w0, w1. by rewrite Hw', lookup_insert_eq, Hc.
Qed.

Definition write_bytes (b : bytes) (t : string) : ST MemFs.Mem string () :=
  fun m => match oa_write_all (W := MemFs.Mem) [] t b m with (Ok _, m') => (Ok (), m') | (_, m') => (Err "no space"%string, m') end.
Definition example_mem (limit : nat) : MemFs.Mem :=
  {| MemFs.mem_dirs := ∅; MemFs.mem_files := {[([] : list string, "a"%string) := [Byte.x00]]}; MemFs.mem_limit := limit |}.

Lemma replace_file_atomic_witness :
  let r := replace_file (W := MemFs.Mem) [] "a"%string (write_bytes [Byte.x01; Byte.x02]) (example_mem 1) in
  fst r <> Ok () /\ contents (snd r) !! ([] : list string, "a"%string) = Some [Byte.x00].
Proof.
  intros r. assert (Hne : fst r <> Ok ()) by (vm_compute; discriminate). split; [exact Hne|].
  refine (proj1 (proj2 (replace_file_atomic (W := MemFs.Mem) [] "a"%string (write_bytes [Byte.x01; Byte.x02]) (example_mem 1)
    (fst r) (snd r) _ _)) Hne).
  - intros t w0 r0 w1 _ Hw k Hk. unfold write_bytes in Hw. cbn in Hw.
    destruct (MemFs.mem_files w0 !! ([], t)) as [old|] eqn:E; [|by injection Hw as <- <-].
    destruct (decide _); injection Hw as <- <-; cbn; by rewrite lookup_insert_ne by done.
  - apply surjective_pairing.
Defined.
