(* ===== verification/Text.v ===== *)
(** * Text read from files: the parts of the standard library behind
    [BufReader::lines], [str::trim] and [String::from_utf8]

    A Rust string is its UTF-8 bytes; a [string] here is a list of bytes. *)
From S2P Require Import Prelude Serde Fs.
Local Open Scope N_scope.

(** A continuation byte. *)
Definition cont (b : N) : bool := (128 <=? b) && (b <=? 191).
Definition within (lo hi b : N) : bool := (lo <=? b) && (b <=? hi).

(** [str::from_utf8] on the byte values. *)
Fixpoint utf8_valid (bs : list N) : bool :=
  match bs with
  | [] => true
  | b :: bs' =>
      if b <? 128 then utf8_valid bs'
      else match bs' with
           | [] => false
           | c :: bs2 =>
               if within 194 223 b then cont c && utf8_valid bs2
               else match bs2 with
                    | [] => false
                    | d :: bs3 =>
                        if within 224 239 b then
                          within (if b =? 224 then 160 else 128) (if b =? 237 then 159 else 191) c &&
                          cont d && utf8_valid bs3
                        else match bs3 with
                             | [] => false
                             | e :: bs4 =>
                                 within 240 244 b &&
                                 within (if b =? 240 then 144 else 128) (if b =? 244 then 143 else 191) c &&
                                 cont d && cont e && utf8_valid bs4
                             end
                    end
           end
  end.

Definition string_of_bytes (b : bytes) : string :=
  fold_right (fun x s => String (ascii_of_N (Byte.to_N x)) s) ""%string b.
Definition bytes_of_string (s : string) : list N := map N_of_ascii (String.list_ascii_of_string s).

(** [String::from_utf8]. *)
Definition from_utf8 (b : bytes) : option string :=
  if utf8_valid (map Byte.to_N b) then Some (string_of_bytes b) else None.

(** The pieces between line feeds, and what follows the last one. *)
Fixpoint split_lines (b : bytes) : list bytes * bytes :=
  match b with
  | [] => ([], [])
  | x :: b' =>
      let '(ls, tl) := split_lines b' in
      if Byte.to_N x =? 10 then ([] :: ls, tl)
      else match ls with l :: ls' => ((x :: l) :: ls', tl) | [] => ([], x :: tl) end
  end.

Definition chop_cr (l : bytes) : bytes :=
  match reverse l with x :: r => if Byte.to_N x =? 13 then reverse r else l | [] => l end.

(** [BufRead::lines] up to the first error, which is [None]: a read error and a
    line that is not UTF-8 are errors. *)
Definition lines (f : File) : list (option string) :=
  let '(ls, tl) := split_lines (file_data f) in
  map (fun l => from_utf8 (chop_cr l)) ls ++
  match file_error f with
  | Some _ => [None]
  | None => match tl with [] => [] | _ => [from_utf8 tl] end
  end.

(** The encodings of the characters with the property [White_Space]. *)
Definition white_space : list (list N) :=
  [[9]; [10]; [11]; [12]; [13]; [32]; [194; 133]; [194; 160]; [225; 154; 128]] ++
  map (fun c => [226; 128; c]) [128; 129; 130; 131; 132; 133; 134; 135; 136; 137; 138; 168; 169; 175] ++
  [[226; 129; 159]; [227; 128; 128]].

Fixpoint strip_one (p l : list N) : option (list N) :=
  match p, l with
  | [], _ => Some l
  | x :: p', y :: l' => if x =? y then strip_one p' l' else None
  | _, [] => None
  end.
Fixpoint trim_start (fuel : nat) (ws : list (list N)) (l : list N) : list N :=
  match fuel with
  | O => l
  | S fuel' => match head (omap (fun p => strip_one p l) ws) with
               | Some l' => trim_start fuel' ws l'
               | None => l
               end
  end.

(** [str::trim]; each step removes at least one byte, so the length is fuel
    enough. *)
Definition trim (s : string) : string :=
  let l := bytes_of_string s in
  let l := trim_start (length l) white_space l in
  let r := trim_start (length l) (map reverse white_space) (reverse l) in
  String.string_of_list_ascii (map ascii_of_N (reverse r)).

Example trim_example : trim "  	ssh-ed25519 AAAA key  " = "ssh-ed25519 AAAA key"%string.
Proof. vm_compute. reflexivity. Qed.
Example utf8_example : from_utf8 [Byte.xe2; Byte.x80; Byte.x80] = Some (string_of_bytes [Byte.xe2; Byte.x80; Byte.x80])
  /\ from_utf8 [Byte.xc0; Byte.x80] = None.
Proof. vm_compute. split; reflexivity. Qed.
