(* ===== verification/Metadata.v ===== *)
(** * The metadata store: [src/daemon/metadata/upload.rs], [keys.rs], [mod.rs]

    What the daemon knows about the images of a directory: a state file per
    image name, and the table of the images being written.  A call runs on a
    worker thread and holds the lock of the table from its first access to it
    to its end; a call is one step here. *)
From S2P Require Import Prelude Serde VirtualPath Ids Time Signature Config Commands Fs MetaDir Text.
Local Open Scope st_scope.
Import VPath ImageId Database.

Inductive Accept := New | InProgress | AlreadyDone.
Inductive Upload :=
| Accepted (a : Accept)
| Rejected (reason : string) (img : option ImageId).

(** [struct Writing]. *)
Record Writing := { w_image : ImageId; w_signatures : list SignatureEntry; w_replacing : bool }.

(** [struct Inner]: what changes of it, with the file system. *)
Record Inner (W : Type) := {
  fs : W;
  writing : gmap VPath Writing;
  collecting : option (gset ImageId)
}.
Arguments fs {W}. Arguments writing {W}. Arguments collecting {W}.

(** [sort_signatures]: [Vec::sort] with the derived order. *)
Definition sort_signatures (new : list SignatureEntry) : list SignatureEntry := stable_sort entry_leb new.

Definition append_signatures (old new : list SignatureEntry) : list SignatureEntry :=
  sort_signatures
    (foldl (fun old sig => if decide (sig ∈ old) then old else old ++ [sig]) old new).

Section Meta.
Context {W : Type} `{OpenAt W} `{Crypto}.
(** The configuration, the root of the store, and the crates behind it: the
    CBOR codec of a state, the parser of public keys, and how much of an
    encoding a [BufWriter] has written by the time it is dropped. *)
Context (config : Config) (base_dir : Dir (W := W)).
Context (encode_state : State -> Res string bytes) (decode_state : bytes -> Res string State).
Context (parse_public_key : string -> option PublicKey) (buffered : bytes -> nat).

Definition M (A : Type) : Type := ST (Inner W) Error A.

Definition with_fs (f : W) (s : Inner W) : Inner W :=
  {| fs := f; writing := writing s; collecting := collecting s |}.
Definition with_writing (f : gmap VPath Writing -> gmap VPath Writing) (s : Inner W) : Inner W :=
  {| fs := fs s; writing := f (writing s); collecting := collecting s |}.
Definition on_fs {A} (m : ST W Error A) : M A :=
  fun s => let (r, w) := m (fs s) in (r, with_fs w s).

(** ** [keys.rs] *)

(** The loop over the lines of a key file. *)
Fixpoint read_key_lines (ls : list (option string)) (keys : list PublicKey) : list PublicKey :=
  match ls with
  | [] => keys
  | None :: _ => keys
  | Some line :: ls' =>
      let line := trim line in
      if bool_decide (line = ""%string) || String.prefix "#" line then read_key_lines ls' keys
      else match parse_public_key line with
           | Some key => read_key_lines ls' (keys ++ [key])
           | None => keys
           end
  end.

(** [read_keys]: every error is only logged. *)
Definition read_keys (dir : handle) (name : string) (keys : list PublicKey) : ST W Error (list PublicKey) :=
  io_match (oa_open_file dir name) (fun r => match r with
    | Ok f => st_ret (read_key_lines (lines f) keys)
    | Err _ => st_ret keys
    | Panic => panic
    end).

Fixpoint read_key_files (dir : handle) (names : list string) (keys : list PublicKey)
  : ST W Error (list PublicKey) :=
  match names with
  | [] => st_ret keys
  | key :: names' =>
      keys' <-- read_keys dir (key +:+ ".key")%string keys ;;
      read_key_files dir names' keys'
  end.

Definition read_upload_keys (cfg : Directory) : ST W Error (list PublicKey) :=
  cfg_dir <-- map_io (oa_open (config_dir config)) (fun e _ => ReadKey (config_dir config) e) ;;
  res <-- read_keys cfg_dir "master.key" [] ;;
  io_match (oa_sub_dir cfg_dir "keys") (fun r => match r with
    | Ok dir => read_key_files dir (upload_keys cfg) res
    | Err e =>
        if decide (io_kind e = NotFound) then st_ret res
        else fail (fun _ => ReadKey (Path.join (config_dir config) (Path.parse "keys")) e)
    | Panic => panic
    end).

(** ** [upload.rs] *)

Definition read_state (f : File) : Res string State :=
  match file_error f with Some e => Err (io_msg e) | None => decode_state (file_data f) end.

(** [state.serialize(&mut Cbor::new(BufWriter::new(file)))]: the writer is
    dropped, not flushed, so an error while it writes what is left is lost. *)
Definition write_state (dir : Dir (W := W)) (st : State) (tmpname : string) : ST W string () :=
  fun w => match encode_state st with
           | Ok b =>
               match oa_write_all dir tmpname (take (buffered b) b) w with
               | (Ok _, w1) =>
                   match oa_write_all dir tmpname (drop (buffered b) b) w1 with
                   | (Panic, w2) => (Panic, w2)
                   | (_, w2) => (Ok (), w2)
                   end
               | (Err e, w1) => (Err (io_msg e), w1)
               | (Panic, w1) => (Panic, w1)
               end
           | Err e => (Err e, w)
           | Panic => (Panic, w)
           end.
Definition store_state (dir : Dir (W := W)) (name : string) (st : State) : ST W Error () :=
  replace_file dir name (write_state dir st).

Definition check_keys (sigdata : Signature.SigData) (sigs : list Signature.Signature) (cfg : Directory)
  : ST W Error bool :=
  keys <-- read_upload_keys cfg ;;
  st_ret (existsb (fun sig => Signature.verify sigdata sig keys) sigs).

(** [Meta::signatures] and [Meta::indexes]. *)
Definition signatures_dir : ST W Error (Dir (W := W)) := ensure_dir base_dir (Path.parse "signatures").
Definition indexes_dir : ST W Error (Dir (W := W)) := ensure_dir base_dir (Path.parse "indexes").

(** [Meta::mark_used]. *)
Definition mark_used (image_id : ImageId) : M () :=
  st_modify (fun s => {| fs := fs s; writing := writing s;
                         collecting := (fun set => {[image_id]} ∪ set) <$> collecting s |}).

Definition entries_of (timestamp : Z) (sigs : list Signature.Signature) : list SignatureEntry :=
  map (fun sig => {| Database.timestamp := timestamp; signature := sig |}) sigs.

Definition state_file (name : string) : string := name +:+ ".state".
Definition new_state_file (name : string) : string := name +:+ ".new.state".

(** [meta.signatures()?.ensure_dir(vpath.parent_rel())?]. *)
Definition state_dir (vpath : VPath) : ST W Error (Dir (W := W)) :=
  root <-- signatures_dir ;;
  rel <-- st_lift (expect (parent_rel vpath)) ;;
  ensure_dir root rel.

(** The tail of [start_append] and [start_replace]: [.new.state] is written
    with the lock held. *)
Definition finish_upload (dir : Dir (W := W)) (name : string) (st : State) (new : Accept) : M Upload :=
  on_fs (store_state dir (new_state_file name) st) ;;;
  st_ret (Accepted new).

(** An entry of the table for a new upload, and the state to store. *)
Definition begin_upload (vpath : VPath) (dir : Dir (W := W)) (name : string) (img : ImageId)
    (sigs : list SignatureEntry) (replacing : bool) : M Upload :=
  st_modify (with_writing (fun m =>
    <[vpath := {| w_image := img; w_signatures := sigs; w_replacing := replacing |}]> m)) ;;;
  finish_upload dir name {| image := img; signatures := sigs |} New.

(** The same image is uploaded again: signatures are merged. *)
Definition join_upload (vpath : VPath) (dir : Dir (W := W)) (name : string) (old : Writing)
    (sigs : list SignatureEntry) : M Upload :=
  let merged := if decide (sigs <> w_signatures old) then append_signatures (w_signatures old) sigs
                else w_signatures old in
  st_modify (with_writing (fun m =>
    <[vpath := {| w_image := w_image old; w_signatures := merged; w_replacing := w_replacing old |}]> m)) ;;;
  finish_upload dir name {| image := w_image old; signatures := merged |} InProgress.

(** The image is there already: signatures are added to its state. *)
Definition already_done (dir : Dir (W := W)) (name : string) (st : State) (sigs : list SignatureEntry) : M Upload :=
  on_fs (store_state dir (state_file name)
           {| image := image st; signatures := append_signatures (signatures st) sigs |}) ;;;
  st_ret (Accepted AlreadyDone).

Definition start_append (params : AppendDir) : M Upload :=
  mark_used (ad_image params) ;;;
  let vpath := ad_path params in
  k <-- st_lift (expect (key vpath)) ;;
  match dirs config !! k with
  | None => st_err (PathNotFound vpath)
  | Some cfg =>
      l <-- st_lift (expect (level vpath)) ;;
      if decide (l <> num_levels cfg) then st_ret (Rejected "config_level_mismatch" None)
      else
        sigdata <-- st_lift (expect (append_sig_data params)) ;;
        valid <-- on_fs (check_keys sigdata (ad_signatures params) cfg) ;;
        if negb valid then st_ret (Rejected "signature_mismatch" None)
        else
          dir <-- on_fs (state_dir vpath) ;;
          let sigs := sort_signatures (entries_of (ad_timestamp params) (ad_signatures params)) in
          name <-- st_lift (expect (final_name vpath)) ;;
          s <-- st_get ;;
          match writing s !! vpath with
          | None =>
              st <-- on_fs (read_file dir (state_file name) read_state) ;;
              match st with
              | Some st =>
                  if decide (image st = ad_image params) then already_done dir name st sigs
                  else st_ret (Rejected "already_exists" (Some (image st)))
              | None => begin_upload vpath dir name (ad_image params) sigs false
              end
          | Some old =>
              if decide (w_image old = ad_image params) then join_upload vpath dir name old sigs
              else st_ret (Rejected "already_uploading_different_version" (Some (w_image old)))
          end
  end.

(** [params.old_image.is_some() && params.old_image.as_ref() != Some(&current)]. *)
Definition old_image_differs (old : option ImageId) (current : ImageId) : bool :=
  match old with Some o => bool_decide (o <> current) | None => false end.

Definition start_replace (params : ReplaceDir) : M Upload :=
  mark_used (rd_image params) ;;;
  let vpath := rd_path params in
  k <-- st_lift (expect (key vpath)) ;;
  match dirs config !! k with
  | None => st_err (PathNotFound vpath)
  | Some cfg =>
      l <-- st_lift (expect (level vpath)) ;;
      if decide (l <> num_levels cfg) then st_ret (Rejected "config_level_mismatch" None)
      else if append_only cfg then st_ret (Rejected "dir_is_append_only" None)
      else
        sigdata <-- st_lift (expect (replace_sig_data params)) ;;
        valid <-- on_fs (check_keys sigdata (rd_signatures params) cfg) ;;
        if negb valid then st_ret (Rejected "signature_mismatch" None)
        else
          dir <-- on_fs (state_dir vpath) ;;
          let sigs := sort_signatures (entries_of (rd_timestamp params) (rd_signatures params)) in
          name <-- st_lift (expect (final_name vpath)) ;;
          s <-- st_get ;;
          match writing s !! vpath with
          | None =>
              st <-- on_fs (read_file dir (state_file name) read_state) ;;
              match st with
              | Some st =>
                  if decide (image st = rd_image params) then already_done dir name st sigs
                  else if old_image_differs (rd_old_image params) (image st)
                  then st_ret (Rejected "replace_doesnt_match_index" (Some (image st)))
                  else begin_upload vpath dir name (rd_image params) sigs true
              | None => begin_upload vpath dir name (rd_image params) sigs false
              end
          | Some old =>
              if decide (w_image old = rd_image params) then join_upload vpath dir name old sigs
              else if old_image_differs (rd_old_image params) (w_image old)
              then st_ret (Rejected "replace_doesnt_match_index" (Some (w_image old)))
              else st_ret (Rejected "already_uploading_different_version" (Some (w_image old)))
          end
  end.

(** Put an image in the table with the state read for it. *)
Definition resume_with (vpath : VPath) (st : State) : M ImageId :=
  st_modify (with_writing (fun m =>
    <[vpath := {| w_image := image st; w_signatures := signatures st; w_replacing := false |}]> m)) ;;;
  st_ret (image st).

Definition resume_upload (vpath : VPath) : M ImageId :=
  k <-- st_lift (expect (key vpath)) ;;
  match dirs config !! k with
  | None => st_err (PathNotFound vpath)
  | Some cfg =>
      l <-- st_lift (expect (level vpath)) ;;
      if decide (l <> num_levels cfg) then st_err (LevelMismatch l (num_levels cfg))
      else
        dir <-- on_fs (state_dir vpath) ;;
        name <-- st_lift (expect (final_name vpath)) ;;
        s <-- st_get ;;
        match writing s !! vpath with
        | Some _ => st_err (ResumeConflict vpath)
        | None =>
            st <-- on_fs (read_file dir (state_file name) read_state) ;;
            match st with
            | Some st =>
                on_fs (rename dir (state_file name) (new_state_file name)) ;;;
                resume_with vpath st
            | None =>
                st <-- on_fs (read_file dir (new_state_file name) read_state) ;;
                match st with
                | Some st => resume_with vpath st
                | None => st_err (ResumeNoFile vpath)
                end
            end
        end
  end.

Definition abort_dir (vpath : VPath) : M () :=
  name <-- st_lift (expect (final_name vpath)) ;;
  dir <-- on_fs (state_dir vpath) ;;
  on_fs (remove_file dir (new_state_file name)).

Definition commit_dir (vpath : VPath) : M () :=
  name <-- st_lift (expect (final_name vpath)) ;;
  dir <-- on_fs (state_dir vpath) ;;
  on_fs (rename dir (new_state_file name) (state_file name)).

(** ** [mod.rs] *)

(** Run a call whose error is only logged. *)
Definition logged (m : M ()) : M () :=
  fun s => match m s with (Panic, s') => (Panic, s') | (_, s') => (Ok (), s') end.

(** [dir_aborted] and [dir_committed]: the entry is removed whatever happens. *)
Definition dir_done (finish : VPath -> M ()) (path : VPath) : M () :=
  s <-- st_get ;;
  match writing s !! path with
  | Some _ => st_modify (with_writing (delete path)) ;;; logged (finish path)
  | None => st_ret ()
  end.
Definition dir_aborted (path : VPath) : M () := dir_done abort_dir path.
Definition dir_committed (path : VPath) : M () := dir_done commit_dir path.

Definition get_image_id (vpath : VPath) : M ImageId :=
  dir <-- on_fs (state_dir vpath) ;;
  name <-- st_lift (expect (final_name vpath)) ;;
  st <-- on_fs (read_file dir (state_file name) read_state) ;;
  match st with Some st => st_ret (image st) | None => st_err (PathNotFound vpath) end.

(** [is_fresher]; [None] is the panic for a time before the epoch. *)
Definition is_fresher (m : Metadata) (time : Z) : option bool :=
  if decide (0 <= time)%Z then Some (bool_decide (wrap64 (as_secs time - 1) < wrap64 (st_mtime m))%Z) else None.

Definition remove_state_file (path : VPath) (at_ : Z) : M () :=
  s <-- st_get ;;
  match writing s !! path with
  | Some _ => st_err (CleanupCanceled path)
  | None =>
      root <-- on_fs signatures_dir ;;
      rel <-- st_lift (expect (parent_rel path)) ;;
      parent <-- on_fs (open_path root rel) ;;
      name <-- st_lift (expect (final_name path)) ;;
      m <-- on_fs (file_meta parent (state_file name)) ;;
      match m with
      | Some m =>
          fresh <-- st_lift (expect (is_fresher m at_)) ;;
          if fresh : bool then st_err (CleanupCanceled path)
          else on_fs (remove_file parent (state_file name))
      | None => on_fs (fail (fun w => FileWasVanished (recover_path parent (state_file name) w)))
      end
  end.

Definition is_writing (dir : VPath) : M bool :=
  s <-- st_get ;; st_ret (bool_decide (is_Some (writing s !! dir))).

(** ** Merging of signatures *)

Definition entry_le (a b : SignatureEntry) : Prop := entry_leb a b = true.

#[global] Instance entry_le_antisymm : AntiSymm (=) entry_le.
Proof. intros a b. apply entry_leb_antisym. Qed.

(** What [append_signatures] accumulates before it sorts. *)
Lemma merge_foldl (old new : list SignatureEntry) :
  let m := foldl (fun old sig => if decide (sig ∈ old) then old else old ++ [sig]) old new in
  (forall e, e ∈ m <-> e ∈ old \/ e ∈ new) /\ (NoDup old -> NoDup m) /\ (new ⊆ old -> m = old).
Proof.
  revert old. induction new as [|x new IH]; intros old; cbn.
  - split_and!; [set_solver|done|done].
  - destruct (IH (if decide (x ∈ old) then old else old ++ [x])) as (Hin & Hnd & Hid). split_and!.
    + intros e. rewrite Hin. case_decide; set_solver.
    + intros Hold. apply Hnd. case_decide; [done|]. apply NoDup_app. split_and!; [done|set_solver|apply NoDup_singleton].
    + intros Hsub. rewrite decide_True in Hid |- * by set_solver. apply Hid. set_solver.
Qed.

Lemma sorted_sorted l : StronglySorted entry_le (sort_signatures l).
Proof. apply stable_sort_sorted; [apply entry_leb_total|apply entry_leb_trans]. Qed.
Lemma append_signatures_elem old new e : e ∈ append_signatures old new <-> e ∈ old \/ e ∈ new.
Proof. unfold append_signatures, sort_signatures. rewrite stable_sort_elem. apply merge_foldl. Qed.
Lemma append_signatures_NoDup old new : NoDup old -> NoDup (append_signatures old new).
Proof.
  intros Hnd. unfold append_signatures, sort_signatures. rewrite stable_sort_perm.
  by apply merge_foldl.
Qed.

Lemma append_signatures_sub old new :
  StronglySorted entry_le old -> new ⊆ old -> append_signatures old new = old.
Proof.
  intros Hs Hsub. unfold append_signatures, sort_signatures. rewrite (proj2 (proj2 (merge_foldl old new)) Hsub).
  by apply stable_sort_id.
Qed.

(** ** What the calls leave alone *)

Context `{!OpenAtLaws W}.

(** The table and the files are as they were. *)
Definition same (s s' : Inner W) : Prop :=
  writing s' = writing s /\ contents (fs s') = contents (fs s).
Definition calm {A} (m : M A) : Prop := forall s, same s (snd (m s)).

Lemma calm_lift {A} (r : Res Error A) : calm (st_lift r).
Proof. done. Qed.
Lemma calm_on_fs {A} (m : ST W Error A) : quiet m -> calm (on_fs m).
Proof. intros Hm s. unfold on_fs. specialize (Hm (fs s)). by destruct (m (fs s)). Qed.
Lemma calm_mark i : calm (mark_used i).
Proof. done. Qed.
Lemma calm_get : calm st_get.
Proof. done. Qed.
Lemma same_trans s1 s2 s3 : same s1 s2 -> same s2 s3 -> same s1 s3.
Proof. unfold same. intros [-> ->] [-> ->]. done. Qed.

Lemma open_quiet p w : contents (snd (oa_open p w)) = contents w.
Proof. destruct (oa_open p w) as [r w'] eqn:E. by apply open_law in E. Qed.
#[local] Hint Resolve sub_dir_quiet open_file_quiet open_quiet quiet_ret quiet_fail quiet_panic quiet_lift
  quiet_map_io quiet_if_exists ensure_dir_quiet read_file_quiet open_path_quiet file_meta_quiet : ciruela.

Lemma read_keys_quiet d n keys : quiet (read_keys d n keys).
Proof. apply quiet_io; [apply open_file_quiet|]. intros [f|e|]; auto with ciruela. Qed.
Lemma read_key_files_quiet d ns keys : quiet (read_key_files d ns keys).
Proof.
  revert keys. induction ns as [|n ns IH]; intros keys; cbn [read_key_files]; auto with ciruela.
  apply quiet_bind; [apply read_keys_quiet|auto].
Qed.
Lemma read_upload_keys_quiet cfg : quiet (read_upload_keys cfg).
Proof.
  apply quiet_bind; [auto with ciruela|]. intros d. apply quiet_bind; [apply read_keys_quiet|]. intros res.
  apply quiet_io; [apply sub_dir_quiet|]. intros [h|e|]; auto using read_key_files_quiet with ciruela.
  case_decide; auto with ciruela.
Qed.
Lemma check_keys_quiet sd sigs cfg : quiet (check_keys sd sigs cfg).
Proof. apply quiet_bind; [apply read_upload_keys_quiet|]. auto with ciruela. Qed.
Lemma signatures_dir_quiet : quiet signatures_dir.
Proof. apply ensure_dir_quiet. Qed.
Lemma state_dir_quiet v : quiet (state_dir v).
Proof. apply quiet_bind; [apply signatures_dir_quiet|]. intros d. apply quiet_bind; auto with ciruela. Qed.
#[local] Hint Resolve check_keys_quiet signatures_dir_quiet state_dir_quiet calm_lift calm_on_fs calm_mark calm_get : ciruela.

(** Where the state of an image is. *)
Definition state_key (k : string) (ns : list string) (file : string) : FileKey :=
  (path_of base_dir ++ "signatures"%string :: k :: ns, file).

Lemma normals_inj l ls : map Path.Normal l = map Path.Normal ls -> l = ls.
Proof. revert ls. induction l as [|x l IH]; intros [|y ls]; try done. cbn. intros [= -> Hls]. f_equal. by apply IH. Qed.

Lemma state_dir_path k ns n w d w' :
  state_dir (of_names k (ns ++ [n])) w = (Ok d, w') ->
  path_of d = path_of base_dir ++ "signatures"%string :: k :: ns.
Proof.
  unfold state_dir, signatures_dir. intros Hr. st_inv Hr. st_inv Hr.
  apply ensure_dir_path in Hrun as (ms & Hms & Hp). change (Path.parse "signatures") with [Path.Normal "signatures"] in Hms.
  rewrite parent_rel_snoc in Hrun0. injection Hrun0 as <- <-.
  apply ensure_dir_path in Hr as (ls & Hls & Hp'). rewrite Hp', Hp.
  change [Path.Normal "signatures"] with (map Path.Normal ["signatures"%string]) in Hms.
  apply (normals_inj [_]) in Hms as <-. apply (normals_inj (k :: ns)) in Hls as <-. by rewrite <- app_assoc.
Qed.

Lemma read_state_some d name w st w' :
  read_file d name read_state w = (Ok (Some st), w') ->
  exists b, contents w !! (path_of d, name) = Some b /\ decode_state b = Ok st.
Proof.
  unfold read_file. intros Hr. st_inv Hr. destruct a as [f|]; [|done].
  unfold read_state in Hr. destruct (file_error f) eqn:Ef; [done|].
  apply open_file_some in Hrun; [|done]. exists (file_data f). split; [done|].
  destruct (decode_state (file_data f)); by simplify_eq.
Qed.
Lemma read_state_none d name w w' :
  read_file d name read_state w = (Ok None, w') -> contents w !! (path_of d, name) = None.
Proof.
  unfold read_file. intros Hr. st_inv Hr. destruct a as [f|]; [|by apply open_file_none in Hrun].
  destruct (read_state f); by simplify_eq.
Qed.

Lemma calm_bind {A B} (m : M A) (f : A -> M B) s r s' :
  calm m -> st_bind f m s = (r, s') ->
  ((forall b, r <> Ok b) /\ same s s') \/ exists a s1, m s = (Ok a, s1) /\ same s s1 /\ f a s1 = (r, s').
Proof.
  intros Hm. unfold st_bind. specialize (Hm s). destruct (m s) as [[a|e|] s1] eqn:E; cbn in Hm.
  - intros Hf. right. eauto.
  - intros [= <- <-]. by left.
  - intros [= <- <-]. by left.
Qed.

(** ** Storing a state *)

Lemma write_state_only d st : writes_only d (write_state d st).
Proof.
  intros t w r w' [old Hold] Hr k Hk. unfold write_state in Hr.
  destruct (encode_state st) as [b|e|]; [|by injection Hr as <- <-..].
  destruct (oa_write_all d t (take (buffered b) b) w) as [r1 w1] eqn:E1.
  pose proof (write_all_law _ _ _ _ _ _ _ E1 Hold) as (c1 & _ & _ & Hw1).
  assert (Hk1 : contents w1 !! k = contents w !! k) by (by rewrite Hw1, lookup_insert_ne).
  destruct r1 as [[]|e|]; [|by injection Hr as <- <-..].
  destruct (oa_write_all d t (drop (buffered b) b) w1) as [r2 w2] eqn:E2.
  assert (Hs1 : contents w1 !! (path_of d, t) = Some (old ++ c1)) by (by rewrite Hw1, lookup_insert_eq).
  pose proof (write_all_law _ _ _ _ _ _ _ E2 Hs1) as (c2 & _ & _ & Hw2).
  assert (Hk2 : contents w2 !! k = contents w !! k) by (by rewrite Hw2, lookup_insert_ne).
  destruct r2; by injection Hr as <- <-.
Qed.

(** What may be on disk after a state was stored without an error: its
    encoding, up to what the buffer still held. *)
Definition stored (st : State) (c : bytes) : Prop :=
  exists b, encode_state st = Ok b /\ take (buffered b) b `prefix_of` c /\ c `prefix_of` b.

Lemma write_state_stored d st t w w' :
  contents w !! (path_of d, t) = Some [] -> write_state d st t w = (Ok (), w') ->
  exists c, contents w' = <[(path_of d, t) := c]> (contents w) /\ stored st c.
Proof.
  intros Hold Hr. unfold write_state in Hr. destruct (encode_state st) as [b|e|] eqn:Eb; [|done..].
  destruct (oa_write_all d t (take (buffered b) b) w) as [[[]|e|] w1] eqn:E1; [|done..].
  pose proof (write_all_law _ _ _ _ _ _ _ E1 Hold) as (c1 & _ & Hc1 & Hw1). specialize (Hc1 eq_refl). subst c1. cbn in Hw1.
  destruct (oa_write_all d t (drop (buffered b) b) w1) as [r2 w2] eqn:E2.
  assert (Hs1 : contents w1 !! (path_of d, t) = Some (take (buffered b) b)) by (by rewrite Hw1, lookup_insert_eq).
  pose proof (write_all_law _ _ _ _ _ _ _ E2 Hs1) as (c2 & Hp & _ & Hw2).
  assert (w2 = w') as <- by (destruct r2; congruence).
  exists (take (buffered b) b ++ c2). split; [by rewrite Hw2, Hw1, insert_insert_eq|].
  exists b. split_and!; [done|by exists c2|]. rewrite <- (take_drop (buffered b) b) at 3. by apply prefix_app.
Qed.

Lemma store_state_run d name st w r w' :
  store_state d name st w = (r, w') ->
  let tmp := (path_of d, (".tmp." +:+ name)%string) in
  (r <> Ok () /\ forall k, k <> tmp -> contents w' !! k = contents w !! k) \/
  (r = Ok () /\ exists c, stored st c /\ contents w' = <[(path_of d, name) := c]> (delete tmp (contents w))).
Proof.
  intros Hr tmp. destruct (replace_file_run _ _ _ _ _ _ (write_state_only d st) Hr) as
    [?|(-> & w0 & w1 & c & Hw0 & Hw1 & Hc & Hw')]; [by left|right]. split; [done|].
  fold tmp in Hw0, Hc, Hw'. apply write_state_stored in Hw1 as (c' & Hw1 & Hst); [|by rewrite Hw0, lookup_insert_eq].
  fold tmp in Hw1. exists c. rewrite Hw1, lookup_insert_eq in Hc. injection Hc as <-. split; [done|].
  by rewrite Hw', Hw1, Hw0, insert_insert_eq, delete_insert_eq.
Qed.

(** ** The decision of [start_append] and [start_replace] *)

(** The request is for a configured directory, not to replace in one that is
    append only, and one of its signatures verifies with a key the server
    accepts for it. *)
Definition authorized (replace : option (option ImageId)) (v : VPath) (sigdata : option Signature.SigData)
    (sigs : list Signature.Signature) (s : Inner W) : Prop :=
  exists k cfg sd keys w w' sig,
    key v = Some k /\ dirs config !! k = Some cfg /\ level v = Some (num_levels cfg) /\
    (is_Some replace -> append_only cfg = false) /\ sigdata = Some sd /\ contents w = contents (fs s) /\ read_upload_keys cfg w = (Ok keys, w') /\
    sig ∈ sigs /\ Signature.verify sd sig keys = true.

(** The ways to accept an upload of [img] into [v], from what the table and the
    state file say. *)
Inductive accepts (v : VPath) (img : ImageId) (sigs : list SignatureEntry) (replace : option (option ImageId))
    (d : Dir (W := W)) (name : string) (s : Inner W) : M Upload -> Prop :=
| accepts_done st b :
    writing s !! v = None -> contents (fs s) !! (path_of d, state_file name) = Some b ->
    decode_state b = Ok st -> image st = img ->
    accepts v img sigs replace d name s (already_done d name st sigs)
| accepts_new :
    writing s !! v = None -> contents (fs s) !! (path_of d, state_file name) = None ->
    accepts v img sigs replace d name s (begin_upload v d name img sigs false)
| accepts_replace old st b :
    replace = Some old -> old_image_differs old (image st) = false -> writing s !! v = None ->
    contents (fs s) !! (path_of d, state_file name) = Some b ->
    decode_state b = Ok st -> image st <> img ->
    accepts v img sigs replace d name s (begin_upload v d name img sigs true)
| accepts_join old :
    writing s !! v = Some old -> w_image old = img ->
    accepts v img sigs replace d name s (join_upload v d name old sigs).

Definition refused (s : Inner W) (r : Res Error Upload) (s' : Inner W) : Prop :=
  (forall a, r <> Ok (Accepted a)) /\ same s s'.

Definition decided (v : VPath) (img : ImageId) (sigdata : option Signature.SigData)
    (sigs : list Signature.Signature) (ts : Z) (replace : option (option ImageId)) (k : string) (ns : list string) (n : string)
    (s : Inner W) (r : Res Error Upload) (s' : Inner W) : Prop :=
  refused s r s' \/
  authorized replace v sigdata sigs s /\
  exists d s1 m, path_of d = path_of base_dir ++ "signatures"%string :: k :: ns /\ same s s1 /\
    accepts v img (sort_signatures (entries_of ts sigs)) replace d n s1 m /\ m s1 = (r, s').

Lemma refused_bind {A} (m : M A) (f : A -> M Upload) s0 s r s' :
  calm m -> same s0 s -> st_bind f m s = (r, s') ->
  refused s0 r s' \/ exists a s1, m s = (Ok a, s1) /\ same s s1 /\ same s0 s1 /\ f a s1 = (r, s').
Proof.
  intros Hm Hs Hr. apply calm_bind in Hr as [[Hr Hs']|(a & s1 & ? & ? & ?)]; [left|right|done].
  - split; [by intros a|]. by eapply same_trans.
  - exists a, s1. split_and!; eauto using same_trans.
Qed.

Lemma refused_reject s0 s reason img r s' :
  same s0 s -> st_ret (E := Error) (Rejected reason img) s = (r, s') -> refused s0 r s'.
Proof. by intros Hs [= <- <-]. Qed.

Lemma refused_err s0 s e r s' : same s0 s -> st_err e s = (r, s') -> refused s0 r s'.
Proof. by intros Hs [= <- <-]. Qed.

(** One statement of the body: it fails and nothing happened, or go on. *)
Ltac body_as s0 H a Hm :=
  let s := fresh "s" in let Hs := fresh "Hs" in let Hs0 := fresh "Hs0" in
  apply (refused_bind _ _ s0) in H;
    [destruct H as [H|(a & s & Hm & Hs & Hs0 & H)]; [by left|]|by auto with ciruela|assumption].
Ltac body s0 H := let a := fresh "a" in let Hm := fresh "Hm" in body_as s0 H a Hm.

(** The same for a body with any result. *)
Lemma failed_bind {A B} (m : M A) (f : A -> M B) s0 s r s' :
  calm m -> same s0 s -> st_bind f m s = (r, s') ->
  ((forall b, r <> Ok b) /\ same s0 s') \/ exists a s1, m s = (Ok a, s1) /\ same s0 s1 /\ f a s1 = (r, s').
Proof.
  intros Hm Hs Hr. apply calm_bind in Hr as [[Hr Hs']|(a & s1 & ? & ? & ?)]; [left|right|done].
  - split; [done|]. by eapply same_trans.
  - exists a, s1. split_and!; eauto using same_trans.
Qed.
Ltac next s0 H :=
  let a := fresh "a" in let Hm := fresh "Hm" in let s := fresh "s" in let Hs := fresh "Hs" in
  apply (failed_bind _ _ s0) in H;
    [destruct H as [H|(a & s & Hm & Hs & H)]; [by left|]|by auto with ciruela|assumption].

Lemma ok_bind {A B} (m : M A) (f : A -> M B) s0 s b s' :
  calm m -> same s0 s -> st_bind f m s = (Ok b, s') ->
  exists a s1, m s = (Ok a, s1) /\ same s0 s1 /\ f a s1 = (Ok b, s').
Proof. intros Hm Hs Hr. apply (failed_bind _ _ s0) in Hr as [[Hr _]|?]; [by edestruct Hr|done..]. Qed.
Ltac ok_next s0 H a Hm :=
  let s := fresh "s" in let Hs := fresh "Hs" in
  apply (ok_bind _ _ s0) in H; [destruct H as (a & s & Hm & Hs & H)|by auto with ciruela|assumption].

(** The body ends with an answer. *)
Ltac stop H := left; first [eapply refused_reject; [|exact H] | eapply refused_err; [|exact H]]; assumption.

Lemma check_keys_true sd sigs cfg w w' :
  check_keys sd sigs cfg w = (Ok true, w') ->
  exists keys sig, read_upload_keys cfg w = (Ok keys, w') /\ sig ∈ sigs /\ Signature.verify sd sig keys = true.
Proof.
  unfold check_keys. intros Hr. st_inv Hr. injection Hr as Hx <-.
  apply existsb_exists in Hx as (sig & Hin & Hv). exists a, sig. split_and!; [done| |done].
  by apply list_elem_of_In.
Qed.

Lemma on_fs_ok {A} (m : ST W Error A) s a s' :
  on_fs m s = (Ok a, s') -> exists w, m (fs s) = (Ok a, w) /\ s' = with_fs w s.
Proof. unfold on_fs. destruct (m (fs s)) as [r w] eqn:E. intros [= -> <-]. eauto. Qed.

Lemma lift_ok {A} (o : option A) (s s' : Inner W) a :
  st_lift (E := Error) (expect o) s = (Ok a, s') -> o = Some a /\ s' = s.
Proof. destruct o; by intros [= -> ->]. Qed.

(** The conditions the body has checked when it goes on to the table. *)
Lemma authorized_intro (replace : option (option ImageId)) v sigdata sigs s k cfg l sd s3 s4 :
  key v = Some k -> dirs config !! k = Some cfg -> level v = Some l -> l = num_levels cfg ->
  (is_Some replace -> append_only cfg = false) -> sigdata = Some sd -> on_fs (check_keys sd sigs cfg) s3 = (Ok true, s4) -> same s s3 ->
  authorized replace v sigdata sigs s.
Proof.
  intros Hk Hc Hl -> Hao Hsd Hck [_ Hs]. apply on_fs_ok in Hck as (w & Hck & ->).
  apply check_keys_true in Hck as (keys & sig & Hr & Hin & Hv). by exists k, cfg, sd, keys, (fs s3), w, sig.
Qed.

(** The table and the state file, as the body sees them after [st_get]. *)
Lemma read_some d n s st s' :
  on_fs (read_file d n read_state) s = (Ok (Some st), s') ->
  exists b, contents (fs s) !! (path_of d, n) = Some b /\ decode_state b = Ok st.
Proof. intros (w & Hr & _)%on_fs_ok. by eapply read_state_some. Qed.
Lemma read_none d n s s' :
  on_fs (read_file d n read_state) s = (Ok None, s') ->
  contents (fs s) !! (path_of d, n) = None.
Proof. intros (w & Hr & _)%on_fs_ok. by eapply read_state_none. Qed.

Lemma accepts_same v img sigs replace d n s s1 m :
  same s s1 -> accepts v img sigs replace d n s m -> accepts v img sigs replace d n s1 m.
Proof. intros [Hw Hc] [st b|?|o st b|old]; [eapply accepts_done|apply accepts_new|eapply accepts_replace|apply accepts_join];
  rewrite ?Hw, ?Hc; eauto. Qed.

Lemma decided_intro v img sigdata sigs ts replace k ns n s r s' d s4 s5 s6 m :
  authorized replace v sigdata sigs s -> v = of_names k (ns ++ [n]) ->
  on_fs (state_dir v) s4 = (Ok d, s5) -> m s6 = (r, s') -> same s s6 ->
  accepts v img (sort_signatures (entries_of ts sigs)) replace d n s6 m ->
  decided v img sigdata sigs ts replace k ns n s r s'.
Proof.
  intros Ha -> Hd Hr Hs Hm. right. split; [done|]. apply on_fs_ok in Hd as (w & Hd & _).
  apply state_dir_path in Hd. by exists d, s6, m.
Qed.

(** Collect what the statements have computed. *)
Ltac computed :=
  repeat match goal with Hm : st_lift (expect _) _ = (Ok _, _) |- _ => apply lift_ok in Hm as [? ->] end;
  repeat match goal with Hm : st_get _ = (Ok _, _) |- _ => injection Hm as <- <- end.

(** Answer in terms of the state the state file was read in. *)
Ltac before_read :=
  match goal with Hc : contents (fs ?x) !! _ = _ |- _ => apply (accepts_same _ _ _ _ _ _ x); [assumption|] end.

Lemma start_append_decided params k ns n s r s' :
  ad_path params = of_names k (ns ++ [n]) -> start_append params s = (r, s') ->
  decided (ad_path params) (ad_image params) (append_sig_data params) (ad_signatures params)
    (ad_timestamp params) None k ns n s r s'.
Proof.
  intros Hv Hr. unfold decided. unfold start_append in Hr. assert (Hs0 : same s s) by done.
  body s Hr. body s Hr. destruct (dirs config !! a0) as [cfg|] eqn:Ecfg; [|stop Hr].
  body s Hr. case_decide as Hl; [stop Hr|].
  body s Hr. body s Hr. destruct a3; [|stop Hr].
  body s Hr. body s Hr. body s Hr. cbv beta iota zeta in Hr. computed.
  assert (Ha : authorized None (ad_path params) (append_sig_data params) (ad_signatures params) s)
    by (eapply authorized_intro; first [eassumption | by intros []]).
  assert (a4 = n) as -> by (rewrite Hv, final_name_snoc in *; congruence).
  destruct (writing _ !! ad_path params) as [old|] eqn:Ew.
  - case_decide as Hi; [|stop Hr]. eapply decided_intro; try eassumption. by apply accepts_join.
  - body_as s Hr st Hst. destruct st as [st|].
    + case_decide as Hi; [|stop Hr]. apply read_some in Hst as (b & Hb & Hd).
      eapply decided_intro; try eassumption. before_read. by eapply accepts_done.
    + apply read_none in Hst. eapply decided_intro; try eassumption.
      before_read. by eapply accepts_new.
Qed.

Lemma start_replace_decided params k ns n s r s' :
  rd_path params = of_names k (ns ++ [n]) -> start_replace params s = (r, s') ->
  decided (rd_path params) (rd_image params) (replace_sig_data params) (rd_signatures params)
    (rd_timestamp params) (Some (rd_old_image params)) k ns n s r s'.
Proof.
  intros Hv Hr. unfold decided. unfold start_replace in Hr. assert (Hs0 : same s s) by done.
  body s Hr. body s Hr. destruct (dirs config !! a0) as [cfg|] eqn:Ecfg; [|stop Hr].
  body s Hr. case_decide as Hl; [stop Hr|]. destruct (append_only cfg) eqn:Eao; [stop Hr|].
  body s Hr. body s Hr. destruct a3; [|stop Hr].
  body s Hr. body s Hr. body s Hr. cbv beta iota zeta in Hr. computed.
  assert (Ha : authorized (Some (rd_old_image params)) (rd_path params) (replace_sig_data params) (rd_signatures params) s)
    by (eapply authorized_intro; eassumption || done).
  assert (a4 = n) as -> by (rewrite Hv, final_name_snoc in *; congruence).
  destruct (writing _ !! rd_path params) as [old|] eqn:Ew.
  - case_decide as Hi; [|destruct (old_image_differs _ _); stop Hr].
    eapply decided_intro; try eassumption. by apply accepts_join.
  - body_as s Hr st Hst. destruct st as [st|].
    + apply read_some in Hst as (b & Hb & Hd). case_decide as Hi.
      * eapply decided_intro; try eassumption. before_read. by eapply accepts_done.
      * destruct (old_image_differs _ _) eqn:Eo; [stop Hr|].
        eapply decided_intro; try eassumption. before_read. by eapply accepts_replace.
    + apply read_none in Hst. eapply decided_intro; try eassumption.
      before_read. by eapply accepts_new.
Qed.

(** ** What an accepted upload does *)

(** The files of the image [n] of a directory. *)
Definition own (D : list string) (n : string) : list FileKey :=
  map (pair D) [state_file n; new_state_file n;
                (".tmp." +:+ state_file n)%string; (".tmp." +:+ new_state_file n)%string].

Lemma own_ne n :
  state_file n <> new_state_file n /\ state_file n <> (".tmp." +:+ new_state_file n)%string /\
  new_state_file n <> (".tmp." +:+ state_file n)%string.
Proof.
  unfold state_file, new_state_file. split_and!; intros E; apply (f_equal String.length) in E;
    rewrite !string_length_app in E; cbn in E; lia.
Qed.

Lemma finish_upload_run d n st new s r s' :
  finish_upload d n st new s = (r, s') ->
  writing s' = writing s /\
  (forall k, k <> (path_of d, new_state_file n) -> k <> (path_of d, (".tmp." +:+ new_state_file n)%string) ->
     contents (fs s') !! k = contents (fs s) !! k) /\
  ((r = Ok (Accepted new) /\
      exists c, stored st c /\ contents (fs s') !! (path_of d, new_state_file n) = Some c) \/
   forall a, r <> Ok a).
Proof.
  unfold finish_upload, st_bind, on_fs. destruct (store_state d (new_state_file n) st (fs s)) as [r1 w1] eqn:E.
  apply store_state_run in E as [[Hne Hk]|(-> & c & Hc & Hk)]; cbn in Hk.
  - destruct r1 as [[]|e|]; [done|..]; intros [= <- <-]; split_and!; auto.
  - intros [= <- <-]. cbn. split_and!; [done| |].
    + intros k H1 H2. by rewrite Hk, lookup_insert_ne, lookup_delete_ne.
    + left. split; [done|]. exists c. by rewrite Hk, lookup_insert_eq.
Qed.

Lemma already_done_run d n st sigs s r s' :
  already_done d n st sigs s = (r, s') ->
  let st' := {| image := image st; signatures := append_signatures (signatures st) sigs |} in
  writing s' = writing s /\
  (forall k, k <> (path_of d, state_file n) -> k <> (path_of d, (".tmp." +:+ state_file n)%string) ->
     contents (fs s') !! k = contents (fs s) !! k) /\
  ((r = Ok (Accepted AlreadyDone) /\
      exists c, stored st' c /\ contents (fs s') !! (path_of d, state_file n) = Some c) \/
   (forall a, r <> Ok a) /\ contents (fs s') !! (path_of d, state_file n) = contents (fs s) !! (path_of d, state_file n)).
Proof.
  unfold already_done. set (st' := {| image := _ |}). cbn zeta. unfold st_bind, on_fs.
  destruct (store_state d (state_file n) st' (fs s)) as [r1 w1] eqn:E.
  apply store_state_run in E as [[Hne Hk]|(-> & c & Hc & Hk)]; cbn in Hk.
  - assert (Hs : contents w1 !! (path_of d, state_file n) = contents (fs s) !! (path_of d, state_file n)).
    { apply Hk. intros [= E]. by eapply tmp_name_ne. }
    destruct r1 as [[]|e|]; [done|..]; intros [= <- <-]; split_and!; auto.
  - intros [= <- <-]. cbn. split_and!; [done| |].
    + intros k H1 H2. by rewrite Hk, lookup_insert_ne, lookup_delete_ne.
    + left. split; [done|]. exists c. by rewrite Hk, lookup_insert_eq.
Qed.

(** The entry an accepted upload leaves in the table, from the one before. *)
Definition entered (img : ImageId) (sigs : list SignatureEntry) (before : option Writing) (new : Accept)
    (wr : Writing) : Prop :=
  w_image wr = img /\
  match before with
  | None => new = New /\ w_signatures wr = sigs
  | Some old => new = InProgress /\ w_image old = img /\ w_replacing wr = w_replacing old /\
      w_signatures wr = if decide (sigs <> w_signatures old) then append_signatures (w_signatures old) sigs
                        else w_signatures old
  end.

(** The effect of an accepting step. *)
Definition effect (v : VPath) (img : ImageId) (sigs : list SignatureEntry) (D : list string) (n : string)
    (s : Inner W) (r : Res Error Upload) (s' : Inner W) : Prop :=
  (forall k, k ∉ own D n -> contents (fs s') !! k = contents (fs s) !! k) /\
  (forall v', v' <> v -> writing s' !! v' = writing s !! v') /\
  ((exists st b, writing s !! v = None /\ contents (fs s) !! (D, state_file n) = Some b /\
      decode_state b = Ok st /\ image st = img /\ writing s' = writing s /\
      ((r = Ok (Accepted AlreadyDone) /\
        exists c, stored {| image := img; signatures := append_signatures (signatures st) sigs |} c /\
                  contents (fs s') !! (D, state_file n) = Some c) \/
       (forall a, r <> Ok a) /\ contents (fs s') !! (D, state_file n) = Some b)) \/
   (exists new wr, entered img sigs (writing s !! v) new wr /\ writing s' !! v = Some wr /\
      contents (fs s') !! (D, state_file n) = contents (fs s) !! (D, state_file n) /\
      ((r = Ok (Accepted new) /\
        exists c, stored {| image := img; signatures := w_signatures wr |} c /\
                  contents (fs s') !! (D, new_state_file n) = Some c) \/
       forall a, r <> Ok a))).

(** Both ways to put an entry in the table and write [.new.state]. *)
Lemma entered_effect v img sigs d n s new wr r s' :
  entered img sigs (writing s !! v) new wr ->
  finish_upload d n {| image := img; signatures := w_signatures wr |} new
    (with_writing (fun m => <[v := wr]> m) s) = (r, s') ->
  effect v img sigs (path_of d) n s r s'.
Proof.
  intros He (Hw & Hk & Hr)%finish_upload_run. cbn in Hw, Hk. unfold effect.
  destruct (own_ne n) as (Hn1 & Hn2 & _). split_and!.
  - intros k Hno. apply Hk; intros ->; apply Hno; unfold own; cbn; set_solver.
  - intros v' Hv. by rewrite Hw, lookup_insert_ne.
  - right. exists new, wr. split_and!; [done|by rewrite Hw, lookup_insert_eq| |done].
    apply Hk; intros [= ?]; done.
Qed.

Lemma accepts_effect v img sigs replace d n s m r s' :
  accepts v img sigs replace d n s m -> m s = (r, s') -> effect v img sigs (path_of d) n s r s'.
Proof.
  intros Ha Hr. destruct Ha as [st b Hw Hc Hd Hi|Hw Hc|old st b _ Ho Hw Hc Hd Hi|old Hw Hi].
  - apply already_done_run in Hr as (Hw' & Hk & Hr). unfold effect. split_and!.
    + intros k Hno. apply Hk; intros ->; apply Hno; unfold own; cbn; set_solver.
    + intros v' _. by rewrite Hw'.
    + left. exists st, b. rewrite Hi, Hc in Hr. split_and!; done.
  - eapply entered_effect; [|exact Hr]. by rewrite Hw.
  - eapply entered_effect; [|exact Hr]. by rewrite Hw.
  - unfold join_upload in Hr. eapply entered_effect; [|].
    2: rewrite <- Hi; exact Hr. rewrite Hw. by unfold entered.
Qed.

(** ** Commit, abort, lookup *)

(** [commit_dir] renames [.new.state] or changes nothing. *)
Lemma commit_dir_run k ns n s r s' :
  commit_dir (of_names k (ns ++ [n])) s = (r, s') ->
  writing s' = writing s /\
  ((exists c, contents (fs s) !! state_key k ns (new_state_file n) = Some c /\
      contents (fs s') = <[state_key k ns (state_file n) := c]> (delete (state_key k ns (new_state_file n)) (contents (fs s)))) \/
   contents (fs s') = contents (fs s)).
Proof.
  unfold commit_dir. intros Hr. apply calm_bind in Hr as [[_ [? ?]]|(a & s1 & Hn & [Hw1 Hc1] & Hr)]; [auto|..|done].
  apply lift_ok in Hn as [Hn ->]. rewrite final_name_snoc in Hn. injection Hn as <-.
  apply calm_bind in Hr as [[_ [? ?]]|(d & s1 & Hd & [Hw2 Hc2] & Hr)]; [auto|..|auto with ciruela].
  apply on_fs_ok in Hd as (w & Hd & ->). apply state_dir_path in Hd. cbn in Hw2, Hc2.
  unfold on_fs, rename, map_io, io_match in Hr.
  destruct (oa_local_rename d (new_state_file n) (state_file n) (fs (with_fs w s))) as [[[]|e|] w1] eqn:E;
    apply rename_law in E; cbn in E; injection Hr as <- <-; cbn.
  - split; [done|]. left. unfold state_key. rewrite <- Hd, <- Hc2. exact E.
  - split; [done|]. right. congruence.
  - split; [done|]. right. congruence.
Qed.

(** [abort_dir] removes [.new.state] or changes nothing. *)
Lemma abort_dir_run k ns n s r s' :
  abort_dir (of_names k (ns ++ [n])) s = (r, s') ->
  writing s' = writing s /\
  (contents (fs s') = delete (state_key k ns (new_state_file n)) (contents (fs s)) \/ contents (fs s') = contents (fs s)).
Proof.
  unfold abort_dir. intros Hr. apply calm_bind in Hr as [[_ [? ?]]|(a & s1 & Hn & [Hw1 Hc1] & Hr)]; [auto|..|done].
  apply lift_ok in Hn as [Hn ->]. rewrite final_name_snoc in Hn. injection Hn as <-.
  apply calm_bind in Hr as [[_ [? ?]]|(d & s1 & Hd & [Hw2 Hc2] & Hr)]; [auto|..|auto with ciruela].
  apply on_fs_ok in Hd as (w & Hd & ->). apply state_dir_path in Hd. cbn in Hw2, Hc2.
  unfold on_fs, remove_file, if_exists, io_match, st_bind in Hr.
  destruct (oa_remove_file d (new_state_file n) (fs (with_fs w s))) as [[[]|e|] w1] eqn:E;
    apply remove_law in E; cbn in E, Hr.
  - injection Hr as <- <-. split; [done|]. left. cbn. unfold state_key. by rewrite E, <- Hd, Hc2.
  - destruct E as [E _]. split; [by case_decide; injection Hr as <- <-|]. right.
    case_decide; injection Hr as <- <-; cbn; congruence.
  - done.
Qed.

Lemma dir_done_run finish v s r s' :
  is_Some (writing s !! v) -> dir_done finish v s = (r, s') ->
  exists r', finish v (with_writing (delete v) s) = (r', s').
Proof.
  intros [wr Hw]. unfold dir_done, st_bind, st_get, st_modify, logged. rewrite Hw.
  destruct (finish v (with_writing (delete v) s)) as [[[]|e|] s1]; intros [= <- <-]; eauto.
Qed.

(** What [get_image_id] answers comes from the state file. *)
Lemma get_image_id_run k ns n s i s' :
  get_image_id (of_names k (ns ++ [n])) s = (Ok i, s') ->
  exists b st, contents (fs s) !! state_key k ns (state_file n) = Some b /\ decode_state b = Ok st /\ image st = i.
Proof.
  unfold get_image_id. intros Hr. apply calm_bind in Hr as [[Hr _]|(d & s1 & Hd & [_ Hc1] & Hr)];
    [by edestruct Hr|..|auto with ciruela].
  apply on_fs_ok in Hd as (w & Hd & ->). apply state_dir_path in Hd. cbn in Hc1.
  apply calm_bind in Hr as [[Hr _]|(a & s1 & Hn & _ & Hr)]; [by edestruct Hr|..|done].
  apply lift_ok in Hn as [Hn ->]. rewrite final_name_snoc in Hn. injection Hn as <-.
  apply calm_bind in Hr as [[Hr _]|(st & s1 & Hst & _ & Hr)]; [by edestruct Hr|..|auto with ciruela].
  destruct st as [st|]; [|done]. injection Hr as <- <-.
  apply read_some in Hst as (b & Hb & Hdec). exists b, st. unfold state_key. cbn in Hb. by rewrite <- Hc1, <- Hd.
Qed.

(** The whole of a [decided] request on the state of the image and the table. *)
Lemma decided_effect v img sigdata sigs ts replace k ns n s r s' :
  decided v img sigdata sigs ts replace k ns n s r s' ->
  refused s r s' \/
  authorized replace v sigdata sigs s /\
  effect v img (sort_signatures (entries_of ts sigs)) (path_of base_dir ++ "signatures"%string :: k :: ns) n s r s'.
Proof.
  intros [?|(Ha & d & s1 & m & Hd & [Hw Hc] & Hm & Hr)]; [by left|right]. split; [done|].
  pose proof (accepts_effect _ _ _ _ _ _ _ _ _ _ Hm Hr) as He. rewrite Hd in He.
  unfold effect in *. by rewrite Hw, Hc in He.
Qed.

Lemma effect_committed v img sigs D n s r s' :
  effect v img sigs D n s r s' ->
  contents (fs s') !! (D, state_file n) = contents (fs s) !! (D, state_file n) \/
  r = Ok (Accepted AlreadyDone) /\
  exists b st st' c, contents (fs s) !! (D, state_file n) = Some b /\ decode_state b = Ok st /\ image st = img /\
    contents (fs s') !! (D, state_file n) = Some c /\ stored st' c /\ image st' = image st /\
    signatures st ⊆ signatures st'.
Proof.
  intros (_ & _ & [(st & b & Hw & Hb & Hd & Hi & _ & [(-> & c & Hst & Hc)|[_ Hc]])|(new & wr & _ & _ & Hc & _)]).
  - right. split; [done|]. eexists b, st, _, c. split_and!; [done..|exact Hst|done|].
    intros e. cbn. rewrite append_signatures_elem. auto.
  - left. congruence.
  - by left.
Qed.

Lemma effect_exclusive v img sigs D n s r s' a old :
  effect v img sigs D n s r s' -> r = Ok (Accepted a) -> writing s !! v = Some old -> w_image old = img.
Proof.
  intros (_ & _ & [(st & b & Hw & _)|(new & wr & [_ He] & _)]) _ Ho; [congruence|].
  rewrite Ho in He. by destruct He as (_ & ? & _).
Qed.

Lemma entered_signatures img sigs before new wr :
  entered img sigs before new wr ->
  forall e, e ∈ w_signatures wr <-> e ∈ sigs \/ exists old, before = Some old /\ e ∈ w_signatures old.
Proof.
  intros [_ He] e. destruct before as [old|].
  - destruct He as (_ & _ & _ & ->). case_decide as Hne.
    + rewrite append_signatures_elem. naive_solver.
    + rewrite Hne. naive_solver.
  - destruct He as (_ & ->). naive_solver.
Qed.

Lemma effect_durable v img ts sigs D n s r s' a :
  effect v img (sort_signatures (entries_of ts sigs)) D n s r s' -> r = Ok (Accepted a) -> a <> AlreadyDone ->
  exists wr c, writing s' !! v = Some wr /\ w_image wr = img /\
    (forall e, e ∈ w_signatures wr <-> e ∈ entries_of ts sigs \/
       exists old, writing s !! v = Some old /\ e ∈ w_signatures old) /\
    contents (fs s') !! (D, new_state_file n) = Some c /\
    stored {| image := img; signatures := w_signatures wr |} c.
Proof.
  intros (_ & _ & [(st & b & _ & _ & _ & _ & _ & [[-> _]|[Hno _]])|(new & wr & He & Hw & _ & [(-> & c & Hst & Hc)|Hno])]) Hr Ha.
  - congruence.
  - by apply Hno in Hr.
  - exists wr, c. split_and!; [done|apply He| |done|done].
    intros e. rewrite (entered_signatures _ _ _ _ _ He e). unfold sort_signatures. by rewrite stable_sort_elem.
  - by apply Hno in Hr.
Qed.


Lemma decided_cas v img sigdata sigs ts old k ns n s r s' a :
  decided v img sigdata sigs ts (Some old) k ns n s r s' -> r = Ok (Accepted a) ->
  match writing s !! v with
  | Some wr => w_image wr = img
  | None => forall b, contents (fs s) !! state_key k ns (state_file n) = Some b ->
      exists st, decode_state b = Ok st /\ (image st = img \/ forall o, old = Some o -> o = image st)
  end.
Proof.
  intros [Hr|(_ & d & s1 & m & Hd & [Hw Hc] & Hm & _)] Ha; [by apply Hr in Ha|]. rewrite <- Hw, <- Hc. unfold state_key.
  rewrite <- Hd. destruct Hm as [st b ? Hb Hdec Hi|? Hb|o st b [= <-] Ho ? Hb Hdec Hi|wr ? Hi]; simplify_option_eq; [..|done].
  - intros b' Hb'. assert (b' = b) as -> by congruence. eauto.
  - intros b' Hb'. congruence.
  - intros b' Hb'. assert (b' = b) as -> by congruence. exists st. split; [done|]. right. intros o' ->.
    cbn in Ho. by apply bool_decide_eq_false, dec_stable in Ho.
Qed.

(** C23. A replacement is a compare-and-swap.  It is accepted only for a
    directory that is not append only, with a verified signature, and when the
    old image the client names, if any, is the committed one (unless the new
    image is committed already); an upload in progress is only joined, for the
    same image.  The committed state stays readable until the new image is
    committed, and other images are untouched. *)
Theorem start_replace_cas params k ns n s r s' a :
  rd_path params = of_names k (ns ++ [n]) ->
  start_replace params s = (r, s') -> r = Ok (Accepted a) ->
  let v := rd_path params in
  let D := path_of base_dir ++ "signatures"%string :: k :: ns in
  authorized (Some (rd_old_image params)) v (replace_sig_data params) (rd_signatures params) s /\
  match writing s !! v with
  | Some wr => w_image wr = rd_image params
  | None => forall b, contents (fs s) !! (D, state_file n) = Some b ->
      exists st, decode_state b = Ok st /\
        (image st = rd_image params \/ forall o, rd_old_image params = Some o -> o = image st)
  end /\
  (a <> AlreadyDone -> contents (fs s') !! (D, state_file n) = contents (fs s) !! (D, state_file n)) /\
  (forall key, key ∉ own D n -> contents (fs s') !! key = contents (fs s) !! key) /\
  (forall v', v' <> v -> writing s' !! v' = writing s !! v').
Proof.
  intros Hv Hr Ha v D. apply (start_replace_decided _ _ _ _ _ _ _ Hv) in Hr. fold v in Hr.
  pose proof (decided_cas _ _ _ _ _ _ _ _ _ _ _ _ _ Hr Ha) as Hcas.
  apply decided_effect in Hr as [Hr|[Hau He]]; [by apply Hr in Ha|]. split_and!; [done|done| |apply He|apply He].
  intros Hna. apply effect_committed in He as [?|[Hr _]]; [done|]. congruence.
Qed.

(** C2. The life of an upload.  After an append is accepted for download,
    the commit drops its entry and no other and makes the new state the
    committed one, or it failed and the files are as they were; in the first
    case the lookup of the path can only answer the image of the append, also
    if the last write of the state was lost.  The abort drops the entry and
    leaves every file but [.new.state], so the image committed before. *)
Theorem append_lifecycle params k ns n s a s1 :
  ad_path params = of_names k (ns ++ [n]) ->
  start_append params s = (Ok (Accepted a), s1) -> a <> AlreadyDone ->
  (forall st c st', stored st c -> decode_state c = Ok st' -> as_ref (image st') = as_ref (image st)) ->
  let v := ad_path params in
  (forall r s2, dir_committed v s1 = (r, s2) ->
     writing s2 = delete v (writing s1) /\
     (contents (fs s2) !! state_key k ns (new_state_file n) = None /\
        is_Some (contents (fs s2) !! state_key k ns (state_file n)) /\
        (forall i s3, get_image_id v s2 = (Ok i, s3) -> as_ref i = as_ref (ad_image params)) \/
      contents (fs s2) = contents (fs s1))) /\
  (forall r s2, dir_aborted v s1 = (r, s2) ->
     writing s2 = delete v (writing s1) /\
     (forall key, key <> state_key k ns (new_state_file n) -> contents (fs s2) !! key = contents (fs s1) !! key) /\
     contents (fs s2) !! state_key k ns (state_file n) = contents (fs s) !! state_key k ns (state_file n)).
Proof.
  intros Hv Hr Ha Hcodec v. apply (start_append_decided _ _ _ _ _ _ _ Hv), decided_effect in Hr as [Hr|[_ He]];
    [by edestruct (proj1 Hr)|]. fold v in He.
  pose proof (effect_durable _ _ _ _ _ _ _ _ _ _ He eq_refl Ha) as (wr & c & Hw & _ & _ & Hc & Hst).
  apply effect_committed in He as [Hs|[[= ?] _]]; [|done].
  assert (Hne : state_key k ns (state_file n) <> state_key k ns (new_state_file n))
    by (intros E; injection E; apply (own_ne n)).
  split; intros r s2 Hd; apply dir_done_run in Hd as [r' Hd]; eauto; unfold v in Hd; rewrite Hv in Hd.
  - apply commit_dir_run in Hd as [Hwr [(c' & Hc' & Hfs)|Hfs]]; (split; [by rewrite <- Hv in Hwr|]); [left|by right].
    assert (c' = c) as -> by (unfold state_key in Hc'; cbn in Hc'; congruence).
    rewrite Hfs, lookup_insert_ne, lookup_delete_eq, lookup_insert_eq by done. split_and!; [done|eauto|].
    intros i s3 Hg. unfold v in Hg. rewrite Hv in Hg. apply get_image_id_run in Hg as (b & st & Hb & Hdec & <-).
    rewrite Hfs, lookup_insert_eq in Hb. injection Hb as <-. by eapply (Hcodec {| image := _ |}).
  - apply abort_dir_run in Hd as [Hwr Hfs]. split; [by rewrite <- Hv in Hwr|].
    assert (Hk : forall key, key <> state_key k ns (new_state_file n) -> contents (fs s2) !! key = contents (fs s1) !! key).
    { intros key Hkey. destruct Hfs as [->| ->]; [by rewrite lookup_delete_ne|done]. }
    split; [done|]. rewrite Hk by done. exact Hs.
Qed.

Lemma remove_file_run d name w r w' :
  remove_file d name w = (r, w') ->
  (r = Ok () /\ contents w' = delete (path_of d, name) (contents w)) \/ (r <> Ok () /\ contents w' = contents w).
Proof.
  unfold remove_file, if_exists, io_match, st_bind.
  destruct (oa_remove_file d name w) as [[[]|e|] w1] eqn:E; apply remove_law in E; [|destruct E as [E Hn]|done].
  - intros [= <- <-]. by left.
  - case_decide as Hk; intros [= <- <-]; [left|by right]. split; [done|]. by rewrite delete_id by auto.
Qed.

Lemma open_parent_path k ns n s0 root rel d s1 s2 s3 :
  on_fs signatures_dir s0 = (Ok root, s1) -> parent_rel (of_names k (ns ++ [n])) = Some rel ->
  on_fs (open_path root rel) s2 = (Ok d, s3) -> path_of d = path_of base_dir ++ "signatures"%string :: k :: ns.
Proof.
  rewrite parent_rel_snoc. intros (w & Hd & _)%on_fs_ok [= <-] (w1 & Ho & _)%on_fs_ok.
  unfold signatures_dir in Hd. apply ensure_dir_path in Hd as (ms & Hms & Hp). change (Path.parse "signatures") with [Path.Normal "signatures"] in Hms.
  apply open_path_path in Ho as (ls & Hls & Hp'). rewrite Hp', Hp.
  apply (normals_inj [_]) in Hms as <-. apply (normals_inj (k :: ns)) in Hls as <-. by rewrite <- app_assoc.
Qed.

Lemma if_exists_some {A} (m : ST W IoError A) f w a w' :
  if_exists m f w = (Ok (Some a), w') -> m w = (Ok a, w').
Proof.
  unfold if_exists, io_match. destruct (m w) as [[x|e|] w1]; [by intros [= <- <-]| |done].
  by case_decide.
Qed.

Lemma is_fresher_false m at_ : is_fresher m at_ = Some false -> (wrap64 (st_mtime m) <= wrap64 (as_secs at_ - 1))%Z.
Proof. unfold is_fresher. case_decide; [|done]. intros [= Hb]. apply bool_decide_eq_false in Hb. lia. Qed.

(** The body of [remove_state_file] for a path that is not being uploaded. *)
Lemma remove_state_file_run path at_ k ns n s r s' :
  path = of_names k (ns ++ [n]) -> writing s !! path = None -> remove_state_file path at_ s = (r, s') ->
  ((forall a, r <> Ok a) /\ same s s') \/
  (r = Ok () /\ writing s' = writing s /\
   contents (fs s') = delete (state_key k ns (state_file n)) (contents (fs s)) /\
   exists d m w w', path_of d = path_of base_dir ++ "signatures"%string :: k :: ns /\
     contents w = contents (fs s) /\ oa_metadata d (state_file n) w = (Ok m, w') /\
     (wrap64 (st_mtime m) <= wrap64 (as_secs at_ - 1))%Z).
Proof.
  intros Hv Ew Hr. unfold remove_state_file in Hr. unfold st_bind at 1 in Hr. cbn [st_get] in Hr. rewrite Ew in Hr.
  assert (Hs0 : same s s) by done.
  next s Hr. next s Hr. next s Hr. next s Hr. next s Hr. computed. subst path.
  rename a1 into parent. assert (Hp : path_of parent = path_of base_dir ++ "signatures"%string :: k :: ns)
    by (by eapply open_parent_path).
  assert (a2 = n) as -> by (rewrite final_name_snoc in *; congruence).
  destruct a3 as [m|]; [|left; injection Hr as <- <-; done].
  apply on_fs_ok in Hm3 as (w & Hmeta & _). apply if_exists_some in Hmeta.
  next s Hr. computed. destruct a1; [left; by injection Hr as <- <-|].
  unfold on_fs in Hr. destruct (remove_file parent (state_file n) (fs s4)) as [r1 w1] eqn:E. injection Hr as <- <-.
  apply remove_file_run in E as [[-> Hc]|[Hne Hc]]; [right|left].
  - split_and!; [done|apply Hs4|cbn; unfold state_key; by rewrite Hc, Hp, (proj2 Hs4)|].
    exists parent, m, (fs s2), w. split_and!; [done|apply Hs2|done|by apply is_fresher_false].
  - split; [by destruct r1 as [[]| |]|]. split; [apply Hs4|]. cbn. by rewrite Hc, (proj2 Hs4).
Qed.
(** The cleanup of a state file gives way to uploads: with an upload of
    the path in progress it is canceled and nothing happens; otherwise only
    the state file can go, and only when its modification time is not after
    the second before the time the cleanup was decided. *)
Theorem remove_state_file_safe path at_ k ns n s r s' :
  path = of_names k (ns ++ [n]) ->
  remove_state_file path at_ s = (r, s') ->
  writing s' = writing s /\
  (is_Some (writing s !! path) -> r = Err (CleanupCanceled path) /\ contents (fs s') = contents (fs s)) /\
  (contents (fs s') <> contents (fs s) ->
     contents (fs s') = delete (state_key k ns (state_file n)) (contents (fs s)) /\
     exists d m w w', path_of d = path_of base_dir ++ "signatures"%string :: k :: ns /\
       contents w = contents (fs s) /\ oa_metadata d (state_file n) w = (Ok m, w') /\
       (wrap64 (st_mtime m) <= wrap64 (as_secs at_ - 1))%Z) /\
  (r = Ok () -> contents (fs s') !! state_key k ns (state_file n) = None).
Proof.
  intros Hv Hr. destruct (writing s !! path) as [wr|] eqn:Ew.
  - unfold remove_state_file, st_bind at 1 in Hr. cbn [st_get] in Hr. rewrite Ew in Hr. injection Hr as <- <-.
    split_and!; done.
  - destruct (remove_state_file_run _ _ _ _ _ _ _ _ Hv Ew Hr) as [[Hno [Hw Hc]]|(-> & Hw & Hc & Hm)].
    + split_and!; [done|by intros []|by rewrite Hc|]. intros E. by apply Hno in E.
    + split_and!; [done|by intros []|done|]. intros _. by rewrite Hc, lookup_delete_eq.
Qed.

(** An append that fails after its entry was made, as when the disk is
    full, leaves the entry in the table: until the daemon restarts every append
    of another image to that path is turned down. *)
Theorem failed_append_blocks params k ns n s r s1 :
  ad_path params = of_names k (ns ++ [n]) ->
  start_append params s = (r, s1) -> (forall a, r <> Ok a) ->
  writing s !! ad_path params = None -> is_Some (writing s1 !! ad_path params) ->
  forall params' r' s', ad_path params' = ad_path params -> ad_image params' <> ad_image params ->
    start_append params' s1 = (r', s') -> forall a, r' <> Ok (Accepted a).
Proof.
  intros Hv Hr Hno Hw [wr Hw1] params' r' s' Hp Hi Hr' a Ha.
  apply (start_append_decided _ _ _ _ _ _ _ Hv), decided_effect in Hr as [[_ [Hs _]]|[_ He]]; [congruence|].
  rewrite <- Hp in Hv. apply (start_append_decided _ _ _ _ _ _ _ Hv), decided_effect in Hr' as [[Hr' _]|[_ He']];
    [by apply Hr' in Ha|]. rewrite Hp in He'.
  pose proof (effect_exclusive _ _ _ _ _ _ _ _ _ _ He' Ha Hw1) as Hi'.
  destruct He as (_ & _ & [(st & b & _ & _ & _ & _ & Hs & _)|(new & wr' & [Hi'' _] & Hw' & _)]); [congruence|].
  assert (wr' = wr) as -> by congruence. congruence.
Qed.

Lemma rename_run d a b w r w' :
  rename d a b w = (r, w') ->
  (r = Ok () /\ exists c, contents w !! (path_of d, a) = Some c /\
     contents w' = <[(path_of d, b) := c]> (delete (path_of d, a) (contents w))) \/
  r <> Ok () /\ contents w' = contents w.
Proof.
  unfold rename, map_io, io_match. destruct (oa_local_rename d a b w) as [[[]|e|] w1] eqn:E; apply rename_law in E;
    intros [= <- <-]; auto.
Qed.

(** Resuming an upload, when it answers an image: there was no upload of
    the path, there is one of that image now, and [.new.state] holds a state of
    that image, moved there from the state file if that existed; no other file
    changed. *)
Theorem resume_upload_spec k ns n s i s1 :
  resume_upload (of_names k (ns ++ [n])) s = (Ok i, s1) ->
  let v := of_names k (ns ++ [n]) in
  let state := state_key k ns (state_file n) in let new := state_key k ns (new_state_file n) in
  writing s !! v = None /\
  exists st b, decode_state b = Ok st /\ image st = i /\
    writing s1 = <[v := {| w_image := i; w_signatures := signatures st; w_replacing := false |}]> (writing s) /\
    (contents (fs s) !! state = Some b /\ contents (fs s1) = <[new := b]> (delete state (contents (fs s))) \/
     contents (fs s) !! state = None /\ contents (fs s) !! new = Some b /\ contents (fs s1) = contents (fs s)).
Proof.
  intros Hr v state new. fold v in Hr. unfold resume_upload in Hr. assert (Hs0 : same s s) by done.
  ok_next s Hr k' Hk. computed. destruct (dirs config !! k') as [cfg|]; [|done].
  ok_next s Hr l Hl. computed. case_decide; [done|].
  ok_next s Hr d Hd. ok_next s Hr name Hn. ok_next s Hr s3 Hg. computed.
  assert (name = n) as -> by (unfold v in *; rewrite final_name_snoc in *; congruence).
  apply on_fs_ok in Hd as (w & Hd & ->). apply state_dir_path in Hd.
  destruct (writing _ !! v) as [wr|] eqn:Ew; [done|]. split; [done|].
  assert (Hc : contents w = contents (fs s)) by apply Hs2.
  ok_next s Hr st Hst. destruct st as [st|].
  - apply read_some in Hst as (b & Hb & Hdec). cbn in Hb. rewrite Hd, Hc in Hb. st_inv Hr.
    apply on_fs_ok in Hrun as (w2 & Hrn & ->).
    destruct a. apply rename_run in Hrn as [(_ & c & Hc1 & Hc2)|[Hne _]]; [|done].
    rewrite Hd, (proj2 Hs5) in Hc1, Hc2. assert (c = b) as -> by (unfold state_key in Hc1; congruence).
    injection Hr as <- <-. exists st, b. cbn. split_and!; [done|done|by rewrite (proj1 Hs5)|]. left. by split.
  - apply read_none in Hst. cbn in Hst. rewrite Hd, Hc in Hst.
    ok_next s Hr st Hst2. destruct st as [st|]; [|done].
    apply read_some in Hst2 as (b & Hb & Hdec). rewrite Hd, (proj2 Hs5) in Hb.
    injection Hr as <- <-. exists st, b. cbn. split_and!; [done|done|by rewrite (proj1 Hs6)|]. right.
    split_and!; [done|done|apply Hs6].
Qed.
End Meta.

(** Merging signatures gives the sorted union: every old and every new
    signature once if the old list had no duplicate, in the stable order of
    the state file; the order in which signatures arrive does not matter, and
    a repeated request changes nothing. *)
Theorem append_signatures_spec old new :
  NoDup old ->
  (forall e, e ∈ append_signatures old new <-> e ∈ old \/ e ∈ new) /\
  NoDup (append_signatures old new) /\
  StronglySorted entry_le (append_signatures old new) /\
  append_signatures (append_signatures old new) new = append_signatures old new /\
  (forall new', new' ≡ₚ new -> append_signatures old new' = append_signatures old new).
Proof.
  intros Hnd. split_and!.
  - intros e. apply append_signatures_elem.
  - by apply append_signatures_NoDup.
  - apply sorted_sorted.
  - apply append_signatures_sub; [apply sorted_sorted|]. intros e. rewrite append_signatures_elem. auto.
  - intros new' Hp. apply (StronglySorted_unique entry_le); [apply sorted_sorted..|].
    apply NoDup_Permutation; [by apply append_signatures_NoDup..|]. intros e. by rewrite !append_signatures_elem, Hp.
Qed.

Definition example_entry (t : Z) (b : Byte.byte) : SignatureEntry :=
  {| Database.timestamp := t; signature := Signature.SshEd25519 [b] |}.
Lemma append_signatures_spec_witness :
  let old := [example_entry 2 Byte.x01] in let new := [example_entry 1 Byte.x05; example_entry 2 Byte.x01] in
  NoDup old /\ append_signatures (append_signatures old new) new = append_signatures old new.
Proof.
  intros old new. assert (Hnd : NoDup old) by apply NoDup_singleton. split; [exact Hnd|].
  apply (append_signatures_spec old new Hnd).
Defined.

(** ** A store in memory *)

Module Example.

#[local] Existing Instance ToyCrypto.crypto.

Definition dir_config : Directory := {|
  directory := Path.parse "/srv"; append_only := false; num_levels := 1; upload_keys := []; download_keys := [];
  auto_clean := false; keep_list_file := None; keep_min_directories := 0; keep_max_directories := 10; keep_recent := 0
|}.
Definition config : Config := {|
  machine_id := MachineId.mk (repeat Byte.x01 16); hostname := "a"; port := 1; db_dir := Path.parse "/db";
  config_dir := Path.parse "/etc"; aggressive_index_gc := false; dirs := {[ "k"%string := dir_config ]}
|}.

(** A codec of the image id alone, 32 bytes or nothing, and a key parser. *)
Definition encode (st : State) : Res string bytes :=
  match inner (image st) with
  | B32 b => if decide (length b = 32) then Ok b else Err "length"%string
  | Other _ => Err "kind"%string
  end.
Definition decode (b : bytes) : Res string State :=
  if decide (length b = 32) then Ok {| image := ImageId.mk (B32 b); signatures := [] |} else Err "eof"%string.
Definition parse_key (s : string) : option bytes := Some [Byte.x41].
Definition buffered (b : bytes) : nat := 8.

Lemma decode_stored st c st' :
  stored encode buffered st c -> decode c = Ok st' -> as_ref (image st') = as_ref (image st).
Proof.
  intros (b & He & _ & Hp). unfold encode in He. unfold decode. case_decide as Hc; [|done]. intros [= <-]. cbn.
  destruct (inner (image st)) as [b'|] eqn:Ei; [|done]. case_decide; [|done]. injection He as <-.
  destruct Hp as [t Ht]. assert (t = []) as -> by (apply length_zero_iff_nil; apply (f_equal length) in Ht; rewrite length_app in Ht; lia).
  rewrite app_nil_r in Ht. subst. unfold as_ref. by rewrite Ei.
Qed.

(** A store with the key "A" and room for [limit] bytes in a file. *)
Definition store (limit : nat) (files : gmap FileKey bytes) : Inner MemFs.Mem := {|
  fs := {| MemFs.mem_dirs := {[ ["signatures"%string]; ["signatures"%string; "k"%string] ]}; MemFs.mem_limit := limit;
           MemFs.mem_files := <[([] : list string, "master.key"%string) := [Byte.x41; Byte.x0a]]> files |};
  writing := ∅; collecting := None
|}.
Definition img (x : Byte.byte) : ImageId := from_slice (repeat x 32).
Definition v : VPath := of_names "k" ["i"%string].
Definition sigs : list Signature.Signature := [Signature.SshEd25519 (ToyCrypto.pad [Byte.x41])].
Definition append (x : Byte.byte) : AppendDir :=
  {| ad_path := v; ad_image := img x; ad_timestamp := 5000000; ad_signatures := sigs |}.
Definition replace (x y : Byte.byte) : ReplaceDir :=
  {| rd_path := v; rd_image := img x; rd_old_image := Some (img y); rd_timestamp := 5000000; rd_signatures := sigs |}.
Definition committed (x : Byte.byte) : gmap FileKey bytes :=
  {[ (["signatures"; "k"]%string, "i.state"%string) := repeat x 32 ]}.

Definition do_append (x : Byte.byte) : M Upload :=
  start_append (W := MemFs.Mem) config [] encode decode parse_key buffered (append x).
Definition do_replace (x y : Byte.byte) : M Upload :=
  start_replace (W := MemFs.Mem) config [] encode decode parse_key buffered (replace x y).
Definition do_resume : M ImageId := resume_upload (W := MemFs.Mem) config [] decode v.

Example append_then_commit :
  let '(r, s1) := do_append Byte.x01 (store 1000 ∅) in
  let '(_, s2) := dir_committed (W := MemFs.Mem) [] v s1 in
  r = Ok (Accepted New) /\ fst (get_image_id (W := MemFs.Mem) [] decode v s2) = Ok (img Byte.x01) /\
  fst (do_append Byte.x02 s2) = Ok (Rejected "already_exists" (Some (img Byte.x01))) /\
  fst (do_append Byte.x01 s2) = Ok (Accepted AlreadyDone).
Proof. vm_compute. repeat split. Qed.

(** The state is cut at 20 bytes, the loss is not noticed, and the committed
    state cannot be read. *)
Example lost_write :
  let '(r, s1) := do_append Byte.x01 (store 20 ∅) in
  let '(_, s2) := dir_committed (W := MemFs.Mem) [] v s1 in
  r = Ok (Accepted New) /\
  (exists e p, fst (get_image_id (W := MemFs.Mem) [] decode v s2) = Err (Decode p e)).
Proof. vm_compute. split; [reflexivity|eauto]. Qed.

End Example.


Lemma start_replace_cas_witness :
  let s := Example.store 1000 (Example.committed Byte.x01) in
  let s' := snd (Example.do_replace Byte.x02 Byte.x01 s) in
  fst (Example.do_replace Byte.x02 Byte.x01 s) = Ok (Accepted New) /\
  contents (fs s') !! (["signatures"; "k"]%string, state_file "i") =
    contents (fs s) !! (["signatures"; "k"]%string, state_file "i") /\
  fst (Example.do_replace Byte.x02 Byte.x03 s) = Ok (Rejected "replace_doesnt_match_index" (Some (Example.img Byte.x01))).
Proof.
  intros s s'. assert (Hr : fst (Example.do_replace Byte.x02 Byte.x01 s) = Ok (Accepted New))
    by (vm_compute; reflexivity). split; [exact Hr|]. split; [|vm_compute; reflexivity].
  assert (Hn : New <> AlreadyDone) by discriminate.
  exact (proj1 (proj2 (proj2 (start_replace_cas (W := MemFs.Mem) (H := MemFs.mem_openat) (H0 := ToyCrypto.crypto)
    Example.config [] Example.encode Example.decode Example.parse_key Example.buffered
    (Example.replace Byte.x02 Byte.x01) "k" [] "i" s _ _ New eq_refl (run_result _ _ Hr) eq_refl))) Hn).
Defined.

Lemma append_lifecycle_witness :
  let s := Example.store 1000 ∅ in let s1 := snd (Example.do_append Byte.x01 s) in
  fst (Example.do_append Byte.x01 s) = Ok (Accepted New) /\
  writing (snd (dir_committed (W := MemFs.Mem) [] Example.v s1)) = delete Example.v (writing s1).
Proof.
  intros s s1. assert (Hr : fst (Example.do_append Byte.x01 s) = Ok (Accepted New))
    by (vm_compute; reflexivity). split; [exact Hr|].
  assert (Hn : New <> AlreadyDone) by discriminate.
  exact (proj1 (proj1 (append_lifecycle (W := MemFs.Mem) (H := MemFs.mem_openat) (H0 := ToyCrypto.crypto)
    Example.config [] Example.encode Example.decode Example.parse_key Example.buffered (Example.append Byte.x01)
    "k" [] "i" s New s1 eq_refl (run_result _ _ Hr) Hn Example.decode_stored) _ _ (surjective_pairing _))).
Defined.

Lemma remove_state_file_safe_witness :
  let s := Example.store 1000 (Example.committed Byte.x01) in
  let s' := snd (remove_state_file (W := MemFs.Mem) [] Example.v 5000000000 s) in
  contents (fs s') !! state_key (W := MemFs.Mem) [] "k" [] (state_file "i") = None.
Proof.
  intros s s'. assert (Hr : fst (remove_state_file (W := MemFs.Mem) [] Example.v 5000000000 s) = Ok ())
    by (vm_compute; reflexivity).
  exact (proj2 (proj2 (proj2 (remove_state_file_safe (W := MemFs.Mem) (H := MemFs.mem_openat) []
    Example.v 5000000000 "k" [] "i" s _ s' eq_refl (run_result _ _ Hr)))) eq_refl).
Defined.

(** Four bytes of room are not enough for what the buffer writes at once. *)
Lemma failed_append_blocks_witness :
  let s := Example.store 4 ∅ in let s1 := snd (Example.do_append Byte.x01 s) in
  (forall a, fst (Example.do_append Byte.x01 s) <> Ok a) /\
  forall a, fst (Example.do_append Byte.x02 s1) <> Ok (Accepted a).
Proof.
  intros s s1. assert (Hr : forall a, fst (Example.do_append Byte.x01 s) <> Ok a) by (vm_compute; discriminate).
  assert (Hw : is_Some (writing s1 !! Example.v)) by (vm_compute; eauto).
  assert (Hi : Example.img Byte.x02 <> Example.img Byte.x01) by (vm_compute; discriminate).
  split; [exact Hr|].
  exact (failed_append_blocks (W := MemFs.Mem) (H := MemFs.mem_openat) (H0 := ToyCrypto.crypto)
    Example.config [] Example.encode Example.decode Example.parse_key Example.buffered (Example.append Byte.x01)
    "k" [] "i" s _ s1 eq_refl (surjective_pairing _) Hr eq_refl Hw (Example.append Byte.x02) _ _ eq_refl Hi
    (surjective_pairing _)).
Defined.

Lemma resume_upload_spec_witness :
  let s := Example.store 1000 (Example.committed Byte.x01) in
  fst (Example.do_resume s) = Ok (Example.img Byte.x01) /\ writing s !! Example.v = None.
Proof.
  intros s. assert (Hr : fst (Example.do_resume s) = Ok (Example.img Byte.x01)) by (vm_compute; reflexivity).
  split; [exact Hr|].
  exact (proj1 (resume_upload_spec (W := MemFs.Mem) (H := MemFs.mem_openat) Example.config [] Example.decode
    "k" [] "i" s _ _ (run_result _ _ Hr))).
Defined.
