(* ===== verification/MetaScan.v ===== *)
(** * Scans and indexes of the metadata store: [src/daemon/metadata/scan.rs],
    [first_scan.rs], [index_gc.rs], [read_index.rs], [store_index.rs] and the
    calls of [mod.rs] that use them

    A scan lists directories of the store; a file that cannot be read is moved
    away or skipped, never an error of the scan.  The garbage collection marks
    the images of every state file and of every upload and deletes the indexes
    that are not marked. *)
From S2P Require Import Prelude Serde VirtualPath Ids Time Signature Config Commands Fs MetaDir Text Metadata.
Local Open Scope st_scope.
Import VPath ImageId Database.

(** [name.truncate(name.len() - k)]. *)
Definition chop (k : nat) (name : string) : string := String.substring 0 (String.length name - k) name.

(** [for x in l { f(x)?; }]. *)
Definition for_each {S E A} (f : A -> ST S E ()) : list A -> ST S E () :=
  fix loop l := match l with [] => st_ret () | x :: l' => f x ;;; loop l' end.

(** ** Lemmas on loops *)

Section ForEach.
Context {S E A : Type} (R : S -> S -> Prop) `{!PreOrder R} (f : A -> ST S E ()).
Context (Hf : forall x s, R s (snd (f x s))).

Lemma for_each_all l s : R s (snd (for_each f l s)).
Proof.
  revert s. induction l as [|x l IH]; intros s; cbn; [done|]. unfold st_bind.
  pose proof (Hf x s) as Hx. destruct (f x s) as [[[]|e|] s1]; cbn in *; [|done..]. by etransitivity.
Qed.

(** A loop that ends without an error has run its body for each element. *)
Lemma for_each_in l s s' x :
  for_each f l s = (Ok (), s') -> x ∈ l -> exists s1 s2, R s s1 /\ f x s1 = (Ok (), s2) /\ R s2 s'.
Proof.
  revert s. induction l as [|y l IH]; intros s; cbn; [by intros _ ?%not_elem_of_nil|].
  intros Hr Hin. st_inv Hr. destruct a. pose proof (Hf y s) as Hy. rewrite Hrun in Hy. cbn in Hy.
  apply elem_of_cons in Hin as [->|Hin].
  - pose proof (for_each_all l s0) as Hl. unfold for_each in Hr. cbn in *. exists s, s0. split_and!; [done|done|].
    change (for_each f l s0 = (Ok (), s')) in Hr. by rewrite Hr in Hl.
  - destruct (IH _ Hr Hin) as (s1 & s2 & H1 & H2 & H3). exists s1, s2. split_and!; [by etransitivity|done|done].
Qed.
End ForEach.

Section Scan.
Context {W : Type} `{OpenAt W} `{HexCodec}.
Context (config : Config) (base_dir : Dir (W := W)) (decode_state : bytes -> Res string State).

Abbreviation read_st := (read_state decode_state).

(** ** [scan.rs] *)

(** The branch for a readable state: the name without [.state], and [.new]
    files take precedence over the others. *)
Definition put_state (name : string) (st : State) (res : gmap string State) : gmap string State :=
  let name := chop 6 name in
  if ends_with ".new" name then <[chop 4 name := st]> res
  else if decide (is_Some (res !! name)) then res else <[name := st]> res.

(** [match read { .. }] of one file. *)
Definition visit_state (dir : Dir (W := W)) (name : string) (res : gmap string State) : M (gmap string State) :=
  read <-- st_catch (on_fs (read_file dir name read_st)) ;;
  match read with
  | Ok (Some st) =>
      if decide (length (signatures st) < 1)
      then on_fs (rename_broken_file dir name) ;;; st_ret res
      else st_ret (put_state name st res)
  | Ok None => st_ret res
  | Err (Decode _ _) => on_fs (rename_broken_file dir name) ;;; st_ret res
  | Err _ => st_ret res
  | Panic => st_lift Panic
  end.

Fixpoint states_loop (vpath : VPath) (dir : Dir (W := W)) (names : list string) (res : gmap string State)
  : M (gmap string State) :=
  match names with
  | [] => st_ret res
  | name :: names' =>
      if ends_with ".new.state" name then
        p <-- st_lift (expect (join vpath (Path.parse (chop 10 name)))) ;;
        s <-- st_get ;;
        match writing s !! p with
        | None => logged (on_fs (remove_file dir name)) ;;; states_loop vpath dir names' res
        | Some _ => res' <-- visit_state dir name res ;; states_loop vpath dir names' res'
        end
      else res' <-- visit_state dir name res ;; states_loop vpath dir names' res'
  end.

Definition all_states (vpath : VPath) (dir : Dir (W := W)) : M (gmap string State) :=
  names <-- on_fs (list_files dir ".state") ;; states_loop vpath dir names ∅.

(** [Err(Error::Open(_, e)) if e.kind() == NotFound => absent]. *)
Definition unless_absent {A B} (m : ST W Error A) (absent : M B) (present : A -> M B) : M B :=
  r <-- st_catch (on_fs m) ;;
  match r with
  | Ok a => present a
  | Err (Open p e) => if decide (io_kind e = NotFound) then absent else st_err (Open p e)
  | Err e => st_err e
  | Panic => st_lift Panic
  end.

(** [Meta::scan_dir]. *)
Definition meta_scan_dir (path : VPath) : M (gmap string State) :=
  root <-- on_fs (signatures_dir base_dir) ;;
  unless_absent (open_vpath root path) (st_ret ∅) (all_states path).

(** ** [first_scan.rs]: the callback is called with the base directories *)

Definition Found (A : Type) : Type := ST (W * list VPath) Error A.
Definition on_store {A} (m : ST W Error A) : Found A :=
  fun s => let (r, w) := m (fst s) in (r, (w, snd s)).
Definition add_dir (v : VPath) : Found () := st_modify (fun s => (fst s, snd s ++ [v])).

Fixpoint scan_dir (level : nat) (dir : Dir (W := W)) (virtual_path : Path.t) : Found () :=
  match level with
  | S (S _ as level') =>
      items <-- on_store (list_dirs dir) ;;
      for_each (fun item =>
        sub <-- on_store (dir_if_exists dir item) ;;
        match sub with
        | Some sub_dir => scan_dir level' sub_dir (Path.join virtual_path (Path.parse item))
        | None => st_ret ()
        end) items
  | _ => v <-- st_lift (expect (from_path virtual_path)) ;; add_dir v
  end.

(** The configured directories, in the order of the map. *)
Definition scan : Found () :=
  root <-- on_store (signatures_dir base_dir) ;;
  for_each (fun '(virtual_name, cfg) =>
    dir <-- on_store (dir_if_exists root virtual_name) ;;
    match dir with
    | Some dir => scan_dir (num_levels cfg) dir (Path.join [Path.RootDir] (Path.parse virtual_name))
    | None => st_ret ()
    end) (map_to_list (dirs config)).

(** ** [index_gc.rs] *)

(** The body of the loop of [collect_dir]. *)
Definition collect_file (dir : Dir (W := W)) (name : string) : M () :=
  read <-- on_fs (read_file dir name read_st) ;;
  match read with Some st => mark_used (image st) | None => st_ret () end.
Definition collect_dir (dir : Dir (W := W)) : M () :=
  names <-- on_fs (list_files dir ".state") ;; for_each (collect_file dir) names.

Fixpoint gc_scan_dir (level : nat) (dir : Dir (W := W)) (virtual_path : Path.t) : M () :=
  match level with
  | S (S _ as level') =>
      items <-- on_fs (list_dirs dir) ;;
      for_each (fun item =>
        sub <-- on_fs (dir_if_exists dir item) ;;
        match sub with
        | Some sub_dir => gc_scan_dir level' sub_dir (Path.join virtual_path (Path.parse item))
        | None => st_ret ()
        end) items
  | _ =>
      root <-- on_fs (signatures_dir base_dir) ;;
      v <-- st_lift (expect (from_path virtual_path)) ;;
      unless_absent (open_vpath root v) (st_ret ()) collect_dir
  end.

Definition gc_scan : M () :=
  root <-- on_fs (signatures_dir base_dir) ;;
  for_each (fun '(virtual_name, cfg) =>
    dir <-- on_fs (dir_if_exists root virtual_name) ;;
    match dir with
    | Some dir => gc_scan_dir (num_levels cfg) dir (Path.join [Path.RootDir] (Path.parse virtual_name))
    | None => st_ret ()
    end) (map_to_list (dirs config)).

(** One file of the index directory. *)
Definition gc_file (sub_dir : Dir (W := W)) (file_name : string) : M () :=
  match from_str (chop 4 file_name) with
  | Ok image_id =>
      s <-- st_get ;;
      match collecting s with
      | None => st_err IndexGcInterrupted
      | Some set =>
          if decide (image_id ∈ set) then st_ret ()
          else logged (on_fs (remove_file sub_dir file_name))
      end
  | _ => st_ret ()
  end.

Definition full_collection : M () :=
  gc_scan ;;;
  root <-- on_fs (indexes_dir base_dir) ;;
  prefixes <-- on_fs (list_dirs root) ;;
  for_each (fun prefix =>
    sub <-- on_fs (dir_if_exists root prefix) ;;
    match sub with
    | Some sub_dir => names <-- on_fs (list_files sub_dir ".ds1") ;; for_each (gc_file sub_dir) names
    | None => st_ret ()
    end) prefixes.

(** [Meta::index_gc]. *)
Definition index_gc : M () :=
  st_modify (fun s => {| fs := fs s; writing := writing s;
    collecting := Some (list_to_set (map (fun e => w_image (snd e)) (map_to_list (writing s)))) |}) ;;;
  full_collection.

(** ** [read_index.rs], [store_index.rs] *)

Definition index_file (hex_id : string) : string := hex_id +:+ ".ds1".
(** [&hex_id[..2]], which panics when the string is shorter. *)
Definition index_prefix (hex_id : string) : option string :=
  if decide (2 <= String.length hex_id) then Some (String.substring 0 2 hex_id) else None.

(** [.dir_if_exists(prefix)?.ok_or(Error::IndexNotFound)?]. *)
Definition index_base (image_id : ImageId) : M (Dir (W := W)) :=
  root <-- on_fs (indexes_dir base_dir) ;;
  prefix <-- st_lift (expect (index_prefix (display image_id))) ;;
  base <-- on_fs (dir_if_exists root prefix) ;;
  st_lift (ok_or IndexNotFound base).

(** [f.read_to_end(&mut buf)]. *)
Definition read_to_end (f : File) : Res string bytes :=
  match file_error f with Some e => Err (io_msg e) | None => Ok (file_data f) end.

Definition read_bytes (image_id : ImageId) : M bytes :=
  base <-- index_base image_id ;;
  buf <-- on_fs (read_file base (index_file (display image_id)) read_to_end) ;;
  st_lift (ok_or IndexNotFound buf).

(** [read], for a type [IndexData] and its parser in [dir_signature]. *)
Definition read {IndexData : Type} (parse_index : ImageId -> File -> Res string IndexData)
    (image_id : ImageId) : M IndexData :=
  base <-- index_base image_id ;;
  file_res <-- st_catch (on_fs (read_file base (index_file (display image_id)) (parse_index image_id))) ;;
  match file_res with
  | Ok (Some data) => st_ret data
  | Ok None => st_err IndexNotFound
  | Err (Decode _ _) =>
      on_fs (rename_broken_file base (index_file (display image_id))) ;;; st_err IndexNotFound
  | Err e => st_err e
  | Panic => st_lift Panic
  end.

(** [|mut f| f.write_all(&data)]. *)
Definition write_data (dir : Dir (W := W)) (data : bytes) (tmpname : string) : ST W string () :=
  fun w => let (r, w') := oa_write_all dir tmpname data w in (res_map_err io_msg r, w').

Definition write (id : ImageId) (data : bytes) : M () :=
  let hex_id := display id in
  root <-- on_fs (indexes_dir base_dir) ;;
  prefix <-- st_lift (expect (index_prefix hex_id)) ;;
  base <-- on_fs (ensure_dir root (Path.parse prefix)) ;;
  on_fs (replace_file base (index_file hex_id) (write_data base data)).

(** [Meta::store_index]: a failure is only logged. *)
Definition store_index (id : ImageId) (data : bytes) : M () :=
  mark_used id ;;; logged (write id data).

(** ** Indexes: lemmas *)

Context `{!OpenAtLaws W} `{!HexLaws}.

#[local] Hint Resolve sub_dir_quiet open_file_quiet open_quiet quiet_ret quiet_fail quiet_panic quiet_lift
  quiet_map_io quiet_if_exists ensure_dir_quiet read_file_quiet open_path_quiet file_meta_quiet
  dir_if_exists_quiet list_dirs_quiet list_files_quiet open_vpath_quiet signatures_dir_quiet
  calm_lift calm_on_fs calm_mark calm_get : ciruela.

Lemma indexes_dir_quiet : quiet (indexes_dir base_dir).
Proof. apply ensure_dir_quiet. Qed.
#[local] Hint Resolve indexes_dir_quiet : ciruela.

(** The first two digits of an identifier are a plain directory name. *)
Lemma index_prefix_ok id p : index_prefix (display id) = Some p -> Path.name_ok p = true.
Proof.
  unfold index_prefix, display. case_decide as Hl; [|done]. intros [= <-].
  assert (Hd : forall i c, String.get i (match inner id with B32 ar => to_hex ar | Other slc => to_hex slc end) = Some c ->
    hex_digit c = true) by (intros i c; destruct (inner id); apply to_hex_digits).
  destruct (match inner id with B32 ar => _ | Other _ => _ end) as [|c [|d s]]; cbn in Hl; [lia|lia|].
  pose proof (Hd 0 c eq_refl) as Hc. pose proof (Hd 1 d eq_refl) as Hdd. clear Hd Hl. cbn [String.substring].
  replace (String.substring 0 0 s) with ""%string by (by destruct s).
  destruct c as [[] [] [] [] [] [] [] []]; try discriminate Hc;
    destruct d as [[] [] [] [] [] [] [] []]; try discriminate Hdd; reflexivity.
Qed.

(** Where the index of an image is. *)
Definition index_key (id : ImageId) : FileKey :=
  (path_of base_dir ++ ["indexes"%string; String.substring 0 2 (display id)], index_file (display id)).

Lemma index_prefix_some id p : index_prefix (display id) = Some p -> p = String.substring 0 2 (display id).
Proof. unfold index_prefix. case_decide; [by intros [= <-]|done]. Qed.

Lemma indexes_dir_path w d w' : indexes_dir base_dir w = (Ok d, w') -> path_of d = path_of base_dir ++ ["indexes"%string].
Proof.
  intros (ns & Hns & Hp)%ensure_dir_path. change (Path.parse "indexes") with (map Path.Normal ["indexes"%string]) in Hns.
  by apply normals_inj in Hns as <-.
Qed.

Lemma dir_if_exists_some d n w d' w' :
  dir_if_exists d n w = (Ok (Some d'), w') -> path_of d' = path_of d ++ [n].
Proof.
  unfold dir_if_exists. destruct (plain_name n); [|done]. intros Hr%if_exists_some.
  apply sub_dir_law in Hr as (_ & Hr & _). by apply Hr.
Qed.

Lemma index_base_path id s d s' :
  index_base id s = (Ok d, s') -> path_of d = fst (index_key id) /\ same s s'.
Proof.
  unfold index_base. intros Hr. assert (Hs0 : same s s) by done.
  apply (ok_bind _ _ s) in Hr as (root & s1 & Hroot & Hs1 & Hr); [|auto with ciruela|done].
  apply (ok_bind _ _ s) in Hr as (p & s2 & Hp & Hs2 & Hr); [|auto with ciruela|done].
  apply (ok_bind _ _ s) in Hr as (base & s3 & Hb & Hs3 & Hr); [|auto with ciruela|done].
  destruct base as [base|]; [|done]. injection Hr as <- <-. split; [|done].
  apply on_fs_ok in Hroot as (w1 & Hroot & _), Hb as (w2 & Hb & _).
  apply lift_ok in Hp as [Hp _]. apply index_prefix_some in Hp as ->.
  apply indexes_dir_path in Hroot. apply dir_if_exists_some in Hb. cbn.
  by rewrite Hb, Hroot, <- app_assoc.
Qed.

(** What a read answers is in the file of the index. *)
Lemma read_bytes_run id s b s' :
  read_bytes id s = (Ok b, s') -> contents (fs s) !! index_key id = Some b /\ same s s'.
Proof.
  unfold read_bytes. intros Hr. st_inv Hr. apply index_base_path in Hrun as [Hp Hs].
  apply (ok_bind _ _ s) in Hr as (buf & s2 & Hb & Hs2 & Hr); [|auto with ciruela|done].
  destruct buf as [buf|]; [|done]. injection Hr as <- <-. split; [|done].
  apply on_fs_ok in Hb as (w & Hb & _). unfold read_file in Hb. st_inv Hb.
  destruct a0 as [f|]; [|done]. unfold read_to_end in Hb. destruct (file_error f) eqn:Ef; [done|].
  injection Hb as <- _. apply open_file_some in Hrun; [|done]. rewrite (proj2 Hs), Hp in Hrun.
  exact Hrun.
Qed.

Lemma write_data_only d data : writes_only d (write_data d data).
Proof.
  intros t w r w' [old Hold] Hr k Hk. unfold write_data in Hr.
  destruct (oa_write_all d t data w) as [r1 w1] eqn:E. injection Hr as _ <-.
  pose proof (write_all_law _ _ _ _ _ _ _ E Hold) as (c1 & _ & _ & ->). by rewrite lookup_insert_ne.
Qed.

Lemma write_data_all d data t w w' :
  contents w !! (path_of d, t) = Some [] -> write_data d data t w = (Ok (), w') ->
  contents w' !! (path_of d, t) = Some data.
Proof.
  intros Hold Hr. unfold write_data in Hr. destruct (oa_write_all d t data w) as [[[]|e|] w1] eqn:E; [|done..].
  injection Hr as <-. pose proof (write_all_law _ _ _ _ _ _ _ E Hold) as (c & _ & Hc & ->).
  specialize (Hc eq_refl). subst c. by rewrite lookup_insert_eq.
Qed.

(** Nothing at all changed, as far as a reader can tell. *)
Definition unchanged (s s' : Inner W) : Prop := same s s' /\ collecting s' = collecting s.
Definition still {A} (m : M A) : Prop := forall s, unchanged s (snd (m s)).

Lemma still_lift {A} (r : Res Error A) : still (st_lift r).
Proof. done. Qed.
Lemma still_on_fs {A} (m : ST W Error A) : quiet m -> still (on_fs m).
Proof. intros Hm s. split; [by apply calm_on_fs|]. unfold on_fs. by destruct (m (fs s)). Qed.
Lemma unchanged_refl s : unchanged s s.
Proof. done. Qed.
Lemma unchanged_trans s1 s2 s3 : unchanged s1 s2 -> unchanged s2 s3 -> unchanged s1 s3.
Proof. intros [? ?] [? ?]. split; [by eapply same_trans|congruence]. Qed.

Lemma still_bind {A B} (m : M A) (f : A -> M B) s0 s r s' :
  still m -> unchanged s0 s -> st_bind f m s = (r, s') ->
  ((forall b, r <> Ok b) /\ unchanged s0 s') \/
  exists a s1, m s = (Ok a, s1) /\ unchanged s0 s1 /\ f a s1 = (r, s').
Proof.
  intros Hm Hs Hr. pose proof (unchanged_trans _ _ _ Hs (Hm s)) as Hu. unfold st_bind in Hr.
  destruct (m s) as [[a|e|] s1]; [right; by exists a, s1|left; by injection Hr as <- <-..].
Qed.

#[local] Hint Resolve still_lift still_on_fs unchanged_refl : ciruela.
Ltac still_step s0 H a Hm Hu :=
  let s := fresh "s" in
  apply (still_bind _ _ s0) in H; [destruct H as [H|(a & s & Hm & Hu & H)]|by auto with ciruela|by auto with ciruela].

(** [write] replaces the file of the index or leaves it. *)
Lemma write_run id data s r s' :
  write id data s = (r, s') ->
  let tmp := (fst (index_key id), (".tmp." +:+ index_file (display id))%string) in
  writing s' = writing s /\ collecting s' = collecting s /\
  (forall k, k <> tmp -> k <> index_key id -> contents (fs s') !! k = contents (fs s) !! k) /\
  (contents (fs s') !! index_key id = Some data \/
   r <> Ok () /\ contents (fs s') !! index_key id = contents (fs s) !! index_key id).
Proof.
  intros Hr tmp.
  assert (Hno : (forall b, r <> Ok b) /\ unchanged s s' ->
    writing s' = writing s /\ collecting s' = collecting s /\
    (forall k, k <> tmp -> k <> index_key id -> contents (fs s') !! k = contents (fs s) !! k) /\
    (contents (fs s') !! index_key id = Some data \/
     r <> Ok () /\ contents (fs s') !! index_key id = contents (fs s) !! index_key id)).
  { intros [Hn [[? Hc] ?]]. rewrite Hc. split_and!; [done..|]. right. by split. }
  unfold write in Hr. cbn zeta in Hr.
  still_step s Hr root Hroot Hu1; [by apply Hno|]. still_step s Hr p Hp Hu2; [by apply Hno|].
  still_step s Hr base Hb Hu3; [by apply Hno|]. clear Hno.
  apply on_fs_ok in Hroot as (w1 & Hroot & _), Hb as (w2 & Hb & _).
  apply lift_ok in Hp as [Hp _]. pose proof (index_prefix_ok _ _ Hp) as Hok. apply index_prefix_some in Hp as ->.
  apply indexes_dir_path in Hroot. apply ensure_dir_path in Hb as (ns & Hns & Hb).
  rewrite Path.parse_name in Hns by done. apply (normals_inj [_]) in Hns as <-.
  rewrite Hroot, <- app_assoc in Hb. change (path_of base = fst (index_key id)) in Hb.
  destruct Hu3 as [[Hw Hc] Hcol]. unfold on_fs in Hr.
  destruct (replace_file base (index_file (display id)) (write_data base data) (fs s2)) as [r1 w3] eqn:E.
  injection Hr as <- <-. cbn. split; [done|]. split; [done|].
  apply replace_file_run in E as [[Hne Hk]|(-> & w4 & w5 & c & Hw4 & Hrun & Hc5 & Hk)]; [..|apply write_data_only].
  - rewrite Hb in Hk. split; [intros k Hkt _; by rewrite Hk, Hc|]. right. split; [done|].
    rewrite <- Hc. apply Hk. intros E. injection E. apply not_eq_sym, tmp_name_ne.
  - rewrite Hb in Hw4, Hc5, Hk. fold tmp in Hw4, Hc5, Hk. change (fst (index_key id), _) with (index_key id) in Hk.
    assert (Hs4 : is_Some (contents w4 !! (path_of base, (".tmp." +:+ index_file (display id))%string)))
      by (rewrite Hw4, Hb, lookup_insert_eq; eauto).
    pose proof (write_data_only _ _ _ _ _ _ Hs4 Hrun) as Hk5. rewrite Hb in Hk5. fold tmp in Hk5. split.
    + intros k Hkt Hkk. by rewrite Hk, lookup_insert_ne, lookup_delete_ne, Hk5, Hw4, lookup_insert_ne, Hc.
    + left. rewrite Hk, lookup_insert_eq. f_equal. eapply write_data_all in Hrun; [|by rewrite Hw4, Hb, lookup_insert_eq].
      rewrite Hb in Hrun. fold tmp in Hrun. congruence.
Qed.

(** ** The collection marks every image that is used *)

(** Files and uploads are as they were, and every mark is still there. *)
Definition grows (s s' : Inner W) : Prop :=
  same s s' /\ (forall C, collecting s = Some C -> exists C', collecting s' = Some C' /\ C ⊆ C').
Definition growing {A} (m : M A) : Prop := forall s, grows s (snd (m s)).

#[local] Instance grows_preorder : PreOrder grows.
Proof.
  split.
  - intros s. split; [done|]. eauto.
  - intros s1 s2 s3 [Hs1 HC1] [Hs2 HC2]. split; [by eapply same_trans|].
    intros C (C2 & HC & Hsub)%HC1. apply HC2 in HC as (C3 & ? & ?). exists C3. split; [done|]. by etransitivity.
Qed.

Lemma still_growing {A} (m : M A) : still m -> growing m.
Proof. intros Hm s. destruct (Hm s) as [Hs HC]. split; [done|]. rewrite HC. eauto. Qed.
Lemma mark_growing i : growing (mark_used i).
Proof. intros s. split; [done|]. intros C HC. cbn. rewrite HC. eexists. split; [done|]. set_solver. Qed.
Lemma growing_bind {A B} (m : M A) (f : A -> M B) : growing m -> (forall a, growing (f a)) -> growing (st_bind f m).
Proof.
  intros Hm Hf s. unfold st_bind. specialize (Hm s). destruct (m s) as [[a|e|] s1]; [|done..].
  etransitivity; [exact Hm|]. apply Hf.
Qed.
Lemma growing_each {A} (f : A -> M ()) l : (forall x, growing (f x)) -> growing (for_each f l).
Proof. intros Hf s. apply (for_each_all grows). intros x. apply Hf. Qed.
Lemma growing_unless {A B} (m : ST W Error A) (absent : M B) present :
  quiet m -> growing absent -> (forall a, growing (present a)) -> growing (unless_absent m absent present).
Proof.
  intros Hm Ha Hp. apply growing_bind.
  - intros s. unfold st_catch. pose proof (still_growing _ (still_on_fs _ Hm) s) as Hg. by destruct (on_fs m s).
  - intros [a|[]|]; auto using still_growing with ciruela; try (by apply still_growing).
    case_decide; [done|by apply still_growing].
Qed.
Lemma growing_ret {A} (a : A) : growing (st_ret a).
Proof. intros s. by apply (still_growing (st_lift (Ok a))). Qed.
#[local] Hint Resolve still_growing mark_growing growing_bind growing_ret : ciruela.

Lemma collect_file_growing d n : growing (collect_file d n).
Proof. apply growing_bind; [auto with ciruela|]. intros [st|]; auto with ciruela. Qed.
Lemma collect_dir_growing d : growing (collect_dir d).
Proof.
  apply growing_bind; [auto with ciruela|]. intros names. apply growing_each. apply collect_file_growing.
Qed.
(** The body of the loop of [gc_scan_dir] and of [gc_scan]. *)
Definition gc_item (level : nat) (dir : Dir (W := W)) (virtual_path : Path.t) (item : string) : M () :=
  sub <-- on_fs (dir_if_exists dir item) ;;
  match sub with
  | Some sub_dir => gc_scan_dir level sub_dir (Path.join virtual_path (Path.parse item))
  | None => st_ret ()
  end.

Lemma gc_scan_dir_growing level d p : growing (gc_scan_dir level d p).
Proof.
  revert d p. induction level as [|[|level] IH]; intros d p; cbn [gc_scan_dir].
  1-2: apply growing_bind; [auto with ciruela|]; intros root; apply growing_bind; [auto with ciruela|]; intros v;
    apply growing_unless; [auto with ciruela..|apply collect_dir_growing].
  apply growing_bind; [auto with ciruela|]. intros items. apply growing_each. intros i.
  apply growing_bind; [auto with ciruela|]. intros [sub|]; [apply IH|auto with ciruela].
Qed.
Lemma gc_item_growing level d p i : growing (gc_item level d p i).
Proof. apply growing_bind; [auto with ciruela|]. intros [sub|]; [apply gc_scan_dir_growing|auto with ciruela]. Qed.
Lemma gc_scan_growing : growing gc_scan.
Proof.
  apply growing_bind; [auto with ciruela|]. intros root. apply growing_each. intros [name cfg].
  apply growing_bind; [auto with ciruela|]. intros [d|]; [apply gc_scan_dir_growing|auto with ciruela].
Qed.

(** [image] is marked in [s']. *)
Definition marked (img : ImageId) (s : Inner W) : Prop := exists C, collecting s = Some C /\ img ∈ C.
Lemma marked_grows img s s' : grows s s' -> marked img s -> marked img s'.
Proof. intros [_ Hg] (C & HC & Hi). apply Hg in HC as (C' & ? & ?). exists C'. split; [done|]. set_solver. Qed.
Lemma mark_marked img s s' r : is_Some (collecting s) -> mark_used img s = (r, s') -> marked img s'.
Proof. intros [C HC] [= _ <-]. unfold marked. cbn. rewrite HC. eexists. split; [done|]. set_solver. Qed.

(** A collection is going on. *)
Definition gc_on (s : Inner W) : Prop := is_Some (collecting s).
Lemma gc_on_grows s s' : grows s s' -> gc_on s -> gc_on s'.
Proof. intros [_ Hg] [C HC]. apply Hg in HC as (C' & ? & _). by exists C'. Qed.

(** A state file the collection looks for. *)
Definition state_name (n : string) : Prop := String.prefix "." n = false /\ ends_with ".state" n = true.

Lemma ok_step {A B} (m : M A) (f : A -> M B) s b s' :
  still m -> st_bind f m s = (Ok b, s') -> exists a s1, m s = (Ok a, s1) /\ unchanged s s1 /\ f a s1 = (Ok b, s').
Proof. intros Hm Hr. apply (still_bind _ _ s) in Hr as [[Hr _]|?]; [by edestruct Hr|done..]. Qed.
Ltac ok_still H a Hm Hu :=
  let s := fresh "s" in apply ok_step in H as (a & s & Hm & Hu & H); [|by auto with ciruela].

Lemma collect_dir_marks d s s' n b st :
  collect_dir d s = (Ok (), s') -> gc_on s -> contents (fs s) !! (path_of d, n) = Some b -> state_name n ->
  decode_state b = Ok st -> marked (image st) s'.
Proof.
  intros Hr Hon Hb [Hp He] Hdec. unfold collect_dir in Hr. ok_still Hr names Hn Hu.
  apply on_fs_ok in Hn as (w & Hn & _).
  assert (Hin : n ∈ names) by (eapply list_files_in; eauto).
  destruct (for_each_in grows _ (collect_file_growing d) _ _ _ _ Hr Hin) as (s1 & s2 & Hg1 & Hr1 & Hg2).
  clear Hr. rename Hr1 into Hr.
  eapply marked_grows; [exact Hg2|]. unfold collect_file in Hr. ok_still Hr o Ho Hu1.
  assert (Hc : contents (fs s1) !! (path_of d, n) = Some b)
    by (rewrite (proj2 (proj1 Hg1)), (proj2 (proj1 Hu)); done).
  assert (Hon3 : gc_on s3) by (unfold gc_on; rewrite (proj2 Hu1); eapply gc_on_grows; [exact Hg1|];
    unfold gc_on; by rewrite (proj2 Hu)).
  destruct o as [st'|].
  - destruct (read_some _ _ _ _ _ _ Ho) as (b' & Hb' & Hd'). assert (st' = st) as -> by congruence. by eapply mark_marked.
  - pose proof (read_none _ _ _ _ _ Ho). congruence.
Qed.

(** The directory below [signatures] of the names [k :: ns]. *)
Definition sig_path (k : string) (ns : list string) : list string :=
  path_of base_dir ++ "signatures"%string :: k :: ns.

Lemma signatures_dir_path w d w' :
  signatures_dir base_dir w = (Ok d, w') -> path_of d = path_of base_dir ++ ["signatures"%string].
Proof.
  intros (ns & Hns & Hp)%ensure_dir_path.
  change (Path.parse "signatures") with (map Path.Normal ["signatures"%string]) in Hns.
  by apply normals_inj in Hns as <-.
Qed.

Lemma from_path_of_names k ns : from_path (path (of_names k ns)) = Some (of_names k ns).
Proof. done. Qed.
Lemma join_item k ns n : Path.name_ok n = true ->
  Path.join (path (of_names k ns)) (Path.parse n) = path (of_names k (ns ++ [n])).
Proof. intros Hn. rewrite Path.parse_name by done. cbn. by rewrite map_app. Qed.

(** The bottom of the recursion. *)
Definition gc_leaf (virtual_path : Path.t) : M () :=
  root <-- on_fs (signatures_dir base_dir) ;;
  v <-- st_lift (expect (from_path virtual_path)) ;;
  unless_absent (open_vpath root v) (st_ret ()) collect_dir.

Lemma gc_leaf_marks k ns s s' n b st :
  gc_leaf (path (of_names k ns)) s = (Ok (), s') -> gc_on s ->
  contents (fs s) !! (sig_path k ns, n) = Some b -> state_name n ->
  decode_state b = Ok st -> marked (image st) s'.
Proof.
  intros Hr Hon Hb Hn Hdec. unfold gc_leaf in Hr. ok_still Hr root Hroot Hu.
  apply on_fs_ok in Hroot as (w & Hroot & _). apply signatures_dir_path in Hroot.
  ok_still Hr v Hv Hu1. rewrite from_path_of_names in Hv. injection Hv as <- <-.
  assert (Hpath : sig_path k ns = path_of root ++ k :: ns) by (rewrite Hroot; unfold sig_path; by rewrite <- app_assoc).
  assert (Hb0 : contents (fs s0) !! (path_of root ++ k :: ns, n) = Some b)
    by (rewrite (proj2 (proj1 Hu)), <- Hpath; exact Hb).
  assert (Hon0 : gc_on s0) by (unfold gc_on; by rewrite (proj2 Hu)).
  unfold unless_absent in Hr. unfold st_bind at 1, st_catch in Hr.
  pose proof (still_on_fs _ (open_vpath_quiet root (of_names k ns)) s0) as Hu2.
  destruct (on_fs (open_vpath root (of_names k ns)) s0) as [r s1] eqn:Eo. cbn in Hu2.
  unfold on_fs in Eo. destruct (open_vpath root (of_names k ns) (fs s0)) as [r1 w1] eqn:Ev. injection Eo as -> <-.
  destruct r as [d|[]|]; try done.
  - apply open_vpath_path in Ev. eapply collect_dir_marks; [exact Hr|done| |done|exact Hdec].
    rewrite (proj2 (proj1 Hu2)), Ev. exact Hb0.
  - case_decide as Hk; [|done]. apply (open_vpath_absent _ _ _ _ _ _ _ n) in Ev; [|done]. congruence.
Qed.

Lemma gc_scan_dir_marks level k ns1 ns2 d s s' n b st :
  gc_scan_dir level d (path (of_names k ns1)) s = (Ok (), s') -> gc_on s ->
  path_of d = sig_path k ns1 -> length ns2 = level - 1 -> forallb Path.name_ok ns2 = true ->
  contents (fs s) !! (sig_path k (ns1 ++ ns2), n) = Some b -> state_name n ->
  decode_state b = Ok st -> marked (image st) s'.
Proof.
  revert ns1 ns2 d s s'. induction level as [|[|level] IH]; intros ns1 ns2 d s s' Hr Hon Hd Hl Hok Hb Hn Hdec;
    cbn [gc_scan_dir] in Hr.
  1-2: by (destruct ns2; [|done]; rewrite app_nil_r in Hb; eapply gc_leaf_marks).
  destruct ns2 as [|item ns2]; [done|]. cbn in Hl, Hok. apply andb_true_iff in Hok as [Hi Hok].
  ok_still Hr its Hit Hu. apply on_fs_ok in Hit as (w & Hit & _).
  assert (Hbelow : forall s0, contents (fs s0) = contents (fs s) ->
    contents (fs s0) !! (path_of d ++ item :: ns2, n) = Some b).
  { intros s1 ->. rewrite Hd, <- Hb. unfold sig_path. by rewrite <- app_assoc. }
  assert (Hin : item ∈ its).
  { apply (list_dirs_in _ _ _ _ item ns2 n Hit). exists b. by apply Hbelow. }
  destruct (for_each_in grows _ (gc_item_growing (S level) d _) _ _ _ _ Hr Hin) as (s1 & s2 & Hg1 & Hr1 & Hg2).
  clear Hr. eapply marked_grows; [exact Hg2|]. unfold gc_item in Hr1.
  assert (Hc1 : contents (fs s1) = contents (fs s)) by (rewrite (proj2 (proj1 Hg1)); apply Hu).
  assert (Hon1 : gc_on s1) by (eapply gc_on_grows; [exact Hg1|]; unfold gc_on; by rewrite (proj2 Hu)).
  ok_still Hr1 sub Hsub Hu1. apply on_fs_ok in Hsub as (w1 & Hsub & _). destruct sub as [sub|].
  - rewrite join_item in Hr1 by done. eapply (IH _ ns2); [exact Hr1| | |lia|exact Hok| |exact Hn|exact Hdec].
    + unfold gc_on. by rewrite (proj2 Hu1).
    + apply dir_if_exists_some in Hsub. rewrite Hsub, Hd. unfold sig_path. by rewrite <- app_assoc.
    + rewrite (proj2 (proj1 Hu1)), Hc1, <- app_assoc. exact Hb.
  - apply (dir_if_exists_none _ _ _ _ ns2 n) in Hsub. by rewrite Hbelow in Hsub.
Qed.

(** A state file of a configured directory, at the level of the directory. *)
Definition referenced (img : ImageId) (s : Inner W) : Prop :=
  exists k cfg ns n b st, dirs config !! k = Some cfg /\ length ns = num_levels cfg - 1 /\
    forallb Path.name_ok (k :: ns) = true /\ state_name n /\
    contents (fs s) !! (sig_path k ns, n) = Some b /\ decode_state b = Ok st /\ image st = img.

Lemma gc_scan_marks img s s' :
  gc_scan s = (Ok (), s') -> gc_on s -> referenced img s -> marked img s'.
Proof.
  intros Hr Hon (k & cfg & ns & n & b & st & Hcfg & Hl & Hok & Hn & Hb & Hdec & <-).
  cbn in Hok. apply andb_true_iff in Hok as [Hk Hok]. unfold gc_scan in Hr. ok_still Hr root Hroot Hu.
  apply on_fs_ok in Hroot as (w & Hroot & _). apply signatures_dir_path in Hroot.
  assert (Hin : (k, cfg) ∈ map_to_list (dirs config)) by (by apply elem_of_map_to_list).
  assert (Hgr : forall x : string * Directory, growing ((fun '(name, cfg) => gc_item (num_levels cfg) root [Path.RootDir] name) x))
    by (intros [? ?]; apply gc_item_growing).
  destruct (for_each_in grows _ Hgr _ _ _ _ Hr Hin) as (s1 & s2 & Hg1 & Hr1 & Hg2). clear Hr Hgr.
  eapply marked_grows; [exact Hg2|]. unfold gc_item in Hr1.
  assert (Hc1 : contents (fs s1) = contents (fs s)) by (rewrite (proj2 (proj1 Hg1)); apply Hu).
  assert (Hon1 : gc_on s1) by (eapply gc_on_grows; [exact Hg1|]; unfold gc_on; by rewrite (proj2 Hu)).
  ok_still Hr1 sub Hsub Hu1. apply on_fs_ok in Hsub as (w1 & Hsub & _). destruct sub as [sub|].
  - rewrite Path.parse_name in Hr1 by done. change (Path.join _ _) with (path (of_names k [])) in Hr1.
    eapply (gc_scan_dir_marks _ _ [] ns); [exact Hr1| | |exact Hl|exact Hok| |exact Hn|exact Hdec].
    + unfold gc_on. by rewrite (proj2 Hu1).
    + apply dir_if_exists_some in Hsub. rewrite Hsub, Hroot. unfold sig_path. by rewrite <- app_assoc.
    + rewrite (proj2 (proj1 Hu1)), Hc1. exact Hb.
  - apply (dir_if_exists_none _ _ _ _ ns n) in Hsub. rewrite Hroot, <- app_assoc, Hc1 in Hsub.
    unfold sig_path in Hb. cbn in Hsub. congruence.
Qed.

(** ** The collection deletes only what is not marked *)

(** What the deletions leave, for a given image. *)
Definition keeps (img : ImageId) (s s' : Inner W) : Prop :=
  writing s' = writing s /\ collecting s' = collecting s /\
  (forall D f, (forall p, D <> path_of base_dir ++ ["indexes"%string; p]) ->
     contents (fs s') !! (D, f) = contents (fs s) !! (D, f)) /\
  (marked img s -> forall D, contents (fs s') !! (D, index_file (display img)) = contents (fs s) !! (D, index_file (display img))).

#[local] Instance keeps_preorder img : PreOrder (keeps img).
Proof.
  split; [by intros s|]. intros s1 s2 s3 (Hw1 & HC1 & Hd1 & Hi1) (Hw2 & HC2 & Hd2 & Hi2). unfold keeps.
  split_and!; [congruence|congruence| |].
  - intros D f HD. by rewrite Hd2, Hd1.
  - intros Hm D. rewrite Hi2, Hi1; [done|done|]. destruct Hm as (C & HC & ?). exists C. by rewrite HC1.
Qed.

Lemma unchanged_keeps img s s' : unchanged s s' -> keeps img s s'.
Proof. intros [[? Hc] ?]. unfold keeps. by rewrite Hc. Qed.

Lemma chop_index_file hex : chop 4 (index_file hex) = hex.
Proof.
  unfold chop, index_file. rewrite string_length_app. cbn. rewrite Nat.add_sub. apply substring_app_l.
Qed.

Lemma gc_file_keeps img d p name s :
  canonical img -> path_of d = path_of base_dir ++ ["indexes"%string; p] -> keeps img s (snd (gc_file d name s)).
Proof.
  intros Hcan Hd. unfold gc_file. destruct (from_str (chop 4 name)) as [id|e|] eqn:Eid; [|done..].
  unfold st_bind, st_get. destruct (collecting s) as [C|] eqn:EC; [|done]. case_decide as Hin; [done|].
  unfold logged, on_fs. destruct (remove_file d name (fs s)) as [r w] eqn:E.
  apply remove_file_run in E. assert (Hk : keeps img s (with_fs w s)).
  { unfold keeps. cbn. destruct E as [[_ Hc]|[_ Hc]]; rewrite Hc; [|done]. split_and!; [done|done| |].
    - intros D f HD. rewrite lookup_delete_ne; [done|]. intros [= <- <-]. by eapply HD.
    - intros (C' & HC' & Hm) D. rewrite lookup_delete_ne; [done|]. intros [= _ Hn].
      rewrite Hn, chop_index_file, from_str_display in Eid by done. injection Eid as <-. congruence. }
  by destruct r as [[]| |].
Qed.

Lemma keeps_bind {A B} img (m : M A) (f : A -> M B) s :
  still m -> (forall a s1, m s = (Ok a, s1) -> keeps img s1 (snd (f a s1))) -> keeps img s (snd (st_bind f m s)).
Proof.
  intros Hm Hf. specialize (Hm s). apply (unchanged_keeps img) in Hm. unfold st_bind.
  destruct (m s) as [[a|e|] s1] eqn:E; [|done..]. etransitivity; [exact Hm|]. by apply Hf.
Qed.

(** The part of [full_collection] after the scan. *)
Definition gc_delete : M () :=
  root <-- on_fs (indexes_dir base_dir) ;;
  prefixes <-- on_fs (list_dirs root) ;;
  for_each (fun prefix =>
    sub <-- on_fs (dir_if_exists root prefix) ;;
    match sub with
    | Some sub_dir => names <-- on_fs (list_files sub_dir ".ds1") ;; for_each (gc_file sub_dir) names
    | None => st_ret ()
    end) prefixes.

Lemma gc_delete_keeps img s : canonical img -> keeps img s (snd (gc_delete s)).
Proof.
  intros Hcan. unfold gc_delete. apply keeps_bind; [auto with ciruela|]. intros root s1 Hroot.
  apply on_fs_ok in Hroot as (w & Hroot & _). apply indexes_dir_path in Hroot.
  apply keeps_bind; [auto with ciruela|]. intros prefixes s2 _. apply (for_each_all (keeps img)).
  intros prefix s3. apply keeps_bind; [auto with ciruela|]. intros sub s4 Hsub.
  apply on_fs_ok in Hsub as (w1 & Hsub & _). destruct sub as [sub|]; [|done].
  apply dir_if_exists_some in Hsub. rewrite Hroot, <- app_assoc in Hsub.
  apply keeps_bind; [auto with ciruela|]. intros names s5 _. apply (for_each_all (keeps img)).
  intros name s6. exact (gc_file_keeps _ _ _ _ _ Hcan Hsub).
Qed.

(** ** The first scan finds every base directory *)

(** More is found, and no file changes. *)
Definition finds (s s' : W * list VPath) : Prop :=
  contents (fst s') = contents (fst s) /\ exists more, snd s' = snd s ++ more.
#[local] Instance finds_preorder : PreOrder finds.
Proof.
  split; [intros s; split; [done|]; exists []; by rewrite app_nil_r|].
  intros s1 s2 s3 [Hc1 [m1 H1']] [Hc2 [m2 H2']]. split; [congruence|]. exists (m1 ++ m2). by rewrite H2', H1', app_assoc.
Qed.

Lemma finds_store {A} (m : ST W Error A) s : quiet m -> finds s (snd (on_store m s)).
Proof.
  intros Hm. unfold on_store. specialize (Hm (fst s)). destruct (m (fst s)) as [r w].
  split; [done|]. exists []. by rewrite app_nil_r.
Qed.
Lemma finds_bind {A B} (m : Found A) (f : A -> Found B) s :
  finds s (snd (m s)) -> (forall a s', finds s' (snd (f a s'))) -> finds s (snd (st_bind f m s)).
Proof.
  intros Hm Hf. unfold st_bind. destruct (m s) as [[a|e|] s1]; [|done..]. cbn in Hm. etransitivity; [exact Hm|apply Hf].
Qed.

(** The body of the loops of [scan_dir] and [scan]. *)
Definition scan_item (level : nat) (dir : Dir (W := W)) (virtual_path : Path.t) (item : string) : Found () :=
  sub <-- on_store (dir_if_exists dir item) ;;
  match sub with
  | Some sub_dir => scan_dir level sub_dir (Path.join virtual_path (Path.parse item))
  | None => st_ret ()
  end.

Lemma scan_dir_finds level d p s : finds s (snd (scan_dir level d p s)).
Proof.
  revert d p s. induction level as [|[|level] IH]; intros d p s; cbn [scan_dir].
  1-2: apply finds_bind; [done|]; intros v s'; split; [done|]; by exists [v].
  apply finds_bind; [apply finds_store, list_dirs_quiet|]. intros items' s'. apply (for_each_all finds).
  intros i s1. apply finds_bind; [apply finds_store, dir_if_exists_quiet|]. intros [sub|] s2; [apply IH|done].
Qed.
Lemma scan_item_finds level d p i s : finds s (snd (scan_item level d p i s)).
Proof.
  apply finds_bind; [apply finds_store, dir_if_exists_quiet|]. intros [sub|] s2; [apply scan_dir_finds|done].
Qed.

Lemma on_store_ok {A} (m : ST W Error A) s a s' :
  on_store m s = (Ok a, s') -> exists w, m (fst s) = (Ok a, w) /\ s' = (w, snd s).
Proof. unfold on_store. destruct (m (fst s)) as [r w] eqn:E. intros [= -> <-]. eauto. Qed.

Lemma finds_in v s s' : finds s s' -> v ∈ snd s -> v ∈ snd s'.
Proof. intros [_ [more ->]] Hv. apply elem_of_app. by left. Qed.

Lemma scan_item_sub level d p i s s' :
  scan_item level d p i s = (Ok (), s') -> Path.name_ok i = true -> forall rest f,
  is_Some (contents (fst s) !! (path_of d ++ i :: rest, f)) ->
  exists sub s1, path_of sub = path_of d ++ [i] /\ contents (fst s1) = contents (fst s) /\
    scan_dir level sub (Path.join p [Path.Normal i]) s1 = (Ok (), s').
Proof.
  unfold scan_item. intros Hr Hi rest f Hs. st_inv Hr. apply on_store_ok in Hrun as (w & Hsub & ->).
  pose proof (dir_if_exists_quiet d i (fst s)) as Hq. rewrite Hsub in Hq. destruct a as [sub|].
  - rewrite Path.parse_name in Hr by done. apply dir_if_exists_some in Hsub. by exists sub, (w, snd s).
  - rewrite (dir_if_exists_none _ _ _ _ rest f Hsub) in Hs. by destruct Hs.
Qed.

Lemma scan_dir_complete level k ns1 ns2 d s s' f :
  scan_dir level d (path (of_names k ns1)) s = (Ok (), s') ->
  path_of d = sig_path k ns1 -> length ns2 = level - 1 -> forallb Path.name_ok ns2 = true ->
  is_Some (contents (fst s) !! (sig_path k (ns1 ++ ns2), f)) -> of_names k (ns1 ++ ns2) ∈ snd s'.
Proof.
  revert ns1 ns2 d s s'. induction level as [|[|level] IH]; intros ns1 ns2 d s s' Hr Hd Hl Hok Hs; cbn [scan_dir] in Hr.
  1-2: destruct ns2; [|done]; rewrite app_nil_r; rewrite from_path_of_names in Hr; injection Hr as <-; cbn;
    apply elem_of_app; right; by left.
  destruct ns2 as [|item ns2]; [done|]. cbn in Hl, Hok. apply andb_true_iff in Hok as [Hi Hok].
  assert (Hbelow : sig_path k (ns1 ++ item :: ns2) = path_of d ++ item :: ns2)
    by (rewrite Hd; unfold sig_path; by rewrite <- app_assoc).
  st_inv Hr. apply on_store_ok in Hrun as (w & Hit & ->).
  pose proof (list_dirs_quiet d (fst s)) as Hq. rewrite Hit in Hq. cbn in Hq.
  rewrite Hbelow in Hs. assert (Hin : item ∈ a) by exact (list_dirs_in _ _ _ _ _ _ _ Hit Hs).
  destruct (for_each_in finds _ (scan_item_finds (S level) d _) _ _ _ _ Hr Hin) as (s1 & s2 & Hf1 & Hr1 & Hf2). clear Hr.
  eapply finds_in; [exact Hf2|]. assert (Hc1 : contents (fst s1) = contents (fst s)) by (rewrite (proj1 Hf1); exact Hq).
  rewrite <- Hc1 in Hs. destruct (scan_item_sub _ _ _ _ _ _ Hr1 Hi _ _ Hs) as (sub & s3 & Hsub & Hc3 & Hr3).
  change (Path.join (path (of_names k ns1)) [Path.Normal item]) with (path (of_names k ns1) ++ [Path.Normal item]) in Hr3.
  rewrite <- Hbelow, <- Hc3 in Hs. replace (ns1 ++ item :: ns2) with ((ns1 ++ [item]) ++ ns2) in * by (by rewrite <- app_assoc).
  eapply (IH _ ns2); [|rewrite Hsub, Hd; unfold sig_path; by rewrite <- app_assoc|lia|exact Hok|exact Hs].
  rewrite <- Hr3. f_equal. cbn. by rewrite map_app.
Qed.

(** ** Reading the states of a directory *)

Lemma ends_with_chop suf s : ends_with suf s = true -> s = (chop (String.length suf) s +:+ suf)%string.
Proof.
  unfold ends_with, chop. intros [Hl Hs]%andb_true_iff. apply bool_decide_eq_true in Hl, Hs.
  etransitivity; [apply (substring_split s (String.length s - String.length suf) (String.length suf)); lia|]. by rewrite Hs.
Qed.

(** The file is an upload's that is not in the table. *)
Definition stale (v : VPath) (s : Inner W) (f : string) : Prop :=
  exists n p, f = new_state_file n /\ join v (Path.parse n) = Some p /\ writing s !! p = None.
(** The file does not hold a state with signatures, or reading it failed. *)
Definition broken (d : Dir (W := W)) (s : Inner W) (f : string) : Prop :=
  (exists b, contents (fs s) !! (path_of d, f) = Some b /\ forall st, decode_state b = Ok st -> signatures st = []) \/
  (exists w w' file e, oa_open_file d f w = (Ok file, w') /\ file_error file = Some e).

(** Where a state of the result comes from. *)
Definition state_of (v : VPath) (d : Dir (W := W)) (s : Inner W) (n : string) (st : State) : Prop :=
  signatures st <> [] /\
  exists f b, contents (fs s) !! (path_of d, f) = Some b /\ decode_state b = Ok st /\
    (f = state_file n \/
     f = new_state_file n /\ exists p, join v (Path.parse n) = Some p /\ is_Some (writing s !! p)).

Record scanned (v : VPath) (d : Dir (W := W)) (s0 : Inner W) (s : Inner W) : Prop := {
  sc_writing : writing s = writing s0;
  sc_frame : forall D f, contents (fs s) !! (D, f) = contents (fs s0) !! (D, f) \/
    D = path_of d /\ (String.prefix "." f = true \/
      contents (fs s) !! (D, f) = None /\ (stale v s0 f \/ broken d s0 f))
}.

Lemma scanned_unchanged v d s0 s s' : scanned v d s0 s -> unchanged s s' -> scanned v d s0 s'.
Proof. intros [Hw Hf] [[Hw' Hc] _]. split; [congruence|]. by rewrite Hc. Qed.

(** What is still there to be read is what was there. *)
Lemma scanned_read v d s0 s f b :
  scanned v d s0 s -> String.prefix "." f = false -> contents (fs s) !! (path_of d, f) = Some b ->
  contents (fs s0) !! (path_of d, f) = Some b.
Proof. intros [_ Hf] Hp Hb. destruct (Hf (path_of d) f) as [<-|[_ [?|[? _]]]]; congruence. Qed.

Lemma scanned_remove v d s0 s f r s' :
  scanned v d s0 s -> stale v s0 f -> logged (on_fs (remove_file d f)) s = (r, s') -> scanned v d s0 s'.
Proof.
  intros [Hw Hf] Hst Hr. unfold logged, on_fs in Hr. destruct (remove_file d f (fs s)) as [r1 w] eqn:E.
  apply remove_file_run in E. assert (s' = with_fs w s) as -> by (by destruct r1; injection Hr).
  split; [done|]. intros D f'. cbn. destruct E as [[_ Hc]|[_ Hc]]; rewrite Hc; [|apply Hf].
  destruct (decide ((path_of d, f) = (D, f'))) as [[= <- <-]|Hne].
  - right. split; [done|]. right. rewrite lookup_delete_eq. auto.
  - rewrite lookup_delete_ne by done. apply Hf.
Qed.

Lemma hidden_dot x : String.prefix "." ("." +:+ x) = true.
Proof. change ("." +:+ x)%string with (String "." x). by destruct x. Qed.

Lemma scanned_backup v d s0 s f r s' :
  scanned v d s0 s -> broken d s0 f -> on_fs (rename_broken_file d f) s = (r, s') -> scanned v d s0 s'.
Proof.
  intros [Hw Hf] Hbr Hr. unfold on_fs, rename_broken_file, io_match in Hr.
  destruct (oa_local_rename d f ("." +:+ f +:+ ".backup")%string (fs s)) as [r1 w] eqn:E. apply rename_law in E.
  assert (s' = with_fs w s) as -> by (destruct r1; by injection Hr). split; [done|]. intros D f'. cbn.
  destruct r1 as [[]|e|]; [|rewrite E; apply Hf..]. destruct E as (c & _ & ->).
  destruct (decide ((path_of d, ("." +:+ f +:+ ".backup")%string) = (D, f'))) as [[= <- <-]|Hne].
  { right. split; [done|]. left. apply hidden_dot. }
  rewrite lookup_insert_ne by done. destruct (decide ((path_of d, f) = (D, f'))) as [[= <- <-]|Hne'].
  - right. split; [done|]. right. rewrite lookup_delete_eq. auto.
  - rewrite lookup_delete_ne by done. apply Hf.
Qed.

(** The results of reading a state file, by the file. *)
Lemma read_state_err d n w p e w' :
  read_file d n read_st w = (Err (Decode p e), w') ->
  (exists b, contents w !! (path_of d, n) = Some b /\ forall st, decode_state b <> Ok st) \/
  (exists w1 file e, oa_open_file d n w = (Ok file, w1) /\ file_error file = Some e).
Proof.
  unfold read_file, st_bind. destruct (open_file d n w) as [[[file|]|e'|] w1] eqn:Eo.
  - unfold read_state. destruct (file_error file) as [e1|] eqn:Ef.
    + intros _. right. unfold open_file in Eo. apply if_exists_some in Eo. eauto.
    + apply open_file_some in Eo; [|done]. intros Hr. left. exists (file_data file). split; [done|].
      intros st Hd. by rewrite Hd in Hr.
  - done.
  - intros [= -> _]. unfold open_file, if_exists, io_match in Eo. destruct (oa_open_file d n w) as [[?|?|] ?]; [done| |done].
    cbn in Eo. by case_decide.
  - done.
Qed.

Lemma put_state_in name st res n st' :
  put_state name st res !! n = Some st' -> res !! n = Some st' \/
  st' = st /\ ((ends_with ".new" (chop 6 name) = true /\ n = chop 4 (chop 6 name)) \/
               (ends_with ".new" (chop 6 name) = false /\ n = chop 6 name)).
Proof.
  unfold put_state. destruct (ends_with ".new" (chop 6 name)) eqn:E.
  - intros [[<- <-]|[? ?]]%lookup_insert_Some; [right|by left]. auto.
  - case_decide; [by left|]. intros [[<- <-]|[? ?]]%lookup_insert_Some; [right|by left]. auto.
Qed.

Lemma chop_app x suf : chop (String.length suf) (x +:+ suf) = x.
Proof. unfold chop. rewrite string_length_app, Nat.add_sub. apply substring_app_l. Qed.
Lemma ends_with_app x suf : ends_with suf (x +:+ suf) = true.
Proof.
  unfold ends_with. rewrite string_length_app, Nat.add_sub, substring_app_r.
  rewrite !bool_decide_eq_true_2 by (done || lia). done.
Qed.

(** The state that a visit of the file [f] puts in the result. *)
Lemma put_state_of v d s0 f st b res n st' :
  (forall n st, res !! n = Some st -> state_of v d s0 n st) ->
  ends_with ".state" f = true ->
  (ends_with ".new.state" f = true ->
     exists p, join v (Path.parse (chop 10 f)) = Some p /\ is_Some (writing s0 !! p)) ->
  contents (fs s0) !! (path_of d, f) = Some b -> decode_state b = Ok st -> signatures st <> [] ->
  put_state f st res !! n = Some st' -> state_of v d s0 n st'.
Proof.
  intros Hres Hf Hnew Hb Hdec Hsig [Hin|(-> & Hcase)]%put_state_in; [by apply Hres|].
  split; [done|]. exists f, b. split; [done|]. split; [done|].
  apply (ends_with_chop ".state") in Hf. change (String.length ".state") with 6 in Hf.
  destruct Hcase as [[He Hn]|[_ ->]]; [right|by left].
  apply (ends_with_chop ".new") in He. change (String.length ".new") with 4 in He. rewrite <- Hn in He.
  assert (Hfn : f = new_state_file n) by (rewrite Hf, He; apply string_app_assoc). split; [done|].
  rewrite Hfn in Hnew. unfold new_state_file in Hnew. rewrite ends_with_app in Hnew.
  change 10 with (String.length ".new.state") in Hnew. rewrite chop_app in Hnew. by apply Hnew.
Qed.

(** One file: whatever it holds, only a broken file is moved. *)
Lemma visit_state_run v d s0 f res s r s' :
  scanned v d s0 s -> (forall n st, res !! n = Some st -> state_of v d s0 n st) ->
  String.prefix "." f = false -> ends_with ".state" f = true ->
  (ends_with ".new.state" f = true ->
     exists p, join v (Path.parse (chop 10 f)) = Some p /\ is_Some (writing s0 !! p)) ->
  visit_state d f res s = (r, s') ->
  scanned v d s0 s' /\ (forall res', r = Ok res' -> forall n st, res' !! n = Some st -> state_of v d s0 n st).
Proof.
  intros Hsc Hres Hp Hf Hnew Hr. unfold visit_state in Hr. unfold st_bind at 1, st_catch in Hr.
  pose proof (still_on_fs _ (read_file_quiet d f read_st) s) as Hu.
  destruct (on_fs (read_file d f read_st) s) as [r1 s1] eqn:Er. cbn in Hu.
  pose proof (scanned_unchanged _ _ _ _ _ Hsc Hu) as Hsc1.
  assert (Hbk : forall r s', broken d s0 f -> (on_fs (rename_broken_file d f) ;;; st_ret res) s1 = (r, s') ->
    scanned v d s0 s' /\ (forall res', r = Ok res' -> forall n st, res' !! n = Some st -> state_of v d s0 n st)).
  { clear Hr. intros r2 s2 Hbr Hr. unfold st_bind in Hr.
    destruct (on_fs (rename_broken_file d f) s1) as [r3 s3] eqn:Eb.
    pose proof (scanned_backup _ _ _ _ _ _ _ Hsc1 Hbr Eb). destruct r3; injection Hr as <- <-;
      (split; [done|]); intros res' E; by simplify_eq. }
  assert (Hkeep : r = Ok res -> s1 = s' ->
    scanned v d s0 s' /\ (forall res', r = Ok res' -> forall n st, res' !! n = Some st -> state_of v d s0 n st)).
  { intros -> <-. split; [done|]. by intros res' [= <-]. }
  destruct r1 as [[st|]|e|].
  - destruct (read_some _ _ _ _ _ _ Er) as (b & Hb & Hdec). pose proof (scanned_read _ _ _ _ _ _ Hsc Hp Hb) as Hb0.
    case_decide as Hl.
    + apply (Hbk r s'); [|exact Hr]. left. exists b. split; [done|]. intros st' Hd.
      assert (st' = st) as -> by congruence. destruct (signatures st); [done|cbn in Hl; lia].
    + injection Hr as <- <-. split; [done|]. intros res' [= <-] n st' Hn.
      eapply put_state_of; try eassumption. intros E. rewrite E in Hl. cbn in Hl. lia.
  - injection Hr as <- <-. by apply Hkeep.
  - assert (Her : forall p e1, e = Decode p e1 -> broken d s0 f).
    { intros p e1 ->. unfold on_fs in Er. destruct (read_file d f read_st (fs s)) as [r2 w2] eqn:E2. injection Er as -> _.
      apply read_state_err in E2 as [(b & Hb & Hno)|(w3 & file & ee & ? & ?)]; [left|right; by exists (fs s), w3, file, ee].
      exists b. split; [exact (scanned_read _ _ _ _ _ _ Hsc Hp Hb)|]. intros st Hd. by apply Hno in Hd. }
    destruct e; try (injection Hr as <- <-; by apply Hkeep). apply (Hbk r s'); [by eapply Her|exact Hr].
  - injection Hr as <- <-. split; [done|]. done.
Qed.

Lemma states_loop_run v d s0 names res s r s' :
  scanned v d s0 s -> (forall n st, res !! n = Some st -> state_of v d s0 n st) ->
  (forall f, f ∈ names -> String.prefix "." f = false /\ ends_with ".state" f = true) ->
  states_loop v d names res s = (r, s') ->
  scanned v d s0 s' /\ (forall res', r = Ok res' -> forall n st, res' !! n = Some st -> state_of v d s0 n st).
Proof.
  revert res s. induction names as [|f names IH]; intros res s Hsc Hres Hkeep Hr; cbn [states_loop] in Hr.
  { injection Hr as <- <-. split; [done|]. by intros res' [= <-]. }
  destruct (Hkeep f) as [Hp Hf]; [by left|].
  assert (Hkeep' : forall f, f ∈ names -> String.prefix "." f = false /\ ends_with ".state" f = true)
    by (intros g Hg; apply Hkeep; by right).
  assert (Hvisit : (ends_with ".new.state" f = true ->
      exists p, join v (Path.parse (chop 10 f)) = Some p /\ is_Some (writing s0 !! p)) ->
    (res' <-- visit_state d f res ;; states_loop v d names res') s = (r, s') ->
    scanned v d s0 s' /\ (forall res', r = Ok res' -> forall n st, res' !! n = Some st -> state_of v d s0 n st)).
  { clear Hr. intros Hnew Hr. unfold st_bind in Hr. destruct (visit_state d f res s) as [r1 s1] eqn:Ev.
    apply (visit_state_run v d s0) in Ev as [Hsc1 Hres1]; try done.
    destruct r1 as [res1|e|]; [by eapply IH; [| | |exact Hr]; eauto|injection Hr as <- <-; done..]. }
  destruct (ends_with ".new.state" f) eqn:En; [|by apply Hvisit].
  unfold st_bind at 1 in Hr. cbn [st_lift] in Hr. destruct (join v (Path.parse (chop 10 f))) as [p|] eqn:Ej;
    [|injection Hr as <- <-; done]. cbn [expect] in Hr. unfold st_bind at 1 in Hr. cbn [st_get] in Hr.
  destruct (writing s !! p) as [wr|] eqn:Ew.
  - apply Hvisit; [|exact Hr]. intros _. exists p. split; [done|]. rewrite <- (sc_writing _ _ _ _ Hsc), Ew. eauto.
  - unfold st_bind in Hr. destruct (logged (on_fs (remove_file d f)) s) as [r1 s1] eqn:El.
    assert (Hst : stale v s0 f).
    { exists (chop 10 f), p. split_and!; [by apply (ends_with_chop ".new.state")|done|].
      by rewrite <- (sc_writing _ _ _ _ Hsc). }
    pose proof (scanned_remove _ _ _ _ _ _ _ Hsc Hst El) as Hsc1.
    destruct r1; [by eapply IH; [| | |exact Hr]|injection Hr as <- <-; done..].
Qed.

(** The states that a listing answers, and what it does to the store. *)
Lemma all_states_run v d s r s' : all_states v d s = (r, s') ->
  scanned v d s s' /\ (forall res, r = Ok res -> forall n st, res !! n = Some st -> state_of v d s n st).
Proof.
  intros Hr. unfold all_states in Hr. assert (Hs0 : scanned v d s s) by (split; auto).
  apply (still_bind _ _ s) in Hr; [|auto with ciruela|auto with ciruela].
  destruct Hr as [[Hno Hu]|(names & s1 & Hn & Hu & Hr)].
  - split; [by eapply scanned_unchanged|]. intros res E. by apply Hno in E.
  - assert (Hkeep : forall f, f ∈ names -> String.prefix "." f = false /\ ends_with ".state" f = true).
    { intros f Hf. apply on_fs_ok in Hn as (w & Hn & _). by eapply list_files_keep. }
    apply (states_loop_run v d s _ _ _ _ _ (scanned_unchanged _ _ _ _ _ Hs0 Hu)) in Hr as [Hsc Hres];
      [|by intros n st ?%lookup_empty_Some|done].
    split; [done|]. intros res E. by apply Hres.
Qed.

(** Listing the images of a directory is safe.  Whatever is in the files
    and however it ends, uploads in the table are untouched, and a file changes
    only when it is the state of an upload that is not in the table, when it
    does not hold a state with signatures (or reading it failed), or when it is
    a hidden backup; and a state of the result was read from the committed file
    of that name or from the file of an upload in progress, and is signed. *)
Theorem all_states_safe v d s r s' :
  all_states v d s = (r, s') ->
  writing s' = writing s /\
  (forall D f, contents (fs s') !! (D, f) = contents (fs s) !! (D, f) \/
     D = path_of d /\ (String.prefix "." f = true \/
       contents (fs s') !! (D, f) = None /\ (stale v s f \/ broken d s f))) /\
  (forall res n st, r = Ok res -> res !! n = Some st -> state_of v d s n st).
Proof.
  intros [[Hw Hf] Hres]%all_states_run. split_and!; [done|done|]. intros res n st E. by apply Hres.
Qed.


(** The first scan is complete: when it ends without an error, no file has
    changed, and it has called back with every virtual directory, at the level
    of its configuration, whose directory in the store holds a file. *)
Theorem scan_complete w found w' found' :
  scan (w, found) = (Ok (), (w', found')) ->
  contents w' = contents w /\ (exists more, found' = found ++ more) /\
  forall k cfg ns f, dirs config !! k = Some cfg -> length ns = num_levels cfg - 1 ->
    forallb Path.name_ok (k :: ns) = true -> is_Some (contents w !! (sig_path k ns, f)) ->
    of_names k ns ∈ found'.
Proof.
  intros Hr. assert (Hf : finds (w, found) (w', found')).
  { change (w', found') with (snd (Ok (E := Error) (), (w', found'))). rewrite <- Hr.
    apply finds_bind; [apply finds_store, signatures_dir_quiet|]. intros root s. apply (for_each_all finds).
    intros [name cfg] s1. apply scan_item_finds. }
  split; [apply Hf|]. split; [apply Hf|]. intros k cfg ns f Hcfg Hl Hok Hs.
  cbn in Hok. apply andb_true_iff in Hok as [Hk Hok]. unfold scan in Hr. st_inv Hr.
  apply on_store_ok in Hrun as (w1 & Hroot & ->). cbn [fst] in Hroot. pose proof (signatures_dir_quiet base_dir w) as Hq.
  rewrite Hroot in Hq. cbn [snd] in Hq. apply signatures_dir_path in Hroot.
  assert (Hin : (k, cfg) ∈ map_to_list (dirs config)) by (by apply elem_of_map_to_list).
  assert (Hgr : forall (x : string * Directory) s,
    finds s (snd ((fun '(name, cfg) => scan_item (num_levels cfg) a [Path.RootDir] name) x s)))
    by (intros [? ?] ?; apply scan_item_finds).
  destruct (for_each_in finds _ Hgr _ _ _ _ Hr Hin) as (s1 & s2 & Hf1 & Hr1 & Hf2). clear Hr Hgr.
  apply (finds_in _ _ _ Hf2). assert (Hbelow : sig_path k ns = path_of a ++ k :: ns)
    by (rewrite Hroot; unfold sig_path; by rewrite <- app_assoc).
  assert (Hc1 : contents (fst s1) = contents w) by (rewrite (proj1 Hf1); exact Hq).
  rewrite <- Hc1, Hbelow in Hs. destruct (scan_item_sub _ _ _ _ _ _ Hr1 Hk _ _ Hs) as (sub & s3 & Hsub & Hc3 & Hr3).
  rewrite <- Hbelow, <- Hc3 in Hs. eapply (scan_dir_complete _ k [] ns); [exact Hr3| |exact Hl|exact Hok|exact Hs].
  rewrite Hsub, Hroot. unfold sig_path. by rewrite <- app_assoc.
Qed.

(** Storing an index: the image is marked for the collection in progress,
    no other file of the store changes but the temporary one, the index is
    replaced as a whole or not at all, and a later read that succeeds answers
    the stored bytes, or what was there if storing failed. *)
Theorem store_index_read id data s r s1 :
  store_index id data s = (r, s1) ->
  let tmp := (fst (index_key id), (".tmp." +:+ index_file (display id))%string) in
  writing s1 = writing s /\ (gc_on s -> marked id s1) /\
  (forall k, k <> tmp -> k <> index_key id -> contents (fs s1) !! k = contents (fs s) !! k) /\
  (contents (fs s1) !! index_key id = Some data \/
   contents (fs s1) !! index_key id = contents (fs s) !! index_key id) /\
  (forall b s2, read_bytes id s1 = (Ok b, s2) ->
     b = data \/ contents (fs s) !! index_key id = Some b).
Proof.
  intros Hr tmp. unfold store_index in Hr. unfold st_bind in Hr.
  destruct (mark_used id s) as [[[]|e|] s0] eqn:Em; [|done..].
  assert (Hs0 : writing s0 = writing s /\ fs s0 = fs s) by (by injection Em as <-). destruct Hs0 as [Hw0 Hf0].
  unfold logged in Hr. destruct (write id data s0) as [r1 s2] eqn:Ew.
  assert (s2 = s1) as -> by (by destruct r1; injection Hr). clear Hr.
  apply write_run in Ew as (Hw & HC & Hk & Hi). rewrite Hf0 in Hk, Hi.
  assert (Hi' : contents (fs s1) !! index_key id = Some data \/
    contents (fs s1) !! index_key id = contents (fs s) !! index_key id) by (destruct Hi as [?|[_ ?]]; auto).
  split_and!; [congruence| |exact Hk|exact Hi'|].
  - intros Hon. unfold marked. rewrite HC. by eapply mark_marked.
  - intros b s2 Hrd%read_bytes_run. destruct Hrd as [Hb _]. destruct Hi' as [Hd|Hd]; rewrite Hd in Hb; [left|by right].
    congruence.
Qed.
End Scan.

(** ** Examples *)

Module GcExample.

#[local] Existing Instance ToyCrypto.crypto.
#[local] Existing Instance HexCodecImpl.codec.

(** Two indexes, one of them of the committed image. *)
Definition index_of (x : Byte.byte) : FileKey :=
  (["indexes"; String.substring 0 2 (display (Example.img x))]%string, index_file (display (Example.img x))).
Definition store : Inner MemFs.Mem :=
  Example.store 1000 (<[index_of Byte.x01 := [Byte.x00]]> (<[index_of Byte.x02 := [Byte.x00]]> (Example.committed Byte.x01))).
Definition gc : M () := index_gc (W := MemFs.Mem) Example.config [] Example.decode.

Example gc_deletes_unused :
  let s' := snd (gc store) in
  fst (gc store) = Ok () /\ contents (fs s') !! index_of Byte.x01 = Some [Byte.x00] /\
  contents (fs s') !! index_of Byte.x02 = None.
Proof. vm_compute. repeat split. Qed.

End GcExample.


Lemma store_index_read_witness :
  let id := Example.img Byte.x03 in
  let s1 := snd (store_index (W := MemFs.Mem) (H0 := HexCodecImpl.codec) [] id [Byte.x07] GcExample.store) in
  contents (fs s1) !! GcExample.index_of Byte.x03 = Some [Byte.x07] \/
  contents (fs s1) !! GcExample.index_of Byte.x03 = contents (fs GcExample.store) !! GcExample.index_of Byte.x03.
Proof.
  intros id s1. exact (proj1 (proj2 (proj2 (proj2 (store_index_read (W := MemFs.Mem) (H := MemFs.mem_openat)
    (H0 := HexCodecImpl.codec) [] id [Byte.x07] GcExample.store _ s1 (surjective_pairing _)))))).
Defined.

(** The committed state of an image that is named [x.new] is taken for the one
    of an upload of [x]: listing the directory deletes it. *)
Module NewSuffix.

Definition v : VPath := of_names "k" ["x.new"%string].
Definition append : AppendDir :=
  {| ad_path := v; ad_image := Example.img Byte.x01; ad_timestamp := 5000000; ad_signatures := Example.sigs |}.
Definition uploaded : Inner MemFs.Mem :=
  snd (dir_committed (W := MemFs.Mem) [] v
    (snd (start_append (W := MemFs.Mem) (H0 := ToyCrypto.crypto) Example.config [] Example.encode Example.decode
            Example.parse_key Example.buffered append (Example.store 1000 ∅)))).
Definition list_k : M (gmap string State) :=
  all_states (W := MemFs.Mem) Example.decode (of_names "k" []) ["signatures"; "k"]%string.

Example state_deleted :
  fst (get_image_id (W := MemFs.Mem) [] Example.decode v uploaded) = Ok (Example.img Byte.x01) /\
  fst (get_image_id (W := MemFs.Mem) [] Example.decode v (snd (list_k uploaded))) = Err (PathNotFound v).
Proof. vm_compute. split; reflexivity. Qed.

End NewSuffix.

Lemma all_states_safe_witness :
  let s := NewSuffix.uploaded in let s' := snd (NewSuffix.list_k s) in
  writing s' = writing s /\ fst (NewSuffix.list_k s) = Ok ∅.
Proof.
  intros s s'. split; [|vm_compute; reflexivity].
  exact (proj1 (all_states_safe (W := MemFs.Mem) (H := MemFs.mem_openat) Example.decode (of_names "k" [])
    ["signatures"; "k"]%string s _ s' (surjective_pairing _))).
Defined.

Lemma scan_complete_witness :
  let r := scan (W := MemFs.Mem) Example.config [] (fs GcExample.store, []) in
  fst r = Ok () /\ of_names "k" [] ∈ snd (snd r).
Proof.
  intros r. assert (Hr : fst r = Ok ()) by (vm_compute; reflexivity). split; [exact Hr|].
  assert (Hp : r = (Ok (), (fst (snd r), snd (snd r)))) by (rewrite <- surjective_pairing; exact (run_result r _ Hr)).
  refine (proj2 (proj2 (scan_complete (W := MemFs.Mem) (H := MemFs.mem_openat) Example.config []
    (fs GcExample.store) [] (fst (snd r)) (snd (snd r)) Hp)) "k"%string Example.dir_config [] "i.state"%string _ _ _ _);
    [reflexivity|reflexivity|reflexivity|vm_compute; eauto].
Defined.
