(* ===== verification/BaseDir.v ===== *)
(** * Base directories: [src/daemon/tracking/base_dir.rs]

    What the daemon knows of a configured directory of images: the hash of its
    contents, which peers compare, and the hashes it had before or is known to
    include.  Atomics are fields; a [BTreeMap] with string keys is listed in
    the order of its keys by [btree_items]. *)
From S2P Require Import Prelude Serde VirtualPath Ids Time Signature Config Cleanup Commands.
Import VPath ImageId Database.
Local Open Scope Z_scope.

Definition RETAIN_TIME : Z := 300000 * nanos_per_ms.

(** Iteration over a [BTreeMap<String, _>]. *)
Definition btree_items {A} (m : gmap string A) : list (string * A) :=
  stable_sort (fun x y => String.leb (fst x) (fst y)) (map_to_list m).

Lemma elem_of_btree_items {A} (m : gmap string A) k x : (k, x) ∈ btree_items m <-> m !! k = Some x.
Proof. unfold btree_items. by rewrite stable_sort_elem, elem_of_map_to_list. Qed.

Record BaseDir := {
  bd_path : VPath;
  bd_config : Directory;
  bd_hash : Hash.Hash;
  bd_last_scan : Z;
  bd_num_subdirs : Z;
  bd_num_downloading : Z;
  recon_table : gmap Hash.Hash Z
}.

Definition with_downloading (n : Z) (b : BaseDir) : BaseDir :=
  {| bd_path := bd_path b; bd_config := bd_config b; bd_hash := bd_hash b; bd_last_scan := bd_last_scan b;
     bd_num_subdirs := bd_num_subdirs b; bd_num_downloading := n; recon_table := recon_table b |}.
Definition with_table (f : gmap Hash.Hash Z -> gmap Hash.Hash Z) (b : BaseDir) : BaseDir :=
  {| bd_path := bd_path b; bd_config := bd_config b; bd_hash := bd_hash b; bd_last_scan := bd_last_scan b;
     bd_num_subdirs := bd_num_subdirs b; bd_num_downloading := bd_num_downloading b;
     recon_table := f (recon_table b) |}.

(** [fetch_add] and [fetch_sub] of a [usize] wrap around. *)
Definition incr_downloading (b : BaseDir) : BaseDir := with_downloading (wrap64 (bd_num_downloading b + 1)) b.
Definition decr_downloading (b : BaseDir) : BaseDir := with_downloading (wrap64 (bd_num_downloading b - 1)) b.

Definition is_superset_of (now : Z) (hash : Hash.Hash) (b : BaseDir) : bool :=
  if decide (bd_hash b = hash) then true
  else
    let cut_off := now - RETAIN_TIME in
    match recon_table b !! hash with
    | Some time => bool_decide (cut_off < time)
    | None => false
    end.

Definition add_parent_hash (now : Z) (hash : Hash.Hash) (b : BaseDir) : BaseDir := with_table (insert hash now) b.

Definition clean_parent_hashes (now : Z) (b : BaseDir) : BaseDir :=
  let cut_off := now - RETAIN_TIME in
  with_table (filter (fun e => cut_off <= snd e)) b.

(** ** [scan] *)

(** [None] is the panic of [expect]. *)
Definition short_list (input : list (Path.t * State)) : option (gmap string State) :=
  foldl (fun acc e => m ← acc; n ← Path.file_name (fst e); Some (<[n := snd e]> m)) (Some ∅) input.

(** [path.suffix().join(name)] for every image. *)
Definition with_suffix (suffix : Path.t) (dirs : gmap string State) : list (Path.t * State) :=
  map (fun e => (Path.join suffix (Path.parse (fst e)), snd e)) (btree_items dirs).

(** The names of the keep list that are in this directory; the assertion is
    that they are names. *)
Fixpoint keep_names (suffix : Path.t) (keep_list : list Path.t) : option (gset string) :=
  match keep_list with
  | [] => Some ∅
  | p :: l =>
      rest ← keep_names suffix l;
      match Path.strip_prefix suffix p with
      | Some name => if decide (length name <= 1)%nat then Some ({[Path.render name]} ∪ rest) else None
      | None => Some rest
      end
  end.

Section Scan.
Context (blake2b_256 : bytes -> bytes) (cbor : Value -> bytes).
Context `{Wire (gmap string State)} `{Wire (gset string)}.
Context (config_hash : Directory -> Hash.Hash).

Definition dirs_hash (dirs : gmap string State) : Hash.Hash := Hash.for_object blake2b_256 cbor dirs.

(** The result of [scan], given what the metadata store and the keep list say. *)
Definition scan (path : VPath) (config : Directory) (now : Z) (dirs : gmap string State)
    (keep_list : list Path.t) : option BaseDirState :=
  suff ← suffix path;
  let images := with_suffix suff dirs in
  used ← (if auto_clean config then
            sorted ← sort_out config now images keep_list; Some (Cleanup.used sorted)
          else Some images);
  short ← short_list used;
  kl ← keep_names suff keep_list;
  Some {| bds_path := path; bds_config_hash := config_hash config;
          bds_keep_list_hash := Hash.for_object blake2b_256 cbor kl; bds_dirs := short |}.
End Scan.
