(* ===== verification/Tracking.v ===== *)
(** * The tracking subsystem: [src/daemon/tracking/mod.rs], [fetch_dir.rs] and
    the state changes of [base_dir.rs], [reconciliation.rs], [cleanup.rs] and
    [rpc.rs] of that directory

    The subsystem is one record [Sys]: the locked [State], the channels to its
    three loops, and the [remote] and [peers] it works with.  A call is a
    function of [Sys] and of what it asks of the outside (the clock, a random
    index, the answer of the metadata store).  Every call takes the lock of the
    state once, so it is one step.  A [Downloading] is shared between the state
    and the task that fetches it: [downloads] is the store of these objects, the
    state refers to them by number; [recons] are the reconciliations running. *)
From S2P Require Import Prelude Serde VirtualPath Mask Ids Time Signature Config Cleanup Commands Peers Progress.
From S2P Require Import Remote BaseDir.
Import VPath ImageId Database.
Local Open Scope Z_scope.

Definition DELETED_RETENTION : Z := 300000 * nanos_per_ms.
Definition AVOID_DOWNLOAD : Z := 120000 * nanos_per_ms.
Definition RECENT_RETENTION : Z := 300000 * nanos_per_ms.
Definition DEFAULT_INDEX_GC : Z := 86400 * nanos_per_sec.
Definition DISABLE_INDEX_GC_IF_DOWNLOADING : nat := 5.
Definition EARLY_INDEX_GC_IF_DELETED : Z := 100.
Definition RECONCILE_MAX_DOWNLOADING : nat := 20.
Definition RECONCILE_BASEDIR_THROTTLE : nat := 3.

(** ** State *)

(** A [Checking] future is named by a number. *)
Inductive WatchedStatus := Absent | Checking (job : nat) | IsComplete (image : ImageId).

Record State := {
  in_progress : gmap VPath nat;
  recently_deleted : gmap (VPath * ImageId) Z;
  deleted_since_index_gc : Z;
  last_index_gc : Z;
  base_dirs : gmap VPath BaseDir;
  base_dir_list : list VPath;
  reconciling : gmap (VPath * Hash.Hash) (gset (SocketAddr * MachineId.MachineId));
  recently_received : gmap VPath (gmap SocketAddr Z);
  watched : gmap VPath WatchedStatus
}.

Record ReconPush := {
  rp_path : VPath;
  rp_hash : Hash.Hash;
  rp_initial_addr : SocketAddr;
  rp_initial_machine_id : MachineId.MachineId
}.

(** [enum Command] of [mod.rs]. *)
Inductive Command := FetchDir (info : Downloading) | Reconcile (info : ReconPush).

(** [enum Command] of [cleanup.rs]; a base directory is named by its path. *)
Inductive CleanupCommand := CleanBase (dir : VPath) | CleanIndexGc | CleanReschedule.

Record Sys := {
  config : Config;
  state : State;
  remote : Remote;
  sys_peers : Peers;
  cmd_chan : list Command;
  rescan_chan : list (VPath * Z * bool);
  cleanup : list CleanupCommand;
  dry_cleanup : bool;
  downloads : gmap nat Downloading;
  next_download : nat;
  recons : list (VPath * Hash.Hash);
  next_job : nat
}.

(** [Tracking::new] and the start of the subsystem; the first argument is the
    random number of [index_gc_at_start]. *)
Definition index_gc_at_start (random : Z) : Z := random * nanos_per_sec.
Definition state_new (random now : Z) : State :=
  {| in_progress := ∅; recently_deleted := ∅; deleted_since_index_gc := 0;
     last_index_gc := now - index_gc_at_start random; base_dirs := ∅; base_dir_list := []; reconciling := ∅;
     recently_received := ∅; watched := ∅ |}.
Definition tracking_new (random now : Z) (cfg : Config) (r : Remote) (p : Peers) : Sys :=
  {| config := cfg; state := state_new random now; remote := r; sys_peers := p; cmd_chan := []; rescan_chan := [];
     cleanup := []; dry_cleanup := true; downloads := ∅; next_download := 0; recons := []; next_job := 0 |}.

Definition on_state (f : State -> State) (s : Sys) : Sys :=
  {| config := config s; state := f (state s); remote := remote s; sys_peers := sys_peers s; cmd_chan := cmd_chan s;
     rescan_chan := rescan_chan s; cleanup := cleanup s; dry_cleanup := dry_cleanup s; downloads := downloads s;
     next_download := next_download s; recons := recons s; next_job := next_job s |}.
Definition on_remote (f : Remote -> Remote) (s : Sys) : Sys :=
  {| config := config s; state := state s; remote := f (remote s); sys_peers := sys_peers s; cmd_chan := cmd_chan s;
     rescan_chan := rescan_chan s; cleanup := cleanup s; dry_cleanup := dry_cleanup s; downloads := downloads s;
     next_download := next_download s; recons := recons s; next_job := next_job s |}.
Definition with_peers (p : Peers) (s : Sys) : Sys :=
  {| config := config s; state := state s; remote := remote s; sys_peers := p; cmd_chan := cmd_chan s;
     rescan_chan := rescan_chan s; cleanup := cleanup s; dry_cleanup := dry_cleanup s; downloads := downloads s;
     next_download := next_download s; recons := recons s; next_job := next_job s |}.
Definition on_channels (f : list Command -> list Command) (g : list (VPath * Z * bool) -> list (VPath * Z * bool))
    (h : list CleanupCommand -> list CleanupCommand) (s : Sys) : Sys :=
  {| config := config s; state := state s; remote := remote s; sys_peers := sys_peers s; cmd_chan := f (cmd_chan s);
     rescan_chan := g (rescan_chan s); cleanup := h (cleanup s); dry_cleanup := dry_cleanup s;
     downloads := downloads s; next_download := next_download s; recons := recons s; next_job := next_job s |}.
Definition with_downloads (d : gmap nat Downloading) (n : nat) (s : Sys) : Sys :=
  {| config := config s; state := state s; remote := remote s; sys_peers := sys_peers s; cmd_chan := cmd_chan s;
     rescan_chan := rescan_chan s; cleanup := cleanup s; dry_cleanup := dry_cleanup s; downloads := d;
     next_download := n; recons := recons s; next_job := next_job s |}.
Definition with_recons (l : list (VPath * Hash.Hash)) (s : Sys) : Sys :=
  {| config := config s; state := state s; remote := remote s; sys_peers := sys_peers s; cmd_chan := cmd_chan s;
     rescan_chan := rescan_chan s; cleanup := cleanup s; dry_cleanup := dry_cleanup s; downloads := downloads s;
     next_download := next_download s; recons := l; next_job := next_job s |}.
Definition with_dry (b : bool) (s : Sys) : Sys :=
  {| config := config s; state := state s; remote := remote s; sys_peers := sys_peers s; cmd_chan := cmd_chan s;
     rescan_chan := rescan_chan s; cleanup := cleanup s; dry_cleanup := b; downloads := downloads s;
     next_download := next_download s; recons := recons s; next_job := next_job s |}.
Definition with_job (s : Sys) : Sys :=
  {| config := config s; state := state s; remote := remote s; sys_peers := sys_peers s; cmd_chan := cmd_chan s;
     rescan_chan := rescan_chan s; cleanup := cleanup s; dry_cleanup := dry_cleanup s; downloads := downloads s;
     next_download := next_download s; recons := recons s; next_job := S (next_job s) |}.

Definition set_in_progress (m : gmap VPath nat) (s : State) : State :=
  {| in_progress := m; recently_deleted := recently_deleted s; deleted_since_index_gc := deleted_since_index_gc s;
     last_index_gc := last_index_gc s; base_dirs := base_dirs s; base_dir_list := base_dir_list s;
     reconciling := reconciling s; recently_received := recently_received s; watched := watched s |}.
Definition set_recently_deleted (m : gmap (VPath * ImageId) Z) (s : State) : State :=
  {| in_progress := in_progress s; recently_deleted := m; deleted_since_index_gc := deleted_since_index_gc s;
     last_index_gc := last_index_gc s; base_dirs := base_dirs s; base_dir_list := base_dir_list s;
     reconciling := reconciling s; recently_received := recently_received s; watched := watched s |}.
Definition set_deleted_since (n : Z) (s : State) : State :=
  {| in_progress := in_progress s; recently_deleted := recently_deleted s; deleted_since_index_gc := n;
     last_index_gc := last_index_gc s; base_dirs := base_dirs s; base_dir_list := base_dir_list s;
     reconciling := reconciling s; recently_received := recently_received s; watched := watched s |}.
Definition set_last_index_gc (t : Z) (s : State) : State :=
  {| in_progress := in_progress s; recently_deleted := recently_deleted s;
     deleted_since_index_gc := deleted_since_index_gc s; last_index_gc := t; base_dirs := base_dirs s;
     base_dir_list := base_dir_list s; reconciling := reconciling s; recently_received := recently_received s;
     watched := watched s |}.
Definition set_base_dirs (m : gmap VPath BaseDir) (l : list VPath) (s : State) : State :=
  {| in_progress := in_progress s; recently_deleted := recently_deleted s;
     deleted_since_index_gc := deleted_since_index_gc s; last_index_gc := last_index_gc s; base_dirs := m;
     base_dir_list := l; reconciling := reconciling s; recently_received := recently_received s;
     watched := watched s |}.
Definition set_reconciling (m : gmap (VPath * Hash.Hash) (gset (SocketAddr * MachineId.MachineId))) (s : State)
  : State :=
  {| in_progress := in_progress s; recently_deleted := recently_deleted s;
     deleted_since_index_gc := deleted_since_index_gc s; last_index_gc := last_index_gc s;
     base_dirs := base_dirs s; base_dir_list := base_dir_list s; reconciling := m;
     recently_received := recently_received s; watched := watched s |}.
Definition set_recently_received (m : gmap VPath (gmap SocketAddr Z)) (s : State) : State :=
  {| in_progress := in_progress s; recently_deleted := recently_deleted s;
     deleted_since_index_gc := deleted_since_index_gc s; last_index_gc := last_index_gc s;
     base_dirs := base_dirs s; base_dir_list := base_dir_list s; reconciling := reconciling s;
     recently_received := m; watched := watched s |}.
Definition set_watched (m : gmap VPath WatchedStatus) (s : State) : State :=
  {| in_progress := in_progress s; recently_deleted := recently_deleted s;
     deleted_since_index_gc := deleted_since_index_gc s; last_index_gc := last_index_gc s;
     base_dirs := base_dirs s; base_dir_list := base_dir_list s; reconciling := reconciling s;
     recently_received := recently_received s; watched := m |}.

(** The calls return nothing but a panic or a result. *)
Inductive Never :=.
Abbreviation M A := (ST Sys Never A).
Local Open Scope st_scope.

Definition lift {A} (o : option A) : M A := st_lift (expect o).
Definition look {A} (f : Sys -> A) : M A := fun s => (Ok (f s), s).
Definition modify (f : Sys -> Sys) : M unit := st_modify f.

(** [unbounded_send] of the three channels; their receivers live as long as the
    subsystem. *)
Definition send (c : Command) : M unit := modify (on_channels (fun l => l ++ [c]) (fun l => l) (fun l => l)).
Definition send_rescan (path : VPath) (now : Z) (first_time : bool) : M unit :=
  modify (on_channels (fun l => l) (fun l => l ++ [(path, now, first_time)]) (fun l => l)).
Definition send_cleanup (c : CleanupCommand) : M unit :=
  modify (on_channels (fun l => l) (fun l => l) (fun l => l ++ [c])).

(** A call of the gossip subsystem. *)
Definition on_peers (f : Peers -> option Peers) : M unit :=
  p <-- look sys_peers;; p' <-- lift (f p);; modify (with_peers p').

Definition rescan_dir (now : Z) (path : VPath) : M unit := send_rescan path now false.
Definition scan_dir (now : Z) (path : VPath) : M unit := send_rescan path now true.
Definition start_cleanup : M unit := send_cleanup CleanReschedule.
Definition undry_cleanup : M unit := modify (with_dry false).

(** ** [impl State] *)

(** [None] is the panic of [matches_basedir]. *)
Fixpoint count_matching (path : VPath) (l : list VPath) : option nat :=
  match l with
  | [] => Some O
  | p :: l' => b ← matches_basedir p path; n ← count_matching path l'; Some (if b : bool then S n else n)
  end.
Definition downloading_in_basedir (path : VPath) (s : State) : option nat :=
  count_matching path (map fst (map_to_list (in_progress s))).

Definition should_run_index_gc (now : Z) (s : State) : bool :=
  (size (in_progress s) <? DISABLE_INDEX_GC_IF_DOWNLOADING)%nat &&
  (bool_decide (EARLY_INDEX_GC_IF_DELETED < deleted_since_index_gc s) ||
   bool_decide (last_index_gc s + DEFAULT_INDEX_GC < now)).

(** What the metadata store answered to a [Checking] future. *)
Inductive Check := CheckPending | CheckReady (id : ImageId) | CheckNotFound | CheckError.

(** [retain] over one entry: what is kept, and what is announced. *)
Definition poll_one (answer : nat -> Check) (path : VPath) (status : WatchedStatus)
  : option WatchedStatus * option ImageId :=
  match status with
  | Checking job =>
      match answer job with
      | CheckPending => (Some status, None)
      | CheckReady id => (Some (IsComplete id), Some id)
      | CheckNotFound => (Some Absent, None)
      | CheckError => (None, None)
      end
  | _ => (Some status, None)
  end.
Definition poll_watched (answer : nat -> Check) : M unit :=
  s <-- look state;;
  modify (on_state (set_watched (map_imap (fun p st => fst (poll_one answer p st)) (watched s)))) ;;;
  on_peers (fun p =>
    foldl (fun acc e => q ← acc;
                        match snd (poll_one answer (fst e) (snd e)) with
                        | Some id => notify_complete (fst e) id q
                        | None => Some q
                        end) (Some p) (map_to_list (watched s))).

(** ** [impl Tracking] *)

Definition reconcile_dir (now : Z) (path : VPath) (hash : Hash.Hash) (peer_addr : SocketAddr)
    (peer_id : MachineId.MachineId) : M unit :=
  k <-- lift (key path);;
  cfg <-- look (fun s => dirs (config s) !! k);;
  match cfg with
  | None => st_ret tt
  | Some _ =>
      st <-- look state;;
      if (RECONCILE_MAX_DOWNLOADING <? size (in_progress st))%nat then st_ret tt
      else if from_option (fun x => negb (is_superset_of now hash x)) true (base_dirs st !! path) then
        let pair := (path, hash) in
        match reconciling st !! pair with
        | Some hosts =>
            modify (on_state (set_reconciling (<[pair := {[(peer_addr, peer_id)]} ∪ hosts]> (reconciling st))))
        | None =>
            cur <-- lift (downloading_in_basedir path st);;
            if (RECONCILE_BASEDIR_THROTTLE <=? cur)%nat then st_ret tt
            else
              modify (on_state (set_reconciling (<[pair := {[(peer_addr, peer_id)]}]> (reconciling st)))) ;;;
              send (Reconcile {| rp_path := path; rp_hash := hash; rp_initial_addr := peer_addr;
                                 rp_initial_machine_id := peer_id |})
        end
      else st_ret tt
  end.

Definition fetch_dir (path : VPath) (image : ImageId) (replace : bool) : M unit :=
  k <-- lift (key path);;
  c <-- look (fun s => dirs (config s) !! k);;
  cfg <-- lift c;;
  send (FetchDir (new_downloading path image replace cfg)).

Fixpoint check_watched (paths : list VPath) : M unit :=
  match paths with
  | [] => st_ret tt
  | p :: l =>
      s <-- look (fun s => s);;
      (if bool_decide (watched (state s) !! p = None) && bool_decide (in_progress (state s) !! p = None) then
         valid <-- lift (is_valid_destination (config s) p);;
         if valid : bool then
           modify (on_state (set_watched (<[p := Checking (next_job s)]> (watched (state s))))) ;;; modify with_job
         else st_ret tt
       else st_ret tt) ;;;
      check_watched l
  end.

(** [thread_rng().choose(..)], given the random index. *)
Definition choose {A} (i : nat) (l : list A) : option A := l !! (i mod length l)%nat.

Definition pick_random_dir (i : nat) : M (option (VPath * Hash.Hash)) :=
  look (fun s => p ← choose i (base_dir_list (state s)); d ← base_dirs (state s) !! p; Some (bd_path d, bd_hash d)).

Record ShortProgress := { sp_image_id : ImageId; sp_mask : Mask; sp_stalled : bool; sp_source : bool }.
Definition get_in_progress : M (gmap VPath ShortProgress) :=
  look (fun s => list_to_map (omap (fun e =>
    inp ← downloads s !! snd e;
    Some (dl_path inp, {| sp_image_id := dl_image inp; sp_mask := amask_get (dl_mask inp);
                          sp_stalled := is_stalled inp; sp_source := has_image_source (dl_image inp) (remote s) |}))
    (map_to_list (in_progress (state s))))).

(** [SystemTime::now() + Instant::now().duration_since(last_scan)]. *)
Record ShortBasedir := { sb_hash : Hash.Hash; num_subdirs : Z; num_downloading : Z; last_scan : Z }.
Definition get_base_dirs (wall now : Z) : M (gmap VPath ShortBasedir) :=
  look (fun s => list_to_map (map (fun e =>
    (bd_path (snd e), {| sb_hash := bd_hash (snd e); num_subdirs := bd_num_subdirs (snd e);
                         num_downloading := bd_num_downloading (snd e);
                         last_scan := wall + (now - bd_last_scan (snd e)) |}))
    (map_to_list (base_dirs (state s))))).

Definition get_deleted : M (list (VPath * ImageId)) :=
  look (fun s => map fst (map_to_list (recently_deleted (state s)))).
Definition tracking_get_watching : M (gset VPath) := look (fun s => get_watching (remote s)).
Definition get_complete (answer : nat -> Check) : M (gmap VPath ImageId) :=
  poll_watched answer ;;;
  look (fun s => omap (fun y => match y with IsComplete id => Some id | _ => None end) (watched (state s))).

(** [to_string] of an image is [ImageId::fmt]. *)
Definition get_watched (to_string : ImageId -> string) (answer : nat -> Check) : M (gmap VPath string) :=
  poll_watched answer ;;;
  look (fun s => (fun y => match y with
                           | IsComplete id => to_string id
                           | Absent => "absent"%string
                           | Checking _ => "checking"%string
                           end) <$> watched (state s)).

(** *** [get_connection_by_mask] *)

(** A random connected address, else a random other one is connected to. *)
Definition pick_connected (i : nat) (split : list nat * list SocketAddr) : option nat :=
  if (0 <? length (fst split))%nat then choose i (fst split) else None.
Definition connect_to (i : nat) (not_conn : list SocketAddr) : M (option nat) := fun s =>
  match choose i not_conn with
  | Some addr => let '(conn, _, r) := ensure_connected addr (remote s) in (Ok (Some conn), on_remote (fun _ => r) s)
  | None => (Ok None, s)
  end.

(** One source of addresses that is tried as a whole. *)
Definition try_hosts (i : nat) (split : list nat * list SocketAddr) : M (option nat) :=
  match pick_connected i split with
  | Some conn => st_ret (Some conn)
  | None => connect_to i (snd split)
  end.

Definition get_connection_by_mask {P} `{Policy P} (now : Z) (i : nat) (vpath : VPath) (id : ImageId) (mask : Mask)
    (failures : Failures SocketAddr P) : M (option nat) :=
  s <-- look (fun s => s);;
  let usable l := split_connected now (filter (fun a => can_try now a failures = true) l) (remote s) in
  let split := usable (addrs_by_mask vpath id mask (sys_peers s)) in
  match pick_connected i split with
  | Some conn => st_ret (Some conn)
  | None =>
      match get_incoming_connection_for_image id (remote s) with
      | Some conn => st_ret (Some conn)
      | None =>
          c <-- connect_to i (snd split);;
          match c with
          | Some conn => st_ret (Some conn)
          | None =>
              c <-- match recently_received (state s) !! vpath with
                    | Some dict => try_hosts i (usable (map fst (map_to_list dict)))
                    | None => st_ret None
                    end;;
              match c with
              | Some conn => st_ret (Some conn)
              | None =>
                  base <-- lift (parent vpath);;
                  items <-- lift (addrs_by_basedir base (sys_peers s));;
                  try_hosts i (usable items)
              end
          end
      end
  end.

(** ** [impl Subsystem] *)

Definition parent_base_dir (f : BaseDir -> BaseDir) (path : VPath) : M unit :=
  base <-- lift (parent path);;
  modify (on_state (fun st => set_base_dirs (alter f base (base_dirs st)) (base_dir_list st) st)).

Definition dir_deleted (now : Z) (path : VPath) (image : ImageId) : M unit :=
  modify (on_state (fun st =>
    set_recently_deleted (<[(path, image) := now]> (recently_deleted st))
      (set_deleted_since (deleted_since_index_gc st + 1) st))).

Definition dir_aborted (now : Z) (cmd : Downloading) (reason : string) : M unit :=
  modify (on_state (fun st =>
    set_recently_deleted (<[(dl_path cmd, dl_image cmd) := now]> (recently_deleted st))
      (set_deleted_since (deleted_since_index_gc st + 1) st))) ;;;
  modify (on_state (fun st => set_in_progress (delete (dl_path cmd) (in_progress st)) st)) ;;;
  parent_base_dir decr_downloading (dl_path cmd) ;;;
  modify (on_remote (notify_aborted_image (dl_image cmd) (dl_path cmd) reason)) ;;;
  base <-- lift (parent (dl_path cmd));; rescan_dir now base.

Definition is_recently_deleted (now : Z) (path : VPath) (image : ImageId) : M bool :=
  look (fun s => match recently_deleted (state s) !! (path, image) with
                 | Some ts => bool_decide (now <= ts + AVOID_DOWNLOAD)
                 | None => false
                 end).

Definition dir_committed (now : Z) (cmd : Downloading) : M unit :=
  modify (on_state (fun st => set_in_progress (delete (dl_path cmd) (in_progress st)) st)) ;;;
  modify (on_state (fun st => set_watched (<[dl_path cmd := IsComplete (dl_image cmd)]> (watched st)) st)) ;;;
  parent_base_dir decr_downloading (dl_path cmd) ;;;
  modify (on_remote (notify_received_image (dl_image cmd) (dl_path cmd))) ;;;
  on_peers (notify_complete (dl_path cmd) (dl_image cmd)) ;;;
  base <-- lift (parent (dl_path cmd));; rescan_dir now base.

(** ** [fetch_dir.rs]: [start], and the ends of its task *)

Definition fetch_dir_start (now : Z) (cmd : Downloading) : M nat :=
  base <-- lift (parent (dl_path cmd));;
  rescan_dir now base ;;;
  n <-- look next_download;;
  modify (fun s => with_downloads (<[n := cmd]> (downloads s)) (S n) s) ;;;
  modify (on_state (fun st =>
    set_recently_deleted (delete (dl_path cmd, dl_image cmd) (recently_deleted st)) st)) ;;;
  modify (on_state (fun st => set_in_progress (<[dl_path cmd := n]> (in_progress st)) st)) ;;;
  parent_base_dir incr_downloading (dl_path cmd) ;;;
  source <-- look (fun s => has_image_source (dl_image cmd) (remote s));;
  on_peers (notify_progress (dl_path cmd) (dl_image cmd) (amask_get (dl_mask cmd)) source) ;;;
  st_ret n.

(** The task ends: [Some reason] of [dir_aborted], or [dir_committed]. *)
Definition download_ended (now : Z) (n : nat) (reason : option string) : M unit :=
  d <-- look (fun s => downloads s !! n);;
  cmd <-- lift d;;
  match reason with Some r => dir_aborted now cmd r | None => dir_committed now cmd end ;;;
  modify (fun s => with_downloads (delete n (downloads s)) (next_download s) s).

(** ** [BaseDir::commit_scan] *)

Fixpoint count_parent (path : VPath) (l : list VPath) : option nat :=
  match l with
  | [] => Some O
  | p :: l' => q ← parent p; n ← count_parent path l'; Some (if decide (q = path) then S n else n)
  end.

Definition new_base_dir (dir_data : BaseDirState) (cfg : Directory) (hash : Hash.Hash) (scan_time : Z) (down : nat)
  : BaseDir :=
  {| bd_path := bds_path dir_data; bd_config := cfg; bd_hash := hash; bd_last_scan := scan_time;
     bd_num_subdirs := Z.of_nat (size (bds_dirs dir_data)); bd_num_downloading := wrap64 (Z.of_nat down);
     recon_table := ∅ |}.
Definition scanned (dir_data : BaseDirState) (hash : Hash.Hash) (now scan_time : Z) (val : BaseDir) : BaseDir :=
  {| bd_path := bd_path val; bd_config := bd_config val; bd_hash := hash; bd_last_scan := scan_time;
     bd_num_subdirs := if decide (bd_hash val = hash) then bd_num_subdirs val
                       else Z.of_nat (size (bds_dirs dir_data));
     bd_num_downloading := bd_num_downloading val;
     recon_table := if decide (bd_hash val = hash) then recon_table val
                    else <[bd_hash val := now]> (recon_table val) |}.

(** [hash] is [Hash::for_object(&dir_data.dirs)]. *)
Definition commit_scan (dir_data : BaseDirState) (hash : Hash.Hash) (cfg : Directory) (now scan_time : Z) : M unit :=
  st <-- look state;;
  down <-- lift (count_parent (bds_path dir_data) (map fst (map_to_list (in_progress st))));;
  match base_dirs st !! bds_path dir_data with
  | None =>
      modify (on_state (set_base_dirs
        (<[bds_path dir_data := new_base_dir dir_data cfg hash scan_time down]> (base_dirs st))
        (base_dir_list st ++ [bds_path dir_data]))) ;;;
      on_peers (notify_basedir (bds_path dir_data) hash)
  | Some val =>
      modify (on_state (set_base_dirs
        (<[bds_path dir_data := scanned dir_data hash now scan_time val]> (base_dirs st)) (base_dir_list st))) ;;;
      if decide (bd_hash val = hash) then st_ret tt else on_peers (notify_basedir (bds_path dir_data) hash)
  end.

(** ** The loops of [start] *)

(** What the metadata store and the disk answer about a directory of the first
    scan. *)
Inductive Existence := Exists | CheckFailed | Missing (resumed : option ImageId).

(** A rescan that was taken from the queue; [None] of [scan_result] is an error
    of the scan. *)
Definition rescan (path : VPath) (time : Z) (first_time : bool) (now scan_time : Z)
    (scan_result : option (BaseDirState * Hash.Hash)) (existence : string -> Existence) : M unit :=
  st <-- look state;;
  if from_option (fun x => bool_decide (time < bd_last_scan x)) false (base_dirs st !! path) then st_ret tt
  else
    k <-- lift (key path);;
    c <-- look (fun s => dirs (config s) !! k);;
    cfg <-- lift c;;
    match scan_result with
    | None => st_ret tt
    | Some (bdir, hash) =>
        commit_scan bdir hash cfg now scan_time ;;;
        if first_time then
          foldr (fun e (m : M unit) =>
            p <-- lift (join path (Path.parse (fst e)));;
            match existence (fst e) with
            | Missing (Some image_id) => fetch_dir p image_id false
            | _ => st_ret tt
            end ;;; m) (st_ret tt) (btree_items (bds_dirs bdir))
        else st_ret tt
    end.

(** The work of every 15 seconds. *)
Definition clean_received (cutoff : Z) (m : gmap VPath (gmap SocketAddr Z)) : gmap VPath (gmap SocketAddr Z) :=
  filter (fun e => snd e <> ∅) ((fun hosts => filter (fun e => cutoff < snd e) hosts) <$> m).
Definition interval_tick (answer : nat -> Check) (now : Z) : M unit :=
  s <-- look (fun s => s);;
  let cluster_watching := get_all_watching (sys_peers s) ∪ get_watching (remote s) in
  modify (on_state (fun st =>
    set_recently_received (clean_received (now - RECENT_RETENTION) (recently_received st))
      (set_recently_deleted (filter (fun e => now - DELETED_RETENTION < snd e) (recently_deleted st)) st))) ;;;
  poll_watched answer ;;;
  modify (on_state (fun st => set_watched (filter (fun e => fst e ∈ cluster_watching) (watched st)) st)) ;;;
  modify (on_state (fun st => set_base_dirs (clean_parent_hashes now <$> base_dirs st) (base_dir_list st) st)).

(** ** [reconciliation.rs]: the state of a reconciliation *)

Definition recon_start (info : ReconPush) : M unit :=
  modify (fun s => with_recons (recons s ++ [(rp_path info, rp_hash info)]) s).

(** After a failed request: forget the host, go on with another one. *)
Definition next_host (pair : VPath * Hash.Hash) (host : SocketAddr * MachineId.MachineId)
  : M (option (SocketAddr * MachineId.MachineId)) := fun s =>
  match reconciling (state s) !! pair with
  | None => (Ok None, s)
  | Some h =>
      let h1 := h ∖ {[host]} in
      let item := head (elements h1) in
      let h2 := from_option (fun x => h1 ∖ {[x]}) h1 item in
      (Ok item, on_state (set_reconciling (<[pair := h2]> (reconciling (state s)))) s)
  end.

(** The hosts the image can be had from, before an upload is started. *)
Definition note_received (now : Z) (pair : VPath * Hash.Hash) (vpath : VPath) : M unit :=
  modify (on_state (fun st =>
    match reconciling st !! pair with
    | Some items =>
        set_recently_received
          (<[vpath := list_to_map (map (fun x => (fst x, now)) (elements items)) ∪
                      default ∅ (recently_received st !! vpath)]> (recently_received st)) st
    | None => st
    end)).

(** The last step: [full] is the result [Ok(true)]. *)
Definition recon_finish (now : Z) (pair : VPath * Hash.Hash) (full : bool) : M unit :=
  (if full then
     modify (on_state (fun st =>
       set_base_dirs (alter (add_parent_hash now (snd pair)) (fst pair) (base_dirs st)) (base_dir_list st) st))
   else st_ret tt) ;;;
  modify (on_state (fun st => set_reconciling (delete pair (reconciling st)) st)) ;;;
  modify (fun s => with_recons (filter (fun p => p <> pair) (recons s)) s).

(** ** [cleanup.rs] *)

(** The flag [dry_cleanup] only chooses what is logged. *)
Definition find_unused (dir : BaseDir) (now : Z) (all : gmap string Database.State) (keep_list : list Path.t)
  : option (list (Path.t * Database.State)) :=
  suff ← suffix (bd_path dir);
  sorted ← sort_out (bd_config dir) now (with_suffix suff all) keep_list;
  Some (unused sorted).

Inductive Removal := RemoveStateFile (path : VPath) (time : Z) | RemoveImage (dir : Path.t) (path : Path.t).

(** [for_each] over the unused images; it stops at the first error of the
    metadata store or of the disk. *)
Fixpoint remove_unused (dir : BaseDir) (now time : Z) (state_ok image_ok : VPath -> bool)
    (l : list (Path.t * Database.State)) : M (bool * list Removal) :=
  match l with
  | [] => st_ret (true, [])
  | (path, st) :: l' =>
      name <-- lift (Path.file_name path);;
      vpath <-- lift (join (bd_path dir) (Path.parse name));;
      dir_deleted now vpath (image st) ;;;
      if negb (state_ok vpath) then st_ret (false, [RemoveStateFile vpath time])
      else
        let removals := [RemoveStateFile vpath time; RemoveImage (directory (bd_config dir)) path] in
        if negb (image_ok vpath) then st_ret (false, removals)
        else r <-- remove_unused dir now time state_ok image_ok l';; st_ret (fst r, removals ++ snd r)
  end.

(** [Command::Base]; [scan_result] is [None] if the scan or the keep list
    cannot be read. *)
Definition clean_base (dir : BaseDir) (wall now : Z) (state_ok image_ok : VPath -> bool)
    (scan_result : option (gmap string Database.State * list Path.t)) : M (list Removal) :=
  match scan_result with
  | None => st_ret []
  | Some (lst, keep_list) =>
      u <-- lift (find_unused dir wall lst keep_list);;
      r <-- remove_unused dir now wall state_ok image_ok u;;
      (if fst r : bool then rescan_dir now (bd_path dir) else st_ret tt) ;;;
      st_ret (snd r)
  end.

(** [Command::Reschedule]. *)
Definition reschedule (wall : Z) : M unit :=
  s <-- look (fun s => s);;
  (if aggressive_index_gc (config s) || should_run_index_gc wall (state s) then
     send_cleanup CleanIndexGc ;;; modify (on_state (set_deleted_since 0))
   else st_ret tt) ;;;
  modify (on_channels (fun l => l) (fun l => l) (fun l =>
    l ++ omap (fun e => if auto_clean (bd_config (snd e)) then Some (CleanBase (fst e)) else None)
           (map_to_list (base_dirs (state s))) ++ [CleanReschedule])).

(** The end of [Command::IndexGc], whatever its result. *)
Definition index_gc_done (wall : Z) : M unit := modify (on_state (set_last_index_gc wall)).

(** ** Sequences of calls *)

(** Directories of a configured key, and images in them. *)
Definition known (cfg : Config) (p : VPath) : Prop :=
  exists k ns, p = of_names k ns /\ Path.name_ok k = true /\ is_Some (dirs cfg !! k).
Definition known_image (cfg : Config) (p : VPath) : Prop :=
  exists k ns n, p = of_names k (ns ++ [n]) /\ Path.name_ok k = true /\ is_Some (dirs cfg !! k).

(** Paths are valid when they come from the network ([VPath::deserialize]); the
    metadata store accepts an upload only for a configured path, and only one at
    a time per path; a scan names what it finds. *)
Inductive call : M unit -> Sys -> Prop :=
| c_reconcile_dir now k ns hash addr id s : Path.name_ok k = true ->
    call (reconcile_dir now (of_names k ns) hash addr id) s
| c_fetch_dir path image replace s : known_image (config s) path -> call (fetch_dir path image replace) s
| c_check_watched paths s : Forall (fun p => exists k ns, p = of_names k ns) paths -> call (check_watched paths) s
| c_poll_watched answer s : call (poll_watched answer) s
| c_fetch_start now cmd l s : cmd_chan s = FetchDir cmd :: l -> in_progress (state s) !! dl_path cmd = None ->
    call (modify (on_channels (fun _ => l) (fun x => x) (fun x => x)) ;;; (_ <-- fetch_dir_start now cmd;; st_ret tt)) s
| c_recon_start info l s : cmd_chan s = Reconcile info :: l ->
    call (modify (on_channels (fun _ => l) (fun x => x) (fun x => x)) ;;; recon_start info) s
| c_ended now n reason s : is_Some (downloads s !! n) -> call (download_ended now n reason) s
| c_progress n d d' s : downloads s !! n = Some d -> dl_path d' = dl_path d -> dl_image d' = dl_image d ->
    call (modify (fun s => with_downloads (<[n := d']> (downloads s)) (next_download s) s)) s
| c_deleted now path image s : call (dir_deleted now path image) s
| c_scan_dir now path s : known (config s) path -> call (scan_dir now path) s
| c_rescan path time first l now scan_time result existence s :
    rescan_chan s = (path, time, first) :: l ->
    (forall bdir hash, result = Some (bdir, hash) -> bds_path bdir = path /\
       forall n, is_Some (bds_dirs bdir !! n) -> Path.name_ok n = true) ->
    call (modify (on_channels (fun x => x) (fun _ => l) (fun x => x)) ;;;
          rescan path time first now scan_time result existence) s
| c_tick answer now s : call (interval_tick answer now) s
| c_undry s : call undry_cleanup s
| c_next_host pair host s : call (_ <-- next_host pair host;; st_ret tt) s
| c_note now pair vpath s : call (note_received now pair vpath) s
| c_recon_finish now pair full s : pair ∈ recons s -> call (recon_finish now pair full) s
| c_reschedule wall s : call (reschedule wall) s
| c_index_gc wall s : call (index_gc_done wall) s
| c_connection now i vpath id mask f s : known_image (config s) vpath ->
    call (_ <-- get_connection_by_mask (P := DefaultPolicy) now i vpath id mask f;; st_ret tt) s
| c_remote r s : call (modify (on_remote (fun _ => r))) s
| c_peers p s : is_Some (messages p) -> call (modify (with_peers p)) s.

Inductive tracked : Sys -> Prop :=
| tracked_new random now cfg r p : is_Some (messages p) -> tracked (tracking_new random now cfg r p)
| tracked_call m s : tracked s -> call m s -> tracked (snd (m s)).

(** ** The invariant *)

(** The downloads in a base directory. *)
Definition count_in (base : VPath) (m : gmap VPath nat) : nat :=
  length (filter (fun p => parent p = Some base) (map fst (map_to_list m))).

(** The reconciliations queued and running. *)
Definition recon_of (c : Command) : list (VPath * Hash.Hash) :=
  match c with Reconcile i => [(rp_path i, rp_hash i)] | _ => [] end.
Definition recon_tasks (s : Sys) : list (VPath * Hash.Hash) := (cmd_chan s ≫= recon_of) ++ recons s.

Record Tracks (s : Sys) : Prop := {
  tk_list : NoDup (base_dir_list (state s));
  tk_listed : forall p, p ∈ base_dir_list (state s) <-> is_Some (base_dirs (state s) !! p);
  tk_path : forall p b, base_dirs (state s) !! p = Some b -> bd_path b = p /\ known (config s) p;
  tk_progress : forall p n, in_progress (state s) !! p = Some n <->
    exists d, downloads s !! n = Some d /\ dl_path d = p;
  tk_fresh : forall n, (next_download s <= n)%nat -> downloads s !! n = None;
  tk_image : forall n d, downloads s !! n = Some d -> known_image (config s) (dl_path d);
  tk_count : forall p b, base_dirs (state s) !! p = Some b ->
    bd_num_downloading b = wrap64 (Z.of_nat (count_in p (in_progress (state s))));
  tk_recon_nodup : NoDup (recon_tasks s);
  tk_recon : forall pair, is_Some (reconciling (state s) !! pair) <-> pair ∈ recon_tasks s;
  tk_queued : forall cmd, FetchDir cmd ∈ cmd_chan s -> known_image (config s) (dl_path cmd);
  tk_rescan : forall p t b, (p, t, b) ∈ rescan_chan s -> known (config s) p;
  tk_peers : is_Some (messages (sys_peers s))
}.

(** *** Counting downloads *)

Lemma count_in_insert base m p n : m !! p = None ->
  count_in base (<[p := n]> m) = ((if decide (parent p = Some base) then 1 else 0) + count_in base m)%nat.
Proof.
  intros Hp. unfold count_in. rewrite (map_to_list_insert m p n Hp). cbn [map fst]. rewrite filter_cons.
  by destruct (decide (parent p = Some base)).
Qed.

Lemma count_in_delete base m p n : m !! p = Some n ->
  count_in base m = ((if decide (parent p = Some base) then 1 else 0) + count_in base (delete p m))%nat.
Proof.
  intros Hp. rewrite <- (count_in_insert base (delete p m) p n) by apply lookup_delete_eq.
  by rewrite insert_delete_id.
Qed.

Lemma known_image_parent cfg p : known_image cfg p -> exists q, parent p = Some q /\ known cfg q.
Proof. intros (k & ns & n & -> & Hok & Hk). exists (of_names k ns). split; [apply parent_snoc|by exists k, ns]. Qed.

Lemma known_key cfg p : known cfg p -> exists k, key p = Some k /\ is_Some (dirs cfg !! k).
Proof. intros (k & ns & -> & Hok & Hk). exists k. split; [apply key_of_names|done]. Qed.

Lemma known_image_known cfg p : known_image cfg p -> known cfg p.
Proof. intros (k & ns & n & -> & Hok & Hk). by exists k, (ns ++ [n]). Qed.

Lemma count_parent_run cfg base l : Forall (known_image cfg) l ->
  count_parent base l = Some (length (filter (fun p => parent p = Some base) l)).
Proof.
  induction 1 as [|p l Hp Hl IH]; [done|]. cbn [count_parent].
  destruct (known_image_parent cfg p Hp) as (q & Hq & _). rewrite Hq, IH. cbn [mbind option_bind]. rewrite filter_cons.
  destruct (decide (parent p = Some base)) as [Hb|Hb]; rewrite Hq in Hb.
  - injection Hb as ->. by rewrite decide_True.
  - rewrite decide_False; [done|]. by intros ->.
Qed.

Lemma count_matching_run cfg base l : Forall (known_image cfg) l -> is_Some (count_matching base l).
Proof.
  induction 1 as [|p l (k & ns & n & -> & Hok & Hk) Hl [c IH]]; [by eexists|]. cbn [count_matching].
  rewrite matches_basedir_snoc, IH. by eexists.
Qed.

Lemma progress_known s : Tracks s -> Forall (known_image (config s)) (map fst (map_to_list (in_progress (state s)))).
Proof.
  intros Hs. apply Forall_forall. intros p ([q n] & -> & Hin)%list_elem_of_fmap_1.
  apply elem_of_map_to_list in Hin. apply (tk_progress _ Hs) in Hin as (d & Hd & <-). by eapply tk_image.
Qed.

(** *** Calls that do not touch the tables *)

Definition never (e : Never) (s : Sys) : Prop := False.
Definition kept {A} (m : M A) : Prop := triple Tracks m (fun _ => Tracks) never.

(** The parts of the state [Tracks] is about. *)
Record same (s s' : Sys) : Prop := {
  sm_config : config s' = config s;
  sm_progress : in_progress (state s') = in_progress (state s);
  sm_dirs : base_dirs (state s') = base_dirs (state s);
  sm_list : base_dir_list (state s') = base_dir_list (state s);
  sm_recon : reconciling (state s') = reconciling (state s);
  sm_downloads : downloads s' = downloads s;
  sm_next : next_download s' = next_download s;
  sm_cmd : cmd_chan s' = cmd_chan s;
  sm_recons : recons s' = recons s;
  sm_rescan : forall p t b, (p, t, b) ∈ rescan_chan s' -> (p, t, b) ∈ rescan_chan s \/ known (config s) p;
  sm_peers : is_Some (messages (sys_peers s)) -> is_Some (messages (sys_peers s'))
}.

Lemma same_tracks s s' : same s s' -> Tracks s -> Tracks s'.
Proof.
  intros [] []. unfold recon_tasks in *.
  split; unfold recon_tasks; rewrite ?sm_config0, ?sm_progress0, ?sm_dirs0, ?sm_list0, ?sm_recon0, ?sm_downloads0,
    ?sm_next0, ?sm_cmd0, ?sm_recons0; try done.
  - intros p t b Hin. destruct (sm_rescan0 p t b Hin); eauto.
  - auto.
Qed.

Lemma kept_modify f : (forall s, same s (f s)) -> kept (modify f).
Proof. intros Hf. apply triple_modify. intros s Hs. by eapply same_tracks. Qed.

Lemma kept_bind {A B} (m : M A) (f : A -> M B) : kept m -> (forall a, kept (f a)) -> kept (st_bind f m).
Proof. intros Hm Hf. eapply triple_bind; [exact Hm|done]. Qed.

Lemma kept_ret {A} (a : A) : kept (st_ret a).
Proof. by apply triple_ret. Qed.

Lemma kept_look {A} (f : Sys -> A) : kept (look f).
Proof. by intros s Hs. Qed.

(** A bind whose first part only reads: what is read may be used. *)
Lemma triple_look {A B} (P : Sys -> Prop) (f : Sys -> A) (g : A -> M B) Q :
  (forall s, P s -> match g (f s) s with (Ok b, s') => Q b s' | (Err e, s') => never e s' | (Panic, _) => False end) ->
  triple P (st_bind g (look f)) Q never.
Proof. intros H s Hs. unfold st_bind, look. by apply H. Qed.

Lemma kept_on_peers f :
  (forall p, is_Some (messages p) -> exists p', f p = Some p' /\ is_Some (messages p')) -> kept (on_peers f).
Proof.
  intros Hf s Hs. destruct (Hf (sys_peers s) (tk_peers _ Hs)) as (p' & Hp & Hm).
  unfold on_peers, st_bind, look, lift, st_lift. rewrite Hp. cbn.
  eapply same_tracks; [|exact Hs]. split; try done. auto.
Qed.

Lemma send_message_ok m p : is_Some (messages p) -> exists p', send_message m p = Some p' /\ is_Some (messages p').
Proof. intros [q Hq]. unfold send_message. rewrite Hq. cbn. eexists. split; [done|]. by eexists. Qed.

Lemma notify_complete_ok path image p : is_Some (messages p) ->
  exists p', notify_complete path image p = Some p' /\ is_Some (messages p').
Proof. apply send_message_ok. Qed.

Lemma kept_dir_deleted now path image : kept (dir_deleted now path image).
Proof. apply kept_modify. intros s. by split; cbn; auto. Qed.

Lemma fold_peers_ok {A} (f : Peers -> A -> option Peers) l p :
  (forall q x, is_Some (messages q) -> exists q', f q x = Some q' /\ is_Some (messages q')) ->
  is_Some (messages p) ->
  exists p', foldl (fun acc x => q ← acc; f q x) (Some p) l = Some p' /\ is_Some (messages p').
Proof.
  intros Hf. revert p. induction l as [|x l IH]; intros p Hp; cbn [foldl]; [by exists p|].
  cbn [mbind option_bind]. destruct (Hf p x Hp) as (q & -> & Hq). by apply IH.
Qed.

Lemma kept_poll_watched answer : kept (poll_watched answer).
Proof.
  unfold poll_watched. apply kept_bind; [apply kept_look|]. intros st. apply kept_bind.
  - apply kept_modify. intros s. by split; cbn; auto.
  - intros _. apply kept_on_peers. intros p Hp. apply fold_peers_ok; [|done]. intros q x Hq.
    destruct (snd (poll_one answer (fst x) (snd x))); [by apply notify_complete_ok|by exists q].
Qed.

Lemma kept_check_watched paths : Forall (fun p => exists k ns, p = of_names k ns) paths -> kept (check_watched paths).
Proof.
  induction 1 as [|p l (k & ns & ->) Hl IH]; cbn [check_watched]; [apply kept_ret|].
  apply kept_bind; [apply kept_look|]. intros s0. apply kept_bind; [|done].
  destruct (_ && _); [|apply kept_ret].
  assert (Hv : exists b, is_valid_destination (config s0) (of_names k ns) = Some b).
  { unfold is_valid_destination. rewrite key_of_names. cbn. destruct (dirs (config s0) !! k); [|by eexists].
    rewrite level_of_names. by eexists. }
  destruct Hv as [b Hv]. intros s Hs. unfold st_bind at 1, lift, st_lift. rewrite Hv. cbn.
  destruct b; [|done]. cbn. eapply same_tracks; [|exact Hs]. by split; cbn; auto.
Qed.

Lemma kept_connect_to i l : kept (connect_to i l).
Proof.
  intros s Hs. unfold connect_to. destruct (choose i l) as [a|]; [|done].
  destruct (ensure_connected a (remote s)) as [[c b] r]. eapply same_tracks; [|exact Hs]. by split; cbn; auto.
Qed.

Lemma kept_try_hosts i split : kept (try_hosts i split).
Proof. unfold try_hosts. destruct (pick_connected i split); [apply kept_ret|apply kept_connect_to]. Qed.

Lemma kept_connection now i vpath id mask (f : Failures SocketAddr DefaultPolicy) cfg : known_image cfg vpath ->
  kept (get_connection_by_mask now i vpath id mask f).
Proof.
  intros Hp. unfold get_connection_by_mask. apply kept_bind; [apply kept_look|]. intros s0.
  destruct (pick_connected i _); [apply kept_ret|].
  destruct (get_incoming_connection_for_image _ _); [apply kept_ret|].
  apply kept_bind; [apply kept_connect_to|]. intros [c|]; [apply kept_ret|].
  apply kept_bind; [destruct (_ !! vpath); [apply kept_try_hosts|apply kept_ret]|].
  intros [c|]; [apply kept_ret|].
  destruct (known_image_parent cfg vpath Hp) as (q & Hq & (k & ns & -> & Hok & Hk)).
  assert (Hb : exists items, addrs_by_basedir (of_names k ns) (sys_peers s0) = Some items).
  { unfold addrs_by_basedir, key_vpath. rewrite key_of_names. cbn [mbind option_bind].
    rewrite from_key by done. by eexists. }
  destruct Hb as [items Hb]. unfold lift. rewrite Hq. intros s Hs. unfold st_bind, st_lift, expect.
  rewrite Hb. by apply kept_try_hosts.
Qed.

(** *** Calls that change the tables *)

Lemma kept_send_rescan path now b : forall cfg, known cfg path ->
  triple (fun s => Tracks s /\ config s = cfg) (send_rescan path now b) (fun _ s => Tracks s) never.
Proof.
  intros cfg Hp s [Hs Hc]. cbn. eapply same_tracks; [|exact Hs]. split; cbn; auto.
  intros p t b' [Hin|Hin%list_elem_of_singleton]%elem_of_app; [by left|]. right. injection Hin as -> -> ->. by rewrite Hc.
Qed.

(** A command at the end of the queue. *)
Lemma recon_tasks_push c s l :
  recon_tasks (on_channels (fun l => l ++ [c]) (fun l => l) (fun l => l) (on_state l s)) ≡ₚ recon_of c ++ recon_tasks s.
Proof.
  unfold recon_tasks. cbn. rewrite bind_app. cbn. rewrite app_nil_r.
  rewrite <- app_assoc, (Permutation_app_comm (cmd_chan s ≫= recon_of)), <- app_assoc.
  apply Permutation_app_head, Permutation_app_comm.
Qed.

Lemma kept_fetch_dir path image replace :
  triple (fun s => Tracks s /\ known_image (config s) path) (fetch_dir path image replace)
    (fun _ s => Tracks s) never.
Proof.
  intros s [Hs Hp]. unfold fetch_dir. destruct (known_key _ _ (known_image_known _ _ Hp)) as (k & Hk & [cfg Hcfg]).
  unfold st_bind, lift, look, st_lift. rewrite Hk. cbn. rewrite Hcfg. cbn.
  destruct Hs. unfold recon_tasks in *. split; unfold recon_tasks; cbn; try done.
  - by rewrite bind_app, app_nil_r.
  - intros pair. by rewrite bind_app, app_nil_r.
  - intros cmd [Hin|Hin%list_elem_of_singleton]%elem_of_app; [auto|]. by injection Hin as ->.
Qed.

Lemma kept_reconcile_dir now k ns hash addr id : Path.name_ok k = true ->
  kept (reconcile_dir now (of_names k ns) hash addr id).
Proof.
  intros Hk s Hs. unfold reconcile_dir, st_bind, lift, look, st_lift. rewrite key_of_names. cbn -[size Nat.leb Nat.ltb].
  destruct (dirs (config s) !! k) as [cfg|] eqn:Ecfg; [|done].
  destruct (RECONCILE_MAX_DOWNLOADING <? _)%nat; [done|].
  destruct (from_option _ true _); [|done].
  destruct (reconciling (state s) !! (of_names k ns, hash)) as [hosts|] eqn:Er.
  - cbn. destruct Hs. split; try done. cbn. intros pair. rewrite <- (tk_recon0 pair).
    rewrite lookup_insert. case_decide as Hp; [|done]. subst pair. rewrite Er. split; eauto.
  - unfold downloading_in_basedir.
    destruct (count_matching_run (config s) (of_names k ns) _ (progress_known s Hs)) as [cur ->]. cbn -[Nat.leb].
    destruct (RECONCILE_BASEDIR_THROTTLE <=? cur)%nat; [done|].
    set (pair := (of_names k ns, hash)) in *.
    unfold send, modify, st_modify. match goal with |- context [on_channels ?f ?g ?h ?x] => set (s' := on_channels f g h x) end.
    assert (Ht : recon_tasks s' ≡ₚ pair :: recon_tasks s) by exact (recon_tasks_push (Reconcile _) s _).
    assert (Hn : pair ∉ recon_tasks s).
    { rewrite <- (tk_recon _ Hs). rewrite Er. by intros [? ?]. }
    destruct Hs. split; try done.
    + rewrite Ht. by apply NoDup_cons.
    + intros p. rewrite Ht, elem_of_cons, <- tk_recon0. cbn. rewrite lookup_insert. case_decide as Hp.
      * subst p. split; eauto.
      * split; [by right|]. intros [->|?]; done.
    + cbn. intros cmd [Hin|Hin%list_elem_of_singleton]%elem_of_app; [auto|done].
Qed.

Lemma kept_recon_start info l s : cmd_chan s = Reconcile info :: l -> Tracks s ->
  Tracks (with_recons (recons s ++ [(rp_path info, rp_hash info)]) (on_channels (fun _ => l) (fun x => x) (fun x => x) s)).
Proof.
  intros Hc Hs. set (s' := with_recons _ _).
  assert (Ht : recon_tasks s' ≡ₚ recon_tasks s).
  { unfold recon_tasks. cbn. rewrite Hc. cbn. rewrite !app_assoc, <- (Permutation_cons_append _ (rp_path info, _)). done. }
  destruct Hs. split; try done.
  - by rewrite Ht.
  - intros p. rewrite Ht. apply tk_recon0.
  - cbn. intros cmd Hin. apply tk_queued0. rewrite Hc. by apply list_elem_of_further.
Qed.

Lemma kept_recon_finish now pair full s : pair ∈ recons s -> Tracks s ->
  exists s', recon_finish now pair full s = (Ok tt, s') /\ Tracks s'.
Proof.
  intros Hin Hs.
  assert (Hfull : exists s1, (if full then
     modify (on_state (fun st =>
       set_base_dirs (alter (add_parent_hash now (snd pair)) (fst pair) (base_dirs st)) (base_dir_list st) st))
     else st_ret tt) s = (Ok tt, s1) /\ Tracks s1 /\ recons s1 = recons s).
  { destruct full; [|by exists s]. eexists. split; [done|]. split; [|done]. destruct Hs. split; try done; cbn.
    - intros p. rewrite tk_listed0, lookup_alter. case_decide; [subst|done]. by rewrite fmap_is_Some.
    - intros p b. rewrite lookup_alter. case_decide; [|auto]. subst. intros (b0 & Hb & ->)%fmap_Some. exact (tk_path0 _ _ Hb).
    - intros p b. rewrite lookup_alter. case_decide; [|auto]. subst. intros (b0 & Hb & ->)%fmap_Some. exact (tk_count0 _ _ Hb). }
  destruct Hfull as (s1 & Hrun & Hs1 & Hr). unfold recon_finish, st_bind at 1. rewrite Hrun.
  eexists. split; [done|]. rewrite <- Hr in Hin. clear Hrun Hs Hr s. destruct Hs1.
  assert (Hnd : NoDup (cmd_chan s1 ≫= recon_of) /\ (forall x, x ∈ cmd_chan s1 ≫= recon_of -> x ∉ recons s1) /\ NoDup (recons s1)).
  { by apply NoDup_app in tk_recon_nodup0. }
  destruct Hnd as (Hn1 & Hn2 & Hn3). split; try done; cbn.
  - unfold recon_tasks. cbn. apply NoDup_app. split_and!; [done| |by apply NoDup_filter].
    intros x Hx Hx2. apply list_elem_of_filter in Hx2 as [_ Hx2]. by eapply Hn2.
  - intros p. unfold recon_tasks. cbn. rewrite elem_of_app, list_elem_of_filter, lookup_delete.
    specialize (tk_recon0 p). unfold recon_tasks in tk_recon0. rewrite elem_of_app in tk_recon0.
    case_decide as Hp.
    + subst p. split; [by intros [? ?]|]. intros [Hx|[Hx _]]; [|done]. by destruct (Hn2 _ Hx).
    + rewrite tk_recon0. split; [|tauto]. intros [?|?]; [by left|right]. by split.
Qed.

Lemma wrap64_shift n k : wrap64 (wrap64 n + k) = wrap64 (n + k).
Proof. unfold wrap64. by rewrite Zplus_mod_idemp_l. Qed.

(** The tables after the end of download [n]. *)
Lemma ended_tracks now n cmd q s s' :
  Tracks s -> downloads s !! n = Some cmd -> parent (dl_path cmd) = Some q -> known (config s) q ->
  config s' = config s -> in_progress (state s') = delete (dl_path cmd) (in_progress (state s)) ->
  base_dirs (state s') = alter decr_downloading q (base_dirs (state s)) ->
  base_dir_list (state s') = base_dir_list (state s) -> reconciling (state s') = reconciling (state s) ->
  downloads s' = delete n (downloads s) -> next_download s' = next_download s -> cmd_chan s' = cmd_chan s ->
  recons s' = recons s -> rescan_chan s' = rescan_chan s ++ [(q, now, false)] ->
  is_Some (messages (sys_peers s')) -> Tracks s'.
Proof.
  intros Hs Hn Hq Hk E1 E2 E3 E4 E5 E6 E7 E8 E9 E10 Hp.
  assert (Hin : in_progress (state s) !! dl_path cmd = Some n) by (apply (tk_progress _ Hs); eauto).
  destruct Hs. unfold recon_tasks in *.
  split; unfold recon_tasks; rewrite ?E1, ?E2, ?E3, ?E4, ?E5, ?E6, ?E7, ?E8, ?E9, ?E10; try done.
  - intros p. rewrite tk_listed0, lookup_alter. case_decide; [subst|done]. by rewrite fmap_is_Some.
  - intros p b. rewrite lookup_alter. case_decide; [|auto]. subst. intros (b0 & Hb & ->)%fmap_Some. exact (tk_path0 _ _ Hb).
  - intros p m. rewrite lookup_delete. destruct (decide (dl_path cmd = p)) as [Hd|Hd].
    + split; [done|]. intros (d & Hd' & Hp'). rewrite lookup_delete in Hd'.
      destruct (decide (n = m)) as [|Hnm]; [done|]. exfalso. apply Hnm.
      assert (in_progress (state s) !! p = Some m) by (apply tk_progress0; eauto). congruence.
    + rewrite tk_progress0. split; intros (d & Hd' & Hp').
      * exists d. split; [|done]. rewrite lookup_delete_ne; [done|]. intros <-. congruence.
      * exists d. apply lookup_delete_Some in Hd' as [_ Hd']. done.
  - intros m Hm. rewrite lookup_delete. case_decide; auto.
  - intros m d Hd. apply lookup_delete_Some in Hd as [_ Hd]. by eapply tk_image0.
  - intros p b. rewrite lookup_alter. pose proof (fun base => count_in_delete base _ _ _ Hin) as Hc. case_decide as Hqp.
    + subst p. intros (b0 & Hb & ->)%fmap_Some. cbn. rewrite (tk_count0 _ _ Hb), (Hc q), decide_True by done.
      unfold Z.sub. rewrite wrap64_shift. f_equal. lia.
    + intros Hb. rewrite (tk_count0 _ _ Hb), (Hc p), decide_False; [done|]. congruence.
  - intros p t b [Hx|Hx%list_elem_of_singleton]%elem_of_app; [eauto|]. by injection Hx as -> -> ->.
Qed.

Lemma kept_ended now n reason s : is_Some (downloads s !! n) -> Tracks s ->
  exists s', download_ended now n reason s = (Ok tt, s') /\ Tracks s'.
Proof.
  intros [cmd Hn] Hs. destruct (known_image_parent _ _ (tk_image _ Hs _ _ Hn)) as (q & Hq & Hk).
  unfold download_ended, st_bind at 1 2, look at 1, lift at 1, st_lift at 1. rewrite Hn. cbn [expect].
  destruct reason as [r|].
  - unfold dir_aborted, parent_base_dir, rescan_dir, send_rescan, modify, st_modify, lift, st_lift, st_bind. rewrite Hq.
    cbn. eexists. split; [done|]. eapply (ended_tracks now n cmd q s); try done. apply Hs.
  - unfold dir_committed, parent_base_dir, rescan_dir, send_rescan, modify, st_modify, lift, st_lift, st_bind. rewrite Hq.
    cbn. unfold on_peers, look, lift, modify, st_modify, st_lift, st_bind. cbn.
    destruct (notify_complete_ok (dl_path cmd) (dl_image cmd) (sys_peers s) (tk_peers _ Hs)) as (p' & -> & Hp').
    cbn. eexists. split; [done|]. by eapply (ended_tracks now n cmd q s).
Qed.

(** The tables after a download was started. *)
Lemma started_tracks now cmd l q s s' :
  Tracks s -> cmd_chan s = FetchDir cmd :: l -> in_progress (state s) !! dl_path cmd = None ->
  parent (dl_path cmd) = Some q -> known (config s) q ->
  config s' = config s -> in_progress (state s') = <[dl_path cmd := next_download s]> (in_progress (state s)) ->
  base_dirs (state s') = alter incr_downloading q (base_dirs (state s)) ->
  base_dir_list (state s') = base_dir_list (state s) -> reconciling (state s') = reconciling (state s) ->
  downloads s' = <[next_download s := cmd]> (downloads s) -> next_download s' = S (next_download s) ->
  cmd_chan s' = l -> recons s' = recons s -> rescan_chan s' = rescan_chan s ++ [(q, now, false)] ->
  is_Some (messages (sys_peers s')) -> Tracks s'.
Proof.
  intros Hs Hc Hin Hq Hk E1 E2 E3 E4 E5 E6 E7 E8 E9 E10 Hp. destruct Hs. unfold recon_tasks in *. rewrite Hc in *.
  assert (Hfresh : downloads s !! next_download s = None) by by apply tk_fresh0.
  split; unfold recon_tasks; rewrite ?E1, ?E2, ?E3, ?E4, ?E5, ?E6, ?E7, ?E8, ?E9, ?E10; try done.
  - intros p. rewrite tk_listed0, lookup_alter. case_decide; [subst|done]. by rewrite fmap_is_Some.
  - intros p b. rewrite lookup_alter. case_decide; [|auto]. subst. intros (b0 & Hb & ->)%fmap_Some. exact (tk_path0 _ _ Hb).
  - intros p m. rewrite lookup_insert. destruct (decide (dl_path cmd = p)) as [Hd|Hd].
    + subst p. split.
      * intros [= <-]. exists cmd. by rewrite lookup_insert_eq.
      * intros (d & Hd & Hpd). apply lookup_insert_Some in Hd as [[<- _]|[_ Hd]]; [done|].
        assert (in_progress (state s) !! dl_path cmd = Some m) by (apply tk_progress0; eauto). congruence.
    + rewrite tk_progress0. split; intros (d & Hd' & Hp').
      * exists d. split; [|done]. rewrite lookup_insert_ne; [done|]. intros <-. congruence.
      * exists d. apply lookup_insert_Some in Hd' as [[_ <-]|[_ Hd']]; [done|]. done.
  - intros m Hm. rewrite lookup_insert_ne by lia. apply tk_fresh0. lia.
  - intros m d Hd. apply lookup_insert_Some in Hd as [[_ <-]|[_ Hd]]; [|eauto]. apply tk_queued0. apply list_elem_of_here.
  - intros p b. rewrite lookup_alter, count_in_insert by done. case_decide as Hqp.
    + subst p. intros (b0 & Hb & ->)%fmap_Some. cbn. rewrite (tk_count0 _ _ Hb), decide_True by done.
      rewrite wrap64_shift. f_equal. lia.
    + intros Hb. rewrite (tk_count0 _ _ Hb), decide_False; [done|]. congruence.
  - intros c Hin'. apply tk_queued0. by apply list_elem_of_further.
  - intros p t b [Hx|Hx%list_elem_of_singleton]%elem_of_app; [eauto|]. by injection Hx as -> -> ->.
Qed.

Lemma kept_fetch_start now cmd l s : cmd_chan s = FetchDir cmd :: l -> in_progress (state s) !! dl_path cmd = None ->
  Tracks s -> exists n s', fetch_dir_start now cmd (on_channels (fun _ => l) (fun x => x) (fun x => x) s) = (Ok n, s') /\
    Tracks s'.
Proof.
  intros Hc Hin Hs.
  assert (Hi : known_image (config s) (dl_path cmd)) by (apply (tk_queued _ Hs); rewrite Hc; apply list_elem_of_here).
  destruct (known_image_parent _ _ Hi) as (q & Hq & Hk).
  unfold fetch_dir_start, rescan_dir, send_rescan, parent_base_dir, on_peers, look, lift, modify, st_modify, st_lift, st_bind.
  rewrite Hq. cbn. unfold notify_progress.
  match goal with |- context [send_message ?m (sys_peers s)] =>
    destruct (send_message_ok m (sys_peers s) (tk_peers _ Hs)) as (p' & -> & Hp') end.
  cbn. do 2 eexists. split; [done|]. by eapply (started_tracks now cmd l q s).
Qed.

Lemma kept_commit_scan dir_data hash cfg now scan_time s : known (config s) (bds_path dir_data) -> Tracks s ->
  exists s', commit_scan dir_data hash cfg now scan_time s = (Ok tt, s') /\ Tracks s' /\ config s' = config s.
Proof.
  intros Hk Hs. unfold commit_scan, st_bind at 1 2, look at 1, lift at 1, st_lift at 1.
  rewrite (count_parent_run _ _ _ (progress_known s Hs)). cbn [expect].
  change (length (filter _ (map fst (map_to_list (in_progress (state s)))))) with
    (count_in (bds_path dir_data) (in_progress (state s))).
  set (path := bds_path dir_data) in *.
  assert (Hmid : forall b l, bd_path b = path ->
    bd_num_downloading b = wrap64 (Z.of_nat (count_in path (in_progress (state s)))) ->
    (l = base_dir_list (state s) /\ is_Some (base_dirs (state s) !! path) \/
     l = base_dir_list (state s) ++ [path] /\ base_dirs (state s) !! path = None) ->
    Tracks (on_state (set_base_dirs (<[path := b]> (base_dirs (state s))) l) s)).
  { intros b l Hb Hn Hl. destruct Hs. split; try done; cbn.
    - destruct Hl as [[-> _]|[-> Hnone]]; [done|]. apply NoDup_app. split_and!; [done| |apply NoDup_singleton].
      intros x Hx ->%list_elem_of_singleton. apply tk_listed0 in Hx as [? ?]. congruence.
    - intros p. rewrite lookup_insert. destruct (decide (path = p)) as [<-|Hp].
      + split; [eauto|]. intros _. destruct Hl as [[-> Hs]|[-> _]]; [by apply tk_listed0|].
        apply elem_of_app. right. by apply list_elem_of_singleton.
      + rewrite <- tk_listed0. destruct Hl as [[-> _]|[-> _]]; [done|].
        rewrite elem_of_app, list_elem_of_singleton. split; [by intros [?| ->]|by left].
    - intros p b'. rewrite lookup_insert. case_decide; [|auto]. subst p. by intros [= <-].
    - intros p b'. rewrite lookup_insert. case_decide; [|auto]. subst p. by intros [= <-]. }
  assert (Hnotify : forall s1, Tracks s1 -> config s1 = config s ->
    exists s', on_peers (notify_basedir path hash) s1 = (Ok tt, s') /\ Tracks s' /\ config s' = config s).
  { intros s1 Hs1 Hc1. unfold on_peers, look, lift, modify, st_modify, st_lift, st_bind. cbn. unfold notify_basedir.
    destruct (send_message_ok (Peers.Reconcile path hash ∅) (sys_peers s1) (tk_peers _ Hs1)) as (p' & -> & Hp'). cbn.
    eexists. split; [done|]. split; [|done]. eapply same_tracks; [|exact Hs1]. by split; cbn; auto. }
  destruct (base_dirs (state s) !! path) as [val|] eqn:Eb.
  - pose proof (Hmid (scanned dir_data hash now scan_time val) (base_dir_list (state s))) as Hm.
    unfold st_bind, modify, st_modify. cbn [on_state state].
    assert (Hm' : Tracks (on_state (set_base_dirs (<[path := scanned dir_data hash now scan_time val]> (base_dirs (state s)))
      (base_dir_list (state s))) s)).
    { apply Hm; [|cbn; by apply (tk_count _ Hs)|left; eauto]. cbn. by apply (tk_path _ Hs). }
    destruct (decide (bd_hash val = hash)); [by eexists|]. by apply Hnotify.
  - unfold st_bind, modify, st_modify. cbn [on_state state]. apply Hnotify; [|done].
    apply Hmid; [done|done|right; eauto].
Qed.

Lemma join_name_known cfg path n : known cfg path -> Path.name_ok n = true ->
  exists p, join path (Path.parse n) = Some p /\ known_image cfg p.
Proof.
  intros (k & ns & -> & Hok & Hk) Hn. exists (of_names k (ns ++ [n])). split.
  - rewrite Path.parse_name by done. apply (join_names k ns [n]). done.
  - by exists k, ns, n.
Qed.

(** The downloads that are resumed after the first scan. *)
Lemma kept_resume cfg path (existence : string -> Existence) l :
  known cfg path -> Forall (fun e : string * Database.State => Path.name_ok (fst e) = true) l ->
  triple (fun s => Tracks s /\ config s = cfg)
    (foldr (fun e (m : M unit) =>
      p <-- lift (join path (Path.parse (fst e)));;
      match existence (fst e) with
      | Missing (Some image_id) => fetch_dir p image_id false
      | _ => st_ret tt
      end ;;; m) (st_ret tt) l)
    (fun _ s => Tracks s) never.
Proof.
  intros Hp. induction 1 as [|e l He Hl IH]; cbn [foldr]; [apply triple_ret; by intros s [? _]|].
  destruct (join_name_known cfg path (fst e) Hp He) as (p & Hj & Hi).
  intros s [Hs Hc]. unfold st_bind at 1, lift, st_lift. rewrite Hj. cbn [expect].
  assert (Hf : forall image_id, exists s', fetch_dir p image_id false s = (Ok tt, s') /\ Tracks s' /\ config s' = cfg).
  { intros image_id. assert (Hi' : known_image (config s) p) by (by rewrite Hc).
    pose proof (kept_fetch_dir p image_id false s (conj Hs Hi')) as Hk.
    destruct (known_key _ _ (known_image_known _ _ Hi)) as (k & Hkey & [c Hcfg]).
    unfold fetch_dir, st_bind, lift, look, st_lift in *. rewrite Hkey in *. cbn in *. rewrite Hc, Hcfg in *. cbn in *.
    eexists. split; [done|]. done. }
  destruct (existence (fst e)) as [| |[image_id|]]; try (by apply IH).
  destruct (Hf image_id) as (s' & Hrun & Hs' & Hc'). unfold st_bind. rewrite Hrun. by apply IH.
Qed.

Lemma kept_rescan path time first l now scan_time result existence s :
  rescan_chan s = (path, time, first) :: l ->
  (forall bdir hash, result = Some (bdir, hash) -> bds_path bdir = path /\
     forall n, is_Some (bds_dirs bdir !! n) -> Path.name_ok n = true) ->
  Tracks s ->
  exists s', rescan path time first now scan_time result existence (on_channels (fun x => x) (fun _ => l) (fun x => x) s) =
      (Ok tt, s') /\ Tracks s'.
Proof.
  intros Hc Hres Hs.
  assert (Hk : known (config s) path).
  { eapply (tk_rescan _ Hs). rewrite Hc. apply list_elem_of_here. }
  set (s1 := on_channels (fun x => x) (fun _ => l) (fun x => x) s).
  assert (Hs1 : Tracks s1).
  { destruct Hs. split; try done. cbn. intros p t b Hin. eapply tk_rescan0. rewrite Hc. by apply list_elem_of_further. }
  unfold rescan, st_bind at 1, look at 1. destruct (from_option _ false _); [by exists s1|].
  destruct (known_key _ _ Hk) as (k & Hkey & [cfg Hcfg]).
  unfold st_bind at 1, lift at 1, st_lift at 1. rewrite Hkey. cbn [expect].
  unfold st_bind at 1, look at 1. change (config s1) with (config s). rewrite Hcfg.
  unfold st_bind at 1, lift at 1, st_lift at 1. cbn [expect].
  destruct result as [[bdir hash]|]; [|by exists s1].
  destruct (Hres bdir hash eq_refl) as [Hp Hn].
  destruct (kept_commit_scan bdir hash cfg now scan_time s1) as (s2 & Hrun & Hs2 & Hc2); [by rewrite Hp|done|].
  unfold st_bind at 1. rewrite Hrun. destruct first; [|by exists s2].
  pose proof (kept_resume (config s) path existence (btree_items (bds_dirs bdir)) Hk) as Hr.
  assert (HF : Forall (fun e : string * Database.State => Path.name_ok (fst e) = true) (btree_items (bds_dirs bdir))).
  { apply Forall_forall. intros [n x] Hx. apply elem_of_btree_items in Hx. apply Hn. eauto. }
  unfold triple in Hr. specialize (Hr HF s2 (conj Hs2 Hc2)). revert Hr.
  match goal with |- match ?x with _ => _ end -> _ => destruct x as [[[]|[]|] s3] end; [eauto|done].
Qed.

Lemma kept_next_host pair host : kept (next_host pair host).
Proof.
  intros s Hs. unfold next_host. destruct (reconciling (state s) !! pair) as [h|] eqn:E; [|done].
  destruct Hs. split; try done. cbn. intros p. rewrite <- tk_recon0, lookup_insert. case_decide; [|done].
  subst p. rewrite E. split; eauto.
Qed.

Lemma kept_note_received now pair vpath : kept (note_received now pair vpath).
Proof. apply kept_modify. intros s. split; cbn; try destruct (reconciling (state s) !! pair); auto. Qed.

Lemma kept_reschedule wall : kept (reschedule wall).
Proof.
  unfold reschedule. apply kept_bind; [apply kept_look|]. intros s0. apply kept_bind.
  - destruct (_ || _); [|apply kept_ret]. apply kept_bind; [|intros ?]; apply kept_modify; intros s; by split; cbn; auto.
  - intros _. apply kept_modify. intros s. by split; cbn; auto.
Qed.

(** Cleaning the hashes of the base directories changes nothing else. *)
Lemma kept_clean_hashes now :
  kept (modify (on_state (fun st => set_base_dirs (clean_parent_hashes now <$> base_dirs st) (base_dir_list st) st))).
Proof.
  apply triple_modify. intros s []. split; try done; cbn.
  - intros p. rewrite tk_listed0, lookup_fmap. by rewrite fmap_is_Some.
  - intros p b. rewrite lookup_fmap. intros (b0 & Hb & ->)%fmap_Some. exact (tk_path0 _ _ Hb).
  - intros p b. rewrite lookup_fmap. intros (b0 & Hb & ->)%fmap_Some. exact (tk_count0 _ _ Hb).
Qed.

Lemma kept_tick answer now : kept (interval_tick answer now).
Proof.
  unfold interval_tick. apply kept_bind; [apply kept_look|]. intros s0.
  apply kept_bind; [apply kept_modify; intros s; by split; cbn; auto|]. intros _.
  apply kept_bind; [apply kept_poll_watched|]. intros _.
  apply kept_bind; [apply kept_modify; intros s; by split; cbn; auto|]. intros _. apply kept_clean_hashes.
Qed.

Lemma tracking_new_tracks random now cfg r p : is_Some (messages p) -> Tracks (tracking_new random now cfg r p).
Proof.
  intros Hp. split; unfold recon_tasks; cbn.
  - apply NoDup_nil_2.
  - intros q. rewrite lookup_empty. split; [by intros ?%not_elem_of_nil|by intros [? ?]].
  - intros q b. by rewrite lookup_empty.
  - intros q n. rewrite lookup_empty. split; [done|]. intros (d & Hd & _). by rewrite lookup_empty in Hd.
  - intros n _. apply lookup_empty.
  - intros n d. by rewrite lookup_empty.
  - intros q b. by rewrite lookup_empty.
  - apply NoDup_nil_2.
  - intros q. rewrite lookup_empty. split; [by intros [? ?]|by intros ?%not_elem_of_nil].
  - by intros cmd ?%not_elem_of_nil.
  - by intros q t b ?%not_elem_of_nil.
  - done.
Qed.

(** Every call returns, and keeps the invariant. *)
Lemma call_tracks m s : call m s -> Tracks s -> exists s', m s = (Ok tt, s') /\ Tracks s'.
Proof.
  assert (Hkept : forall m : M unit, kept m -> forall s, Tracks s -> exists s', m s = (Ok tt, s') /\ Tracks s').
  { intros m' Hm s' Hs. specialize (Hm s' Hs). destruct (m' s') as [[[]|[]|] s2]; [eauto|done]. }
  assert (Hret : forall A (m : M A), kept m -> kept (_ <-- m;; st_ret tt)).
  { intros A m' Hm. apply kept_bind; [done|]. intros ?. apply kept_ret. }
  intros Hc Hs. destruct Hc as [now k ns hash addr id s Hk|path image replace s Hp|paths s Hp|answer s|now cmd l s Hcmd Hnone
    |info l s Hcmd|now n reason s Hn|n d d' s Hd Hpath Himg|now path image s|now path s Hp
    |path time first l now scan_time result existence s Hch Hres|answer now s|s|pair host s|now pair vpath s
    |now pair full s Hin|wall s|wall s|now i vpath id mask f s Hp|r s|p s Hp].
  - apply Hkept; [by apply kept_reconcile_dir|done].
  - pose proof (kept_fetch_dir path image replace s (conj Hs Hp)) as Hf.
    destruct (fetch_dir path image replace s) as [[[]|[]|] s']; [eauto|done].
  - apply Hkept; [by apply kept_check_watched|done].
  - apply Hkept; [apply kept_poll_watched|done].
  - destruct (kept_fetch_start now cmd l s Hcmd Hnone Hs) as (n & s' & Hrun & Hs').
    unfold st_bind, modify, st_modify. rewrite Hrun. cbn. eauto.
  - cbn. eexists. split; [done|]. exact (kept_recon_start info l s Hcmd Hs).
  - by apply kept_ended.
  - cbn. eexists. split; [done|]. destruct Hs. split; try done; cbn.
    + intros p m. rewrite tk_progress0. split; intros (x & Hx & Hp).
      * destruct (decide (n = m)) as [<-|Hnm].
        { exists d'. rewrite lookup_insert_eq. split; [done|]. congruence. }
        exists x. by rewrite lookup_insert_ne.
      * apply lookup_insert_Some in Hx as [[<- <-]|[_ Hx]]; [|eauto]. exists d. split; [done|]. congruence.
    + intros m Hm. rewrite lookup_insert_ne; [auto|]. intros <-. rewrite tk_fresh0 in Hd; done.
    + intros m x Hx. apply lookup_insert_Some in Hx as [[_ <-]|[_ Hx]]; [|eauto]. rewrite Hpath. eauto.
  - apply Hkept; [apply kept_dir_deleted|done].
  - pose proof (kept_send_rescan path now true (config s) Hp s (conj Hs eq_refl)) as Hk. cbn in Hk.
    cbn. eexists. split; [done|]. done.
  - destruct (kept_rescan _ _ _ _ now scan_time _ existence s Hch Hres Hs) as (s' & Hrun & Hs').
    unfold st_bind, modify, st_modify. rewrite Hrun. eauto.
  - apply Hkept; [apply kept_tick|done].
  - apply Hkept; [|done]. apply kept_modify. intros s'. by split; cbn; auto.
  - apply Hkept; [apply Hret, kept_next_host|done].
  - apply Hkept; [apply kept_note_received|done].
  - by apply kept_recon_finish.
  - apply Hkept; [apply kept_reschedule|done].
  - apply Hkept; [|done]. apply kept_modify. intros s'. by split; cbn; auto.
  - apply Hkept; [by eapply Hret, kept_connection|done].
  - apply Hkept; [|done]. apply kept_modify. intros s'. by split; cbn; auto.
  - cbn. eexists. split; [done|]. eapply same_tracks; [|exact Hs]. by split; cbn; auto.
Qed.

Lemma tracked_tracks s : tracked s -> Tracks s.
Proof.
  induction 1 as [|m s Hs IH Hc]; [by apply tracking_new_tracks|].
  destruct (call_tracks m s Hc IH) as (s' & -> & Hs'). done.
Qed.

(** *** Choosing a connection *)

Lemma choose_in {A} i (l : list A) x : choose i l = Some x -> x ∈ l.
Proof. apply list_elem_of_lookup_2. Qed.

Lemma choose_some {A} i (l : list A) : l <> [] -> is_Some (choose i l).
Proof. intros Hl. apply lookup_lt_is_Some. apply Nat.mod_upper_bound. by destruct l. Qed.

Lemma choose_none {A} i (l : list A) : choose i l = None -> l = [].
Proof. intros Hc. destruct l as [|x l]; [done|]. destruct (choose_some i (x :: l)) as [y Hy]; [done|congruence]. Qed.

Section Connection.
Context (now : Z) (i : nat) (f : Failures SocketAddr DefaultPolicy).

(** An address may be asked, and is connected or may be connected to. *)
Definition usable (s : Sys) (a : SocketAddr) : Prop :=
  can_try now a f = true /\ (is_Some (outgoing (remote s) !! a) \/ can_try now a (failures (remote s)) = true).

Definition split_usable (s : Sys) (l : list SocketAddr) : list nat * list SocketAddr :=
  split_connected now (filter (fun a => can_try now a f = true) l) (remote s).

Lemma split_conn s l c : c ∈ fst (split_usable s l) <->
  exists a, a ∈ l /\ can_try now a f = true /\ outgoing (remote s) !! a = Some c.
Proof.
  unfold split_usable, split_connected. cbn [fst]. rewrite list_elem_of_omap. setoid_rewrite list_elem_of_filter.
  naive_solver.
Qed.

Lemma split_other s l a : a ∈ snd (split_usable s l) <->
  a ∈ l /\ can_try now a f = true /\ outgoing (remote s) !! a = None /\ can_try now a (failures (remote s)) = true.
Proof. unfold split_usable, split_connected. cbn [snd]. rewrite !list_elem_of_filter. naive_solver. Qed.

(** Nothing is left of a list exactly when none of its addresses is usable. *)
Lemma split_nil s l : split_usable s l = ([], []) <-> forall a, a ∈ l -> ~ usable s a.
Proof.
  split.
  - intros He a Ha [Ht [[c Hc]|Hr]].
    + assert (Hin : c ∈ fst (split_usable s l)) by (apply split_conn; eauto). rewrite He in Hin. by apply not_elem_of_nil in Hin.
    + destruct (outgoing (remote s) !! a) as [c|] eqn:Ho.
      * assert (Hin : c ∈ fst (split_usable s l)) by (apply split_conn; eauto). rewrite He in Hin. by apply not_elem_of_nil in Hin.
      * assert (Hin : a ∈ snd (split_usable s l)) by (by apply split_other). rewrite He in Hin. by apply not_elem_of_nil in Hin.
  - intros Hn. destruct (split_usable s l) as [cs os] eqn:E.
    assert (Hcs : cs = []).
    { destruct cs as [|c cs]; [done|]. assert (Hin : c ∈ fst (split_usable s l)) by (rewrite E; apply list_elem_of_here).
      apply split_conn in Hin as (a & Ha & Ht & Ho). destruct (Hn a Ha). split; [done|]. left. eauto. }
    assert (Hos : os = []).
    { destruct os as [|a os]; [done|]. assert (Hin : a ∈ snd (split_usable s l)) by (rewrite E; apply list_elem_of_here).
      apply split_other in Hin as (Ha & Ht & Ho & Hr). destruct (Hn a Ha). split; [done|]. by right. }
    by subst.
Qed.

(** What a choice among addresses gives: a connection to a usable one. *)
Definition chosen (s : Sys) (l : list SocketAddr) (c : option nat) (s' : Sys) : Prop :=
  match c with
  | Some conn => exists a, a ∈ l /\ usable s a /\ outgoing (remote s') !! a = Some conn
  | None => s' = s
  end.

Lemma pick_chosen s l conn : pick_connected i (split_usable s l) = Some conn -> chosen s l (Some conn) s.
Proof.
  unfold pick_connected. destruct (0 <? _)%nat; [|done]. intros Hc%choose_in.
  apply split_conn in Hc as (a & Ha & Ht & Ho). exists a. split_and!; [done| |done]. split; [done|]. left. eauto.
Qed.

Lemma pick_none s l : pick_connected i (split_usable s l) = None -> fst (split_usable s l) = [].
Proof.
  unfold pick_connected. destruct (Nat.ltb_spec 0 (length (fst (split_usable s l)))) as [Hl|Hl].
  - intros Hc%choose_none. done.
  - intros _. destruct (fst (split_usable s l)); [done|cbn in Hl; lia].
Qed.

Lemma connect_chosen s l : exists c s', connect_to i (snd (split_usable s l)) s = (Ok c, s') /\ chosen s l c s' /\
  (c = None -> snd (split_usable s l) = []).
Proof.
  unfold connect_to. destruct (choose i _) as [a|] eqn:E.
  - pose proof E as Ha%choose_in. apply split_other in Ha as (Ha & Ht & Ho & Hr).
    unfold ensure_connected. rewrite Ho. cbn. eexists _, _. split; [done|]. split; [|done].
    exists a. split_and!; [done|split; [done|by right]|]. cbn. by rewrite lookup_insert_eq.
  - eexists _, _. split; [done|]. split; [done|]. intros _. by apply choose_none in E.
Qed.

Lemma try_chosen s l : exists c s', try_hosts i (split_usable s l) s = (Ok c, s') /\ chosen s l c s' /\
  (c = None -> forall a, a ∈ l -> ~ usable s a).
Proof.
  unfold try_hosts. destruct (pick_connected i (split_usable s l)) as [conn|] eqn:E.
  - eexists _, _. split; [done|]. split; [by apply pick_chosen|done].
  - destruct (connect_chosen s l) as (c & s' & -> & Hc & Hn). eexists _, _. split; [done|]. split; [done|].
    intros ->. apply split_nil. rewrite (surjective_pairing (split_usable s l)).
    by rewrite (pick_none _ _ E), (Hn eq_refl).
Qed.
End Connection.

(** ** Properties *)


(** Where the parts of an image are fetched from.  There is a connection exactly
    when the image has a source among the clients, or some peer can be asked
    that has the part, or that the path was received from, or that has the base
    directory (and it is connected, or did not fail lately).  What is returned is
    the connection of the client, or one to such a peer; a connected peer known
    to have the part is always preferred, then the client.  It never panics for a
    path of an image. *)
Theorem get_connection_spec now i vpath id mask (f : Failures SocketAddr DefaultPolicy) s :
  known_image (config s) vpath ->
  exists c s' base by_dir, get_connection_by_mask now i vpath id mask f s = (Ok c, s') /\
    parent vpath = Some base /\ addrs_by_basedir base (sys_peers s) = Some by_dir /\
    let by_mask := addrs_by_mask vpath id mask (sys_peers s) in
    let received := map fst (map_to_list (default ∅ (recently_received (state s) !! vpath))) in
    match c with
    | Some conn =>
        (get_incoming_connection_for_image id (remote s) = Some conn \/
         exists a, a ∈ by_mask ++ received ++ by_dir /\ usable now f s a /\ outgoing (remote s') !! a = Some conn) /\
        ((exists a, a ∈ by_mask /\ can_try now a f = true /\ is_Some (outgoing (remote s) !! a)) ->
         exists a, a ∈ by_mask /\ can_try now a f = true /\ outgoing (remote s) !! a = Some conn)
    | None =>
        get_incoming_connection_for_image id (remote s) = None /\
        forall a, a ∈ by_mask ++ received ++ by_dir -> ~ usable now f s a
    end.
Proof.
  intros Hp. destruct (known_image_parent _ _ Hp) as (base & Hbase & (k & ns & Eb & Hok & Hk)).
  assert (Hb : exists items, addrs_by_basedir base (sys_peers s) = Some items).
  { subst base. unfold addrs_by_basedir, key_vpath. rewrite key_of_names. cbn [mbind option_bind].
    rewrite from_key by done. by eexists. }
  destruct Hb as [items Hb].
  set (by_mask := addrs_by_mask vpath id mask (sys_peers s)).
  set (received := map fst (map_to_list (default ∅ (recently_received (state s) !! vpath)))).
  unfold get_connection_by_mask, st_bind at 1, look at 1. fold by_mask. cbn zeta.
  change (split_connected now (filter (fun a => can_try now a f = true) by_mask) (remote s))
    with (split_usable now f s by_mask).
  assert (Hpref : forall conn : nat, fst (split_usable now f s by_mask) = [] ->
    (exists a, a ∈ by_mask /\ can_try now a f = true /\ is_Some (outgoing (remote s) !! a)) ->
    exists a, a ∈ by_mask /\ can_try now a f = true /\ outgoing (remote s) !! a = Some conn).
  { intros conn Hn (a & Ha & Ht & [c Hc]).
    assert (Hin : c ∈ fst (split_usable now f s by_mask)) by (apply split_conn; eauto).
    rewrite Hn in Hin. by apply not_elem_of_nil in Hin. }
  destruct (pick_connected i (split_usable now f s by_mask)) as [conn|] eqn:E1.
  { exists (Some conn), s, base, items. split_and!; try done.
    - right. destruct (pick_chosen now i f s by_mask conn E1) as (a & Ha & Hu & Ho). exists a. set_solver.
    - intros _. unfold pick_connected in E1. destruct (0 <? _)%nat; [|done]. apply choose_in, split_conn in E1. done. }
  apply pick_none in E1.
  destruct (get_incoming_connection_for_image id (remote s)) as [conn|] eqn:E2.
  { exists (Some conn), s, base, items. split_and!; try done; [by left|by apply Hpref]. }
  unfold st_bind at 1. destruct (connect_chosen now i f s by_mask) as (c & s1 & -> & Hc & Hn).
  destruct c as [conn|].
  { destruct Hc as (a & Ha & Hu & Ho). exists (Some conn), s1, base, items. split_and!; try done; [|by apply Hpref].
    right. exists a. set_solver. }
  rewrite Hc in *. clear Hc s1. specialize (Hn eq_refl).
  assert (Hnone1 : forall a, a ∈ by_mask -> ~ usable now f s a).
  { apply split_nil. rewrite (surjective_pairing (split_usable _ _ _ _)). by rewrite E1, Hn. }
  assert (Hrec : exists c s1, match recently_received (state s) !! vpath with
      | Some dict => try_hosts i (split_usable now f s (map fst (map_to_list dict)))
      | None => st_ret None
      end s = (Ok c, s1) /\ chosen now f s received c s1 /\
      (c = None -> forall a, a ∈ received -> ~ usable now f s a)).
  { unfold received. destruct (recently_received (state s) !! vpath) as [dict|]; [apply try_chosen|].
    cbn. eexists _, _. split; [done|]. split; [done|]. intros _ a. by intros ?%not_elem_of_nil. }
  destruct Hrec as (c & s1 & Hrun & Hc & Hn2). unfold st_bind at 1. unfold split_usable in Hrun. rewrite Hrun.
  destruct c as [conn|].
  { destruct Hc as (a & Ha & Hu & Ho). exists (Some conn), s1, base, items. split_and!; try done; [|by apply Hpref].
    right. exists a. set_solver. }
  rewrite Hc in *. clear Hc s1. specialize (Hn2 eq_refl).
  unfold st_bind, lift, st_lift, expect. rewrite Hbase, Hb.
  destruct (try_chosen now i f s items) as (c & s2 & Ht & Hc & Hn3).
  unfold split_usable in Ht. rewrite Ht. exists c, s2, base, items. split; [done|]. split; [done|]. split; [done|].
  destruct c as [conn|].
  - destruct Hc as (a & Ha & Hu & Ho). split; [|by apply Hpref]. right. exists a. set_solver.
  - split; [done|]. intros a [Ha|[Ha|Ha]%elem_of_app]%elem_of_app; eauto.
Qed.

(** *** The end of a download *)

Definition recent (later : Z) (path : VPath) (image : ImageId) (s : Sys) : bool :=
  match recently_deleted (state s) !! (path, image) with
  | Some ts => bool_decide (later <= ts + AVOID_DOWNLOAD)
  | None => false
  end.

Lemma is_recently_deleted_run later path image s :
  is_recently_deleted later path image s = (Ok (recent later path image s), s).
Proof. done. Qed.

Definition keeps_deleted {A} (m : M A) : Prop := forall s, recently_deleted (state (snd (m s))) = recently_deleted (state s).

Lemma poll_watched_deleted answer : keeps_deleted (poll_watched answer).
Proof.
  intros s. unfold poll_watched, on_peers, look, modify, st_modify, lift, st_lift, st_bind. cbn.
  by destruct (foldl _ _ _).
Qed.

(** The cleaning of the state forgets an entry only when it has no effect any
    more. *)
Lemma recent_tick answer t later path image s : t <= later ->
  recent later path image (snd (interval_tick answer t s)) = recent later path image s.
Proof.
  intros Ht. unfold interval_tick, st_bind at 1, look at 1, st_bind at 1, modify at 1, st_modify at 1.
  match goal with |- context [(_ ;;; _)%st ?x] => set (s1 := x) end.
  assert (H1 : recent later path image s1 = recent later path image s).
  { unfold recent, s1. cbn. rewrite map_lookup_filter. destruct (recently_deleted (state s) !! (path, image)) as [ts|]; [|done].
    cbn. case_guard as Hg; [done|]. cbn. symmetry. apply bool_decide_eq_false.
    unfold AVOID_DOWNLOAD, DELETED_RETENTION in *. unfold nanos_per_ms in *. lia. }
  rewrite <- H1. unfold recent at 1 2.
  assert (H2 : recently_deleted (state (snd ((poll_watched answer ;;;
     modify (on_state (fun st => set_watched (filter (fun e => fst e ∈ get_all_watching (sys_peers s) ∪ get_watching (remote s))
       (watched st)) st)) ;;;
     modify (on_state (fun st => set_base_dirs (clean_parent_hashes t <$> base_dirs st) (base_dir_list st) st))) s1))) =
     recently_deleted (state s1)).
  { pose proof (poll_watched_deleted answer s1) as Hp. unfold st_bind at 1.
    destruct (poll_watched answer s1) as [[[]|[]|] s2]; cbn in *; done. }
  by rewrite H2.
Qed.

Definition ticks (l : list ((nat -> Check) * Z)) (s : Sys) : Sys :=
  foldl (fun s e => snd (interval_tick (fst e) (snd e) s)) s l.

Lemma recent_ticks l later path image s : Forall (fun e => snd e <= later) l ->
  recent later path image (ticks l s) = recent later path image s.
Proof.
  intros Hl. revert s. induction Hl as [|e l He Hl IH]; intros s; [done|].
  change (ticks (e :: l) s) with (ticks l (snd (interval_tick (fst e) (snd e) s))). rewrite IH. by apply recent_tick.
Qed.

(** How a download ends.  The path is not in progress any more, its base
    directory is queued for a scan, and: after a commit the image counts as
    complete, the clients that published it or watch the path are told, and the
    news goes to the peers; after an abort the clients that published it are
    told the reason, and the image is not downloaded again to this path for two
    minutes, however often the state is cleaned meanwhile. *)
Theorem download_end_spec s n cmd now reason :
  tracked s -> downloads s !! n = Some cmd ->
  exists s' q, download_ended now n reason s = (Ok tt, s') /\ parent (dl_path cmd) = Some q /\
  in_progress (state s') = delete (dl_path cmd) (in_progress (state s)) /\ downloads s' = delete n (downloads s) /\
  rescan_chan s' = rescan_chan s ++ [(q, now, false)] /\
  match reason with
  | Some r =>
      remote s' = notify_aborted_image (dl_image cmd) (dl_path cmd) r (remote s) /\ sys_peers s' = sys_peers s /\
      watched (state s') = watched (state s) /\
      forall l later, Forall (fun e => snd e <= later) l ->
        fst (is_recently_deleted later (dl_path cmd) (dl_image cmd) (ticks l s')) =
          Ok (bool_decide (later <= now + AVOID_DOWNLOAD))
  | None =>
      remote s' = notify_received_image (dl_image cmd) (dl_path cmd) (remote s) /\
      watched (state s') = <[dl_path cmd := IsComplete (dl_image cmd)]> (watched (state s)) /\
      (exists msgs, messages (sys_peers s) = Some msgs /\
         messages (sys_peers s') = Some (msgs ++ [Complete (dl_path cmd) (dl_image cmd)])) /\
      recently_deleted (state s') = recently_deleted (state s)
  end.
Proof.
  intros Hs%tracked_tracks Hn. destruct (known_image_parent _ _ (tk_image _ Hs _ _ Hn)) as (q & Hq & Hk).
  unfold download_ended, st_bind at 1 2, look at 1, lift at 1, st_lift at 1. rewrite Hn. cbn [expect].
  destruct reason as [r|].
  - unfold dir_aborted, parent_base_dir, rescan_dir, send_rescan, modify, st_modify, lift, st_lift, st_bind. rewrite Hq.
    cbn -[notify_aborted_image]. eexists _, q. split; [done|]. split_and!; try done. intros l later Hl.
    match goal with |- context [ticks l ?x] =>
      change (Ok (E := Never) (recent later (dl_path cmd) (dl_image cmd) (ticks l x)) =
              Ok (bool_decide (later <= now + AVOID_DOWNLOAD))) end.
    f_equal. rewrite recent_ticks by done. unfold recent. cbn.
    by rewrite lookup_insert_eq.
  - destruct (tk_peers _ Hs) as [msgs Hm].
    unfold dir_committed, parent_base_dir, rescan_dir, send_rescan, modify, st_modify, lift, st_lift, st_bind. rewrite Hq.
    cbn -[notify_received_image]. unfold on_peers, look, lift, modify, st_modify, st_lift, st_bind. cbn -[notify_received_image].
    unfold notify_complete, send_message. rewrite Hm. cbn -[notify_received_image].
    eexists _, q. split; [done|]. split_and!; try done. by exists msgs.
Qed.

(** ** Examples *)

Module Example.

Definition cfg : Config :=
  {| Config.machine_id := MachineId.mk []; Config.hostname := "h"; Config.port := 24783; db_dir := []; config_dir := [];
     aggressive_index_gc := false; dirs := {["k"%string := Progress.example_config]} |}.
Definition msgs_peers : Peers :=
  {| by_host := ∅; configs := ConfigMap.new; peers := ∅; messages := Some [] |}.
Definition path : VPath := of_names "k" ["x"]%string.
Definition img : ImageId := from_slice [].

Definition s0 : Sys := tracking_new 1000 0 cfg Remote.Example.r3 msgs_peers.
Definition s1 : Sys := snd (fetch_dir path img false s0).
Definition start_first : M unit :=
  modify (on_channels (fun _ => []) (fun x => x) (fun x => x)) ;;;
  (_ <-- fetch_dir_start 5 (new_downloading path img false Progress.example_config);; st_ret tt).
Definition s2 : Sys := snd (start_first s1).

Lemma path_known : known_image cfg path.
Proof. exists "k"%string, [], "x"%string. split_and!; [done|done|]. by eexists. Qed.

Lemma s2_tracked : tracked s2.
Proof.
  apply (tracked_call start_first s1).
  - apply (tracked_call (fetch_dir path img false) s0).
    + apply tracked_new. by eexists.
    + apply c_fetch_dir. apply path_known.
  - by apply (c_fetch_start 5 _ [] s1).
Qed.

(** The image of a cleaned up directory. *)
Definition old_state : Database.State := {| image := img; signatures := [] |}.
Definition clean_cfg : Directory :=
  {| directory := [Path.RootDir]; append_only := false; num_levels := 1; upload_keys := []; download_keys := [];
     auto_clean := true; keep_list_file := None; keep_min_directories := 1; keep_max_directories := 1;
     keep_recent := 1 |}.
Definition base : BaseDir :=
  {| bd_path := of_names "k" []; bd_config := clean_cfg; bd_hash := Hash.mk []; bd_last_scan := 0;
     bd_num_subdirs := 1; bd_num_downloading := 0; recon_table := ∅ |}.

(** The dry run of the first 30 seconds removes images all the same. *)
Lemma dry_run_removes :
  dry_cleanup s0 = true /\
  fst (clean_base base 10 10 (fun _ => true) (fun _ => true) (Some (<["y"%string := old_state]> {["x"%string := old_state]}, [])) s0) =
    Ok [RemoveStateFile path 10; RemoveImage [Path.RootDir] [Path.Normal "x"]].
Proof. vm_compute. done. Qed.

End Example.


Lemma get_connection_spec_witness :
  exists c s', get_connection_by_mask 0 0 Example.path Example.img index_bit (new_default (K := SocketAddr)) Example.s2 =
    (Ok (Some c), s') /\
    (get_incoming_connection_for_image Example.img (remote Example.s2) = Some c \/
     exists a, usable 0 new_default Example.s2 a /\ outgoing (remote s') !! a = Some c).
Proof.
  destruct (get_connection_spec 0 0 Example.path Example.img index_bit new_default Example.s2 Example.path_known)
    as (c & s' & base & bd & Hrun & _ & _ & H).
  destruct c as [c|].
  - exists c, s'. split; [exact Hrun|]. destruct H as [[H|(a & _ & Hu & Ho)] _]; [by left|right; by exists a].
  - exfalso. destruct H as [H _]. vm_compute in H. discriminate H.
Defined.

Lemma download_end_spec_witness :
  exists s', download_ended 9 0 (Some "commit_error"%string) Example.s2 = (Ok tt, s') /\
    in_progress (state s') !! Example.path = None /\
    fst (is_recently_deleted 10 Example.path Example.img (ticks [(fun _ => CheckPending, 10)] s')) = Ok true.
Proof.
  destruct (download_end_spec Example.s2 0 (new_downloading Example.path Example.img false Progress.example_config) 9
    (Some "commit_error"%string) Example.s2_tracked) as (s' & q & Hrun & _ & Hin & _ & _ & _ & _ & _ & Hdel).
  { vm_compute. reflexivity. }
  exists s'. split; [exact Hrun|]. split.
  - rewrite Hin. vm_compute. reflexivity.
  - change Example.path with (dl_path (new_downloading Example.path Example.img false Progress.example_config)).
    change Example.img with (dl_image (new_downloading Example.path Example.img false Progress.example_config)) at 2.
    rewrite (Hdel [(fun _ => CheckPending, 10)] 10); [vm_compute; reflexivity|].
    constructor; [cbn; lia|constructor].
Defined.
