(* ===== verification/Reconcile.v ===== *)
(** * Reconciliation of a base directory: [src/daemon/tracking/reconciliation.rs]

    A peer announced another hash of a base directory.  The task of the
    reconciliation asks hosts for the directory until one answers with the
    contents that have the hash ([recon_loop]); compares them with the local
    ones and starts the uploads of what is new ([reconcile_with]); and forgets
    the reconciliation ([recon_finish] of [Tracking]).  Between two answers the
    rest of the daemon runs: that is an argument of the loop. *)
From S2P Require Import Prelude Serde VirtualPath Ids Time Signature Config Cleanup Commands Peers Progress Remote.
From S2P Require Metadata.
From S2P Require Import BaseDir Tracking.
Import VPath ImageId.
Local Open Scope Z_scope.
Local Open Scope st_scope.

Abbreviation Pair := (VPath * Hash.Hash)%type.
Abbreviation Host := (SocketAddr * MachineId.MachineId)%type.

(** ** The requests *)

(** What [request] resolves to: [Error::UnexpectedTermination] is told apart. *)
Inductive Answer := ADir (dir : GetBaseDirResponse) | ATerminated | AFailed.

(** [Loop] of [loop_fn]; its error is [None] of [recon_answer]. *)
Inductive Loop := Break (addr : SocketAddr) (dir : BaseDirState) | Continue (host : Host) (n : nat).

(** Connecting to the host; the request goes through the connection. *)
Definition recon_request (addr : SocketAddr) : M nat :=
  fun s => let '(conn, _, r) := ensure_connected addr (remote s) in (Ok conn, on_remote (fun _ => r) s).

Section Requests.
(** [Hash::for_object]. *)
Context (dirs_hash : gmap string Database.State -> Hash.Hash).

Definition dir_state (pair : Pair) (dir : GetBaseDirResponse) : BaseDirState :=
  {| bds_path := fst pair; bds_config_hash := gbdr_config_hash dir;
     bds_keep_list_hash := gbdr_keep_list_hash dir; bds_dirs := gbdr_dirs dir |}.

Definition recon_answer (pair : Pair) (host : Host) (n : nat) (res : Answer) : M (option Loop) :=
  let other_host := next <-- next_host pair host;; st_ret ((fun h => Continue h 0) <$> next) in
  match res with
  | ADir dir =>
      if decide (dirs_hash (bds_dirs (dir_state pair dir)) = snd pair)
      then st_ret (Some (Break (fst host) (dir_state pair dir)))
      else other_host
  | ATerminated => if (n <? 2)%nat then st_ret (Some (Continue host (S n))) else other_host
  | AFailed => other_host
  end.

(** [loop_fn]: [answer i addr] is the answer to the [i]th request, [others i]
    what the rest of the daemon does meanwhile.  The outer [None] is fuel. *)
Fixpoint recon_loop (fuel i : nat) (answer : nat -> SocketAddr -> Answer) (others : nat -> Sys -> Sys)
    (pair : Pair) (host : Host) (n : nat) : M (option (option (SocketAddr * BaseDirState))) :=
  match fuel with
  | O => st_ret None
  | S fuel' =>
      _ <-- recon_request (fst host);;
      modify (others i) ;;;
      next <-- recon_answer pair host n (answer i (fst host));;
      match next with
      | None => st_ret (Some None)
      | Some (Break addr dir) => st_ret (Some (Some (addr, dir)))
      | Some (Continue host' n') => recon_loop fuel' (S i) answer others pair host' n'
      end
  end.

(** The hosts that are noted for a reconciliation. *)
Definition hosts_of (pair : Pair) (s : Sys) : gset Host := default ∅ (reconciling (state s) !! pair).

(** The answer the task waits for. *)
Definition good (pair : Pair) (a : Answer) : Prop :=
  match a with ADir dir => dirs_hash (gbdr_dirs dir) = snd pair | _ => False end.

Lemma request_run addr s : exists c r, recon_request addr s = (Ok c, on_remote (fun _ => r) s).
Proof.
  unfold recon_request. destruct (ensure_connected addr (remote s)) as [[c b] r]. by exists c, r.
Qed.

Lemma next_host_run pair host s :
  exists s', next_host pair host s = (Ok (head (elements (hosts_of pair s ∖ {[host]}))), s') /\
    hosts_of pair s' = hosts_of pair s ∖ {[host]} ∖
      from_option (fun x => {[x]}) ∅ (head (elements (hosts_of pair s ∖ {[host]}))).
Proof.
  unfold next_host, hosts_of. destruct (reconciling (state s) !! pair) as [h|] eqn:E; cbn [default].
  - eexists. split; [done|]. cbn. rewrite lookup_insert_eq. cbn.
    destruct (head (elements (h ∖ {[host]}))); cbn; set_solver.
  - exists s. rewrite E. cbn. replace (∅ ∖ {[host]} : gset Host) with (∅ : gset Host) by set_solver.
    rewrite elements_empty. cbn. split; [done|set_solver].
Qed.

(** One answer: done, the same host again, or another host. *)
Lemma answer_cases pair host n res s :
  (exists dir, res = ADir dir /\ good pair res /\
     recon_answer pair host n res s = (Ok (Some (Break (fst host) (dir_state pair dir))), s)) \/
  (~ good pair res /\ (n < 2)%nat /\ recon_answer pair host n res s = (Ok (Some (Continue host (S n))), s)) \/
  (~ good pair res /\ exists s',
     recon_answer pair host n res s =
       (Ok ((fun h => Continue h 0) <$> head (elements (hosts_of pair s ∖ {[host]}))), s') /\
     hosts_of pair s' = hosts_of pair s ∖ {[host]} ∖
       from_option (fun x => {[x]}) ∅ (head (elements (hosts_of pair s ∖ {[host]})))).
Proof.
  destruct (next_host_run pair host s) as (s' & Hn & Hs').
  assert (Hother : (next <-- next_host pair host;; st_ret ((fun h => Continue h 0) <$> next)) s =
    (Ok ((fun h => Continue h 0) <$> head (elements (hosts_of pair s ∖ {[host]}))), s'))
    by (unfold st_bind; by rewrite Hn).
  destruct res as [dir| |]; cbn -[recon_answer].
  - unfold recon_answer. cbn [dir_state bds_dirs]. case_decide as Hd.
    + left. exists dir. done.
    + right; right. split; [done|]. exists s'. done.
  - unfold recon_answer. destruct (Nat.ltb_spec n 2).
    + right; left. split_and!; [tauto|done|done].
    + right; right. split; [tauto|]. exists s'. done.
  - right; right. split; [tauto|]. exists s'. done.
Qed.

(** One turn of the loop decreases this. *)
Definition requests_left (n : nat) (hosts : gset Host) : nat := (3 * size hosts + (2 - n) + 1)%nat.

Lemma loop_unfold fuel i answer others pair host n s : exists r,
  let s1 := others i (on_remote (fun _ => r) s) in
  recon_loop (S fuel) i answer others pair host n s =
  (next <-- recon_answer pair host n (answer i (fst host));;
   match next with
   | None => st_ret (Some None)
   | Some (Break addr dir) => st_ret (Some (Some (addr, dir)))
   | Some (Continue host' n') => recon_loop fuel (S i) answer others pair host' n'
   end) s1.
Proof.
  destruct (request_run (fst host) s) as (c & r & Hr). exists r. cbn [recon_loop].
  unfold st_bind at 1. by rewrite Hr.
Qed.

Lemma next_size (h : gset Host) host x :
  head (elements (h ∖ {[host]})) = Some x -> x ∈ h /\ (size (h ∖ {[host]} ∖ {[x]}) < size h)%nat.
Proof.
  intros Hx. assert (Hin : x ∈ h ∖ {[host]}).
  { apply elem_of_elements. destruct (elements (h ∖ {[host]})); [done|]. injection Hx as ->. apply list_elem_of_here. }
  split; [set_solver|]. apply subset_size. set_solver.
Qed.

Section Run.
Context (answer : nat -> SocketAddr -> Answer) (others : nat -> Sys -> Sys) (pair : Pair).
Context (Hothers : forall i s, hosts_of pair (others i s) = hosts_of pair s).

Lemma loop_returns fuel i host n s : (requests_left n (hosts_of pair s) <= fuel)%nat ->
  exists r s', recon_loop fuel i answer others pair host n s = (Ok (Some r), s') /\
    (forall addr dir, r = Some (addr, dir) ->
       addr ∈ fst host :: map fst (elements (hosts_of pair s)) /\ bds_path dir = fst pair /\
       dirs_hash (bds_dirs dir) = snd pair) /\
    (forall h, h ∈ host :: elements (hosts_of pair s) -> (forall j, good pair (answer j (fst h))) -> is_Some r).
Proof.
  revert i host n s. induction fuel as [|fuel IH]; intros i host n s Hf; [unfold requests_left in Hf; lia|].
  destruct (loop_unfold fuel i answer others pair host n s) as (rem & Hu). cbn zeta in Hu. rewrite Hu. clear Hu.
  set (s1 := others i _). assert (H1 : hosts_of pair s1 = hosts_of pair s) by (unfold s1; rewrite Hothers; done).
  clearbody s1. rewrite <- H1 in *. clear H1 s rem.
  destruct (answer_cases pair host n (answer i (fst host)) s1)
    as [(dir & Hres & Hg & Hrun)|[(Hg & Hn & Hrun)|(Hg & s2 & Hrun & H2)]];
    unfold st_bind; rewrite Hrun; clear Hrun.
  - eexists _, _. split; [done|]. split; [|by eexists]. intros addr d [= <- <-]. rewrite Hres in Hg.
    split; [apply list_elem_of_here|done].
  - destruct (IH (S i) host (S n) s1) as (r & s' & Hr & Hok & Hgood); [unfold requests_left in *; lia|].
    exists r, s'. done.
  - destruct (head (elements (hosts_of pair s1 ∖ {[host]}))) as [x|] eqn:Ex; cbn in H2 |- *.
    + destruct (next_size _ _ _ Ex) as [Hx Hsz]. rewrite <- H2 in Hsz.
      destruct (IH (S i) x 0%nat s2) as (r & s' & Hr & Hok & Hgood); [unfold requests_left in *; lia|].
      exists r, s'. split; [done|]. split.
      * intros addr d Hrd. destruct (Hok addr d Hrd) as [Hin Hd]. split; [|done].
        apply elem_of_cons in Hin as [->|(y & -> & Hy)%list_elem_of_fmap_1].
        { right. apply (list_elem_of_fmap_2 fst). by apply elem_of_elements. }
        right. apply (list_elem_of_fmap_2 fst). apply elem_of_elements. apply elem_of_elements in Hy. set_solver.
      * intros h Hh Hgh. apply (Hgood h); [|done].
        apply elem_of_cons in Hh as [->|Hh%elem_of_elements]; [by destruct Hg|].
        destruct (decide (h = x)) as [->|Hhx]; [apply list_elem_of_here|]. right. apply elem_of_elements.
        rewrite H2. assert (h <> host) by (intros ->; by destruct Hg). set_solver.
    + eexists _, _. split; [done|]. split; [done|]. intros h Hh Hgh.
      apply elem_of_cons in Hh as [->|Hh%elem_of_elements]; [by destruct Hg|].
      assert (Hin : h ∈ elements (hosts_of pair s1 ∖ {[host]})).
      { apply elem_of_elements. assert (h <> host) by (intros ->; by destruct Hg). set_solver. }
      destruct (elements (hosts_of pair s1 ∖ {[host]})); [by apply not_elem_of_nil in Hin|done].
Qed.
End Run.
End Requests.

(** ** What is new in the directory of the peer *)

(** The uploads that are started. *)
Inductive Action := AAppend (cmd : AppendDir) | AReplace (cmd : ReplaceDir).

(** [old_state.signatures.iter().any(|old_s| old_s.timestamp >= sig.timestamp)]. *)
Definition as_new (old : Database.State) (sig : Database.SignatureEntry) : bool :=
  existsb (fun old_s => Database.timestamp sig <=? Database.timestamp old_s) (Database.signatures old).

(** The first loop over the directory of the peer, for one entry. *)
Definition possible_dir (now : Z) (path : VPath) (suff : Path.t) (local_dirs : gmap string Database.State)
    (name : string) (rstate : Database.State) (possible_dirs : gmap Path.t Database.State)
  : M (gmap Path.t Database.State) :=
  vpath <-- lift (join path (Path.parse name));;
  deleted <-- is_recently_deleted now vpath (Database.image rstate);;
  if deleted : bool then st_ret possible_dirs
  else
    match Database.signatures rstate with
    | [] => st_ret possible_dirs
    | sig :: _ =>
        let inserted := <[Path.join suff (Path.parse name) := rstate]> possible_dirs in
        match local_dirs !! name with
        | Some old_state =>
            if decide (Database.image old_state = Database.image rstate) then st_ret possible_dirs
            else if as_new old_state sig then st_ret possible_dirs
            else st_ret inserted
        | None => st_ret inserted
        end
    end.
Fixpoint all_possible_dirs (now : Z) (path : VPath) (suff : Path.t) (local_dirs : gmap string Database.State)
    (l : list (string * Database.State)) (possible_dirs : gmap Path.t Database.State)
  : M (gmap Path.t Database.State) :=
  match l with
  | [] => st_ret possible_dirs
  | (name, rstate) :: l' =>
      p <-- possible_dir now path suff local_dirs name rstate possible_dirs;;
      all_possible_dirs now path suff local_dirs l' p
  end.

(** The second loop: the newest entries first, until the throttle. *)
Fixpoint update_dirs (now : Z) (pair : Pair) (suff : Path.t) (sorted : list (Path.t * Database.State))
    (local_dirs : gmap string Database.State) (count : nat) (l : list (string * Database.State))
  : M (bool * list Action) :=
  match l with
  | [] => st_ret (true, [])
  | (name, rstate) :: l' =>
      let sub_path := Path.join suff (Path.parse name) in
      vpath <-- lift (join (fst pair) (Path.parse name));;
      if negb (bool_decide (sub_path ∈ map fst sorted)) then update_dirs now pair suff sorted local_dirs count l'
      else
        match Database.signatures rstate with
        | [] => update_dirs now pair suff sorted local_dirs count l'
        | sig :: _ =>
            let image_id := Database.image rstate in
            let local_dirs' := delete name local_dirs in
            match local_dirs !! name with
            | Some old_state =>
                if decide (Database.image old_state = image_id)
                then update_dirs now pair suff sorted local_dirs' count l'
                else if as_new old_state sig then update_dirs now pair suff sorted local_dirs' count l'
                else if (RECONCILE_BASEDIR_THROTTLE <=? count)%nat then st_ret (false, [])
                else
                  note_received now pair vpath ;;;
                  r <-- update_dirs now pair suff sorted local_dirs' (S count) l';;
                  st_ret (fst r, AReplace {| rd_path := vpath; rd_image := image_id;
                                             rd_old_image := Some (Database.image old_state);
                                             rd_timestamp := Database.timestamp sig;
                                             rd_signatures := [Database.signature sig] |} :: snd r)
            | None =>
                if (RECONCILE_BASEDIR_THROTTLE <=? count)%nat then st_ret (false, [])
                else
                  note_received now pair vpath ;;;
                  r <-- update_dirs now pair suff sorted local_dirs' (S count) l';;
                  st_ret (fst r, AAppend {| ad_path := vpath; ad_image := image_id;
                                            ad_timestamp := Database.timestamp sig;
                                            ad_signatures := [Database.signature sig] |} :: snd r)
            end
        end
  end.

(** The key of the sort: [Option] of a time, where [None] comes first. *)
Definition max_timestamp (rstate : Database.State) : option Z :=
  match Database.signatures rstate with
  | [] => None
  | s :: l => Some (foldl (fun m x => Z.max m (Database.timestamp x)) (Database.timestamp s) l)
  end.
Definition older (x y : string * Database.State) : Prop :=
  match max_timestamp (snd x), max_timestamp (snd y) with
  | None, _ => True
  | Some _, None => False
  | Some a, Some b => a <= b
  end.

Section Update.
(** Iteration over a [HashMap], and [sort_unstable_by_key]: in an order that
    the library does not promise. *)
Context (hash_order : gmap Path.t Database.State -> list (Path.t * Database.State)).
Context (sort_by_key : list (string * Database.State) -> list (string * Database.State)).

(** The whole step; its result is [full_reconciliation] and the uploads that
    are started.  [now] and [wall] are [Instant::now] and [SystemTime::now]. *)
Definition reconcile_with (now wall : Z) (pair : Pair) (remote : gmap string Database.State)
    (local_dirs : gmap string Database.State) (keep_list : list Path.t) : M (bool * list Action) :=
  k <-- lift (key (fst pair));;
  c <-- look (fun s => dirs (config s) !! k);;
  cfg <-- lift c;;
  suff <-- lift (suffix (fst pair));;
  possible <-- all_possible_dirs now (fst pair) suff local_dirs (btree_items remote)
                 (list_to_map (rev (with_suffix suff local_dirs)));;
  sorted <-- (if auto_clean cfg
              then lift (used <$> sort_out cfg wall (hash_order possible) keep_list)
              else st_ret (hash_order possible));;
  st <-- look state;;
  count <-- lift (downloading_in_basedir (fst pair) st);;
  update_dirs now pair suff sorted local_dirs count (rev (sort_by_key (btree_items remote))).
End Update.

(** What the metadata store answers to an upload; [None] is an error. *)
Definition upload_result (a : Action) (res : option Metadata.Upload) : M unit :=
  match res with
  | Some (Metadata.Accepted Metadata.New) =>
      match a with
      | AReplace cmd => fetch_dir (rd_path cmd) (rd_image cmd) true
      | AAppend cmd => fetch_dir (ad_path cmd) (ad_image cmd) false
      end
  | _ => st_ret tt
  end.

(** ** What it decides *)

Definition action_path (a : Action) : VPath := match a with AAppend c => ad_path c | AReplace c => rd_path c end.

(** The upload for one entry, by itself: the clean-up would keep it, it is
    signed, and it is newer than what is here. *)
Definition entry_action (path : VPath) (suff : Path.t) (kept : list Path.t) (local_dirs : gmap string Database.State)
    (e : string * Database.State) : option Action :=
  vpath ← join path (Path.parse (fst e));
  guard (Path.join suff (Path.parse (fst e)) ∈ kept);;
  sig ← head (Database.signatures (snd e));
  match local_dirs !! fst e with
  | None =>
      Some (AAppend {| ad_path := vpath; ad_image := Database.image (snd e);
                       ad_timestamp := Database.timestamp sig; ad_signatures := [Database.signature sig] |})
  | Some old =>
      guard (Database.image old <> Database.image (snd e) /\
             Forall (fun o => Database.timestamp o < Database.timestamp sig) (Database.signatures old));;
      Some (AReplace {| rd_path := vpath; rd_image := Database.image (snd e);
                        rd_old_image := Some (Database.image old);
                        rd_timestamp := Database.timestamp sig; rd_signatures := [Database.signature sig] |})
  end.

Lemma as_new_false old sig :
  as_new old sig = false <->
  Forall (fun o => Database.timestamp o < Database.timestamp sig) (Database.signatures old).
Proof.
  unfold as_new. induction (Database.signatures old) as [|o l IH]; cbn [existsb]; [done|].
  by rewrite orb_false_iff, Forall_cons, IH, Z.leb_gt.
Qed.

(** Noting where the images can be had from. *)
Definition noted (now : Z) (pair : Pair) (paths : list VPath) (s : Sys) : Sys :=
  foldl (fun s p => snd (note_received now pair p s)) s paths.

Lemma join_one k ns name : Path.name_ok name = true ->
  join (of_names k ns) (Path.parse name) = Some (of_names k (ns ++ [name])).
Proof. intros Hn. rewrite (Path.parse_name name Hn). by apply (join_names k ns [name]). Qed.

(** One entry of the second loop. *)
Lemma update_dirs_cons now k ns hash sorted local count name rstate l : Path.name_ok name = true ->
  let path := of_names k ns in
  let suff := map Path.Normal ns in
  exists local', (local' = local \/ local' = delete name local) /\ forall s,
    update_dirs now (path, hash) suff sorted local count ((name, rstate) :: l) s =
    match entry_action path suff (map fst sorted) local (name, rstate) with
    | None => update_dirs now (path, hash) suff sorted local' count l s
    | Some a =>
        if (RECONCILE_BASEDIR_THROTTLE <=? count)%nat then (Ok (false, []), s)
        else (note_received now (path, hash) (action_path a) ;;;
              r <-- update_dirs now (path, hash) suff sorted local' (S count) l;;
              st_ret (fst r, a :: snd r)) s
    end.
Proof.
  intros Hn path suff.
  assert (Hj : join path (Path.parse name) = Some (of_names k (ns ++ [name]))) by by apply join_one.
  destruct (decide (Path.join suff (Path.parse name) ∈ map fst sorted)) as [Hk|Hk].
  2: { exists local. split; [by left|]. intros s. cbn [update_dirs fst]. unfold entry_action. cbn [fst snd].
       rewrite Hj. unfold lift, st_lift, expect, st_bind at 1. cbn [mbind option_bind].
       rewrite bool_decide_eq_false_2, option_guard_False by done. done. }
  destruct (Database.signatures rstate) as [|sig sigs] eqn:Es.
  { exists local. split; [by left|]. intros s. cbn [update_dirs fst]. unfold entry_action. cbn [fst snd].
    rewrite Hj, Es. unfold lift, st_lift, expect, st_bind at 1. cbn [mbind option_bind].
    rewrite bool_decide_eq_true_2, option_guard_True by done. done. }
  exists (delete name local). split; [by right|]. intros s. cbn [update_dirs fst]. unfold entry_action. cbn [fst snd].
  rewrite Hj, Es. unfold lift, st_lift, expect, st_bind at 1. cbn [mbind option_bind].
  rewrite bool_decide_eq_true_2, option_guard_True by done. cbn [negb head mbind option_bind].
  destruct (local !! name) as [old|]; [|by destruct (RECONCILE_BASEDIR_THROTTLE <=? count)%nat].
  destruct (decide (Database.image old = Database.image rstate)) as [Ei|Ei].
  { rewrite option_guard_False; [done|]. by intros [? _]. }
  destruct (as_new old sig) eqn:En.
  - rewrite option_guard_False; [done|]. intros [_ Hf%as_new_false]. congruence.
  - apply as_new_false in En. rewrite option_guard_True by done. cbn [mbind option_bind].
    by destruct (RECONCILE_BASEDIR_THROTTLE <=? count)%nat.
Qed.

Lemma entry_action_local path suff kept local local' e : local' !! fst e = local !! fst e ->
  entry_action path suff kept local' e = entry_action path suff kept local e.
Proof. unfold entry_action. by intros ->. Qed.

(** The loop does the first few of the uploads, one for one. *)
Lemma update_dirs_run now k ns hash sorted local l :
  Forall (fun e => Path.name_ok (fst e) = true) l -> NoDup (map fst l) -> forall local' count s,
  (forall e, e ∈ l -> local' !! fst e = local !! fst e) ->
  let path := of_names k ns in
  let todo := omap (entry_action path (map Path.Normal ns) (map fst sorted) local) l in
  let now_done := take (RECONCILE_BASEDIR_THROTTLE - count) todo in
  update_dirs now (path, hash) (map Path.Normal ns) sorted local' count l s =
  (Ok ((length todo <=? RECONCILE_BASEDIR_THROTTLE - count)%nat, now_done),
   noted now (path, hash) (map action_path now_done) s).
Proof.
  intros Hok Hnd. induction Hok as [|[name rstate] l Hn Hok IH]; intros local' count s Hloc path todo now_done.
  { unfold now_done, todo. cbn. by rewrite take_nil. }
  cbn [map fst] in Hnd. apply NoDup_cons in Hnd as [Hnotin Hnd]. specialize (IH Hnd).
  destruct (update_dirs_cons now k ns hash sorted local' count name rstate l Hn) as (local2 & Hl2 & Hrun).
  cbn zeta in Hrun. rewrite Hrun. clear Hrun.
  rewrite (entry_action_local _ _ _ local local') by (apply Hloc, list_elem_of_here).
  assert (Hloc2 : forall e, e ∈ l -> local2 !! fst e = local !! fst e).
  { intros e He. rewrite <- (Hloc e) by (by right). destruct Hl2 as [->| ->]; [done|].
    rewrite lookup_delete_ne; [done|]. intros ->. by apply Hnotin, list_elem_of_fmap_2. }
  unfold now_done, todo, path. cbn [omap list_omap].
  destruct (entry_action _ _ _ local (name, rstate)) as [a|]; [|by apply IH].
  destruct (Nat.leb_spec RECONCILE_BASEDIR_THROTTLE count) as [Hc|Hc].
  - rewrite (proj2 (Nat.sub_0_le _ _)) by done. done.
  - replace (RECONCILE_BASEDIR_THROTTLE - count)%nat with (S (RECONCILE_BASEDIR_THROTTLE - S count)) by lia.
    cbn [take map length]. unfold st_bind at 1. unfold note_received at 1, modify, st_modify.
    unfold st_bind at 1. rewrite IH by done. done.
Qed.

(** The first loop decides by the state at its start. *)
Definition accepts (now : Z) (path : VPath) (local : gmap string Database.State) (s : Sys)
    (e : string * Database.State) : bool :=
  match join path (Path.parse (fst e)), Database.signatures (snd e) with
  | Some vpath, sig :: _ =>
      negb (recent now vpath (Database.image (snd e)) s) &&
      match local !! fst e with
      | None => true
      | Some old => negb (bool_decide (Database.image old = Database.image (snd e))) && negb (as_new old sig)
      end
  | _, _ => false
  end.

Lemma possible_dirs_run now k ns suff local l s : Forall (fun e => Path.name_ok (fst e) = true) l ->
  forall possible, all_possible_dirs now (of_names k ns) suff local l possible s =
  (Ok (foldl (fun p e => if accepts now (of_names k ns) local s e
                         then <[Path.join suff (Path.parse (fst e)) := snd e]> p else p) possible l), s).
Proof.
  induction 1 as [|[name rstate] l Hn Hok IH]; intros possible; [done|]. cbn [all_possible_dirs foldl].
  unfold possible_dir, accepts at 2. cbn [fst snd] in *.
  rewrite join_one by done. unfold lift, st_lift, expect. unfold st_bind at 1 2 3. rewrite is_recently_deleted_run.
  destruct (recent now _ _ s); cbn [negb andb]; [by destruct (Database.signatures rstate); apply IH|].
  destruct (Database.signatures rstate) as [|sig sigs]; [by apply IH|].
  destruct (local !! name) as [old|]; [|by apply IH].
  destruct (decide (Database.image old = Database.image rstate)) as [Ei|Ei].
  { rewrite bool_decide_eq_true_2 by done. by apply IH. }
  rewrite bool_decide_eq_false_2 by done. destruct (as_new old sig); by apply IH.
Qed.

(** The local directory with what is accepted of the peer's. *)
Definition merged (ok : string * Database.State -> bool) (local remote : gmap string Database.State)
  : gmap string Database.State := filter (fun e => ok e = true) remote ∪ local.
Definition sub_path (suff : Path.t) (name : string) : Path.t := suff ++ [Path.Normal name].

#[global] Instance sub_path_inj suff : Inj (=) (=) (sub_path suff).
Proof. intros x y [_ H]%app_inj_2; [by injection H|done]. Qed.

Lemma join_sub ns name : Path.name_ok name = true ->
  Path.join (map Path.Normal ns) (Path.parse name) = sub_path (map Path.Normal ns) name.
Proof. intros Hn. rewrite Path.parse_name by done. by destruct ns. Qed.

Lemma btree_items_perm {A} (m : gmap string A) : btree_items m ≡ₚ map_to_list m.
Proof. apply stable_sort_perm. Qed.

Definition names_ok {A} (m : gmap string A) : Prop := forall n, is_Some (m !! n) -> Path.name_ok n = true.

Lemma btree_items_ok {A} (m : gmap string A) : names_ok m -> Forall (fun e => Path.name_ok (fst e) = true) (btree_items m).
Proof.
  intros Hm. apply Forall_forall. intros [n x] Hin%elem_of_btree_items. apply Hm. by eexists.
Qed.

Lemma btree_items_NoDup {A} (m : gmap string A) : NoDup (map fst (btree_items m)).
Proof. rewrite btree_items_perm. apply NoDup_fst_map_to_list. Qed.

Lemma accept_fold ns (ok : string * Database.State -> bool) l :
  Forall (fun e => Path.name_ok (fst e) = true) l -> NoDup (map fst l) -> forall m0 : gmap string Database.State,
  let suff := map Path.Normal ns in
  foldl (fun p e => if ok e then <[Path.join suff (Path.parse (fst e)) := snd e]> p else p)
    (kmap (M2 := gmap Path.t) (sub_path suff) m0) l =
  kmap (sub_path suff) (list_to_map (filter (fun e => ok e = true) l) ∪ m0).
Proof.
  intros Hok Hnd. induction Hok as [|[n x] l Hn Hok IH]; intros m0 suff; [cbn; by rewrite map_empty_union|].
  cbn [map fst] in Hnd. apply NoDup_cons in Hnd as [Hnotin Hnd]. specialize (IH Hnd).
  cbn [foldl fst snd]. rewrite filter_cons. destruct (ok (n, x)) eqn:E; [|by apply IH].
  rewrite decide_True by done. unfold suff. rewrite join_sub by done. rewrite <- (kmap_insert (sub_path _)).
  rewrite IH. f_equal. rewrite list_to_map_cons. rewrite <- insert_union_l. symmetry. apply insert_union_r.
  apply not_elem_of_list_to_map. intros ([? ?] & -> & Hin)%list_elem_of_fmap_1.
  apply list_elem_of_filter in Hin as [_ Hin]. apply Hnotin. by apply (list_elem_of_fmap_2 fst) in Hin.
Qed.

Lemma local_paths ns (local : gmap string Database.State) : names_ok local ->
  (list_to_map (rev (with_suffix (map Path.Normal ns) local)) : gmap Path.t Database.State) =
  kmap (sub_path (map Path.Normal ns)) local.
Proof.
  intros Hok. unfold kmap.
  assert (E : with_suffix (map Path.Normal ns) local =
    prod_map (sub_path (map Path.Normal ns)) (fun x => x) <$> btree_items local).
  { unfold with_suffix. apply list_fmap_ext. intros i [n x] Hin. cbn.
    rewrite join_sub; [done|]. apply Hok. apply list_elem_of_lookup_2, elem_of_btree_items in Hin. by eexists. }
  assert (Hp : rev (with_suffix (map Path.Normal ns) local) ≡ₚ
    prod_map (sub_path (map Path.Normal ns)) (fun x => x) <$> map_to_list local).
  { rewrite E, <- Permutation_rev. apply fmap_Permutation, btree_items_perm. }
  apply list_to_map_proper; [|done]. rewrite Hp, <- list_fmap_compose.
  change (NoDup ((fun e => sub_path (map Path.Normal ns) (fst e)) <$> map_to_list local)).
  rewrite (list_fmap_compose fst (sub_path (map Path.Normal ns)) (map_to_list local) : (fun e => sub_path (map Path.Normal ns) (fst e)) <$> _ = _). apply NoDup_fmap_2; [apply _|apply NoDup_fst_map_to_list].
Qed.

Lemma possible_run now k ns (local remote : gmap string Database.State) s : names_ok local -> names_ok remote ->
  all_possible_dirs now (of_names k ns) (map Path.Normal ns) local (btree_items remote)
    (list_to_map (rev (with_suffix (map Path.Normal ns) local))) s =
  (Ok (kmap (sub_path (map Path.Normal ns)) (merged (accepts now (of_names k ns) local s) local remote)), s).
Proof.
  intros Hl Hr. rewrite local_paths by done. rewrite possible_dirs_run by by apply btree_items_ok.
  rewrite accept_fold; [|by apply btree_items_ok|apply btree_items_NoDup]. do 4 f_equal.
  unfold merged. f_equal. rewrite map_filter_alt. apply list_to_map_proper.
  - eapply sub_NoDup; [|apply (btree_items_NoDup remote)]. apply (fmap_submseteq fst), sublist_submseteq, sublist_filter.
  - by rewrite btree_items_perm.
Qed.

(** The clean-up finds its images among these, and keeps some. *)
Definition kept_by (cfg : Directory) (wall : Z) (keep_list : list Path.t) (possible : gmap Path.t Database.State)
    (kept : list Path.t) : Prop :=
  if auto_clean cfg
  then exists items r, items ≡ₚ map_to_list possible /\ sort_out cfg wall items keep_list = Some r /\
         kept = map fst (used r)
  else kept ≡ₚ map fst (map_to_list possible).

Lemma kept_possible cfg wall keep_list possible kept p :
  kept_by cfg wall keep_list possible kept -> p ∈ kept -> is_Some (possible !! p).
Proof.
  intros Hk Hp. assert (Hin : p ∈ map fst (map_to_list possible)).
  { unfold kept_by in Hk. destruct (auto_clean cfg); [|by rewrite <- Hk].
    destruct Hk as (items & r & Hi & Hr & ->). rewrite <- Hi, <- (sort_out_perm _ _ _ _ _ Hr), map_app.
    apply elem_of_app. by left. }
  apply list_elem_of_fmap_1 in Hin as ([q x] & -> & Hin). apply elem_of_map_to_list in Hin. by eexists.
Qed.

(** An entry that is not here yet and may be kept was not deleted lately. *)
Lemma append_not_deleted now path local remote s k ns p name rstate :
  path = of_names k ns -> Path.name_ok name = true -> local !! name = None ->
  remote !! name = Some rstate -> p = sub_path (map Path.Normal ns) name ->
  is_Some (kmap (M2 := gmap Path.t) (sub_path (map Path.Normal ns))
    (merged (accepts now path local s) local remote) !! p) ->
  recent now (of_names k (ns ++ [name])) (Database.image rstate) s = false.
Proof.
  intros -> Hn Hl Hr -> [st Hst]. rewrite lookup_kmap in Hst by apply _. unfold merged in Hst.
  apply lookup_union_Some_raw in Hst as [Hst|[_ Hst]]; [|congruence].
  apply map_lookup_filter_Some in Hst as [Hst Hok]. rewrite Hr in Hst. injection Hst as <-.
  unfold accepts in Hok. cbn [fst snd] in Hok. rewrite join_one in Hok by done.
  destruct (Database.signatures rstate); [done|].
  by apply andb_true_iff in Hok as [Hok%negb_true_iff _].
Qed.

(** *** The hosts an image can be had from *)

Lemma noted_other now pair paths s :
  noted now pair paths s = on_state (set_recently_received (recently_received (state (noted now pair paths s)))) s.
Proof.
  assert (H0 : forall s, s = on_state (set_recently_received (recently_received (state s))) s) by (by intros [? [] ? ? ? ? ? ? ? ? ? ?]).
  revert s. induction paths as [|p paths IH]; intros s; [apply H0|]. cbn [noted foldl].
  change (foldl _ ?x paths) with (noted now pair paths x). rewrite IH at 1.
  generalize (recently_received (state (noted now pair paths (snd (note_received now pair p s))))). intros r.
  unfold note_received, modify, st_modify. cbn [snd]. unfold on_state. cbn [state config remote].
  by destruct (reconciling (state s) !! pair).
Qed.

Definition all_now (now : Z) (hosts : gset Host) : gmap SocketAddr Z :=
  list_to_map (map (fun x => (fst x, now)) (elements hosts)).

Lemma noted_lookup now pair paths s hosts p : NoDup paths -> reconciling (state s) !! pair = Some hosts ->
  recently_received (state (noted now pair paths s)) !! p =
  (if decide (p ∈ paths) then Some (all_now now hosts ∪ default ∅ (recently_received (state s) !! p))
   else recently_received (state s) !! p).
Proof.
  intros Hnd. revert s. induction Hnd as [|q paths Hq Hnd IH]; intros s Hs; [done|]. cbn [noted foldl].
  change (foldl _ ?x paths) with (noted now pair paths x).
  assert (E : forall x, recently_received (state (snd (note_received now pair q s))) !! x =
    if decide (x = q) then Some (all_now now hosts ∪ default ∅ (recently_received (state s) !! q))
    else recently_received (state s) !! x).
  { intros x. unfold note_received, modify, st_modify. cbn. rewrite Hs. cbn. rewrite lookup_insert.
    destruct (decide (q = x)) as [->|]; [by rewrite decide_True|by rewrite decide_False]. }
  rewrite IH, E; [|unfold note_received, modify, st_modify; cbn; by rewrite Hs].
  destruct (decide (p ∈ paths)) as [Hp|Hp].
  - rewrite (decide_True (P := p ∈ q :: paths)) by by right. rewrite decide_False; [done|]. by intros ->.
  - destruct (decide (p = q)) as [->|Hpq]; [by rewrite decide_True by apply list_elem_of_here|].
    rewrite decide_False; [done|]. set_solver.
Qed.

Lemma entry_action_path k ns kept local e a : Path.name_ok (fst e) = true ->
  entry_action (of_names k ns) (map Path.Normal ns) kept local e = Some a ->
  action_path a = of_names k (ns ++ [fst e]) /\ sub_path (map Path.Normal ns) (fst e) ∈ kept /\
  (forall c, a = AAppend c -> local !! fst e = None /\ ad_image c = Database.image (snd e)).
Proof.
  intros Hn. unfold entry_action. rewrite join_one, join_sub by done. cbn [mbind option_bind].
  destruct (decide (sub_path (map Path.Normal ns) (fst e) ∈ kept)) as [Hk|Hk];
    [rewrite option_guard_True by done|by rewrite option_guard_False].
  cbn [mbind option_bind]. destruct (head (Database.signatures (snd e))) as [sig|]; [|done]. cbn [mbind option_bind].
  destruct (local !! fst e) as [old|]; [|intros [= <-]; split_and!; [done|done|]; intros c [= <-]; done].
  intros (_ & _ & [= <-])%bind_Some. done.
Qed.

Lemma todo_paths k ns kept local l : Forall (fun e => Path.name_ok (fst e) = true) l -> NoDup (map fst l) ->
  let todo := omap (entry_action (of_names k ns) (map Path.Normal ns) kept local) l in
  NoDup (map action_path todo) /\ forall p, p ∈ map action_path todo -> exists e, e ∈ l /\ p = of_names k (ns ++ [fst e]).
Proof.
  intros Hok Hnd. induction Hok as [|e l Hn Hok IH]; cbn zeta; [split; [apply NoDup_nil_2|by intros p ?%not_elem_of_nil]|].
  cbn [map] in Hnd. apply NoDup_cons in Hnd as [Hnotin Hnd]. destruct (IH Hnd) as [IH1 IH2]. cbn [omap list_omap].
  assert (Hmore : forall p, p ∈ map action_path (omap (entry_action (of_names k ns) (map Path.Normal ns) kept local) l) ->
    exists e', e' ∈ e :: l /\ p = of_names k (ns ++ [fst e'])).
  { intros p Hp. destruct (IH2 p Hp) as (e' & He' & ->). exists e'. split; [by right|done]. }
  destruct (entry_action _ _ _ _ e) as [a|] eqn:Ea; [|done].
  destruct (entry_action_path _ _ _ _ _ _ Hn Ea) as (Hp & _ & _). cbn [map]. rewrite Hp. split.
  - apply NoDup_cons. split; [|done]. intros (e' & He' & Heq)%IH2. apply of_names_inj in Heq as [_ Heq].
    apply app_inj_2 in Heq as [_ Heq]; [|done]. injection Heq as Heq. apply Hnotin. rewrite Heq.
    by apply list_elem_of_fmap_2.
  - intros p [->|Hp']%elem_of_cons; [|by apply Hmore]. exists e. split; [apply list_elem_of_here|done].
Qed.

(** ** Properties *)


(** What the clean-up would keep of the possible entries, or all of them. *)
Lemma kept_entries (cfg : Directory) (wall : Z) (keep_list : list Path.t) (possible : gmap Path.t Database.State) (ordered : list (Path.t * Database.State)) (s : Sys) :
  (auto_clean cfg = true -> is_Some (time_sub wall (keep_recent cfg))) -> ordered ≡ₚ map_to_list possible ->
  exists sorted,
    (if auto_clean cfg then lift (used <$> sort_out cfg wall ordered keep_list) else st_ret ordered) s = (Ok sorted, s) /\
    kept_by cfg wall keep_list possible (map fst sorted).
Proof.
  intros Hclean Ho. unfold kept_by. destruct (auto_clean cfg).
  - destruct (sort_out_returns cfg wall ordered keep_list (Hclean eq_refl)) as [r Hso].
    exists (used r). unfold lift, st_lift. rewrite Hso. cbn. split; [done|]. by exists ordered, r.
  - exists ordered. split; [done|]. by rewrite Ho.
Qed.

(** C20. What a reconciliation starts.  The entries of the peer are taken from
    the newest to the oldest, and the ones to take are judged one by one
    ([entry_action]): signed, newer than every signature of the local image if
    there is one, and such that the next clean-up would keep them among the
    local images and what the peer has.  Only as many are started as the
    throttle of three downloads leaves room for, and the reconciliation counts
    as complete exactly when all of them were.  No path is used twice; an image
    that is appended was not deleted in the last two minutes; the hosts noted
    for the reconciliation become hosts of exactly these paths.  It never
    panics when the names are names. *)
Theorem reconcile_with_spec hash_order sort_by_key now wall k ns hash cfg
    (remote local : gmap string Database.State) keep_list hosts s :
  tracked s -> Path.name_ok k = true -> dirs (config s) !! k = Some cfg ->
  names_ok remote -> names_ok local -> reconciling (state s) !! (of_names k ns, hash) = Some hosts ->
  (forall m, hash_order m ≡ₚ map_to_list m) ->
  (forall l, sort_by_key l ≡ₚ l /\ StronglySorted older (sort_by_key l)) ->
  (auto_clean cfg = true -> is_Some (time_sub wall (keep_recent cfg))) ->
  let path := of_names k ns in
  let suff := map Path.Normal ns in
  exists count kept l s',
    let room := (RECONCILE_BASEDIR_THROTTLE - count)%nat in
    let todo := omap (entry_action path suff kept local) l in
    let actions := take room todo in
    downloading_in_basedir path (state s) = Some count /\
    kept_by cfg wall keep_list (kmap (sub_path suff) (merged (accepts now path local s) local remote)) kept /\
    l ≡ₚ map_to_list remote /\ StronglySorted (flip older) l /\
    reconcile_with hash_order sort_by_key now wall (path, hash) remote local keep_list s =
      (Ok ((length todo <=? room)%nat, actions), s') /\
    NoDup (map action_path actions) /\
    (forall c, AAppend c ∈ actions -> recent now (ad_path c) (ad_image c) s = false) /\
    s' = on_state (set_recently_received (recently_received (state s'))) s /\
    (forall p, recently_received (state s') !! p =
       if decide (p ∈ map action_path actions)
       then Some (all_now now hosts ∪ default ∅ (recently_received (state s) !! p))
       else recently_received (state s) !! p).
Proof.
  intros Hs%tracked_tracks Hk Hcfg Hr Hl Hpair Hho Hsort Hclean path suff.
  destruct (count_matching_run _ path _ (progress_known s Hs)) as [count Hcount].
  set (possible := kmap (M2 := gmap Path.t) (sub_path suff) (merged (accepts now path local s) local remote)).
  destruct (kept_entries cfg wall keep_list possible (hash_order possible) s Hclean (Hho possible)) as (sorted & Hsorted & Hkept).
  destruct (Hsort (btree_items remote)) as [Hperm Hord].
  set (l := rev (sort_by_key (btree_items remote))).
  assert (Hlp : l ≡ₚ btree_items remote) by (unfold l; by rewrite <- Permutation_rev).
  assert (Hok : Forall (fun e => Path.name_ok (fst e) = true) l) by (rewrite Hlp; by apply btree_items_ok).
  assert (Hnd : NoDup (map fst l)) by (rewrite Hlp; apply btree_items_NoDup).
  set (todo := omap (entry_action path suff (map fst sorted) local) l).
  set (actions := take (RECONCILE_BASEDIR_THROTTLE - count) todo).
  assert (Hndp : NoDup (map action_path actions)).
  { eapply sub_NoDup; [|apply (todo_paths k ns (map fst sorted) local l Hok Hnd)].
    apply (fmap_submseteq action_path), sublist_submseteq, sublist_take. }
  exists count, (map fst sorted), l, (noted now (path, hash) (map action_path actions) s). cbn zeta.
  split_and!; try done.
  - by rewrite Hlp, btree_items_perm.
  - by apply StronglySorted_rev.
  - unfold reconcile_with. cbn [fst].
    rewrite (st_bind_ok _ _ s k s) by (unfold lift, st_lift, path; by rewrite key_of_names).
    rewrite (st_bind_ok _ _ s (Some cfg) s) by (unfold look; by rewrite Hcfg).
    rewrite (st_bind_ok _ _ s cfg s) by done.
    rewrite (st_bind_ok _ _ s suff s) by (unfold lift, st_lift, path; by rewrite suffix_of_names).
    rewrite (st_bind_ok _ _ s possible s) by by apply possible_run.
    rewrite (st_bind_ok _ _ s sorted s) by done.
    rewrite (st_bind_ok _ _ s (state s) s) by done.
    rewrite (st_bind_ok _ _ s count s) by (unfold lift, st_lift, downloading_in_basedir; by rewrite Hcount).
    by rewrite (update_dirs_run now k ns hash sorted local l Hok Hnd).
  - intros c Hc. eapply elem_of_sublist in Hc; [|apply sublist_take].
    apply list_elem_of_omap in Hc as ([n rs] & Hin & Ha).
    assert (Hn : Path.name_ok n = true) by (rewrite Forall_forall in Hok; by apply (Hok (n, rs))).
    destruct (entry_action_path _ _ _ _ (n, rs) _ Hn Ha) as (Hp & Hk' & Happ). cbn in Hp. rewrite Hp.
    destruct (Happ c eq_refl) as [Hln ->]. cbn [fst snd] in *.
    eapply append_not_deleted; [done|done|exact Hln| |done|].
    + rewrite Hlp in Hin. by apply elem_of_btree_items in Hin.
    + by eapply kept_possible.
  - apply noted_other.
  - intros p. by apply noted_lookup.
Qed.

(** *** Once is enough *)

Definition has_parent (p : VPath) (hash : Hash.Hash) (t : Z) (s : Sys) : Prop :=
  exists b, base_dirs (state s) !! p = Some b /\ recon_table b !! hash = Some t.

Lemma poll_watched_dirs answer s : base_dirs (state (snd (poll_watched answer s))) = base_dirs (state s).
Proof.
  unfold poll_watched, on_peers, look, modify, st_modify, lift, st_lift, st_bind. cbn.
  by destruct (foldl _ _ _).
Qed.

Lemma has_parent_tick answer u p hash t s : u < t + RETAIN_TIME ->
  has_parent p hash t s -> has_parent p hash t (snd (interval_tick answer u s)).
Proof.
  intros Hu Hp. unfold interval_tick, st_bind at 1, look at 1, st_bind at 1, modify at 1, st_modify at 1.
  match goal with |- context [(_ ;;; _)%st ?x] => set (s1 := x) end.
  assert (H1 : has_parent p hash t (snd (poll_watched answer s1))).
  { destruct Hp as (b & Hb & Ht). exists b. by rewrite poll_watched_dirs. }
  clearbody s1. unfold st_bind at 1. destruct (poll_watched answer s1) as [[[]|[]|] s2]; [|exact H1].
  destruct H1 as (b & Hb & Ht). exists (clean_parent_hashes u b). cbn in *. rewrite lookup_fmap, Hb. split; [done|].
  apply map_lookup_filter_Some. split; [done|]. cbn. lia.
Qed.

(** A directory that was reconciled completely is not reconciled to the
    same hash again for five minutes: announcements of the hash, by whatever
    host, change nothing, however often the state is cleaned meanwhile. *)
Theorem reconciled_once now path hash s b l later addr id k :
  base_dirs (state s) !! path = Some b -> key path = Some k ->
  Forall (fun e => snd e <= later) l -> later < now + RETAIN_TIME ->
  let s1 := ticks l (snd (recon_finish now (path, hash) true s)) in
  reconcile_dir later path hash addr id s1 = (Ok tt, s1).
Proof.
  intros Hb Hk Hl Hlater s1.
  assert (Hp : has_parent path hash now s1).
  { assert (H0 : has_parent path hash now (snd (recon_finish now (path, hash) true s))).
    { exists (add_parent_hash now hash b). cbn. rewrite lookup_alter_eq, Hb. split; [done|]. cbn.
      by rewrite lookup_insert_eq. }
    unfold s1. clear s1 Hb. generalize dependent (snd (recon_finish now (path, hash) true s)).
    induction Hl as [|e l He Hl IH]; intros s0 H0; [done|].
    apply IH. apply has_parent_tick; [lia|done]. }
  destruct Hp as (b' & Hb' & Ht). unfold reconcile_dir.
  rewrite (st_bind_ok _ _ s1 k s1) by (unfold lift, st_lift; by rewrite Hk).
  rewrite (st_bind_ok _ _ s1 (dirs (config s1) !! k) s1) by done.
  destruct (dirs (config s1) !! k); [|done].
  rewrite (st_bind_ok _ _ s1 (state s1) s1) by done.
  destruct (_ <? _)%nat; [done|]. rewrite Hb'. cbn [from_option].
  assert (Hsup : is_superset_of later hash b' = true).
  { unfold is_superset_of. case_decide; [done|]. rewrite Ht. apply bool_decide_eq_true. lia. }
  by rewrite Hsup.
Qed.

(** ** Examples *)

(** The sort of a library that is stable. *)
Definition olderb (x y : string * Database.State) : bool :=
  match max_timestamp (snd x), max_timestamp (snd y) with
  | None, _ => true
  | Some _, None => false
  | Some a, Some b => a <=? b
  end.

Lemma sort_older l : stable_sort olderb l ≡ₚ l /\ StronglySorted older (stable_sort olderb l).
Proof.
  split; [apply stable_sort_perm|].
  assert (H : StronglySorted (fun x y => olderb x y = true) (stable_sort olderb l)).
  { apply stable_sort_sorted.
    - intros x y. unfold olderb. destruct (max_timestamp (snd x)), (max_timestamp (snd y)); auto. lia.
    - intros x y z. unfold olderb. destruct (max_timestamp (snd x)), (max_timestamp (snd y)), (max_timestamp (snd z));
        try done. lia. }
  induction H as [|x l' _ IH Hx]; constructor; [done|]. eapply Forall_impl; [exact Hx|]. intros y.
  unfold olderb, older. destruct (max_timestamp (snd x)), (max_timestamp (snd y)); try done. lia.
Qed.

Module ReconExample.
Import Tracking.Example.

Definition dir : VPath := of_names "k" [].
Definition hash : Hash.Hash := Hash.mk [].
Definition mid : MachineId.MachineId := MachineId.mk [].
Definition host1 : Host := ({| ip := 1; sport := 24783 |}, mid).
Definition host2 : Host := ({| ip := 2; sport := 24783 |}, mid).

(** Two hosts announce the hash. *)
Definition announced : Sys :=
  snd (reconcile_dir 1 dir hash (fst host2) mid (snd (reconcile_dir 1 dir hash (fst host1) mid s0))).

Definition signed (id : ImageId) (t : Z) : Database.State :=
  {| Database.image := id;
     Database.signatures := [{| Database.timestamp := t; Database.signature := Signature.SshEd25519 [] |}] |}.
Definition img2 : ImageId := from_vec [Byte.x01].

Definition no_hash (m : gmap string Database.State) : Hash.Hash := hash.
Definition full_dir : GetBaseDirResponse :=
  {| gbdr_config_hash := hash; gbdr_keep_list_hash := hash; gbdr_dirs := {["x"%string := signed img 5]} |}.

(** The first host fails, the second one has the directory. *)
Definition answer (i : nat) (addr : SocketAddr) : Answer :=
  if decide (addr = fst host2) then ADir full_dir else AFailed.
Definition asked : Sys := snd (recon_loop no_hash 9 0 answer (fun _ s => s) (dir, hash) host1 0 announced).
Definition reconcile := reconcile_with map_to_list (stable_sort olderb).

(** The host that answered has been taken out of the noted hosts: the image is
    started without noting that it can be had from there. *)
Lemma answering_host_forgotten :
  fst (recon_loop no_hash 9 0 answer (fun _ s => s) (dir, hash) host1 0 announced) =
    Ok (Some (Some (fst host2, dir_state (dir, hash) full_dir))) /\
  match reconcile 2 2 (dir, hash) (gbdr_dirs full_dir) ∅ [] asked with
  | (Ok (true, [AAppend c]), s') => ad_path c = path /\ recently_received (state s') !! path = Some ∅
  | _ => False
  end.
Proof. split; vm_compute; [reflexivity|]. split; reflexivity. Qed.

(** An image that was just deleted replaces another one all the same, as the
    check only looks at what is added to the local images. *)
Definition deleted : Sys := snd (dir_deleted 1 path img2 announced).
Lemma deleted_replaces :
  recent 2 path img2 deleted = true /\
  match fst (reconcile 2 2 (dir, hash) {["x"%string := signed img2 9]} {["x"%string := signed img 5]} [] deleted) with
  | Ok (true, [AReplace c]) => rd_path c = path /\ rd_image c = img2
  | _ => False
  end.
Proof. split; vm_compute; [reflexivity|]. split; reflexivity. Qed.

(** A name from a peer that is no name. *)
Lemma peer_name_panics :
  fst (reconcile 2 2 (dir, hash) {[".."%string := signed img 9]} ∅ [] announced) = Panic.
Proof. vm_compute. reflexivity. Qed.

Definition append_cmd : AppendDir :=
  {| ad_path := path; ad_image := img; ad_timestamp := 5; ad_signatures := [Signature.SshEd25519 []] |}.

Lemma announced_tracked : tracked announced.
Proof.
  assert (H0 : tracked s0) by (apply tracked_new; by eexists).
  apply (tracked_call (reconcile_dir 1 dir hash (fst host2) mid)).
  - apply (tracked_call (reconcile_dir 1 dir hash (fst host1) mid) s0 H0). by apply c_reconcile_dir.
  - by apply c_reconcile_dir.
Qed.

Lemma announced_hosts : exists hosts, reconciling (state announced) !! (of_names "k" [], hash) = Some hosts.
Proof.
  assert (H : match reconciling (state announced) !! (of_names "k" [], hash) with Some _ => true | None => false end = true)
    by (vm_compute; reflexivity).
  destruct (reconciling (state announced) !! (of_names "k" [], hash)) as [hosts|]; [by exists hosts|done].
Qed.

Lemma append_run : fst (reconcile 2 2 (of_names "k" [], hash) {["x"%string := signed img 5]} ∅ [] announced) =
  Ok (true, [AAppend append_cmd]).
Proof. vm_compute. reflexivity. Qed.

Lemma announced_config : dirs (config announced) !! "k"%string = Some Progress.example_config.
Proof. vm_compute. reflexivity. Qed.

Lemma one_name_ok (x : Database.State) : names_ok ({["x"%string := x]} : gmap string Database.State).
Proof. intros n [y Hy]. apply lookup_singleton_Some in Hy as [<- _]. done. Qed.
End ReconExample.


Lemma reconcile_with_spec_witness :
  exists c s', reconcile_with map_to_list (stable_sort olderb) 2 2 (of_names "k" [], ReconExample.hash)
    {["x"%string := ReconExample.signed Example.img 5]} ∅ [] ReconExample.announced = (Ok (true, [AAppend c]), s') /\
    recent 2 (ad_path c) (ad_image c) ReconExample.announced = false.
Proof.
  destruct ReconExample.announced_hosts as [hosts Hh].
  destruct (reconcile_with_spec map_to_list (stable_sort olderb) 2 2 "k" [] ReconExample.hash Progress.example_config
    {["x"%string := ReconExample.signed Example.img 5]} ∅ [] hosts ReconExample.announced
    ReconExample.announced_tracked eq_refl ReconExample.announced_config (ReconExample.one_name_ok _))
    as (count & kept & l & s' & _ & _ & _ & _ & Hrun & _ & Hrec & _).
  - intros n [y Hy]. discriminate Hy.
  - exact Hh.
  - done.
  - apply sort_older.
  - discriminate.
  - pose proof ReconExample.append_run as Hfst. unfold ReconExample.reconcile in Hfst.
    rewrite Hrun in Hfst |- *. injection Hfst as Hf Ha. exists ReconExample.append_cmd, s'. split.
    + do 3 f_equal; [exact Hf|exact Ha].
    + apply Hrec. eapply eq_ind_r; [|exact Ha]. apply list_elem_of_here.
Defined.

Lemma reconciled_once_witness :
  let b := Example.base in
  let s := on_state (set_base_dirs {[ReconExample.dir := b]} [ReconExample.dir]) ReconExample.announced in
  let s1 := ticks [(fun _ => CheckPending, 9)] (snd (recon_finish 5 (ReconExample.dir, ReconExample.hash) true s)) in
  reconcile_dir 10 ReconExample.dir ReconExample.hash (fst ReconExample.host2) ReconExample.mid s1 = (Ok tt, s1).
Proof.
  intros b s. apply (reconciled_once 5 ReconExample.dir ReconExample.hash s b [(fun _ => CheckPending, 9)] 10
    (fst ReconExample.host2) ReconExample.mid "k").
  - reflexivity.
  - reflexivity.
  - repeat constructor; cbn; lia.
  - vm_compute. reflexivity.
Defined.
