(* ===== verification/Rpc.v ===== *)
(** * Requests of clients and peers: [src/daemon/tracking/rpc.rs]

    A handler either answers at once or starts something ([Pending]) in the
    metadata store or on the disk, and makes the answer of its result.  With
    [frame] of [Remote] in front and [respond_with_future] behind, this is how a
    request is served. *)
From S2P Require Import Prelude Serde VirtualPath Ids Time Signature Config Cleanup Commands Peers Progress Remote.
From S2P Require Metadata.
From S2P Require Import BaseDir Tracking Reconcile.
Import VPath ImageId.
Local Open Scope st_scope.

(** ** Handlers *)

(** What is started: an upload, [is_writing] and [read_block], an index, the
    index of a path, the scan of a base directory. *)
Inductive Pending :=
| PAppend (cmd : AppendDir)
| PReplace (cmd : ReplaceDir)
| PBlock (vpath : VPath) (path : Path.t) (offset : Z)
| PIndex (id : ImageId)
| PIndexAt (path : VPath)
| PBaseDir (path : VPath) (cfg : Directory).

Inductive Reply := RespondNow (r : Response) | ErrorNow (e : string) | Later (p : Pending).

Definition servers (path : VPath) : M (gmap MachineId.MachineId string) :=
  base <-- lift (parent path);; p <-- look sys_peers;; lift (servers_by_basedir base p).

Definition has_config (path : VPath) : M bool :=
  k <-- lift (key path);; c <-- look (fun s => dirs (config s) !! k);; st_ret (bool_decide (is_Some c)).

Definition append_dir (cmd : AppendDir) : M Reply :=
  c <-- has_config (ad_path cmd);;
  if negb c then
    hosts <-- servers (ad_path cmd);;
    st_ret (RespondNow (RespAppendDir {| ada_accepted := false; ada_reject_reason := Some "no_config"%string;
                                         ada_hosts := hosts |}))
  else st_ret (Later (PAppend cmd)).

Definition accepted (u : Metadata.Upload) : bool := match u with Metadata.Accepted _ => true | _ => false end.
Definition reject_reason (u : Metadata.Upload) : option string :=
  match u with Metadata.Rejected reason _ => Some reason | _ => None end.

Definition append_done (path : VPath) (image_id : ImageId) (result : Metadata.Upload) : M AppendDirAck :=
  _ <-- lift (parent path);;
  match result with
  | Metadata.Accepted Metadata.New => fetch_dir path image_id false
  | Metadata.Accepted Metadata.AlreadyDone => modify (on_remote (notify_received_image image_id path))
  | Metadata.Accepted Metadata.InProgress | Metadata.Rejected _ _ => st_ret tt
  end ;;;
  hosts <-- servers path;;
  st_ret {| ada_accepted := accepted result; ada_reject_reason := reject_reason result; ada_hosts := hosts |}.

Definition replace_dir (cmd : ReplaceDir) : M Reply :=
  c <-- has_config (rd_path cmd);;
  if negb c then
    hosts <-- servers (rd_path cmd);;
    st_ret (RespondNow (RespReplaceDir {| rda_accepted := false; rda_reject_reason := Some "no_config"%string;
                                          rda_hosts := hosts |}))
  else st_ret (Later (PReplace cmd)).

Definition replace_done (path : VPath) (image_id : ImageId) (result : Metadata.Upload) : M ReplaceDirAck :=
  _ <-- lift (parent path);;
  match result with
  | Metadata.Accepted Metadata.New => fetch_dir path image_id true
  | Metadata.Accepted Metadata.AlreadyDone => modify (on_remote (notify_received_image image_id path))
  | Metadata.Rejected _ (Some other_id) =>
      modify (on_state (fun st => set_watched (<[path := IsComplete other_id]> (watched st)) st))
  | Metadata.Accepted Metadata.InProgress | Metadata.Rejected _ None => st_ret tt
  end ;;;
  hosts <-- servers path;;
  st_ret {| rda_accepted := accepted result; rda_reject_reason := reject_reason result; rda_hosts := hosts |}.

Definition get_block (cmd : GetBlock) : M Reply :=
  st_ret (match gb_hint cmd with
          | Some (vpath, path, offset) =>
              match Path.file_name path with
              | None => ErrorNow "Path must have at least one component"
              | Some _ =>
                  if negb (Path.is_absolute path) then ErrorNow "Path must be absolute"
                  else Later (PBlock vpath path offset)
              end
          | None => ErrorNow "Hint is required for fetching blocks from server"
          end).
Definition block_done (bytes : bytes) : Response := RespGetBlock {| gbr_data := bytes |}.

Definition get_index (cmd : GetIndex) : M Reply := st_ret (Later (PIndex (gi_id cmd))).
Definition index_done (val : bytes) : Response := RespGetIndex {| gir_data := val |}.

Definition get_index_at (cmd : GetIndexAt) : M Reply := st_ret (Later (PIndexAt (gia_path cmd))).
(** [None] is an error of the metadata store. *)
Definition index_at_done (path : VPath) (res : option bytes) : M GetIndexAtResponse :=
  hosts <-- servers path;; st_ret {| giar_data := res; giar_hosts := hosts |}.

Definition get_base_dir (cmd : GetBaseDir) : M Reply :=
  k <-- lift (key (gbd_path cmd));;
  c <-- look (fun s => dirs (config s) !! k);;
  st_ret (match c with
          | Some cfg => Later (PBaseDir (gbd_path cmd) cfg)
          | None => ErrorNow "No such config"
          end).
Definition base_dir_done (value : BaseDirState) : GetBaseDirResponse :=
  {| gbdr_config_hash := bds_config_hash value; gbdr_keep_list_hash := bds_keep_list_hash value;
     gbdr_dirs := bds_dirs value |}.

(** The call of [Dispatcher::frame]. *)
Definition handle (req : Request) : M Reply :=
  match req with
  | ReqAppendDir cmd => append_dir cmd
  | ReqReplaceDir cmd => replace_dir cmd
  | ReqGetIndex cmd => get_index cmd
  | ReqGetIndexAt cmd => get_index_at cmd
  | ReqGetBlock cmd => get_block cmd
  | ReqGetBaseDir cmd => get_base_dir cmd
  end.

(** ** Lemmas *)

Lemma servers_run k ns n s : Path.name_ok k = true ->
  exists hosts, servers_by_basedir (of_names k ns) (sys_peers s) = Some hosts /\
    servers (of_names k (ns ++ [n])) s = (Ok hosts, s).
Proof.
  intros Hk. unfold servers, servers_by_basedir, key_vpath. rewrite key_of_names. cbn [mbind option_bind].
  rewrite from_key by done. cbn [mbind option_bind]. eexists. split; [done|].
  unfold lift, look, st_lift, st_bind, expect. rewrite parent_snoc. unfold servers_by_basedir, key_vpath.
  rewrite key_of_names. cbn [mbind option_bind]. by rewrite from_key.
Qed.

Lemma has_config_run k ns s : has_config (of_names k ns) s = (Ok (bool_decide (is_Some (dirs (config s) !! k))), s).
Proof. unfold has_config, lift, look, st_lift, st_bind, expect. by rewrite key_of_names. Qed.

Definition queued_fetch (path : VPath) (image : ImageId) (replace : bool) (cfg : Directory) (s : Sys) : Sys :=
  on_channels (fun l => l ++ [FetchDir (new_downloading path image replace cfg)]) (fun l => l) (fun l => l) s.

Lemma fetch_dir_run k ns image replace cfg s : dirs (config s) !! k = Some cfg ->
  fetch_dir (of_names k ns) image replace s = (Ok tt, queued_fetch (of_names k ns) image replace cfg s).
Proof.
  intros Hc. unfold fetch_dir, lift, look, st_lift, st_bind, expect. rewrite key_of_names. cbn. by rewrite Hc.
Qed.

(** What the result of an upload does to the daemon. *)
Definition upload_effect (replace : bool) (path : VPath) (image : ImageId) (cfg : Directory)
    (result : Metadata.Upload) (s : Sys) : Sys :=
  match result with
  | Metadata.Accepted Metadata.New => queued_fetch path image replace cfg s
  | Metadata.Accepted Metadata.AlreadyDone => on_remote (notify_received_image image path) s
  | Metadata.Rejected _ (Some other) =>
      if replace then on_state (fun st => set_watched (<[path := IsComplete other]> (watched st)) st) s else s
  | _ => s
  end.

Lemma done_run {A} k ns n image replace cfg result s (hosts : gmap MachineId.MachineId string)
    (mk : gmap MachineId.MachineId string -> A) (m : M unit) :
  Path.name_ok k = true -> m s = (Ok tt, upload_effect replace (of_names k (ns ++ [n])) image cfg result s) ->
  servers_by_basedir (of_names k ns) (sys_peers s) = Some hosts ->
  (_ <-- lift (parent (of_names k (ns ++ [n])));; m ;;; (h <-- servers (of_names k (ns ++ [n]));; st_ret (mk h))) s =
  (Ok (mk hosts), upload_effect replace (of_names k (ns ++ [n])) image cfg result s).
Proof.
  intros Hk Hm Hh.
  rewrite (st_bind_ok _ _ s (of_names k ns) s) by (unfold lift, st_lift; by rewrite parent_snoc).
  unfold st_bind at 1. rewrite Hm.
  set (s' := upload_effect _ _ _ _ _ _). destruct (servers_run k ns n s' Hk) as (h & Hsrv & Hrun).
  unfold st_bind. rewrite Hrun.
  assert (Hp : sys_peers s' = sys_peers s).
  { unfold s', upload_effect. destruct result as [[]|? [|]]; try done. by destruct replace. }
  rewrite Hp, Hh in Hsrv. by injection Hsrv as ->.
Qed.

(** A request for a configured directory goes to the store, and what is made of
    the store's result. *)
Lemma later_run k ns cfg s : dirs (config s) !! k = Some cfg ->
  (forall c, ad_path c = of_names k ns -> handle (ReqAppendDir c) s = (Ok (Later (PAppend c)), s)) /\
  (forall c, rd_path c = of_names k ns -> handle (ReqReplaceDir c) s = (Ok (Later (PReplace c)), s)).
Proof.
  intros Hc. split; intros c Hp; unfold handle, append_dir, replace_dir; rewrite Hp; unfold st_bind; rewrite has_config_run, Hc;
    by rewrite bool_decide_eq_true_2 by by eexists.
Qed.
Lemma upload_done_run k ns n image cfg result s hosts :
  Path.name_ok k = true -> dirs (config s) !! k = Some cfg -> servers_by_basedir (of_names k ns) (sys_peers s) = Some hosts ->
  append_done (of_names k (ns ++ [n])) image result s =
    (Ok {| ada_accepted := accepted result; ada_reject_reason := reject_reason result; ada_hosts := hosts |},
     upload_effect false (of_names k (ns ++ [n])) image cfg result s) /\
  replace_done (of_names k (ns ++ [n])) image result s =
    (Ok {| rda_accepted := accepted result; rda_reject_reason := reject_reason result; rda_hosts := hosts |},
     upload_effect true (of_names k (ns ++ [n])) image cfg result s).
Proof.
  intros Hk Hc Hh. unfold append_done, replace_done. split; apply (done_run k ns n image _ cfg result s hosts);
    try done; destruct result as [[]|? [|]]; try done; by apply fetch_dir_run.
Qed.

(** ** Properties *)

(** C30. An upload request for a path of an image.  Without a configuration of
    its directory it is rejected at once and nothing changes.  Otherwise it goes
    to the metadata store, and the answer says what the store decided and lists
    the servers of the directory, in either case.  Only an upload that is new
    starts a download, exactly one, that replaces for [replace_dir] and not for
    [append_dir]; for one that was done before the clients are notified again;
    and a rejected replacement notes the image that is in its place. *)
Theorem upload_rpc_spec k ns n s :
  Path.name_ok k = true ->
  let path := of_names k (ns ++ [n]) in
  exists hosts, servers_by_basedir (of_names k ns) (sys_peers s) = Some hosts /\
  forall image time sigs old,
  let ad := {| ad_path := path; ad_image := image; ad_timestamp := time; ad_signatures := sigs |} in
  let rd := {| rd_path := path; rd_image := image; rd_old_image := old; rd_timestamp := time;
               rd_signatures := sigs |} in
  match dirs (config s) !! k with
  | None =>
      handle (ReqAppendDir ad) s = (Ok (RespondNow (RespAppendDir {| ada_accepted := false;
        ada_reject_reason := Some "no_config"%string; ada_hosts := hosts |})), s) /\
      handle (ReqReplaceDir rd) s = (Ok (RespondNow (RespReplaceDir {| rda_accepted := false;
        rda_reject_reason := Some "no_config"%string; rda_hosts := hosts |})), s)
  | Some cfg =>
      handle (ReqAppendDir ad) s = (Ok (Later (PAppend ad)), s) /\
      handle (ReqReplaceDir rd) s = (Ok (Later (PReplace rd)), s) /\
      forall result,
        append_done path image result s =
          (Ok {| ada_accepted := accepted result; ada_reject_reason := reject_reason result; ada_hosts := hosts |},
           upload_effect false path image cfg result s) /\
        replace_done path image result s =
          (Ok {| rda_accepted := accepted result; rda_reject_reason := reject_reason result; rda_hosts := hosts |},
           upload_effect true path image cfg result s)
  end.
Proof.
  intros Hk path. destruct (servers_run k ns n s Hk) as (hosts & Hh & Hrun). exists hosts. split; [done|].
  intros image time sigs old ad rd.
  destruct (dirs (config s) !! k) as [cfg|] eqn:Hc.
  - destruct (later_run k (ns ++ [n]) cfg s Hc) as [Ha Hr]. split; [by apply Ha|]. split; [by apply Hr|].
    intros result. by apply upload_done_run.
  - unfold handle, append_dir, replace_dir, ad, rd, path. cbn [ad_path rd_path]. unfold st_bind.
    rewrite has_config_run, Hc. rewrite bool_decide_eq_false_2 by (by intros [? ?]). cbn [negb].
    unfold path in Hrun. by rewrite Hrun.
Qed.

(** A directory that did not change is served with the hash that was
    announced for it: what [get_base_dir] answers from the same metadata is what
    a reconciliation to that hash waits for.  This needs no clean-up in the
    directory, whose result depends on the time of the scan. *)
Theorem announced_hash_served blake2b_256 (cbor : Value -> bytes) `{Wire (gmap string Database.State)}
    `{Wire (gset string)} (config_hash : Directory -> Hash.Hash) path cfg now1 now2 dirs keep_list st1 s k :
  let hash_of := dirs_hash blake2b_256 cbor in
  let scan_at := scan blake2b_256 cbor config_hash path cfg in
  key path = Some k -> Config.dirs (config s) !! k = Some cfg ->
  auto_clean cfg = false -> scan_at now1 dirs keep_list = Some st1 ->
  handle (ReqGetBaseDir {| gbd_path := path |}) s = (Ok (Later (PBaseDir path cfg)), s) /\
  exists st2, scan_at now2 dirs keep_list = Some st2 /\
    good hash_of (path, hash_of (bds_dirs st1)) (ADir (base_dir_done st2)).
Proof.
  intros hash_of scan_at Hk Hc Hauto Hscan. split.
  - unfold handle, get_base_dir, lift, look, st_lift, st_bind, expect. cbn [gbd_path]. by rewrite Hk, Hc.
  - exists st1. split; [|done]. unfold scan_at, scan in *. by rewrite Hauto in *.
Qed.

(** ** Examples *)

(** A path that is only a key, which decodes, has no parent: the request ends
    the daemon. *)
Lemma key_request_panics k s : dirs (config s) !! k = None ->
  exists p, VPath.deserialize ("/" +:+ "x") = Ok p /\ p = of_names "x" [] /\
  forall image time sigs, fst (handle (ReqAppendDir {| ad_path := of_names k []; ad_image := image; ad_timestamp := time;
                                  ad_signatures := sigs |}) s) = Panic.
Proof.
  intros Hc. exists (of_names "x" []). split; [vm_compute; reflexivity|]. split; [done|]. intros image time sigs.
  unfold handle, append_dir. cbn [ad_path]. unfold st_bind at 1. rewrite has_config_run, Hc.
  by rewrite bool_decide_eq_false_2 by (by intros [? ?]).
Qed.

(** A block is asked for by any absolute path with a name at the end, also one
    that leaves the image. *)
Lemma block_outside hash vpath offset s :
  handle (ReqGetBlock {| gb_hash := hash; gb_hint := Some (vpath, Path.parse "/../../etc/passwd", offset) |}) s =
    (Ok (Later (PBlock vpath
      [Path.RootDir; Path.ParentDir; Path.ParentDir; Path.Normal "etc"; Path.Normal "passwd"] offset)), s).
Proof. reflexivity. Qed.

Lemma upload_rpc_spec_witness :
  exists hosts, append_done Example.path Example.img (Metadata.Rejected "signature_mismatch" None) Example.s0 =
    (Ok {| ada_accepted := false; ada_reject_reason := Some "signature_mismatch"%string; ada_hosts := hosts |}, Example.s0).
Proof.
  destruct (upload_rpc_spec "k" [] "x" Example.s0 eq_refl) as (hosts & _ & H).
  specialize (H Example.img 0%Z [] None). exists hosts. cbn zeta in H.
  destruct H as (_ & _ & H). exact (proj1 (H _)).
Defined.
