(* ===== verification/FetchIndex.v ===== *)
(** * The indexes of images in memory: [src/daemon/tracking/fetch_index.rs]

    A registry says for every image whether its index is in memory ([Done], a
    weak reference) or on its way.  A task reads it from the metadata store or
    else fetches it from the cluster.  Objects that the code shares with
    reference counts are in stores: the indexes alive, the one-shot channels of
    the results, the tasks.  The lock of the registry is held by one step at a
    time.  The tasks that wait for a result are not modelled: they hold the
    receiver of a channel until it is resolved. *)
From S2P Require Import Prelude Serde VirtualPath Mask Ids Index Time Peers Tracking.
Import VPath ImageId.
Local Open Scope Z_scope.

Definition RETRY_FOR : Z := 90 * nanos_per_sec.
Definition RETRY_TIMEOUT : Z := 1 * nanos_per_sec.

Abbreviation HostFailures := (Failures SocketAddr DefaultPolicy).

(** ** State *)

(** [struct InProgress]; the sender [wakeup] is named by a number, and the
    future by its channel. *)
Record InProgress := {
  ip_paths : list VPath;
  ip_failures : HostFailures;
  ip_wakeup : option nat;
  ip_future : nat
}.

Inductive IndexRef := IDone (obj : nat) | IInProgress (inp : InProgress).

(** A one-shot channel: waiting, a result, or the sender was dropped. *)
Inductive Chan := Open | Sent (obj : nat) | Closed.

(** [enum State], and [FetchBase] with its deadline.  A task that reads the
    store has no [FetchBase] yet. *)
Inductive FState := Start | Fetching (addr : SocketAddr) | Waiting (rx : nat) (until : Z).
Record FetchBase := { fb_deadline : Z; fb_state : FState }.
Record Task := { t_id : ImageId; t_chan : nat; t_fetch : option FetchBase }.

Record Indexes := {
  images : gmap ImageId IndexRef;
  objs : gmap nat IndexData;
  chans : gmap nat Chan;
  tasks : gmap nat Task;
  next : nat;
  stored : list (ImageId * bytes)
}.

Definition indexes_new : Indexes :=
  {| images := ∅; objs := ∅; chans := ∅; tasks := ∅; next := 0; stored := [] |}.

Definition with_images (f : gmap ImageId IndexRef -> gmap ImageId IndexRef) (s : Indexes) : Indexes :=
  {| images := f (images s); objs := objs s; chans := chans s; tasks := tasks s; next := next s; stored := stored s |}.
Definition with_objs (f : gmap nat IndexData -> gmap nat IndexData) (s : Indexes) : Indexes :=
  {| images := images s; objs := f (objs s); chans := chans s; tasks := tasks s; next := next s; stored := stored s |}.
Definition with_chans (f : gmap nat Chan -> gmap nat Chan) (s : Indexes) : Indexes :=
  {| images := images s; objs := objs s; chans := f (chans s); tasks := tasks s; next := next s; stored := stored s |}.
Definition with_tasks (f : gmap nat Task -> gmap nat Task) (s : Indexes) : Indexes :=
  {| images := images s; objs := objs s; chans := chans s; tasks := f (tasks s); next := next s; stored := stored s |}.
Definition fresh (s : Indexes) : Indexes :=
  {| images := images s; objs := objs s; chans := chans s; tasks := tasks s; next := S (next s); stored := stored s |}.
Definition store_index (l : list (ImageId * bytes)) (s : Indexes) : Indexes :=
  {| images := images s; objs := objs s; chans := chans s; tasks := tasks s; next := next s; stored := stored s ++ l |}.

(** ** [Indexes::get] *)

Inductive IndexFuture := IReady (obj : nat) | IFuture (chan : nat).

(** [spawn_try_read]: the channel and the task, and the entry to insert. *)
Definition spawn_try_read (path : VPath) (index : ImageId) (s : Indexes) : nat * InProgress * Indexes :=
  let n := next s in
  (n, {| ip_paths := [path]; ip_failures := new_default; ip_wakeup := None; ip_future := n |},
   with_tasks (insert n {| t_id := index; t_chan := n; t_fetch := None |}) (with_chans (insert n Open) (fresh s))).

Definition add_path (vpath : VPath) (x : InProgress) : InProgress :=
  {| ip_paths := if decide (vpath ∈ ip_paths x) then ip_paths x else ip_paths x ++ [vpath];
     ip_failures := ip_failures x; ip_wakeup := ip_wakeup x; ip_future := ip_future x |}.

Definition get (vpath : VPath) (index : ImageId) (s : Indexes) : IndexFuture * Indexes :=
  let started :=
    let '(fut, inp, s') := spawn_try_read vpath index s in
    (IFuture fut, with_images (insert index (IInProgress inp)) s') in
  match images s !! index with
  | Some (IDone x) =>
      match objs s !! x with
      | Some _ => (IReady x, s)
      | None => started
      end
  | Some (IInProgress x) =>
      (IFuture (ip_future x), with_images (insert index (IInProgress (add_path vpath x))) s)
  | None => started
  end.

(** [impl Drop for Inner]: it takes the entry of its image, whichever that is. *)
Definition drop_inner (obj : nat) (id : ImageId) (s : Indexes) : Indexes :=
  with_images (delete id) (with_objs (delete obj) s).

(** ** The tasks *)

Definition send (chan obj : nat) (s : Indexes) : Indexes := with_chans (insert chan (Sent obj)) s.

(** The metadata store answered; [None] is any error.  The entry of the
    registry is left as it is. *)
Definition read_done (t : nat) (now : Z) (result : option IndexData) (s : Indexes) : Indexes :=
  match tasks s !! t with
  | None => s
  | Some task =>
      match result with
      | Some data =>
          let obj := next s in
          send (t_chan task) obj (with_tasks (delete t) (with_objs (insert obj data) (fresh s)))
      | None =>
          with_tasks (insert t {| t_id := t_id task; t_chan := t_chan task;
                                  t_fetch := Some {| fb_deadline := now + RETRY_FOR; fb_state := Start |} |}) s
      end
  end.

(** What a poll asks of the outside, by the number of the turn of its loop. *)
Inductive ReqAnswer := RPending | RFailed | RReady (data : bytes).
Record IndexEnv := {
  i_now : Z;
  i_choice : nat -> nat;
  i_conn : nat -> VPath -> HostFailures -> option SocketAddr;
  i_req : nat -> SocketAddr -> ReqAnswer
}.

Inductive PollState := PReady (data : IndexData) (raw : bytes) | PNotReady (st : FState).

Section Fetch.
Context `{IndexParser} (env : IndexEnv).

Definition set_wakeup (w : option nat) (inp : InProgress) : InProgress :=
  {| ip_paths := ip_paths inp; ip_failures := ip_failures inp; ip_wakeup := w; ip_future := ip_future inp |}.
Definition host_failed (addr : SocketAddr) (inp : InProgress) : InProgress :=
  {| ip_paths := ip_paths inp; ip_failures := add_failure (i_now env) (i_now env) addr (ip_failures inp);
     ip_wakeup := ip_wakeup inp; ip_future := ip_future inp |}.

(** The loop of [poll_state]: the result with the entry as it is then; [w] is
    the next name of a sender.  The outer [None] is fuel, the inner one the
    panic of [expect] or of the parser. *)
Fixpoint poll_state (fuel n w : nat) (id : ImageId) (state : FState) (inp : InProgress)
  : option (option (PollState * InProgress * nat)) :=
  match fuel with
  | O => None
  | S fuel' =>
      match state with
      | Start =>
          match choose (i_choice env n) (ip_paths inp) with
          | None => Some None
          | Some path =>
              match i_conn env n path (ip_failures inp) with
              | Some conn => poll_state fuel' (S n) w id (Fetching conn) (set_wakeup None inp)
              | None =>
                  poll_state fuel' (S n) (S w) id (Waiting w (i_now env + RETRY_TIMEOUT)) (set_wakeup (Some w) inp)
              end
          end
      | Fetching addr =>
          match i_req env n addr with
          | RFailed => poll_state fuel' (S n) w id Start (host_failed addr inp)
          | RReady data =>
              match parse id data with
              | Ok x => Some (Some (PReady x data, inp, w))
              | Err _ => poll_state fuel' (S n) w id Start (host_failed addr inp)
              | Panic => Some None
              end
          | RPending => Some (Some (PNotReady (Fetching addr), inp, w))
          end
      | Waiting rx until =>
          if bool_decide (until <= i_now env) then poll_state fuel' (S n) w id Start inp
          else if bool_decide (ip_wakeup inp <> Some rx) then poll_state fuel' (S n) w id Start inp
          else Some (Some (PNotReady (Waiting rx until), inp, w))
      end
  end.

(** [FetchBase::poll]; [inl] is fuel, a panic is [None]. *)
Definition poll_fetch (fuel : nat) (t : nat) (s : Indexes) : option (option Indexes) :=
  match tasks s !! t with
  | Some {| t_id := id; t_chan := tx; t_fetch := Some fb |} =>
      match images s !! id with
      | Some (IInProgress inp) =>
          match poll_state fuel 0 (next s) id (fb_state fb) inp with
          | None => None
          | Some None => Some None
          | Some (Some (PReady data raw, inp', w)) =>
              let obj := w in
              let s1 := {| images := images s; objs := <[obj := data]> (objs s); chans := chans s;
                           tasks := delete t (tasks s); next := S w; stored := stored s ++ [(id, raw)] |} in
              Some (Some (send tx obj (with_images (insert id (IDone obj)) s1)))
          | Some (Some (PNotReady st, inp', w)) =>
              let s1 := {| images := <[id := IInProgress inp']> (images s); objs := objs s; chans := chans s;
                           tasks := tasks s; next := w; stored := stored s |} in
              if bool_decide (fb_deadline fb <= i_now env) then
                Some (Some (with_chans (insert tx Closed) (with_tasks (delete t) (with_images (delete id) s1))))
              else
                Some (Some (with_tasks (insert t {| t_id := id; t_chan := tx;
                  t_fetch := Some {| fb_deadline := fb_deadline fb; fb_state := st |} |}) s1))
          end
      | _ => Some None
      end
  | _ => Some (Some s)
  end.
End Fetch.

(** ** Sequences of steps *)

Section Steps.
Context `{IndexParser}.

(** An index is dropped when neither a channel nor anything else holds it; a
    channel when no entry holds its receiver.  The store gives the index of the
    image it was asked for. *)
Inductive index_step : Indexes -> Indexes -> Prop :=
| x_get path id s : index_step s (snd (get path id s))
| x_read t k now result s : tasks s !! t = Some k -> t_fetch k = None ->
    (forall d, result = Some d -> ix_id d = t_id k) -> index_step s (read_done t now result s)
| x_poll env fuel t s s' : poll_fetch env fuel t s = Some (Some s') -> index_step s s'
| x_forget c s : (forall id inp, images s !! id = Some (IInProgress inp) -> ip_future inp <> c) ->
    chans s !! c <> Some Open -> index_step s (with_chans (delete c) s)
| x_drop o d s : objs s !! o = Some d -> (forall c, chans s !! c <> Some (Sent o)) ->
    index_step s (drop_inner o (ix_id d) s).

Inductive reachable : Indexes -> Prop :=
| reachable_new : reachable indexes_new
| reachable_step s s' : reachable s -> index_step s s' -> reachable s'.

Record registry_ok (s : Indexes) : Prop := {
  v_fresh : forall n, (next s <= n)%nat -> objs s !! n = None /\ chans s !! n = None /\ tasks s !! n = None;
  v_task : forall t k, tasks s !! t = Some k -> t_chan k = t /\ chans s !! t = Some Open /\
    exists inp, images s !! t_id k = Some (IInProgress inp) /\ ip_future inp = t;
  v_progress : forall id inp, images s !! id = Some (IInProgress inp) -> ip_paths inp <> [] /\
    ((exists k, tasks s !! ip_future inp = Some k /\ t_id k = id) \/
     exists o d, chans s !! ip_future inp = Some (Sent o) /\ objs s !! o = Some d /\ ix_id d = id);
  v_done : forall id o, images s !! id = Some (IDone o) -> exists d, objs s !! o = Some d /\ ix_id d = id;
  v_obj : forall o d, objs s !! o = Some d -> images s !! ix_id d = Some (IDone o) \/
    exists inp, images s !! ix_id d = Some (IInProgress inp) /\ chans s !! ip_future inp = Some (Sent o)
}.

Lemma registry_new : registry_ok indexes_new.
Proof. split; cbn; intros *; rewrite ?lookup_empty; done. Qed.

(** Numbers that are taken are not fresh. *)
Lemma taken s : registry_ok s -> forall n, is_Some (objs s !! n) \/ is_Some (chans s !! n) \/ is_Some (tasks s !! n) ->
  (n < next s)%nat.
Proof.
  intros Hs n Hn. destruct (Nat.lt_ge_cases n (next s)) as [|Hge]; [done|].
  destruct (v_fresh _ Hs n Hge) as (Ho & Hc & Ht). rewrite Ho, Hc, Ht in Hn. naive_solver.
Qed.

(** No task, then no index either, is there for an image without an entry in
    progress. *)
Lemma no_entry s id : registry_ok s -> images s !! id = None ->
  (forall t k, tasks s !! t = Some k -> t_id k <> id) /\ (forall o d, objs s !! o = Some d -> ix_id d <> id).
Proof.
  intros Hs Hid. split.
  - intros t k Hk <-. destruct (v_task _ Hs t k Hk) as (_ & _ & inp & Hi & _). congruence.
  - intros o d Ho <-. destruct (v_obj _ Hs o d Ho) as [Hi|(inp & Hi & _)]; congruence.
Qed.

(** A new task for an image without an entry. *)
Lemma spawned_ok path id s : registry_ok s -> images s !! id = None ->
  let '(fut, inp, s') := spawn_try_read path id s in
  registry_ok (with_images (insert id (IInProgress inp)) s').
Proof.
  intros Hs Hid. destruct (no_entry s id Hs Hid) as [Hnt Hno]. pose proof (taken s Hs) as Htk. unfold spawn_try_read.
  destruct (v_fresh _ Hs (next s) ltac:(lia)) as (Hfo & Hfc & Hft).
  split; cbn.
  - intros n Hn. destruct (v_fresh _ Hs n ltac:(lia)) as (Ho & Hc & Ht). rewrite !lookup_insert_ne by lia. done.
  - intros t k. rewrite lookup_insert_Some. intros [[<- <-]|[Hne Hk]].
    + split; [done|]. rewrite lookup_insert_eq. cbn. rewrite lookup_insert_eq. split; [done|]. by eexists.
    + destruct (v_task _ Hs t k Hk) as (Hch & Ho & inp & Hi & Hf). split; [done|].
      rewrite !lookup_insert_ne; [eauto|by apply not_eq_sym, (Hnt t)|done].
  - intros id' inp'. rewrite lookup_insert_Some. intros [[<- [= <-]]|[Hne Hi]].
    + split; [done|]. left. cbn. rewrite lookup_insert_eq. by eexists.
    + destruct (v_progress _ Hs id' inp' Hi) as [Hp Hor]. split; [done|].
      destruct Hor as [(k & Hk & Hkid)|(o & d & Hc & Hd)].
      * left. exists k. rewrite lookup_insert_ne; [done|]. intros E. congruence.
      * right. exists o, d. rewrite lookup_insert_ne; [done|]. intros E. congruence.
  - intros id' o. rewrite lookup_insert_Some. intros [[_ ?]|[_ Hi]]; [done|]. by apply (v_done _ Hs).
  - intros o d Ho. pose proof (Hno o d Ho) as Hne. rewrite lookup_insert_ne by done.
    destruct (v_obj _ Hs o d Ho) as [?|(inp' & Hi & Hc)]; [by left|]. right. exists inp'. split; [done|].
    rewrite lookup_insert_ne; [done|]. intros E. congruence.
Qed.

(** An entry in progress may change, but not its future and its images. *)
Lemma entry_ok id inp inp' s : registry_ok s -> images s !! id = Some (IInProgress inp) ->
  ip_future inp' = ip_future inp -> ip_paths inp' <> [] ->
  registry_ok (with_images (insert id (IInProgress inp')) s).
Proof.
  intros Hs Hid Hf Hp. split; cbn; [apply Hs|..].
  - intros t k Hk. destruct (v_task _ Hs t k Hk) as (Hch & Ho & inp0 & Hi & Hf0). split; [done|]. split; [done|].
    rewrite lookup_insert. case_decide as Hid'; [|eauto]. subst id. exists inp'. split; [done|].
    rewrite Hi in Hid. injection Hid as <-. congruence.
  - intros id' inp0. rewrite lookup_insert_Some. intros [[<- [= <-]]|[Hne Hi]]; [|by apply (v_progress _ Hs)].
    split; [done|]. rewrite Hf. by apply (v_progress _ Hs).
  - intros id' o. rewrite lookup_insert_Some. intros [[_ ?]|[_ Hi]]; [done|]. by apply (v_done _ Hs).
  - intros o d Ho. destruct (v_obj _ Hs o d Ho) as [Hi|(inp0 & Hi & Hc)].
    + left. rewrite lookup_insert_ne; [done|]. intros ->. congruence.
    + right. rewrite lookup_insert. case_decide as Hid'; [|eauto]. subst id. exists inp'. split; [done|].
      rewrite Hi in Hid. injection Hid as <-. congruence.
Qed.

Lemma add_path_paths p x : ip_paths (add_path p x) <> [].
Proof. cbn. case_decide as Hin; [|by destruct (ip_paths x)]. destruct (ip_paths x); [by apply not_elem_of_nil in Hin|done]. Qed.

Lemma get_ok path id s : registry_ok s -> registry_ok (snd (get path id s)).
Proof.
  intros Hs. unfold get. destruct (images s !! id) as [[o|inp]|] eqn:Hid.
  - destruct (v_done _ Hs id o Hid) as (d & Hd & _). by rewrite Hd.
  - cbn [snd]. apply (entry_ok id inp); [done|done|done|apply add_path_paths].
  - pose proof (spawned_ok path id s Hs Hid) as H1. by destruct (spawn_try_read path id s) as [[fut inp] s'].
Qed.

(** The task of an image is done: its result is a new index. *)
Lemma sent_ok t k o d s s' : registry_ok s -> tasks s !! t = Some k -> ix_id d = t_id k -> (next s <= o)%nat ->
  (next s' > o)%nat ->
  chans s' = <[t := Sent o]> (chans s) -> objs s' = <[o := d]> (objs s) -> tasks s' = delete t (tasks s) ->
  (images s' = images s \/ images s' = <[t_id k := IDone o]> (images s)) ->
  registry_ok s'.
Proof.
  intros Hs Hk Hd Ho Hnext Hc' Ho' Ht' Hi'. pose proof (taken s Hs) as Htk.
  destruct (v_task _ Hs t k Hk) as (Hch & Hopen & inp & Hi & Hf).
  assert (Hno : forall o' d', objs s !! o' = Some d' -> ix_id d' <> t_id k).
  { intros o' d' Hd' E. destruct (v_obj _ Hs o' d' Hd') as [H1|(inp1 & H1 & H2)]; rewrite E, Hi in H1; [done|].
    injection H1 as <-. congruence. }
  assert (Htid : forall t' k', tasks s !! t' = Some k' -> t' <> t -> t_id k' <> t_id k).
  { intros t' k' Hk' Hne E. destruct (v_task _ Hs t' k' Hk') as (_ & _ & inp1 & H1 & H2). rewrite E, Hi in H1.
    injection H1 as <-. congruence. }
  assert (Himg : forall id, id <> t_id k -> images s' !! id = images s !! id).
  { intros id Hne. destruct Hi' as [->| ->]; [done|]. by rewrite lookup_insert_ne. }
  assert (Hbelow : forall o' d', objs s !! o' = Some d' -> o <> o').
  { intros o' d' Hd' ->. assert (o' < next s)%nat by (apply Htk; left; by eexists). lia. }
  split; rewrite ?Hc', ?Ho', ?Ht'.
  - intros n Hn. assert (t < next s)%nat by (apply Htk; right; right; by eexists).
    destruct (v_fresh _ Hs n ltac:(lia)) as (E1 & E2 & E3).
    rewrite !lookup_insert_ne by lia. rewrite lookup_delete_ne by lia. done.
  - intros t' k'. rewrite lookup_delete_Some. intros [Hne Hk'].
    destruct (v_task _ Hs t' k' Hk') as (Hch' & Hop' & inp1 & H1 & H2).
    split; [done|]. rewrite lookup_insert_ne by done. split; [done|].
    rewrite Himg by (by apply (Htid t')). eauto.
  - intros id inp1 Hi1. destruct (decide (id = t_id k)) as [->|Hne].
    + destruct Hi' as [E|E]; rewrite E in Hi1; [|by rewrite lookup_insert_eq in Hi1].
      rewrite Hi in Hi1. injection Hi1 as <-. split; [by apply (v_progress _ Hs _ _ Hi)|]. right. exists o, d.
      rewrite Hf, !lookup_insert_eq. done.
    + rewrite Himg in Hi1 by done. destruct (v_progress _ Hs id inp1 Hi1) as [Hp Hor]. split; [done|].
      destruct Hor as [(k1 & Hk1 & Hid1)|(o1 & d1 & Hc1 & Hd1 & Hid1)].
      * left. exists k1. rewrite lookup_delete_ne; [done|]. intros E. rewrite E in Hk. congruence.
      * right. exists o1, d1. rewrite lookup_insert_ne by congruence. rewrite lookup_insert_ne by (by eapply Hbelow). done.
  - intros id o1 Hi1. destruct (decide (id = t_id k)) as [->|Hne].
    + destruct Hi' as [E|E]; rewrite E in Hi1; [congruence|]. rewrite lookup_insert_eq in Hi1. injection Hi1 as <-.
      exists d. by rewrite lookup_insert_eq.
    + rewrite Himg in Hi1 by done. destruct (v_done _ Hs id o1 Hi1) as (d1 & Hd1 & Hid1). exists d1.
      rewrite lookup_insert_ne by (by eapply Hbelow). done.
  - intros o1 d1. rewrite lookup_insert_Some. intros [[<- <-]|[Hne Ho1]].
    + rewrite Hd. destruct Hi' as [->| ->]; [right|left; by rewrite lookup_insert_eq].
      exists inp. split; [done|]. by rewrite Hf, lookup_insert_eq.
    + rewrite Himg by (by eapply Hno). destruct (v_obj _ Hs o1 d1 Ho1) as [H1|(inp1 & H1 & H2)]; [by left|].
      right. exists inp1. split; [done|]. rewrite lookup_insert_ne; [done|]. congruence.
Qed.

Lemma retask_ok t k f n s : registry_ok s -> tasks s !! t = Some k -> (next s <= n)%nat ->
  registry_ok {| images := images s; objs := objs s; chans := chans s;
                 tasks := <[t := {| t_id := t_id k; t_chan := t_chan k; t_fetch := f |}]> (tasks s);
                 next := n; stored := stored s |}.
Proof.
  intros Hs Hk Hn. pose proof (taken s Hs) as Htk. split; cbn; [|..|apply Hs|apply Hs].
  - intros m Hm. assert (t < next s)%nat by (apply Htk; right; right; by eexists).
    destruct (v_fresh _ Hs m ltac:(lia)) as (E1 & E2 & E3). rewrite lookup_insert_ne by lia. done.
  - intros t' k'. rewrite lookup_insert_Some. intros [[<- <-]|[Hne Hk']]; [|by apply (v_task _ Hs)].
    exact (v_task _ Hs t k Hk).
  - intros id inp Hi. destruct (v_progress _ Hs id inp Hi) as [Hp [(k1 & Hk1 & Hid)|Hor]]; (split; [done|]); [|by right].
    left. rewrite lookup_insert. case_decide as Ht; [|eauto]. rewrite <- Ht in Hk1. rewrite Hk in Hk1.
    injection Hk1 as <-. by eexists.
Qed.

(** The task of an image gives up. *)
Lemma closed_ok t k s : registry_ok s -> tasks s !! t = Some k ->
  registry_ok (with_chans (insert t Closed) (with_tasks (delete t) (with_images (delete (t_id k)) s))).
Proof.
  intros Hs Hk. pose proof (taken s Hs) as Htk. destruct (v_task _ Hs t k Hk) as (Hch & Hopen & inp & Hi & Hf).
  split; cbn.
  - intros n Hn. assert (t < next s)%nat by (apply Htk; right; right; by eexists).
    destruct (v_fresh _ Hs n ltac:(lia)) as (E1 & E2 & E3). rewrite lookup_insert_ne, lookup_delete_ne by lia. done.
  - intros t' k'. rewrite lookup_delete_Some. intros [Hne Hk'].
    destruct (v_task _ Hs t' k' Hk') as (Hch' & Hop' & inp1 & H1 & H2). split; [done|].
    rewrite lookup_insert_ne by done. split; [done|]. exists inp1. split; [|done].
    rewrite lookup_delete_ne; [done|]. intros E. rewrite E in Hi. congruence.
  - intros id inp1. rewrite lookup_delete_Some. intros [Hne H1].
    destruct (v_progress _ Hs id inp1 H1) as [Hp Hor]. split; [done|].
    destruct Hor as [(k1 & Hk1 & Hid)|(o & d & Hc & Hd)].
    + left. exists k1. rewrite lookup_delete_ne; [done|]. intros E. rewrite <- E in Hk1. congruence.
    + right. exists o, d. rewrite lookup_insert_ne; [done|]. intros E. rewrite <- E in Hc. congruence.
  - intros id o. rewrite lookup_delete_Some. intros [_ H1]. by apply (v_done _ Hs).
  - intros o d Ho. destruct (v_obj _ Hs o d Ho) as [H1|(inp1 & H1 & H2)].
    + left. rewrite lookup_delete_ne; [done|]. intros E. rewrite <- E in H1. congruence.
    + assert (ip_future inp1 <> t) by (intros E; rewrite E in H2; congruence).
      right. exists inp1. rewrite lookup_insert_ne by done. split; [|done].
      rewrite lookup_delete_ne; [done|]. intros E. rewrite <- E, Hi in H1. congruence.
Qed.

Lemma read_ok t k now result s : registry_ok s -> tasks s !! t = Some k ->
  (forall d, result = Some d -> ix_id d = t_id k) -> registry_ok (read_done t now result s).
Proof.
  intros Hs Hk Hres. unfold read_done. rewrite Hk. destruct (v_task _ Hs t k Hk) as (Hch & _).
  destruct result as [d|].
  - apply (sent_ok t k (next s) d s); try done; [by apply Hres|cbn; lia|by rewrite Hch|by left].
  - by apply (retask_ok t k _ (next s) s).
Qed.

Lemma poll_state_spec env fuel n w id st inp r inp' w' :
  poll_state env fuel n w id st inp = Some (Some (r, inp', w')) ->
  ip_paths inp' = ip_paths inp /\ ip_future inp' = ip_future inp /\ (w <= w')%nat /\
  (forall d raw, r = PReady d raw -> parse id raw = Ok d).
Proof.
  revert n w st inp. induction fuel as [|fuel IH]; intros n w st inp; [done|]. cbn [poll_state]. intros Hr.
  destruct st as [|addr|rx until].
  - destruct (choose _ _); [|done]. destruct (i_conn _ _ _ _); apply IH in Hr as (? & ? & ? & ?);
      (split_and!; [done|done|lia|done]).
  - destruct (i_req _ _ _) as [| |data].
    + injection Hr as <- <- <-. split_and!; done.
    + apply IH in Hr as (? & ? & ? & ?). done.
    + destruct (parse id data) eqn:E; [|apply IH in Hr as (? & ? & ? & ?); done|done].
      injection Hr as <- <- <-. split_and!; [done|done|done|]. by intros d raw [= <- <-].
  - case_match; [by apply IH in Hr as (? & ? & ? & ?)|]. case_match; [by apply IH in Hr as (? & ? & ? & ?)|].
    injection Hr as <- <- <-. split_and!; done.
Qed.

(** The index that is parsed is the one of the image. *)
Lemma parse_id id raw d : parse id raw = Ok d -> ix_id d = id.
Proof.
  unfold parse. destruct (parser_new raw) as [[hd items]| |]; [|done|done]. cbn.
  destruct (collect_results items); [|done|done]. cbn.
  destruct (sum64 0 (map (fun e => Some (entry_bytes e)) a)); [|done]. cbn.
  destruct (sum64 0 _); [|done]. cbn. by intros [= <-].
Qed.

Lemma fetch_poll_ok env fuel t s s' : registry_ok s -> poll_fetch env fuel t s = Some (Some s') -> registry_ok s'.
Proof.
  intros Hs. unfold poll_fetch. destruct (tasks s !! t) as [[id tx fb]|] eqn:Hk; [|by intros [= <-]].
  destruct fb as [fb|]; [|by intros [= <-]].
  destruct (v_task _ Hs t _ Hk) as (Hch & Hopen & inp & Hi & Hf). cbn in Hch, Hi. subst tx. rewrite Hi.
  destruct (poll_state _ _ _ _ _ _ _) as [[[[r inp'] w]|]|] eqn:Hr; [|done|done].
  apply poll_state_spec in Hr as (Hp & Hf' & Hw & Hpar).
  destruct r as [d raw|st].
  - intros [= <-]. apply (sent_ok t {| t_id := id; t_chan := t; t_fetch := Some fb |} w d s); try done.
    + cbn. eapply parse_id, Hpar. done.
    + cbn. lia.
    + by right.
  - assert (Hent : registry_ok (with_images (insert id (IInProgress inp')) s)).
    { apply (entry_ok id inp); [done|done|done|]. rewrite Hp. by apply (v_progress _ Hs _ _ Hi). }
    case_bool_decide; intros [= <-].
    + pose proof (closed_ok t {| t_id := id; t_chan := t; t_fetch := Some fb |} _
        (retask_ok t {| t_id := id; t_chan := t; t_fetch := Some fb |} (Some fb) w _ Hent Hk Hw) (lookup_insert_eq _ _ _)) as H1. cbn in H1.
      unfold with_chans, with_tasks, with_images in *. cbn in *. by rewrite (delete_insert_eq (tasks s)) in H1.
    + exact (retask_ok t {| t_id := id; t_chan := t; t_fetch := Some fb |} (Some {| fb_deadline := fb_deadline fb; fb_state := st |}) w _ Hent Hk Hw).
Qed.

Lemma forget_ok c s : registry_ok s ->
  (forall id inp, images s !! id = Some (IInProgress inp) -> ip_future inp <> c) ->
  chans s !! c <> Some Open -> registry_ok (with_chans (delete c) s).
Proof.
  intros Hs Hno Hopen. split; cbn; [|..|apply Hs|].
  - intros n Hn. destruct (v_fresh _ Hs n Hn) as (E1 & E2 & E3). split_and!; [done| |done].
    rewrite lookup_delete. by case_decide.
  - intros t k Hk. destruct (v_task _ Hs t k Hk) as (Hch & Hop & Hi). split; [done|].
    rewrite lookup_delete_ne; [done|]. by intros ->.
  - intros id inp Hi. destruct (v_progress _ Hs id inp Hi) as [Hp [?|(o & d & Hc & Hd)]]; (split; [done|]); [by left|].
    right. exists o, d. rewrite lookup_delete_ne; [done|]. apply not_eq_sym. by eapply Hno.
  - intros o d Ho. destruct (v_obj _ Hs o d Ho) as [?|(inp & Hi & Hc)]; [by left|]. right. exists inp. split; [done|].
    rewrite lookup_delete_ne; [done|]. apply not_eq_sym. by eapply Hno.
Qed.

Lemma drop_ok o d s : registry_ok s -> objs s !! o = Some d -> (forall c, chans s !! c <> Some (Sent o)) ->
  registry_ok (drop_inner o (ix_id d) s).
Proof.
  intros Hs Ho Hno. destruct (v_obj _ Hs o d Ho) as [Hi|(inp & _ & Hc)]; [|by destruct (Hno (ip_future inp))].
  split; cbn.
  - intros n Hn. destruct (v_fresh _ Hs n Hn) as (E1 & E2 & E3). split_and!; [|done|done].
    rewrite lookup_delete. by case_decide.
  - intros t k Hk. destruct (v_task _ Hs t k Hk) as (Hch & Hop & inp & H1 & H2). split; [done|]. split; [done|].
    exists inp. split; [|done]. rewrite lookup_delete_ne; [done|]. intros E. rewrite E in Hi. congruence.
  - intros id inp. rewrite lookup_delete_Some. intros [Hne H1].
    destruct (v_progress _ Hs id inp H1) as [Hp [?|(o1 & d1 & Hc & Hd)]]; (split; [done|]); [by left|].
    right. exists o1, d1. rewrite lookup_delete_ne; [done|]. intros E. rewrite <- E in Hc. by apply (Hno _ Hc).
  - intros id o1. rewrite lookup_delete_Some. intros [Hne H1]. destruct (v_done _ Hs id o1 H1) as (d1 & Hd1 & Hid).
    exists d1. rewrite lookup_delete_ne; [done|]. intros E. rewrite <- E in Hd1. congruence.
  - intros o1 d1. rewrite lookup_delete_Some. intros [Hne H1].
    assert (ix_id d <> ix_id d1).
    { intros E. destruct (v_obj _ Hs o1 d1 H1) as [H2|(inp & H2 & _)]; rewrite <- E, Hi in H2; [|done]. congruence. }
    rewrite lookup_delete_ne by done. by apply (v_obj _ Hs).
Qed.

Lemma registry_reachable s : reachable s -> registry_ok s.
Proof.
  induction 1 as [|s s' _ IH Hst]; [apply registry_new|].
  destruct Hst as [path id s|t k now result s Hk Hf Hres|env fuel t s s' Hp|c s Hno Ho|o d s Ho Hno].
  - by apply get_ok.
  - by apply (read_ok t k).
  - by eapply fetch_poll_ok.
  - by apply forget_ok.
  - by apply drop_ok.
Qed.

(** *** Polling returns *)

Section Returns.
Context (env : IndexEnv) (N : nat).
Context (Hreq : forall n addr, (N <= n)%nat -> i_req env n addr = RPending).
Context (Hparse : forall id raw, parse id raw <> Panic).

Lemma poll_state_returns fuel n w id st inp : ip_paths inp <> [] ->
  match st with
  | Waiting rx until => (N - n + 3 <= fuel)%nat \/ (1 <= fuel)%nat /\ ip_wakeup inp = Some rx /\ i_now env < until
  | Start => (N - n + 2 <= fuel)%nat
  | Fetching _ => (N - n + 2 <= fuel)%nat \/ (1 <= fuel)%nat /\ (N <= n)%nat
  end ->
  exists x, poll_state env fuel n w id st inp = Some (Some x).
Proof.
  revert n w st inp. induction fuel as [|fuel IH]; intros n w st inp Hp Hf; [destruct st; lia|]. cbn [poll_state].
  destruct st as [|addr|rx until].
  - destruct (choose_some (i_choice env n) (ip_paths inp) Hp) as [path ->].
    destruct (i_conn env n path (ip_failures inp)) as [conn|].
    + apply IH; [done|]. lia.
    + apply IH; [done|]. right. cbn. split_and!; [lia|done|]. unfold RETRY_TIMEOUT, nanos_per_sec. lia.
  - destruct (decide (N <= n)%nat) as [Hn|Hn].
    + rewrite Hreq by done. by eexists.
    + destruct (i_req env n addr) as [| |data]; [by eexists|apply IH; [done|lia]|].
      destruct (parse id data) eqn:E; [by eexists|apply IH; [done|lia]|by apply Hparse in E].
  - destruct Hf as [Hf|(Hf & Hw & Hu)].
    + case_match; [apply IH; [done|lia]|]. case_match; [apply IH; [done|lia]|]. by eexists.
    + rewrite bool_decide_eq_false_2 by lia. rewrite bool_decide_eq_false_2 by (by intros []). by eexists.
Qed.
End Returns.

(** *** An index that was read stays *)

Definition cached (c o : nat) (d : IndexData) (s : Indexes) : Prop :=
  (exists inp, images s !! ix_id d = Some (IInProgress inp) /\ ip_future inp = c) /\
  chans s !! c = Some (Sent o) /\ objs s !! o = Some d.

Lemma cached_step c o d s s' : registry_ok s -> index_step s s' -> cached c o d s -> cached c o d s'.
Proof.
  intros Hs Hst ((inp & Hi & Hf) & Hc & Ho). pose proof (taken s Hs) as Htk.
  assert (Hcn : (c < next s)%nat) by (apply Htk; right; left; by eexists).
  assert (Hon : (o < next s)%nat) by (apply Htk; left; by eexists).
  assert (Hother : forall t k, tasks s !! t = Some k -> t <> c /\ t_id k <> ix_id d).
  { intros t k Hk. destruct (v_task _ Hs t k Hk) as (_ & Hop & inp1 & H1 & H2).
    assert (t <> c) by congruence. split; [done|]. intros E. rewrite E, Hi in H1. congruence. }
  unfold cached. destruct Hst as [path id s|t k now result s Hk Hft Hres|env fuel t s s' Hp|c' s Hno Hop|o' d' s Ho' Hno].
  - unfold get. destruct (decide (id = ix_id d)) as [->|Hne].
    + rewrite Hi. cbn. rewrite lookup_insert_eq. split; [by eexists|done].
    + destruct (images s !! id) as [[x|x]|]; [destruct (objs s !! x)|..]; cbn;
        rewrite ?lookup_insert_ne by (done || lia); eauto.
  - unfold read_done. rewrite Hk. destruct (Hother t k Hk) as [Ht _].
    destruct (v_task _ Hs t k Hk) as (Htc & _). destruct result as [x|]; cbn.
    + rewrite Htc, !lookup_insert_ne by (done || lia). eauto.
    + eauto.
  - unfold poll_fetch in Hp. destruct (tasks s !! t) as [[id tx fb]|] eqn:Hk; [|injection Hp as <-; eauto].
    destruct fb as [fb|]; [|injection Hp as <-; eauto]. destruct (Hother t _ Hk) as [Ht Hid]. cbn in Hid.
    destruct (v_task _ Hs t _ Hk) as (Htc & _). cbn in Htc. subst tx.
    destruct (images s !! id) as [[|inp1]|]; [done| |done].
    destruct (poll_state _ _ _ _ _ _ _) as [[[[r inp'] w]|]|] eqn:Hr; [|done|done].
    apply poll_state_spec in Hr as (_ & _ & Hw & _).
    destruct r; [|case_bool_decide]; injection Hp as <-; cbn;
      rewrite ?lookup_delete_ne, ?lookup_insert_ne by (done || lia); eauto.
  - cbn. rewrite lookup_delete_ne; [eauto|]. intros ->. by apply (Hno _ _ Hi).
  - cbn. assert (o' <> o) by (intros ->; by apply (Hno c)).
    rewrite (lookup_delete_ne (objs s)) by done. split; [|done]. exists inp. split; [|done].
    rewrite lookup_delete_ne; [done|]. intros E.
    destruct (v_obj _ Hs o' d' Ho') as [H1|(inp1 & H1 & H2)]; rewrite E, Hi in H1; [done|].
    injection H1 as <-. rewrite Hf, Hc in H2. congruence.
Qed.

(** ** Properties *)


(** C32. A fetch comes to an end.  A poll returns after the requests that are
    answered at once, and the poll after the deadline ends the task: everybody
    who waits gets the index, which was also given to the metadata store, or is
    told that there is none. *)
Theorem fetch_ends env N t k fb s :
  reachable s -> tasks s !! t = Some k -> t_fetch k = Some fb ->
  (forall n addr, (N <= n)%nat -> i_req env n addr = RPending) ->
  (forall id raw, parse id raw <> Panic) ->
  exists s', poll_fetch env (N + 3) t s = Some (Some s') /\
    (fb_deadline fb <= i_now env ->
     tasks s' !! t = None /\
     (chans s' !! t = Some Closed \/
      exists o d raw, chans s' !! t = Some (Sent o) /\ objs s' !! o = Some d /\ ix_id d = t_id k /\
        stored s' = stored s ++ [(t_id k, raw)] /\ parse (t_id k) raw = Ok d)).
Proof.
  intros Hs%registry_reachable Hk Hfb Hreq Hparse. destruct (v_task _ Hs t k Hk) as (Hch & _ & inp & Hi & _).
  destruct k as [id tx f]. cbn in *. subst tx f.
  destruct (poll_state_returns env N Hreq Hparse (N + 3) 0 (next s) id (fb_state fb) inp) as [[[r inp'] w] Hr].
  { by apply (v_progress _ Hs _ _ Hi). }
  { destruct (fb_state fb); lia. }
  pose proof (poll_state_spec _ _ _ _ _ _ _ _ _ _ Hr) as (_ & _ & _ & Hpar).
  unfold poll_fetch. rewrite Hk, Hi, Hr. destruct r as [d raw|st].
  - eexists. split; [done|]. intros _. cbn. rewrite lookup_delete_eq. split; [done|]. right. exists w, d, raw.
    rewrite !lookup_insert_eq. split_and!; try done; [eapply parse_id, Hpar|apply Hpar]; done.
  - case_bool_decide as Hd; eexists; (split; [done|]); intros Hle; [|done]. cbn.
    rewrite lookup_delete_eq, lookup_insert_eq. split; [done|by left].
Qed.

(** An index that is read from the store is never released: whatever
    happens afterwards its entry stays in progress and its index in memory, and
    whoever asks for it gets the same future. *)
Theorem read_index_stays t k now d s s' :
  reachable s -> tasks s !! t = Some k -> t_fetch k = None -> ix_id d = t_id k ->
  rtc index_step (read_done t now (Some d) s) s' ->
  objs s' !! next s = Some d /\
  (exists inp, images s' !! t_id k = Some (IInProgress inp)) /\
  forall path, fst (get path (t_id k) s') = IFuture t.
Proof.
  intros Hr Hk Hf Hd Hsteps. pose proof (registry_reachable s Hr) as Hs.
  destruct (v_task _ Hs t k Hk) as (Hch & _ & inp & Hi & Hfut).
  set (s1 := read_done t now (Some d) s) in *.
  assert (Hr1 : reachable s1).
  { eapply reachable_step; [exact Hr|]. apply (x_read t k now (Some d) s); [done|done|]. by intros d' [= <-]. }
  assert (H1 : cached t (next s) d s1).
  { unfold s1, read_done. rewrite Hk. unfold cached. cbn. rewrite Hd, Hch, !lookup_insert_eq. eauto. }
  clearbody s1.
  assert (H2 : cached t (next s) d s').
  { clear -Hsteps H1 Hr1. induction Hsteps as [|s1 s2 s3 Hst _ IH]; [done|]. apply IH.
    - by eapply reachable_step.
    - eapply (cached_step t (next s) d s1 s2); [by apply registry_reachable|done|done]. }
  destruct H2 as ((inp' & Hi' & Hf') & Hc & Ho). rewrite Hd in Hi'. split_and!; [done|by eexists|].
  intros path. unfold get. rewrite Hi'. cbn. by rewrite Hf'.
Qed.
End Steps.

(** ** Examples *)

Module IndexExample.

(** A parser of empty indexes. *)
#[global] Instance empty_parser : IndexParser := {
  ParseError := unit;
  parser_new := fun _ => Ok ({| hd_hash_type := Blake2b_256; hd_block_size := 1 |}, [])
}.

Lemma parse_total id raw : parse id raw <> Panic.
Proof. done. Qed.

Definition path : VPath := of_names "k" ["x"]%string.
Definition img : ImageId := from_slice [].
Definition data : IndexData :=
  {| ix_id := img; hash_type := Blake2b_256; block_size := 1; entries := []; bytes_total := 0; blocks_total := 0 |}.

(** Asked for, and not found in the store. *)
Definition asked : Indexes := snd (get path img indexes_new).
Definition fetching : Indexes := read_done 0 0 None asked.
(** Nobody has it. *)
Definition nobody (now : Z) : IndexEnv :=
  {| i_now := now; i_choice := fun _ => 0%nat; i_conn := fun _ _ _ => None; i_req := fun _ _ => RPending |}.

Lemma asked_reachable : reachable asked.
Proof. apply (reachable_step indexes_new); [apply reachable_new|apply x_get]. Qed.

Lemma fetching_reachable : reachable fetching.
Proof.
  apply (reachable_step asked); [apply asked_reachable|].
  by apply (x_read 0 {| t_id := img; t_chan := 0; t_fetch := None |} 0 None asked).
Qed.

(** The drop of an index is not atomic: between the end of the last reference,
    on any thread, and the [drop] that takes the lock, the index may be asked
    for again.  The [drop] then takes the new entry, and the poll of the new
    task panics. *)
Definition in_memory : Indexes := with_images (insert img (IDone 7)) (with_objs (insert 7%nat data) indexes_new).
Definition raced : Indexes :=
  read_done 0 0 None (with_images (delete img) (snd (get path img (with_objs (delete 7%nat) in_memory)))).
Lemma drop_race_panics : poll_fetch (nobody 0) 9 0 raced = Some None.
Proof. vm_compute. reflexivity. Qed.

(** The contents of an index are not compared with the image: any peer may
    answer with any index. *)
Lemma any_index_accepted raw :
  exists s', poll_fetch {| i_now := 0; i_choice := fun _ => 0%nat; i_conn := fun _ _ _ => Some {| ip := 1; sport := 2 |};
                           i_req := fun _ _ => RReady raw |} 9 0 fetching = Some (Some s') /\
    stored s' = [(img, raw)] /\ images s' !! img = Some (IDone 1).
Proof. eexists. split; [reflexivity|]. split; reflexivity. Qed.

End IndexExample.


Lemma fetch_ends_witness :
  exists s', poll_fetch (IndexExample.nobody RETRY_FOR) 3 0 IndexExample.fetching = Some (Some s') /\
    tasks s' !! 0%nat = None.
Proof.
  destruct (fetch_ends (IndexExample.nobody RETRY_FOR) 0 0
    {| t_id := IndexExample.img; t_chan := 0; t_fetch := Some {| fb_deadline := RETRY_FOR; fb_state := Start |} |}
    {| fb_deadline := RETRY_FOR; fb_state := Start |} IndexExample.fetching IndexExample.fetching_reachable)
    as (s' & Hrun & H).
  - vm_compute. reflexivity.
  - reflexivity.
  - reflexivity.
  - apply IndexExample.parse_total.
  - exists s'. split; [exact Hrun|]. apply H. cbn. lia.
Defined.

Lemma read_index_stays_witness :
  let s1 := read_done 0 3 (Some IndexExample.data) IndexExample.asked in
  fst (get IndexExample.path IndexExample.img s1) = IFuture 0.
Proof.
  intros s1. apply (read_index_stays 0 {| t_id := IndexExample.img; t_chan := 0; t_fetch := None |} 3
    IndexExample.data IndexExample.asked s1 IndexExample.asked_reachable).
  - vm_compute. reflexivity.
  - reflexivity.
  - reflexivity.
  - apply rtc_refl.
Defined.
