(* ===== verification/BTree.v ===== *)
(** * Ordered maps with string keys that hold maps

    A [BTreeMap<OsString, _>] is the list of its entries in the order of the
    keys, which is that of their bytes.  Maps in maps are lists in lists, so
    that functions over them recurse. *)
From S2P Require Import Prelude.

(** The order of [OsString]. *)
Definition str_lt (a b : string) : Prop := String.compare a b = Lt.

Lemma ascii_compare_eq a b : Ascii.compare a b = Eq <-> a = b.
Proof.
  unfold Ascii.compare. rewrite N.compare_eq_iff. split; [|by intros ->].
  intros E%(f_equal ascii_of_N). by rewrite !ascii_N_embedding in E.
Qed.

Lemma str_compare_eq a b : String.compare a b = Eq <-> a = b.
Proof.
  split; [apply String.compare_eq_iff|]. intros <-. induction a as [|c a IH]; [done|].
  cbn. by rewrite (proj2 (ascii_compare_eq c c) eq_refl).
Qed.

Lemma str_lt_irrefl a : ~ str_lt a a.
Proof. unfold str_lt. by rewrite (proj2 (str_compare_eq a a) eq_refl). Qed.

Lemma str_lt_trans a b c : str_lt a b -> str_lt b c -> str_lt a c.
Proof.
  unfold str_lt. revert b c. induction a as [|x a IH]; intros [|y b] [|z c]; cbn; try done.
  destruct (Ascii.compare x y) eqn:E1; [|intros _|done].
  - apply ascii_compare_eq in E1 as ->. destruct (Ascii.compare y z); [apply IH|done|done].
  - destruct (Ascii.compare y z) eqn:E2; [|intros _|done].
    + apply ascii_compare_eq in E2 as ->. by rewrite E1.
    + unfold Ascii.compare in *. rewrite N.compare_lt_iff in *. by rewrite (proj2 (N.compare_lt_iff _ _)) by lia.
Qed.

Lemma str_lt_total a b : String.compare a b = Gt -> str_lt b a.
Proof. unfold str_lt. rewrite String.compare_antisym. by destruct (String.compare b a). Qed.

Section BTree.
Context {A : Type}.
Implicit Types (l : list (string * A)).

Fixpoint bt_get (k : string) l : option A :=
  match l with
  | [] => None
  | (k', x) :: l' => if decide (k = k') then Some x else bt_get k l'
  end.

(** [BTreeMap::insert]. *)
Fixpoint bt_put (k : string) (x : A) l : list (string * A) :=
  match l with
  | [] => [(k, x)]
  | (k', x') :: l' =>
      match String.compare k k' with
      | Eq => (k, x) :: l'
      | Lt => (k, x) :: l
      | Gt => (k', x') :: bt_put k x l'
      end
  end.

(** The keys ascend. *)
Definition bt_ok l : Prop := StronglySorted (fun a b => str_lt (fst a) (fst b)) l.

Lemma bt_get_put k x k' l : bt_get k' (bt_put k x l) = if decide (k' = k) then Some x else bt_get k' l.
Proof.
  induction l as [|[k1 x1] l IH]; cbn; [done|]. destruct (String.compare k k1) eqn:E; cbn.
  - apply str_compare_eq in E as ->. by repeat case_decide.
  - done.
  - rewrite IH. repeat case_decide; try done. subst. rewrite (proj2 (str_compare_eq k1 k1) eq_refl) in E. done.
Qed.

Lemma bt_put_ok k x l : bt_ok l -> bt_ok (bt_put k x l).
Proof.
  unfold bt_ok. induction 1 as [|[k1 x1] l Hl IH Hx]; cbn; [by repeat constructor|].
  destruct (String.compare k k1) eqn:E.
  - apply str_compare_eq in E as ->. by constructor.
  - constructor; [by constructor|]. constructor; [done|]. eapply Forall_impl; [exact Hx|].
    intros y Hy. by eapply str_lt_trans.
  - constructor; [done|]. apply str_lt_total in E. clear IH Hl. induction Hx as [|[k2 x2] l H2 Hx IH]; cbn; [by repeat constructor|].
    destruct (String.compare k k2); constructor; try done; by constructor.
Qed.

Lemma bt_get_lt k l : Forall (fun e => str_lt k (fst e)) l -> bt_get k l = None.
Proof.
  induction 1 as [|[k' x] l Hk _ IH]; cbn in *; [done|]. case_decide; [|done]. subst. by apply str_lt_irrefl in Hk.
Qed.

(** A map is determined by its look-ups. *)
Lemma bt_ext l l' : bt_ok l -> bt_ok l' -> (forall k, bt_get k l = bt_get k l') -> l = l'.
Proof.
  unfold bt_ok. intros H. revert l'. induction H as [|[k x] l Hl IH Hx]; intros l' H' E.
  { destruct l' as [|[k' x'] l']; [done|]. specialize (E k'). cbn in E. by rewrite decide_True in E. }
  destruct H' as [|[k' x'] l' Hl' Hx'].
  { specialize (E k). cbn in E. by rewrite decide_True in E. }
  assert (Hk : k = k').
  { pose proof (E k) as E1. pose proof (E k') as E2. cbn in E1, E2. rewrite !(decide_True) in E1 by done.
    rewrite (decide_True (P := k' = k')) in E2 by done.
    destruct (decide (k = k')) as [|Hne]; [done|]. rewrite decide_False in E2 by done.
    destruct (String.compare k k') eqn:Ec.
    - by apply str_compare_eq in Ec.
    - rewrite bt_get_lt in E1; [done|]. eapply Forall_impl; [exact Hx'|]. intros y Hy. by eapply str_lt_trans.
    - apply str_lt_total in Ec. rewrite bt_get_lt in E2; [done|]. eapply Forall_impl; [exact Hx|]. intros y Hy. by eapply str_lt_trans. }
  subst k'. pose proof (E k) as E1. cbn in E1. rewrite !decide_True in E1 by done. injection E1 as ->. f_equal.
  apply IH; [done|]. intros j. specialize (E j). cbn in E. case_decide; [|done]. subst j. by rewrite !bt_get_lt.
Qed.

Lemma bt_get_elem k x l : bt_get k l = Some x -> (k, x) ∈ l.
Proof.
  induction l as [|[k' x'] l IH]; cbn; [done|]. case_decide; [intros [= ->]; subst; by left|right; auto].
Qed.

Lemma bt_ok_nodup l : bt_ok l -> NoDup (map fst l).
Proof.
  unfold bt_ok. induction 1 as [|[k x] l _ IH Hx]; cbn; [constructor|]. constructor; [|done].
  rewrite Forall_forall in Hx. intros (e & -> & He)%list_elem_of_fmap. specialize (Hx _ He). by apply str_lt_irrefl in Hx.
Qed.

Lemma bt_ok_filter f l : bt_ok l -> bt_ok (List.filter f l).
Proof.
  unfold bt_ok. induction 1 as [|e l _ IH Hx]; cbn; [constructor|]. destruct (f e); [|done]. constructor; [done|].
  rewrite Forall_forall in *. intros y Hy%list_elem_of_In%filter_In. apply Hx, list_elem_of_In, Hy.
Qed.

Lemma bt_get_in k x l : bt_ok l -> (bt_get k l = Some x <-> (k, x) ∈ l).
Proof.
  unfold bt_ok. induction 1 as [|[k' x'] l Hl IH Hx]; cbn; [by split; [|intros ?%not_elem_of_nil]|].
  rewrite elem_of_cons. case_decide as Hk.
  - subst k'. split; [intros [= ->]; by left|]. intros [[= ->]|Hin]; [done|].
    rewrite Forall_forall in Hx. specialize (Hx _ Hin). by apply str_lt_irrefl in Hx.
  - rewrite IH. split; [by right|]. intros [[= -> ->]|]; done.
Qed.
End BTree.
