(* ===== verification/Download.v ===== *)
(** * Indexes that a client edits: [src/cluster/download.rs]

    An index that was fetched is made into a tree of directories
    ([MutableIndex]), looked up, changed and written back.  A directory is an
    ordered map ([BTree]).  Parsing, hashing and writing of the format are the
    [dir_signature] crate: the parser gives entries, the emitter is called with
    what [Call] lists. *)
From S2P Require Import Prelude Serde VirtualPath Ids Index Fs BTree.
Import ImageId.
Local Open Scope Z_scope.

(** [enum Item]; the error [file_data] reads are left to [hash_file]. *)
Inductive Item :=
| IDir (dir : list (string * Item))
| RemoteFile (exe : bool) (size : Z) (hashes : list bytes)
| ILink (dest : Path.t)
| LocalFile (exe : bool) (size : Z) (hashes : list bytes).
Abbreviation Dir := (list (string * Item)).

Inductive IndexUpdateError := BadPath | NotADirectory | Read (e : IoError).

Section Download.
Context `{IndexParser}.

Inductive IndexParseEnum := Io (e : IoError) | Parse (e : Index.ParseError) | InvalidPath (p : Path.t) | PathConflict (p : Path.t).

(** Down the components of a path, making directories where a name is free;
    what was made stays also when an error ends the way. *)
Fixpoint with_dir {E} (bad conflict : E) (components : Path.t) (f : Dir -> Dir) (dir : Dir) : Res E unit * Dir :=
  match components with
  | [] => (Ok tt, f dir)
  | Path.RootDir :: cs => with_dir bad conflict cs f dir
  | Path.Normal name :: cs =>
      match default (IDir []) (bt_get name dir) with
      | IDir next => let (r, next') := with_dir bad conflict cs f next in (r, bt_put name (IDir next') dir)
      | _ => (Err conflict, dir)
      end
  | _ :: _ => (Err bad, dir)
  end.

(** ** From entries to a tree *)

(** [fill_dirs]: the directory the entries are in is a path, [cur]; the names
    on it were made when it became the current one. *)
Definition fill_item (cur path : Path.t) (item : Item) (root : Dir) : Res IndexParseEnum Dir :=
  match Path.file_name path with
  | None => Err (InvalidPath path)
  | Some name =>
      let (r, root') := with_dir (InvalidPath path) (PathConflict path) cur (bt_put name item) root in
      res_map (fun _ => root') r
  end.

Definition fill_entry (entry : Index.Entry) (st : Path.t * Dir) : Res IndexParseEnum (Path.t * Dir) :=
  let (cur, root) := st in
  match entry with
  | Index.Dir path =>
      let (r, root') := with_dir (InvalidPath path) (PathConflict path) path (fun d => d) root in
      res_map (fun _ => (path, root')) r
  | Index.File path exe size hashes => res_map (pair cur) (fill_item cur path (RemoteFile exe size hashes) root)
  | Index.Link path dest => res_map (pair cur) (fill_item cur path (ILink dest) root)
  end.

Fixpoint fill_dirs (st : Path.t * Dir) (entries : list (Res Index.ParseError Index.Entry)) : Res IndexParseEnum (Path.t * Dir) :=
  match entries with
  | [] => Ok st
  | entry :: entries' =>
      (e <-? res_map_err Parse entry;; st' <-? fill_entry e st;; fill_dirs st' entries')%res
  end.

(** [struct RawIndex] and [struct MutableIndex]; a location is shared, and
    named by a number. *)
Record RawIndex := { ri_data : bytes; ri_location : nat }.
Record MutableIndex := { header : Header; root : Dir; location : nat; mi_block_size : Z; mi_hash_type : HashType }.

Definition into_mut (raw : RawIndex) : Res IndexParseEnum MutableIndex :=
  (parsed <-? res_map_err Parse (parser_new (ri_data raw));;
   st <-? fill_dirs ([], []) (snd parsed);;
   Ok {| header := fst parsed; root := snd st; location := ri_location raw;
         mi_block_size := hd_block_size (fst parsed); mi_hash_type := hd_hash_type (fst parsed) |})%res.

(** [RawIndex::get_hash], over that of [dir_signature]. *)
Definition raw_get_hash (get_hash : bytes -> Res IoError bytes) (raw : RawIndex) : Res IoError ImageId :=
  res_map from_vec (get_hash (ri_data raw)).

(** ** Looking up *)

(** [cur] follows the components of a path. *)
Fixpoint find_dir (components : Path.t) (cur : Dir) : option Dir :=
  match components with
  | [] => Some cur
  | Path.RootDir :: cs => find_dir cs cur
  | Path.Normal item :: cs => match bt_get item cur with Some (IDir next) => find_dir cs next | _ => None end
  | _ :: _ => None
  end.

Definition get_file (path : Path.t) (idx : Dir) : option (bool * Z * list bytes) :=
  parent ← Path.parent path;
  cur ← find_dir parent idx;
  name ← Path.file_name path;
  match bt_get name cur with
  | Some (RemoteFile exe size hashes) => Some (exe, size, hashes)
  | _ => None
  end.

(** ** Changing *)

Definition _insert_file (dir : Dir) (fname : string) (components : Path.t) (item : Item) : Res IndexUpdateError unit * Dir :=
  with_dir BadPath NotADirectory components (bt_put fname item) dir.

(** [hash_file] is [Hashes::hash_file] on the file, with its size. *)
Definition insert_file (hash_file : HashType -> Z -> Res IoError (Z * list bytes)) (path : Path.t) (executable : bool)
    (idx : MutableIndex) : Res IndexUpdateError unit * Dir :=
  if Path.is_absolute path then
    match Path.file_name path, Path.parent path with
    | Some fname, Some parent =>
        match hash_file (mi_hash_type idx) (mi_block_size idx) with
        | Ok (size, hashes) => _insert_file (root idx) fname parent (LocalFile executable size hashes)
        | Err e => (Err (Read e), root idx)
        | Panic => (Panic, root idx)
        end
    | _, _ => (Err BadPath, root idx)
    end
  else (Err BadPath, root idx).

Definition with_root (d : Dir) (idx : MutableIndex) : MutableIndex :=
  {| header := header idx; root := d; location := location idx; mi_block_size := mi_block_size idx; mi_hash_type := mi_hash_type idx |}.

(** ** Writing *)

(** The calls of the emitter of [dir_signature]. *)
Inductive Call := StartDir (path : Path.t) | AddFile (name : string) (exe : bool) (size : Z) (hashes : list bytes)
  | AddSymlink (name : string) (dest : Path.t).

Definition emit_leaf (e : string * Item) : option Call :=
  match snd e with
  | IDir _ => None
  | RemoteFile exe size hashes | LocalFile exe size hashes => Some (AddFile (fst e) exe size hashes)
  | ILink dest => Some (AddSymlink (fst e) dest)
  end.

(** [_emit_dir] on a directory; other items have no calls of their own. *)
Fixpoint emit_item (path : Path.t) (item : Item) : list Call :=
  match item with
  | IDir [] => []
  | IDir dir =>
      StartDir path :: omap emit_leaf dir ++
      (fix subdirs (l : Dir) : list Call :=
         match l with
         | [] => []
         | (key, i) :: l' => emit_item (Path.join path [Path.Normal key]) i ++ subdirs l'
         end) dir
  | _ => []
  end.
Definition _emit_dir (path : Path.t) (dir : Dir) : list Call := emit_item path (IDir dir).

(** The emitter, from [Emitter::new] to [finish]; its errors are unwrapped. *)
Definition to_raw_data (emitter : HashType -> Z -> list Call -> Res IoError bytes) (idx : MutableIndex) : Res IoError bytes :=
  match emitter (mi_hash_type idx) (mi_block_size idx) (_emit_dir [Path.RootDir] (root idx)) with
  | Ok b => Ok b
  | _ => Panic
  end.
End Download.

(** ** Induction on trees *)

Section ItemInd.
Context (P : Item -> Prop).
Context (Hdir : forall l, Forall (fun e => P (snd e)) l -> P (IDir l)).
Context (Hremote : forall e s h, P (RemoteFile e s h)) (Hlink : forall d, P (ILink d)) (Hlocal : forall e s h, P (LocalFile e s h)).

Fixpoint item_ind (i : Item) : P i :=
  match i with
  | IDir l => Hdir l ((fix go (l : Dir) : Forall (fun e => P (snd e)) l :=
      match l with
      | [] => @List.Forall_nil _ _
      | (k, i) :: l' => @List.Forall_cons _ _ (k, i) l' (item_ind i) (go l')
      end) l)
  | RemoteFile e s h => Hremote e s h
  | ILink d => Hlink d
  | LocalFile e s h => Hlocal e s h
  end.
End ItemInd.

(** ** Changes at a path *)

(** A change of the directory at a path of names, if it can be one. *)
Fixpoint upd (ps : list string) (f : Dir -> option Dir) (d : Dir) : option Dir :=
  match ps with
  | [] => f d
  | n :: ps' =>
      match default (IDir []) (bt_get n d) with
      | IDir next => next' ← upd ps' f next; Some (bt_put n (IDir next') d)
      | _ => None
      end
  end.

(** What is there, or would be made. *)
Fixpoint content (ps : list string) (d : Dir) : option Dir :=
  match ps with
  | [] => Some d
  | n :: ps' => match default (IDir []) (bt_get n d) with IDir next => content ps' next | _ => None end
  end.

Lemma with_dir_upd {E} (bad conflict : E) ps f d :
  fst (with_dir bad conflict (map Path.Normal ps) f d) = (if upd ps (fun d => Some (f d)) d then Ok tt else Err conflict) /\
  (forall d', upd ps (fun d => Some (f d)) d = Some d' -> snd (with_dir bad conflict (map Path.Normal ps) f d) = d').
Proof.
  revert d. induction ps as [|n ps IH]; intros d; cbn; [by split; [|intros d' [= <-]]|].
  destruct (default (IDir []) (bt_get n d)) as [next| | |]; [|by split..].
  specialize (IH next). destruct (with_dir bad conflict (map Path.Normal ps) f next) as [r next']. cbn in *.
  destruct (upd ps (fun d => Some (f d)) next) as [x|]; cbn; destruct IH as [-> IH]; (split; [done|]); [|done].
  intros d' [= <-]. by rewrite (IH x).
Qed.

Lemma bt_put_put {A} k (x y : A) l : bt_put k x (bt_put k y l) = bt_put k x l.
Proof.
  assert (Hkk : String.compare k k = Eq) by by apply str_compare_eq.
  induction l as [|[k1 x1] l IH]; cbn; [by rewrite Hkk|]. destruct (String.compare k k1) eqn:E; cbn.
  - by rewrite Hkk.
  - by rewrite Hkk.
  - by rewrite E, IH.
Qed.

Lemma upd_app ps qs f d : upd (ps ++ qs) f d = upd ps (upd qs f) d.
Proof. revert d. induction ps as [|n ps IH]; intros d; cbn; [done|]. by destruct (default _ _) as [next| | |]; [rewrite IH|..]. Qed.

Lemma upd_upd ps f g d : (upd ps f d ≫= upd ps g) = upd ps (fun e => f e ≫= g) d.
Proof.
  revert d. induction ps as [|n ps IH]; intros d; cbn; [done|]. destruct (default _ _) as [next| | |]; [|done..].
  rewrite <- IH. destruct (upd ps f next) as [x|]; cbn; [|done]. rewrite bt_get_put, decide_True by done. cbn.
  destruct (upd ps g x); cbn; [by rewrite bt_put_put|done].
Qed.

Lemma upd_congr ps f g d e : content ps d = Some e -> f e = g e -> upd ps f d = upd ps g d.
Proof.
  revert d. induction ps as [|n ps IH]; intros d; cbn; [by intros [= ->]|]. destruct (default _ _) as [next| | |]; [|done..].
  intros Hc He. by rewrite (IH next Hc He).
Qed.

Lemma upd_some ps f d e e' : content ps d = Some e -> f e = Some e' -> exists d', upd ps f d = Some d' /\ content ps d' = Some e'.
Proof.
  revert d. induction ps as [|n ps IH]; intros d; cbn; [intros [= ->]; eauto|]. destruct (default _ _) as [next| | |]; [|done..].
  intros Hc He. destruct (IH next Hc He) as (x & -> & Hx). cbn. eexists. split; [done|].
  by rewrite bt_get_put, decide_True.
Qed.

Lemma upd_content ps f d d' : upd ps f d = Some d' -> exists e e', content ps d = Some e /\ f e = Some e' /\ content ps d' = Some e'.
Proof.
  revert d d'. induction ps as [|n ps IH]; intros d d'; cbn; [intros Hf; by exists d, d'|]. destruct (default _ _) as [next| | |]; [|done..].
  intros (x & Hx & [= <-])%bind_Some. destruct (IH _ _ Hx) as (e & e' & He & Hf & Hc). exists e, e'. split_and!; [done..|].
  by rewrite bt_get_put, decide_True.
Qed.

Lemma content_app ps qs d : content (ps ++ qs) d = (e ← content ps d; content qs e).
Proof. revert d. induction ps as [|n ps IH]; intros d; cbn; [done|]. by destruct (default _ _) as [next| | |]; [rewrite IH|..]. Qed.

(** [root] is [root0] with the directory [d] at a path. *)
Definition at_dir (ps : list string) (root0 : Dir) (d : Dir) (root : Dir) : Prop := upd ps (fun _ => Some d) root0 = Some root.

Lemma at_dir_content ps root0 d root : at_dir ps root0 d root -> content ps root = Some d.
Proof. intros (e & e' & _ & [= ->] & H)%upd_content. done. Qed.

Lemma at_dir_here ps f root0 d root : content ps root0 = Some d -> upd ps f root0 = Some root -> exists e, f d = Some e /\ at_dir ps root0 e root.
Proof.
  intros Hc Hu. destruct (upd_content _ _ _ _ Hu) as (d' & e & Hd & He & _). rewrite Hc in Hd. injection Hd as <-.
  exists e. split; [done|]. unfold at_dir. rewrite <- Hu. by apply (upd_congr _ _ _ _ d).
Qed.

Lemma at_dir_step ps f root0 d e root : at_dir ps root0 d root -> f d = Some e ->
  exists root', upd ps f root = Some root' /\ at_dir ps root0 e root'.
Proof.
  intros Ha He. pose proof (at_dir_content _ _ _ _ Ha) as Hc. destruct (upd_some _ f _ _ _ Hc He) as (root' & Hu & _).
  exists root'. split; [done|]. pose proof (upd_upd ps (fun _ => Some d) f root0) as H. unfold at_dir in *. rewrite Ha in H. cbn in H.
  rewrite <- Hu, H. destruct (upd_content _ _ _ _ Ha) as (x & _ & Hx & _). apply (upd_congr _ _ _ _ x Hx). by cbn.
Qed.

(** ** What a tree becomes when it is written and read *)

(** An empty directory is not written, except that one whose directories were
    all left out still starts. *)
Definition written (i : Item) : bool := match i with IDir [] => false | _ => true end.
Definition is_leaf (i : Item) : bool := match i with IDir _ => false | _ => true end.

Fixpoint norm (i : Item) : Item :=
  match i with
  | IDir l => IDir ((fix go (l : Dir) : Dir :=
      match l with
      | [] => []
      | (k, i) :: l' => if written i then (k, norm i) :: go l' else go l'
      end) l)
  | LocalFile e s h => RemoteFile e s h
  | _ => i
  end.
Definition norm_dir (l : Dir) : Dir := match norm (IDir l) with IDir l' => l' | _ => [] end.

Lemma norm_dir_cons k i l : norm_dir ((k, i) :: l) = if written i then (k, norm i) :: norm_dir l else norm_dir l.
Proof. unfold norm_dir. cbn. by destruct (written i). Qed.

Lemma norm_IDir l : norm (IDir l) = IDir (norm_dir l).
Proof. done. Qed.

Lemma norm_leaf i : is_leaf (norm i) = is_leaf i.
Proof. by destruct i. Qed.

Definition leaf_ok (Q : Z -> list bytes -> Prop) (i : Item) : Prop :=
  match i with IDir _ => False | RemoteFile _ s h | LocalFile _ s h => Q s h | ILink _ => True end.

(** Keys ascend and are names in every directory of a tree; its files have the
    hashes that files have. *)
Inductive tree_ok (Q : Z -> list bytes -> Prop) : Item -> Prop :=
| ok_dir l : bt_ok l -> Forall (fun e => Path.name_ok (fst e) = true /\ tree_ok Q (snd e)) l -> tree_ok Q (IDir l)
| ok_leaf i : leaf_ok Q i -> tree_ok Q i.

Lemma tree_ok_dir Q l : tree_ok Q (IDir l) -> bt_ok l /\ Forall (fun e => Path.name_ok (fst e) = true /\ tree_ok Q (snd e)) l.
Proof. by inversion 1. Qed.

Definition puts (d : Dir) (es : Dir) : Dir := foldl (fun d e => bt_put (fst e) (snd e) d) d es.

Lemma puts_ok es d : bt_ok d -> bt_ok (puts d es).
Proof. revert d. induction es as [|[k x] es IH]; intros d Hd; cbn; [done|]. by apply IH, bt_put_ok. Qed.

Lemma bt_get_puts k es d : NoDup (map fst es) ->
  bt_get k (puts d es) = match bt_get k es with Some x => Some x | None => bt_get k d end.
Proof.
  revert d. induction es as [|[k1 x] es IH]; intros d; cbn; [done|]. intros [Hk Hnd]%NoDup_cons.
  rewrite (IH _ Hnd), bt_get_put. case_decide as E; [|done]. subst. destruct (bt_get k1 es) as [y|] eqn:Hy; [|done].
  destruct Hk. apply list_elem_of_fmap. by exists (k1, y); split; [|apply bt_get_elem].
Qed.

Lemma bt_get_perm (l l' : Dir) k : l ≡ₚ l' -> NoDup (map fst l) -> bt_get k l = bt_get k l'.
Proof.
  induction 1 as [|[k1 x1] l l' _ IH|[k1 x1] [k2 x2] l|l1 l2 l3 H12 IH12 _ IH23]; cbn; intros Hnd; [done|..].
  - apply NoDup_cons in Hnd as [_ Hnd]. by rewrite IH.
  - apply NoDup_cons in Hnd as [Hk _]. repeat case_decide; try done. subst. by destruct Hk; left.
  - rewrite IH12 by done. apply IH23. by rewrite <- H12.
Qed.

(** Putting first the leaves and then the directories gives the map. *)
Lemma puts_leaves_dirs (l : Dir) : bt_ok l ->
  puts [] (List.filter (fun e => is_leaf (snd e)) l ++ List.filter (fun e => negb (is_leaf (snd e))) l) = l.
Proof.
  intros Hl. pose proof (bt_ok_nodup _ Hl) as Hnd.
  assert (Hp : List.filter (fun e => is_leaf (snd e)) l ++ List.filter (fun e => negb (is_leaf (snd e))) l ≡ₚ l).
  { clear. induction l as [|e l IH]; cbn; [done|]. destruct (is_leaf (snd e)); cbn; [by rewrite IH|].
    by rewrite <- Permutation_middle, IH. }
  apply bt_ext; [by apply puts_ok; constructor|done|]. intros k. rewrite bt_get_puts by by rewrite Hp.
  rewrite (bt_get_perm _ _ k Hp) by by rewrite Hp. by destruct (bt_get k l).
Qed.

(** ** Reading what was written *)

(** The entries in what an emitter wrote. *)
Definition call_dir (cur : Path.t) (c : Call) : Path.t := match c with StartDir p => p | _ => cur end.
Definition entry_of (cur : Path.t) (c : Call) : Index.Entry :=
  match c with
  | StartDir p => Index.Dir p
  | AddFile n e s h => Index.File (Path.join cur [Path.Normal n]) e s h
  | AddSymlink n d => Index.Link (Path.join cur [Path.Normal n]) d
  end.
Fixpoint entries_of (cur : Path.t) (calls : list Call) : list Index.Entry :=
  match calls with [] => [] | c :: cs => entry_of cur c :: entries_of (call_dir cur c) cs end.

Definition abs (ps : list string) : Path.t := Path.RootDir :: map Path.Normal ps.

Lemma abs_join ps n : Path.join (abs ps) [Path.Normal n] = abs (ps ++ [n]).
Proof. unfold abs. by rewrite map_app. Qed.

Lemma abs_file_name ps n : Path.file_name (abs (ps ++ [n])) = Some n.
Proof. unfold abs. rewrite map_app, app_comm_cons. apply Path.file_name_snoc. Qed.

Lemma abs_parent ps n : Path.parent (abs (ps ++ [n])) = Some (abs ps).
Proof. unfold abs. rewrite map_app, app_comm_cons. apply Path.path_parent_snoc. Qed.

Section Reading.
Context `{IndexParser}.

Definition run (st : Path.t * Dir) (calls : list Call) : Res IndexParseEnum (Path.t * Dir) :=
  fill_dirs st (map Ok (entries_of (fst st) calls)).

Lemma run_cons st c cs : run st (c :: cs) = res_bind (fun st' => run st' cs) (fill_entry (entry_of (fst st) c) st).
Proof.
  unfold run. cbn. destruct st as [cur root]. cbn. destruct c as [p|n e s h|n d]; cbn.
  - by destruct (with_dir (InvalidPath p) _ p _ root) as [[] ?].
  - by destruct (fill_item cur _ _ root).
  - by destruct (fill_item cur _ _ root).
Qed.

Lemma run_app st a b : run st (a ++ b) = res_bind (fun st' => run st' b) (run st a).
Proof.
  revert st. induction a as [|c a IH]; intros st; [by destruct st|]. rewrite <- app_comm_cons, !run_cons.
  destruct (fill_entry (entry_of (fst st) c) st); cbn; [apply IH|done..].
Qed.

Lemma fill_item_at ps n item root root' : upd ps (fun d => Some (bt_put n item d)) root = Some root' ->
  fill_item (abs ps) (abs (ps ++ [n])) item root = Ok root'.
Proof.
  intros Hu. unfold fill_item. rewrite abs_file_name. cbn [abs with_dir].
  destruct (with_dir_upd (InvalidPath (abs (ps ++ [n]))) (PathConflict (abs (ps ++ [n]))) ps (bt_put n item) root) as [H1 H2].
  rewrite Hu in H1. specialize (H2 _ Hu). unfold abs. cbn [with_dir]. fold (abs (ps ++ [n])).
  destruct (with_dir _ _ (map Path.Normal ps) _ root). cbn in *. by subst.
Qed.

Lemma run_start ps st d : content ps (snd st) = Some d ->
  exists root', fill_entry (Index.Dir (abs ps)) st = Ok (abs ps, root') /\ at_dir ps (snd st) d root'.
Proof.
  destruct st as [cur root]. cbn [snd]. intros Hc. destruct (upd_some ps (fun d => Some d) root d d Hc eq_refl) as (root' & Hu & _).
  exists root'. split; [|by destruct (at_dir_here _ _ _ _ _ Hc Hu) as (e & [= <-] & He)].
  cbn [fill_entry]. destruct (with_dir_upd (InvalidPath (abs ps)) (PathConflict (abs ps)) ps (fun d => d) root) as [H1 H2].
  rewrite Hu in H1. specialize (H2 _ Hu). unfold abs at 3. cbn [with_dir].
  destruct (with_dir _ _ (map Path.Normal ps) _ root). cbn in *. by subst.
Qed.

Abbreviation leaves := (List.filter (fun e : string * Item => is_leaf (snd e))).
Abbreviation dirs := (List.filter (fun e : string * Item => negb (is_leaf (snd e)))).

Lemma run_leaves ps root0 l d root : at_dir ps root0 d root ->
  exists root', run (abs ps, root) (omap emit_leaf l) = Ok (abs ps, root') /\ at_dir ps root0 (puts d (leaves (norm_dir l))) root'.
Proof.
  revert d root. induction l as [|[k i] l IH]; intros d root Ha; [by exists root|].
  rewrite norm_dir_cons. destruct (decide (is_leaf i = true)) as [Hl|Hl].
  - assert (Hw : written i = true) by by destruct i as [[]| | |].
    destruct (at_dir_step ps (fun d => Some (bt_put k (norm i) d)) _ _ _ _ Ha eq_refl) as (root1 & Hu & Ha1).
    destruct (IH _ _ Ha1) as (root' & Hr & Ha'). exists root'. rewrite Hw. cbn [List.filter snd]. rewrite norm_leaf, Hl. split; [|exact Ha'].
    assert (Hc : exists c, emit_leaf (k, i) = Some c /\ fill_entry (entry_of (abs ps) c) (abs ps, root) = Ok (abs ps, root1)).
    { destruct i as [| | |]; [done|..]; (eexists; split; [reflexivity|]); cbn [entry_of fill_entry fst snd];
        rewrite abs_join; cbn [norm] in Hu; by rewrite (fill_item_at _ _ _ _ _ Hu). }
    destruct Hc as (c & Hc & Hf). cbn [omap list_omap]. rewrite Hc, run_cons. cbn [fst]. rewrite Hf. exact Hr.
  - destruct i as [l1| | |]; [|done..]. destruct (IH _ _ Ha) as (root' & Hr & Ha'). exists root'. split; [exact Hr|].
    destruct (written (IDir l1)); [|done]. by rewrite norm_IDir.
Qed.

(** The calls of the directories in one. *)
Definition emit_subdirs (path : Path.t) (l : Dir) : list Call :=
  concat (map (fun e => emit_item (Path.join path [Path.Normal (fst e)]) (snd e)) l).

Lemma emit_item_dir path l : l <> [] -> emit_item path (IDir l) = StartDir path :: omap emit_leaf l ++ emit_subdirs path l.
Proof.
  intros Hl. unfold emit_subdirs. destruct l as [|[k i] l]; [done|]. cbn [emit_item map concat fst snd]. do 3 f_equal.
  clear Hl. induction l as [|[k' i'] l IH]; cbn [map concat fst snd]; [done|]. by f_equal.
Qed.

Definition reads_back (i : Item) : Prop := forall l ps st, i = IDir l -> l <> [] -> content ps (snd st) = Some [] ->
  exists cur root', run st (emit_item (abs ps) i) = Ok (cur, root') /\ at_dir ps (snd st) (norm_dir l) root'.

Lemma run_subdirs ps root0 l : Forall (fun e => reads_back (snd e)) l -> NoDup (map fst l) ->
  forall d cur root, (forall k x, (k, x) ∈ l -> is_leaf x = false -> bt_get k d = None) -> at_dir ps root0 d root ->
  exists cur' root', run (cur, root) (emit_subdirs (abs ps) l) = Ok (cur', root') /\ at_dir ps root0 (puts d (dirs (norm_dir l))) root'.
Proof.
  induction 1 as [|[k i] l Hi _ IH]; cbn [map fst]; intros Hnd d cur root Hd Ha; [by exists cur, root|].
  apply NoDup_cons in Hnd as [Hk Hnd]. unfold emit_subdirs. cbn [map concat fst snd]. rewrite abs_join, run_app, norm_dir_cons.
  fold (emit_subdirs (abs ps) l).
  destruct (decide (is_leaf i = true)) as [Hl|Hl].
  { replace (emit_item _ i) with (@nil Call) by by destruct i. cbn [res_bind run entries_of map fill_dirs].
    destruct (IH Hnd d cur root) as (cur' & root' & Hr & Ha'); [intros k' x Hin; apply (Hd k' x); by right|done|].
    exists cur', root'. split; [exact Hr|]. destruct (written i); [|done]. cbn [List.filter snd]. by rewrite norm_leaf, Hl. }
  destruct i as [[|e l1]| | |]; [|clear Hl|done..].
  { cbn. destruct (IH Hnd d cur root) as (cur' & root' & Hr & Ha'); [intros k' x Hin; apply (Hd k' x); by right|done|]. by exists cur', root'. }
  set (l2 := e :: l1) in *. assert (Hne : l2 <> []) by done. clearbody l2. cbn [written].
  assert (Hkd : bt_get k d = None) by (apply (Hd k (IDir l2)); [by left|done]).
  assert (Hc : content (ps ++ [k]) root = Some []).
  { rewrite content_app, (at_dir_content _ _ _ _ Ha). cbn. by rewrite Hkd. }
  destruct (Hi l2 (ps ++ [k]) (cur, root) eq_refl Hne Hc) as (cur1 & root1 & Hr1 & Ha1). cbn [snd] in *. rewrite Hr1. cbn [res_bind].
  unfold at_dir in Ha1. rewrite upd_app in Ha1.
  destruct (at_dir_step ps (upd [k] (fun _ => Some (norm_dir l2))) root0 d (bt_put k (norm (IDir l2)) d) root Ha) as (root1' & Hu1 & Ha1').
  { cbn. by rewrite Hkd. }
  rewrite Hu1 in Ha1. injection Ha1 as ->.
  destruct (IH Hnd (bt_put k (norm (IDir l2)) d) cur1 root1) as (cur' & root' & Hr & Ha'); [|done|].
  { intros k' x Hin Hx. rewrite bt_get_put. case_decide as E; [|by apply (Hd k' x); [right|]].
    subst. destruct Hk. apply list_elem_of_fmap. by exists (k, x). }
  exists cur', root'. split; [exact Hr|]. destruct l2; [done|]. exact Ha'.
Qed.

Lemma norm_dir_ok l : bt_ok l -> bt_ok (norm_dir l).
Proof.
  unfold bt_ok. induction 1 as [|[k i] l _ IH Hx]; [constructor|]. rewrite norm_dir_cons. destruct (written i); [|done].
  constructor; [done|]. clear IH. induction Hx as [|[k' i'] l Hk _ IH]; [constructor|]. rewrite norm_dir_cons.
  by destruct (written i'); [constructor|].
Qed.

Lemma norm_dir_in l k z : (k, z) ∈ norm_dir l <-> exists i, (k, i) ∈ l /\ z = norm i /\ written i = true.
Proof.
  induction l as [|[k' i'] l IH]; [split; [by intros ?%not_elem_of_nil|by intros (? & ?%not_elem_of_nil & _)]|].
  rewrite norm_dir_cons. destruct (written i') eqn:Hw; [rewrite elem_of_cons|]; rewrite IH; setoid_rewrite elem_of_cons.
  - split; [|naive_solver]. intros [[= -> ->]|(i & Hi & Hz)]; [exists i'|exists i]; auto.
  - split; [naive_solver|]. intros (i & [[= -> ->]|Hi] & -> & Hi'); [congruence|eauto].
Qed.

Lemma emitted_reads_back Q i : tree_ok Q i -> reads_back i.
Proof.
  induction i as [l IH| | |] using item_ind; intros Hok; [|by intros ? ? ? [=]..]. intros l' ps st [= <-] Hne Hc.
  apply tree_ok_dir in Hok as [Hl Hok]. rewrite (emit_item_dir _ _ Hne), run_cons.
  destruct (run_start ps st [] Hc) as (root1 & Hs & Ha1). cbn [entry_of]. rewrite Hs. cbn [res_bind]. rewrite run_app.
  destruct (run_leaves ps (snd st) l [] root1 Ha1) as (root2 & Hr2 & Ha2). rewrite Hr2. cbn [res_bind].
  destruct (run_subdirs ps (snd st) l) with (d := puts [] (leaves (norm_dir l))) (cur := abs ps) (root := root2)
    as (cur & root' & Hr & Ha); [|by apply bt_ok_nodup| |done|].
  - rewrite Forall_forall in *. intros e He. apply IH; [done|]. by apply Hok.
  - intros k x Hin Hx. destruct (bt_get k (puts [] (leaves (norm_dir l)))) as [y|] eqn:E; [|done]. exfalso.
    rewrite bt_get_puts in E by by apply bt_ok_nodup, bt_ok_filter, norm_dir_ok.
    destruct (bt_get k (leaves (norm_dir l))) as [z|] eqn:Ez; [|done]. apply bt_get_elem, list_elem_of_In, filter_In in Ez as [Ez Hz].
    apply list_elem_of_In, norm_dir_in in Ez as (i & Hi & -> & _). cbn [snd] in Hz. rewrite norm_leaf in Hz.
    apply (bt_get_in _ _ _ Hl) in Hi, Hin. congruence.
  - exists cur, root'. split; [done|]. rewrite <- (puts_leaves_dirs (norm_dir l)) by by apply norm_dir_ok.
    unfold puts in *. by rewrite foldl_app.
Qed.
End Reading.

(** ** Looking up *)

Fixpoint item_at (ns : list string) (i : Item) : option Item :=
  match ns with
  | [] => Some i
  | n :: ns' => match i with IDir d => i' ← bt_get n d; item_at ns' i' | _ => None end
  end.

Definition remote_of (i : Item) : option (bool * Z * list bytes) :=
  match i with RemoteFile e s h => Some (e, s, h) | _ => None end.
Definition file_of (i : Item) : option (bool * Z * list bytes) :=
  match i with RemoteFile e s h | LocalFile e s h => Some (e, s, h) | _ => None end.

(** The file at a path of names, fetched or inserted. *)
Definition file_at (ns : list string) (d : Dir) : option (bool * Z * list bytes) := item_at ns (IDir d) ≫= file_of.

Lemma find_dir_at ps n d : (cur ← find_dir (map Path.Normal ps) d; bt_get n cur) = item_at (ps ++ [n]) (IDir d).
Proof.
  revert d. induction ps as [|m ps IH]; intros d; cbn; [by destruct (bt_get n d)|].
  destruct (bt_get m d) as [[next| | |]|]; cbn; [apply IH|by destruct ps..|done].
Qed.

Lemma get_file_at ps n d : get_file (abs (ps ++ [n])) d = item_at (ps ++ [n]) (IDir d) ≫= remote_of.
Proof.
  unfold get_file. rewrite abs_parent, abs_file_name, <- find_dir_at. cbn.
  destruct (find_dir (map Path.Normal ps) d) as [cur|]; cbn; [|done]. by destruct (bt_get n cur) as [[]|].
Qed.

Lemma bt_get_norm k l : bt_ok l -> bt_get k (norm_dir l) = (i ← bt_get k l; if written i then Some (norm i) else None).
Proof.
  intros Hl. pose proof (norm_dir_ok _ Hl) as Hn. destruct (bt_get k (norm_dir l)) as [z|] eqn:E.
  - apply bt_get_elem, norm_dir_in in E as (i & Hi & -> & Hw). apply (bt_get_in _ _ _ Hl) in Hi. rewrite Hi. cbn. by rewrite Hw.
  - destruct (bt_get k l) as [i|] eqn:Ei; [|done]. cbn. destruct (written i) eqn:Hw; [|done].
    assert (H : bt_get k (norm_dir l) = Some (norm i)); [|congruence].
    apply (bt_get_in _ _ _ Hn), norm_dir_in. exists i. by split; [apply bt_get_elem|].
Qed.

(** Every file is a file that can be fetched after writing and reading. *)
Lemma item_at_norm Q ns i : tree_ok Q i -> item_at ns (norm i) ≫= remote_of = item_at ns i ≫= file_of.
Proof.
  revert i. induction ns as [|n ns IH]; intros i Hi; [by destruct i|]. destruct i as [l| | |]; [|done..].
  apply tree_ok_dir in Hi as [Hl Hi]. rewrite norm_IDir. cbn [item_at]. rewrite (bt_get_norm _ _ Hl).
  destruct (bt_get n l) as [i|] eqn:E; [|done]. cbn. destruct (written i) eqn:Hw; cbn.
  - apply IH. rewrite Forall_forall in Hi. apply (Hi (n, i)). by apply bt_get_elem.
  - destruct i as [[]| | |]; [|done..]. by destruct ns.
Qed.

(** ** Inserting *)

Lemma item_at_empty q : item_at q (IDir []) ≫= file_of = None.
Proof. by destruct q. Qed.

Lemma file_at_put m q x d : file_at (m :: q) (bt_put m x d) = item_at q x ≫= file_of.
Proof. unfold file_at. cbn. by rewrite bt_get_put, decide_True. Qed.

Lemma file_at_put_ne m m' q x d : m' <> m -> file_at (m' :: q) (bt_put m x d) = file_at (m' :: q) d.
Proof. unfold file_at. cbn. intros. by rewrite bt_get_put, decide_False. Qed.

Lemma file_at_next m q d next : default (IDir []) (bt_get m d) = IDir next -> file_at (m :: q) d = file_at q next.
Proof.
  unfold file_at. cbn. destruct (bt_get m d) as [i|]; cbn; [by intros ->|]. intros [= <-]. by rewrite item_at_empty.
Qed.

Lemma upd_file_at ps n x d d' : upd ps (fun d => Some (bt_put n x d)) d = Some d' -> is_leaf x = true ->
  forall q, file_at q d' = if decide (q = ps ++ [n]) then file_of x else if decide ((ps ++ [n]) `prefix_of` q) then None else file_at q d.
Proof.
  intros Hu Hx q. revert d d' q Hu. induction ps as [|m ps IH]; intros d d' q; cbn [upd app].
  - intros [= <-]. destruct q as [|k q]; [by rewrite !decide_False by (try done; by intros [? [=]])|].
    destruct (decide (k = n)) as [->|Hk].
    + rewrite file_at_put. destruct q as [|k' q]; [by rewrite decide_True|].
      rewrite decide_False, decide_True by (try done; by exists (k' :: q)). by destruct x.
    + rewrite file_at_put_ne by done. rewrite !decide_False; [done|by intros [? [= -> _]]|by intros [= ->]].
  - destruct (default (IDir []) (bt_get m d)) as [next| | |] eqn:E; [|done..]. intros (next' & Hu & [= <-])%bind_Some.
    destruct q as [|k q]; [by rewrite !decide_False by (try done; by intros [? [=]])|].
    destruct (decide (k = m)) as [->|Hk].
    + rewrite file_at_put. fold (file_at q next'). rewrite (IH _ _ q Hu), (file_at_next _ _ _ _ E).
      destruct (decide (q = ps ++ [n])) as [->|Hq]; [by rewrite !decide_True|]. rewrite (decide_False (P := m :: q = _)) by congruence.
      destruct (decide (ps ++ [n] `prefix_of` q)) as [Hp|Hp].
      * by rewrite decide_True by by apply prefix_cons.
      * rewrite decide_False; [done|]. by intros Hp'%prefix_cons_inv_2.
    + rewrite file_at_put_ne by done. rewrite !decide_False; [done|by intros ?%prefix_cons_inv_1|congruence].
Qed.

(** What was made on a way that ended in an error holds no file. *)
Lemma with_dir_error {E} (bad conflict : E) cs f d r d' : with_dir bad conflict cs f d = (r, d') -> r <> Ok tt ->
  forall q, file_at q d' = file_at q d.
Proof.
  revert d r d'. induction cs as [|c cs IH]; intros d r d'; cbn; [by intros [= <- <-]|].
  destruct c as [| | |m]; [apply IH|by intros [= <- <-]..|].
  destruct (default (IDir []) (bt_get m d)) as [next| | |] eqn:Em; [|by intros [= <- <-]..].
  destruct (with_dir bad conflict cs f next) as [r1 next'] eqn:Ew. intros [= <- <-] Hr q.
  destruct q as [|k q]; [done|]. destruct (decide (k = m)) as [->|Hk]; [|by apply file_at_put_ne].
  rewrite file_at_put, (file_at_next _ _ _ _ Em). by apply (IH _ _ _ Ew).
Qed.

Lemma with_dir_ok {E} (bad conflict : E) cs f d d' : with_dir bad conflict cs f d = (Ok tt, d') ->
  exists ps, List.filter Path.is_normal cs = map Path.Normal ps /\ Forall (fun c => c = Path.RootDir \/ Path.is_normal c = true) cs /\
    upd ps (fun d => Some (f d)) d = Some d'.
Proof.
  revert d d'. induction cs as [|c cs IH]; intros d d'; cbn; [intros [= <-]; by exists []|].
  destruct c as [| | |m]; [|done..|].
  - intros H. destruct (IH _ _ H) as (ps & Hps & Hall & Hu). exists ps. split_and!; [done| |done]. constructor; [by left|done].
  - destruct (default (IDir []) (bt_get m d)) as [next| | |] eqn:Em; [|done..].
    destruct (with_dir bad conflict cs f next) as [r1 next'] eqn:Ew. intros [= -> <-].
    destruct (IH _ _ Ew) as (ps & Hps & Hall & Hu). exists (m :: ps). cbn. rewrite Hps, Em, Hu. split_and!; [done| |done].
    constructor; [by right|done].
Qed.

(** ** Trees that indexes have *)

Lemma tree_ok_put Q n x l : tree_ok Q (IDir l) -> Path.name_ok n = true -> tree_ok Q x -> tree_ok Q (IDir (bt_put n x l)).
Proof.
  intros [Hl Ha]%tree_ok_dir Hn Hx. apply ok_dir; [by apply bt_put_ok|]. clear Hl.
  assert (Hnx : Path.name_ok (n, x).1 = true /\ tree_ok Q (n, x).2) by done.
  induction Ha as [|[k y] l Hy Ha IH]; cbn [bt_put]; [by apply Forall_singleton|].
  destruct (String.compare n k); rewrite !Forall_cons; auto.
Qed.

Lemma tree_ok_next Q n l : tree_ok Q (IDir l) -> tree_ok Q (default (IDir []) (bt_get n l)).
Proof.
  intros [_ Ha]%tree_ok_dir. destruct (bt_get n l) as [i|] eqn:E; cbn; [|by apply ok_dir; constructor].
  rewrite Forall_forall in Ha. by apply bt_get_elem, Ha in E as [_ E].
Qed.

Lemma with_dir_tree_ok {E} Q (bad conflict : E) cs f d : (forall e, tree_ok Q (IDir e) -> tree_ok Q (IDir (f e))) ->
  Forall (fun c => match c with Path.Normal n => Path.name_ok n = true | _ => True end) cs ->
  tree_ok Q (IDir d) -> tree_ok Q (IDir (snd (with_dir bad conflict cs f d))).
Proof.
  intros Hf Hcs. revert d. induction Hcs as [|c cs Hc _ IH]; intros d Hd; cbn; [by apply Hf|].
  destruct c as [| | |m]; [by apply IH|done..|]. pose proof (tree_ok_next Q m d Hd) as Hn.
  destruct (default (IDir []) (bt_get m d)) as [next| | |]; [|done..]. specialize (IH next Hn).
  destruct (with_dir bad conflict cs f next) as [r next']. by apply tree_ok_put.
Qed.

Lemma wf_names p : Path.wf p = true -> Forall (fun c => match c with Path.Normal n => Path.name_ok n = true | _ => True end) p.
Proof.
  intros H. assert (Hi : forall l, forallb Path.inner_ok l = true -> Forall (fun c => match c with Path.Normal n => Path.name_ok n = true | _ => True end) l).
  { clear. induction l as [|c l IH]; cbn; [constructor|]. intros [Hc Hl]%andb_true_iff. constructor; [by destruct c|auto]. }
  destruct p as [|[| | |n] p]; [by constructor|constructor; [done|by apply Hi]..|by apply Hi|by apply Hi].
Qed.

Lemma file_name_ok p n : Path.wf p = true -> Path.file_name p = Some n -> Path.name_ok n = true.
Proof.
  intros Hp%wf_names. unfold Path.file_name. destruct (last p) as [c|] eqn:El; [|done]. destruct c; [done..|]. intros [= ->].
  apply last_Some_elem_of in El. rewrite Forall_forall in Hp. by apply Hp in El.
Qed.

Lemma parent_forall (P : Path.Component -> Prop) p q : Path.parent p = Some q -> Forall P p -> Forall P q.
Proof.
  unfold Path.parent. destruct (last p) as [[]|]; [done| | | |done]; (intros [= <-]);
    (induction 1 as [|c l Hc _ IH]; cbn; [constructor|destruct l; [constructor|by constructor]]).
Qed.

Lemma emit_leaf_name e c : emit_leaf e = Some c ->
  (exists x s h, c = AddFile (fst e) x s h /\ (snd e = RemoteFile x s h \/ snd e = LocalFile x s h)) \/ exists d, c = AddSymlink (fst e) d.
Proof. destruct e as [k []]; cbn; intros [= <-]; eauto 10. Qed.

(** ** Laws of the format *)

Definition call_ok (Q : Z -> list bytes -> Prop) (c : Call) : Prop :=
  match c with
  | StartDir p => plain_path p
  | AddFile n _ s h => Path.name_ok n = true /\ Q s h
  | AddSymlink n _ => Path.name_ok n = true
  end.

(** The first call starts a directory. *)
Definition calls_ok (Q : Z -> list bytes -> Prop) (cs : list Call) : Prop :=
  match cs with [] | StartDir _ :: _ => Forall (call_ok Q) cs | _ => False end.

Definition index_entry_ok (Q : Z -> list bytes -> Prop) (e : Index.Entry) : Prop :=
  match e with
  | Index.Dir p | Index.Link p _ => Path.wf p = true
  | Index.File p _ s h => Path.wf p = true /\ Q s h
  end.

Lemma plain_abs ps : Forall (fun n => Path.name_ok n = true) ps -> plain_path (abs ps).
Proof. by exists ps. Qed.

Lemma emit_call_ok Q i : tree_ok Q i -> forall ps, Forall (fun n => Path.name_ok n = true) ps -> Forall (call_ok Q) (emit_item (abs ps) i).
Proof.
  induction i as [l IH| | |] using item_ind; intros Hok ps Hps; [|constructor..].
  destruct (decide (l = [])) as [->|Hne]; [constructor|]. rewrite (emit_item_dir _ _ Hne).
  apply tree_ok_dir in Hok as [_ Hok]. rewrite Forall_forall in IH, Hok. apply Forall_cons. split; [by apply plain_abs|].
  apply Forall_app. split; rewrite Forall_forall.
  - intros c (e & He & Hc)%list_elem_of_omap. destruct (Hok _ He) as [Hn Ht].
    destruct (emit_leaf_name _ _ Hc) as [(x & s & h & -> & Hi)|[d ->]]; [|done]. split; [done|].
    destruct Hi as [Hi|Hi]; rewrite Hi in Ht; by inversion Ht.
  - intros c Hc. unfold emit_subdirs in Hc. apply list_elem_of_In, in_concat in Hc as (cs & Hcs & Hc). apply in_map_iff in Hcs as (e & <- & He).
    apply list_elem_of_In in Hc, He. destruct (Hok _ He) as [Hn Ht]. rewrite abs_join in Hc.
    assert (Hps' : Forall (fun n => Path.name_ok n = true) (ps ++ [fst e])) by by apply Forall_app; split; [|apply Forall_singleton].
    specialize (IH _ He Ht _ Hps'). rewrite Forall_forall in IH. by apply IH.
Qed.

Lemma emit_calls_ok Q l : tree_ok Q (IDir l) -> calls_ok Q (_emit_dir [Path.RootDir] l).
Proof.
  intros H. pose proof (emit_call_ok _ _ H [] (List.Forall_nil _)) as Hok. clear H. change (abs []) with [Path.RootDir] in Hok.
  unfold _emit_dir. destruct l as [|e l]; [done|]. rewrite (emit_item_dir _ (e :: l)) in * by done. exact Hok.
Qed.

(** ** An index that is read and changed *)

Section Editing.
Context `{IndexParser} (emitter : HashType -> Z -> list Call -> Res IoError bytes) (hashes_ok : HashType -> Z -> Z -> list bytes -> Prop).

(** The parser gives paths and hashes that are such. *)
Context (parser_law : forall b h es e, parser_new b = Ok (h, es) -> Ok e ∈ es -> index_entry_ok (hashes_ok (hd_hash_type h) (hd_block_size h)) e).

(** The parser reads what the emitter wrote. *)
Context (emitter_law : forall ht bs cs b, calls_ok (hashes_ok ht bs) cs -> emitter ht bs cs = Ok b ->
  parser_new b = Ok ({| hd_hash_type := ht; hd_block_size := bs |}, map Ok (entries_of [] cs))).

Abbreviation idx_ok idx := (tree_ok (hashes_ok (mi_hash_type idx) (mi_block_size idx)) (IDir (root idx))).

(** [insert_file] changes the index also when it fails. *)
Inductive edited (raw : RawIndex) : MutableIndex -> Prop :=
| edited_read idx : into_mut raw = Ok idx -> edited raw idx
| edited_insert idx hash_file path exe r d : edited raw idx -> Path.wf path = true ->
    (forall size hashes, hash_file (mi_hash_type idx) (mi_block_size idx) = Ok (size, hashes) ->
       hashes_ok (mi_hash_type idx) (mi_block_size idx) size hashes) ->
    insert_file hash_file path exe idx = (r, d) -> edited raw (with_root d idx).

Lemma fill_item_ok Q cur path item root root' : fill_item cur path item root = Ok root' ->
  Path.wf cur = true -> Path.wf path = true -> tree_ok Q item -> tree_ok Q (IDir root) -> tree_ok Q (IDir root').
Proof.
  unfold fill_item. intros Hf Hcur Hp Hi Hr. destruct (Path.file_name path) as [n|] eqn:Hn; [|done]. apply (file_name_ok _ _ Hp) in Hn.
  pose proof (with_dir_tree_ok Q (InvalidPath path) (PathConflict path) cur (bt_put n item) root) as Hw.
  destruct (with_dir _ _ cur _ root) as [[] d]; cbn in *; [|done..]. injection Hf as <-.
  apply Hw; [intros e He; by apply tree_ok_put|by apply wf_names|done].
Qed.

Lemma fill_dirs_ok Q es st st' : fill_dirs st es = Ok st' -> (forall e, Ok e ∈ es -> index_entry_ok Q e) ->
  Path.wf (fst st) = true -> tree_ok Q (IDir (snd st)) -> tree_ok Q (IDir (snd st')).
Proof.
  revert st. induction es as [|r es IH]; intros st Hf He Hcur Hok; [by injection Hf as <-|].
  destruct r as [e| |]; [|done..]. cbn in Hf. assert (Hes : forall e, Ok e ∈ es -> index_entry_ok Q e) by (intros; apply He; by right).
  specialize (He e ltac:(by left)). destruct (fill_entry e st) as [st1| |] eqn:E; [|done..]. cbn in Hf.
  destruct st as [cur root]. apply (IH st1 Hf Hes); destruct e as [p|p d|p x s h]; cbn in E, He, Hcur, Hok.
  - destruct (with_dir _ _ p _ root) as [[] d]; [|done..]. by injection E as <-.
  - destruct (fill_item _ _ _ root); [|done..]. by injection E as <-.
  - destruct (fill_item _ _ _ root); [|done..]. by injection E as <-.
  - pose proof (with_dir_tree_ok Q (InvalidPath p) (PathConflict p) p (fun d => d) root) as Hw.
    destruct (with_dir _ _ p _ root) as [[] d]; [|done..]. injection E as <-. apply Hw; [done|by apply wf_names|done].
  - destruct (fill_item _ _ _ root) eqn:Ef; [|done..]. injection E as <-. cbn. eapply fill_item_ok; [exact Ef|done..|by apply ok_leaf|done].
  - destruct (fill_item _ _ _ root) eqn:Ef; [|done..]. injection E as <-. cbn. eapply fill_item_ok; [exact Ef|done|by destruct He| |done].
    by apply ok_leaf; destruct He.
Qed.

Lemma edited_ok raw idx : edited raw idx -> idx_ok idx.
Proof.
  induction 1 as [idx Hi|idx hf path exe r d _ IH Hp Hh Hi]; cbn [root with_root mi_hash_type mi_block_size].
  - unfold into_mut in Hi. destruct (parser_new (ri_data raw)) as [[h es]| |] eqn:Ep; [|done..]. cbn in Hi.
    destruct (fill_dirs ([], []) es) as [st| |] eqn:Ef; [|done..]. injection Hi as <-. cbn.
    apply (fill_dirs_ok _ _ _ _ Ef); [by intros e; apply (parser_law _ _ _ _ Ep)|done|by apply ok_dir; constructor].
  - unfold insert_file in Hi. destruct (Path.is_absolute path); [|by injection Hi as <- <-].
    destruct (Path.file_name path) as [n|] eqn:Hn; [|by injection Hi as <- <-]. destruct (Path.parent path) as [p|] eqn:Hpp; [|by injection Hi as <- <-].
    destruct (hf _ _) as [[s h]| |] eqn:Eh; [|by injection Hi as <- <-..]. unfold _insert_file in Hi.
    replace d with (snd (with_dir BadPath NotADirectory p (bt_put n (LocalFile exe s h)) (root idx))) by by rewrite Hi.
    apply with_dir_tree_ok; [|by apply (parent_forall _ _ _ Hpp), wf_names|done].
    intros e He. apply tree_ok_put; [done|by apply (file_name_ok _ _ Hp)|]. apply ok_leaf. by apply Hh.
Qed.

Lemma written_fills Q l : tree_ok Q (IDir l) ->
  exists cur, fill_dirs ([], []) (map Ok (entries_of [] (_emit_dir [Path.RootDir] l))) = Ok (cur, norm_dir l).
Proof.
  intros Hok. destruct (decide (l = [])) as [->|Hne]; [by exists []|].
  destruct (emitted_reads_back Q _ Hok l [] ([], []) eq_refl Hne eq_refl) as (cur & r & Hr & Ha).
  exists cur. unfold run in Hr. cbn [fst] in Hr. change (abs []) with [Path.RootDir] in Hr. unfold _emit_dir.
  rewrite Hr. unfold at_dir in Ha. cbn in Ha. by injection Ha as <-.
Qed.

(** What is read of an index that was written. *)
Lemma written_reads idx b loc : idx_ok idx -> to_raw_data emitter idx = Ok b ->
  exists idx', into_mut {| ri_data := b; ri_location := loc |} = Ok idx' /\ root idx' = norm_dir (root idx) /\
    mi_hash_type idx' = mi_hash_type idx /\ mi_block_size idx' = mi_block_size idx /\ location idx' = loc.
Proof using emitter_law.
  intros Hed Hb. unfold to_raw_data in Hb.
  destruct (emitter _ _ _) as [b'| |] eqn:Ee; [|done..]. injection Hb as ->.
  apply emitter_law in Ee; [|by apply emit_calls_ok]. unfold into_mut. cbn [ri_data]. rewrite Ee. cbn [res_map_err res_bind snd fst].
  destruct (written_fills _ _ Hed) as (cur & ->). cbn [res_bind]. eexists. by split_and!.
Qed.

Lemma norm_files Q ns n d : tree_ok Q (IDir d) -> get_file (abs (ns ++ [n])) (norm_dir d) = file_at (ns ++ [n]) d.
Proof. intros Hd. rewrite get_file_at, <- norm_IDir. by eapply item_at_norm. Qed.

(** C17. An index that was read and changed any number of times, and is written
    and read again, has the same directories (but for empty ones), and all its
    files, the inserted ones too, can be looked up with their hashes. *)
Theorem raw_roundtrip raw idx b : edited raw idx -> to_raw_data emitter idx = Ok b ->
  exists idx', into_mut {| ri_data := b; ri_location := location idx |} = Ok idx' /\
    root idx' = norm_dir (root idx) /\ mi_hash_type idx' = mi_hash_type idx /\ mi_block_size idx' = mi_block_size idx /\
    location idx' = location idx /\
    forall ns n, get_file (abs (ns ++ [n])) (root idx') = file_at (ns ++ [n]) (root idx).
Proof using parser_law emitter_law.
  intros Hed%edited_ok Hb. destruct (written_reads _ _ (location idx) Hed Hb) as (idx' & Hi & Hr & Ht & Hs & Hl).
  exists idx'. split_and!; [done..|]. intros ns n. rewrite Hr. by eapply norm_files.
Qed.
End Editing.

Lemma abs_file p n : Path.wf p = true -> Path.is_absolute p = true -> Path.file_name p = Some n ->
  exists q, p = Path.RootDir :: q ++ [Path.Normal n] /\ Path.parent p = Some (Path.RootDir :: q).
Proof.
  intros Hp Ha Hn. destruct p as [|[| | |] p]; [done| |done..]. destruct p as [|c q _] using rev_ind; [done|].
  unfold Path.file_name in Hn. rewrite app_comm_cons, last_snoc in Hn. destruct c; [done..|]. injection Hn as ->.
  exists q. split; [done|]. rewrite app_comm_cons. apply Path.path_parent_snoc.
Qed.

Lemma with_dir_total {E} (bad conflict : E) f cs d : fst (with_dir bad conflict cs f d) <> Panic.
Proof.
  revert d. induction cs as [|[| | |m] cs IH]; intros d; cbn; try done. destruct (default _ _) as [next| | |]; try done.
  specialize (IH next). by destruct (with_dir _ _ cs _ next).
Qed.

Lemma insert_file_ok hash_file path exe idx d : Path.wf path = true -> insert_file hash_file path exe idx = (Ok tt, d) ->
  exists ns n size hashes, path = abs (ns ++ [n]) /\
    hash_file (mi_hash_type idx) (mi_block_size idx) = Ok (size, hashes) /\ content ns (root idx) <> None /\
    forall q, file_at q d = if decide (q = ns ++ [n]) then Some (exe, size, hashes)
      else if decide (ns ++ [n] `prefix_of` q) then None else file_at q (root idx).
Proof.
  intros Hp Hi. unfold insert_file in Hi. destruct (Path.is_absolute path) eqn:Ha; [|done]. destruct (Path.file_name path) as [n|] eqn:Hn; [|done].
  destruct (abs_file _ _ Hp Ha Hn) as (p & -> & Epar). rewrite Epar in Hi. destruct (hash_file _ _) as [[s h]| |]; [|done..].
  unfold _insert_file in Hi. destruct (with_dir_ok _ _ _ _ _ _ Hi) as (ns & Hns & Hall & Hu). exists ns, n, s, h. split_and!; [|done| |].
  - cbn in Hns. inversion Hall as [|? ? _ Hall']; subst. unfold abs. rewrite map_app, <- Hns. do 2 f_equal.
    cbn [Path.wf] in Hp. rewrite forallb_app in Hp. apply andb_true_iff in Hp as [Hp _].
    clear -Hp Hall'. induction Hall' as [|c p Hc _ IH]; cbn in *; [done|]. apply andb_true_iff in Hp as [Hcp Hp].
    destruct Hc as [->|Hc]; [done|]. rewrite Hc. f_equal. by apply IH.
  - destruct (upd_content _ _ _ _ Hu) as (e & _ & -> & _). done.
  - exact (upd_file_at _ _ _ _ _ Hu eq_refl).
Qed.

(** Inserting puts the file at its path: what was below or there is replaced,
    all other files stay.  It fails where the path is not one of names, a
    component on the way is a file or a link, or the file could not be read;
    then the files are those before. *)
Theorem insert_file_spec hash_file path exe idx r d :
  Path.wf path = true -> insert_file hash_file path exe idx = (r, d) ->
  match r with
  | Ok _ => exists ns n size hashes, path = abs (ns ++ [n]) /\
      hash_file (mi_hash_type idx) (mi_block_size idx) = Ok (size, hashes) /\ content ns (root idx) <> None /\
      forall q, file_at q d = if decide (q = ns ++ [n]) then Some (exe, size, hashes)
        else if decide (ns ++ [n] `prefix_of` q) then None else file_at q (root idx)
  | _ => (forall q, file_at q d = file_at q (root idx)) /\
      forall ns n size hashes, path = abs (ns ++ [n]) -> hash_file (mi_hash_type idx) (mi_block_size idx) = Ok (size, hashes) ->
        r = Err NotADirectory /\ content ns (root idx) = None
  end.
Proof.
  intros Hp Hi. destruct r as [[]| |]; [by apply insert_file_ok| |]; revert Hi; unfold insert_file;
  (destruct (Path.is_absolute path) eqn:Ha; [|by intros [= <- <-]; (split; [|intros ns n ? ? ->])]);
  (destruct (Path.file_name path) as [n|] eqn:Hn; [|by intros [= <- <-]; (split; [done|intros ns n ? ? ->; by rewrite abs_file_name in Hn])]);
  destruct (abs_file _ _ Hp Ha Hn) as (p & -> & ->);
  (destruct (hash_file _ _) as [[s h]| |]; [|by (intros Hi; inversion Hi; subst; split)..]);
  unfold _insert_file; intros Ew.
  - split; [by apply (with_dir_error _ _ _ _ _ _ _ Ew)|]. intros ns m ? ? [= Hq] [= <- <-].
    rewrite map_app in Hq. apply app_inj_tail in Hq as [-> [= ->]].
    destruct (with_dir_upd BadPath NotADirectory ns (bt_put m (LocalFile exe s h)) (root idx)) as [H1 _].
    cbn in Ew. rewrite Ew in H1. cbn in H1. destruct (upd ns _ _) eqn:Eu; [done|]. injection H1 as ->. split; [done|].
    destruct (content ns (root idx)) as [e|] eqn:Ec; [|done].
    destruct (upd_some ns (fun d => Some (bt_put m (LocalFile exe s h) d)) _ _ _ Ec eq_refl) as (x & Hx & _). congruence.
  - exfalso. refine (with_dir_total _ _ _ _ _ _). by rewrite Ew.
Qed.

(** ** Examples *)

#[export] Instance call_eq_dec : EqDecision Call.
Proof. solve_decision. Defined.
#[export] Instance hash_type_eq_dec : EqDecision HashType.
Proof. solve_decision. Defined.

Module DownloadExample.
Definition data0 : bytes := [Byte.x30].
Definition data1 : bytes := [Byte.x31].
Definition header0 : Header := {| hd_hash_type := Sha512_256; hd_block_size := 32768 |}.
Definition entries0 : list Index.Entry :=
  [Index.Dir (abs []); Index.File (abs ["hello.txt"%string]) false 6 [[Byte.x68]];
   Index.Dir (abs ["subdir"%string]); Index.File (abs ["subdir"; ".hidden"]%string) false 7 [[Byte.x2e]]].

(** The example's index has two spellings: as it was, and with a new file. *)
Definition root1 : Dir :=
  [("hello.txt"%string, RemoteFile false 6 [[Byte.x68]]);
   ("subdir"%string, IDir [(".hidden"%string, RemoteFile false 7 [[Byte.x2e]]); ("new"%string, IDir [("file"%string, LocalFile true 3 [[Byte.x6e]])])])].
Definition calls1 : list Call := _emit_dir [Path.RootDir] root1.

Instance parser0 : IndexParser := {|
  Index.ParseError := unit;
  parser_new b := if decide (b = data0) then Ok (header0, map Ok entries0)
    else if decide (b = data1) then Ok (header0, map Ok (entries_of [] calls1)) else Err tt |}.

Definition emitter1 (ht : HashType) (bs : Z) (cs : list Call) : Res IoError bytes :=
  if decide (ht = Sha512_256 /\ bs = 32768 /\ cs = calls1) then Ok data1 else Panic.

Definition raw0 : RawIndex := {| ri_data := data0; ri_location := 0 |}.
Definition hash_file1 (_ : HashType) (_ : Z) : Res IoError (Z * list bytes) := Ok (3, [[Byte.x6e]]).
Definition new_path : Path.t := abs ["subdir"; "new"; "file"]%string.
Definition idx0 : MutableIndex :=
  {| header := header0; root := [("hello.txt"%string, RemoteFile false 6 [[Byte.x68]]); ("subdir"%string, IDir [(".hidden"%string, RemoteFile false 7 [[Byte.x2e]])])];
     location := 0; mi_block_size := 32768; mi_hash_type := Sha512_256 |}.
Definition any_hashes (_ : HashType) (_ _ : Z) (_ : list bytes) : Prop := True.

Lemma read0 : into_mut raw0 = Ok idx0.
Proof. vm_compute. reflexivity. Qed.

Lemma inserted0 : insert_file hash_file1 new_path true idx0 = (Ok tt, root1).
Proof. vm_compute. reflexivity. Qed.

Lemma edited1 : edited any_hashes raw0 (with_root root1 idx0).
Proof.
  eapply (edited_insert _ raw0 idx0 hash_file1 new_path true); [by apply edited_read, read0|reflexivity|done|apply inserted0].
Qed.

Lemma parser0_law b h es e : parser_new b = Ok (h, es) -> Ok e ∈ es -> index_entry_ok (any_hashes (hd_hash_type h) (hd_block_size h)) e.
Proof.
  cbn [parser_new parser0]. intros Hb He. assert (H : Forall (index_entry_ok (any_hashes (hd_hash_type h) (hd_block_size h))) (entries0 ++ entries_of [] calls1)).
  { vm_compute. repeat constructor. }
  rewrite Forall_forall in H. apply H, elem_of_app.
  assert (Hin : forall l : list Index.Entry, es = map Ok l -> e ∈ l) by (by intros l ->; apply list_elem_of_fmap in He as (x & [= ->] & He)).
  repeat case_decide; [left|right|done]; apply Hin; by injection Hb as _ <-.
Qed.

Lemma emitter1_law ht bs cs b : calls_ok (any_hashes ht bs) cs -> emitter1 ht bs cs = Ok b ->
  parser_new b = Ok ({| hd_hash_type := ht; hd_block_size := bs |}, map Ok (entries_of [] cs)).
Proof. unfold emitter1. case_decide as E; [|done]. destruct E as (-> & -> & ->). by intros _ [= <-]. Qed.
End DownloadExample.

Lemma raw_roundtrip_witness : exists idx', into_mut (H := DownloadExample.parser0) {| ri_data := DownloadExample.data1; ri_location := 0 |} = Ok idx' /\
  get_file (abs ["subdir"; "new"; "file"]%string) (root idx') = Some (true, 3, [[Byte.x6e]]).
Proof.
  destruct (raw_roundtrip DownloadExample.emitter1 DownloadExample.any_hashes DownloadExample.parser0_law DownloadExample.emitter1_law
    DownloadExample.raw0 _ DownloadExample.data1 DownloadExample.edited1 eq_refl) as (idx' & Hi & _ & _ & _ & _ & Hf).
  exists idx'. split; [exact Hi|]. exact (Hf ["subdir"; "new"]%string "file"%string).
Defined.

Lemma insert_file_spec_witness : exists ns n, abs (ns ++ [n]) = DownloadExample.new_path /\
  file_at (ns ++ [n]) DownloadExample.root1 = Some (true, 3, [[Byte.x6e]]).
Proof.
  destruct (insert_file_spec DownloadExample.hash_file1 DownloadExample.new_path true DownloadExample.idx0 _ _ eq_refl DownloadExample.inserted0)
    as (ns & n & size & hashes & Hp & Hh & _ & Hq).
  exists ns, n. split; [by symmetry|]. rewrite Hq, decide_True by done. by injection Hh as <- <-.
Defined.
