(* ===== verification/ConnSet.v ===== *)
(** * The connections of a client: [src/cluster/set.rs], [src/cluster/addr.rs],
    [src/cluster/mod.rs], [src/cluster/future.rs]

    [ConnectionSet] is a future that is polled for ever.  It resolves names,
    opens connections, sends the requests of uploads and of fetches to them,
    and completes both.  As in [FetchBlocks], what a poll asks of the outside
    is an [Env] whose answers may depend on the tick of the question; futures
    that are made (connections, requests, look-ups of names) are named by the
    tick they are made at. *)
From S2P Require Import Prelude Serde VirtualPath Ids Time Signature Commands Peers Upload Download.
Import VPath ImageId SignedUpload.
Local Open Scope Z_scope.

(** [abstract_ns]. *)
Class AbstractNs := {
  Address : Type;
  IpList : Type;
  with_port : IpList -> Z -> Address;
  union : list Address -> Address;
  no_address : Address;
  addresses_at : Address -> nat -> list SocketAddr;
  parse_name : string -> option string
}.

(** The errors of requests that are not told apart are [OtherError]. *)
Inductive RequestError := UnexpectedTermination | OtherError.
Inductive Reply (A : Type) := Waiting | Replied (a : A) | Broken (e : RequestError).
Arguments Waiting {A}. Arguments Replied {A} a. Arguments Broken {A} e.

(** ** Data *)

Section Data.
Context `{AbstractNs}.

(** [dir_signature::v1::Hashes]. *)
Record Hashes := { h_block_size : Z; h_hashes : list bytes }.

(** [struct Pointer], behind the lock that [Location] shares. *)
Record Pointer := { vpath : VPath; candidate_hosts : gset string; p_failures : Failures SocketAddr SlowerPolicy }.

(** [struct NewUpload]; the sender of a one-shot channel is a number. *)
Record NewUpload := {
  nu_replace : bool; nu_weak : bool; nu_upload : SignedUpload; nu_old_image : option ImageId; nu_stats : Stats; nu_resolve : nat
}.

Inductive Message :=
| MNewUpload (up : NewUpload)
| MFetchIndex (path : VPath) (tx : nat)
| MFetchFile (path : Path.t) (location : nat) (size : nat) (hashes : Hashes) (tx : nat)
| MNotification (addr : SocketAddr) (n : Notification)
| MClosed (addr : SocketAddr).

Inductive RFuture := RAppend (req : nat) | RReplace (req : nat).

(** [struct Upload]; a timer is the instant it is set to. *)
Record Upload := {
  u_replace : bool;
  u_weak : bool;
  u_old_image : option ImageId;
  u_upload : SignedUpload;
  u_stats : Stats;
  u_resolve : nat;
  u_connections : gmap SocketAddr nat;
  u_futures : gmap SocketAddr RFuture;
  u_early : Z;
  u_deadline : Z;
  u_candidates : gset string
}.

Inductive FRequest :=
| FIndex (future : option nat) (resolve : nat)
| FFile (buf : bytes) (path : Path.t) (position : nat) (hashes : Hashes) (future : option (nat * GetBlock)) (resolve : nat).

Record Fetch := { f_location : nat; f_connection : option (SocketAddr * nat); f_req : FRequest }.

(** [AddrFuture] with the look-ups that are not over, and [AddrCell]. *)
Record AddrFuture := { af_port : Z; af_futures : list (string * nat); current : Address }.
Inductive AddrCell := AddrReady (a : Address) | AddrFetching (f : AddrFuture).

(** What is done to the outside. *)
Inductive Effect :=
| Connect (conn : nat) (addr : SocketAddr)
| ResolveHost (job : nat) (name : string)
| SendNotification (conn : nat) (n : Notification)
| SendRequest (req conn : nat) (r : Request)
| UploadDone (tx : nat) (res : Res ErrorKind unit)
| IndexDone (tx : nat) (raw : RawIndex)
| FileDone (tx : nat) (data : bytes).

Record ConnectionSet := {
  initial_addr : AddrCell;
  chan : list Message;
  chan_done : bool;
  failures : Failures SocketAddr DefaultPolicy;
  pending : gmap SocketAddr nat;
  active : gmap SocketAddr nat;
  uploads : list Upload;
  fetches : list Fetch;
  pending_addrs : gmap string nat;
  failed_addrs : Failures string DefaultPolicy;
  addrs : gmap string Address;
  retry : Z;
  pointers : gmap nat Pointer;
  log : list Effect;
  tick : nat
}.

Definition on_initial_addr (f : AddrCell -> AddrCell) (s : ConnectionSet) : ConnectionSet :=
  {| initial_addr := f (initial_addr s); chan := chan s; chan_done := chan_done s; failures := failures s;
     pending := pending s; active := active s; uploads := uploads s; fetches := fetches s;
     pending_addrs := pending_addrs s; failed_addrs := failed_addrs s; addrs := addrs s; retry := retry s;
     pointers := pointers s; log := log s; tick := tick s |}.
Definition on_chan (f : list Message -> list Message) (s : ConnectionSet) : ConnectionSet :=
  {| initial_addr := initial_addr s; chan := f (chan s); chan_done := chan_done s; failures := failures s;
     pending := pending s; active := active s; uploads := uploads s; fetches := fetches s;
     pending_addrs := pending_addrs s; failed_addrs := failed_addrs s; addrs := addrs s; retry := retry s;
     pointers := pointers s; log := log s; tick := tick s |}.
Definition on_chan_done (f : bool -> bool) (s : ConnectionSet) : ConnectionSet :=
  {| initial_addr := initial_addr s; chan := chan s; chan_done := f (chan_done s); failures := failures s;
     pending := pending s; active := active s; uploads := uploads s; fetches := fetches s;
     pending_addrs := pending_addrs s; failed_addrs := failed_addrs s; addrs := addrs s; retry := retry s;
     pointers := pointers s; log := log s; tick := tick s |}.
Definition on_failures (f : Failures SocketAddr DefaultPolicy -> Failures SocketAddr DefaultPolicy) (s : ConnectionSet) : ConnectionSet :=
  {| initial_addr := initial_addr s; chan := chan s; chan_done := chan_done s; failures := f (failures s);
     pending := pending s; active := active s; uploads := uploads s; fetches := fetches s;
     pending_addrs := pending_addrs s; failed_addrs := failed_addrs s; addrs := addrs s; retry := retry s;
     pointers := pointers s; log := log s; tick := tick s |}.
Definition on_pending (f : gmap SocketAddr nat -> gmap SocketAddr nat) (s : ConnectionSet) : ConnectionSet :=
  {| initial_addr := initial_addr s; chan := chan s; chan_done := chan_done s; failures := failures s;
     pending := f (pending s); active := active s; uploads := uploads s; fetches := fetches s;
     pending_addrs := pending_addrs s; failed_addrs := failed_addrs s; addrs := addrs s; retry := retry s;
     pointers := pointers s; log := log s; tick := tick s |}.
Definition on_active (f : gmap SocketAddr nat -> gmap SocketAddr nat) (s : ConnectionSet) : ConnectionSet :=
  {| initial_addr := initial_addr s; chan := chan s; chan_done := chan_done s; failures := failures s;
     pending := pending s; active := f (active s); uploads := uploads s; fetches := fetches s;
     pending_addrs := pending_addrs s; failed_addrs := failed_addrs s; addrs := addrs s; retry := retry s;
     pointers := pointers s; log := log s; tick := tick s |}.
Definition on_uploads (f : list Upload -> list Upload) (s : ConnectionSet) : ConnectionSet :=
  {| initial_addr := initial_addr s; chan := chan s; chan_done := chan_done s; failures := failures s;
     pending := pending s; active := active s; uploads := f (uploads s); fetches := fetches s;
     pending_addrs := pending_addrs s; failed_addrs := failed_addrs s; addrs := addrs s; retry := retry s;
     pointers := pointers s; log := log s; tick := tick s |}.
Definition on_fetches (f : list Fetch -> list Fetch) (s : ConnectionSet) : ConnectionSet :=
  {| initial_addr := initial_addr s; chan := chan s; chan_done := chan_done s; failures := failures s;
     pending := pending s; active := active s; uploads := uploads s; fetches := f (fetches s);
     pending_addrs := pending_addrs s; failed_addrs := failed_addrs s; addrs := addrs s; retry := retry s;
     pointers := pointers s; log := log s; tick := tick s |}.
Definition on_pending_addrs (f : gmap string nat -> gmap string nat) (s : ConnectionSet) : ConnectionSet :=
  {| initial_addr := initial_addr s; chan := chan s; chan_done := chan_done s; failures := failures s;
     pending := pending s; active := active s; uploads := uploads s; fetches := fetches s;
     pending_addrs := f (pending_addrs s); failed_addrs := failed_addrs s; addrs := addrs s; retry := retry s;
     pointers := pointers s; log := log s; tick := tick s |}.
Definition on_failed_addrs (f : Failures string DefaultPolicy -> Failures string DefaultPolicy) (s : ConnectionSet) : ConnectionSet :=
  {| initial_addr := initial_addr s; chan := chan s; chan_done := chan_done s; failures := failures s;
     pending := pending s; active := active s; uploads := uploads s; fetches := fetches s;
     pending_addrs := pending_addrs s; failed_addrs := f (failed_addrs s); addrs := addrs s; retry := retry s;
     pointers := pointers s; log := log s; tick := tick s |}.
Definition on_addrs (f : gmap string Address -> gmap string Address) (s : ConnectionSet) : ConnectionSet :=
  {| initial_addr := initial_addr s; chan := chan s; chan_done := chan_done s; failures := failures s;
     pending := pending s; active := active s; uploads := uploads s; fetches := fetches s;
     pending_addrs := pending_addrs s; failed_addrs := failed_addrs s; addrs := f (addrs s); retry := retry s;
     pointers := pointers s; log := log s; tick := tick s |}.
Definition on_retry (f : Z -> Z) (s : ConnectionSet) : ConnectionSet :=
  {| initial_addr := initial_addr s; chan := chan s; chan_done := chan_done s; failures := failures s;
     pending := pending s; active := active s; uploads := uploads s; fetches := fetches s;
     pending_addrs := pending_addrs s; failed_addrs := failed_addrs s; addrs := addrs s; retry := f (retry s);
     pointers := pointers s; log := log s; tick := tick s |}.
Definition on_pointers (f : gmap nat Pointer -> gmap nat Pointer) (s : ConnectionSet) : ConnectionSet :=
  {| initial_addr := initial_addr s; chan := chan s; chan_done := chan_done s; failures := failures s;
     pending := pending s; active := active s; uploads := uploads s; fetches := fetches s;
     pending_addrs := pending_addrs s; failed_addrs := failed_addrs s; addrs := addrs s; retry := retry s;
     pointers := f (pointers s); log := log s; tick := tick s |}.
Definition on_log (f : list Effect -> list Effect) (s : ConnectionSet) : ConnectionSet :=
  {| initial_addr := initial_addr s; chan := chan s; chan_done := chan_done s; failures := failures s;
     pending := pending s; active := active s; uploads := uploads s; fetches := fetches s;
     pending_addrs := pending_addrs s; failed_addrs := failed_addrs s; addrs := addrs s; retry := retry s;
     pointers := pointers s; log := f (log s); tick := tick s |}.
Definition next_tick (s : ConnectionSet) : ConnectionSet :=
  {| initial_addr := initial_addr s; chan := chan s; chan_done := chan_done s; failures := failures s; pending := pending s; active := active s; uploads := uploads s; fetches := fetches s; pending_addrs := pending_addrs s; failed_addrs := failed_addrs s; addrs := addrs s; retry := retry s; pointers := pointers s; log := log s; tick := S (tick s) |}.
End Data.

(** ** What the outside answers *)

Record Env `{AbstractNs} := {
  e_now : nat -> Z;
  e_timer : nat -> Z -> bool;
  e_order : forall A, nat -> list A -> list A;
  e_sample : forall A, nat -> list A -> nat -> list A;
  e_pick : nat -> Address -> option SocketAddr;
  e_ended : nat -> bool;
  e_client : nat -> nat -> Answer unit;
  e_resolve : nat -> nat -> Answer IpList;
  e_append : nat -> nat -> Reply AppendDirAck;
  e_replace : nat -> nat -> Reply ReplaceDirAck;
  e_index : nat -> nat -> Reply GetIndexAtResponse;
  e_block : nat -> nat * GetBlock -> Reply GetBlockResponse;
  e_cancel : nat -> nat -> bool
}.

(** The loops of [poll] and of [poll_fetch] are cut short. *)
Inductive Stop := OutOfFuel.

Section Set_.
Context `{AbstractNs} (env : Env) (config : Config).
Local Open Scope st_scope.

Abbreviation Op A := (ST ConnectionSet Stop A).
Definition ask {A} (q : nat -> A) : Op A := fun s => (Ok (q (tick s)), next_tick s).
Definition gets {A} (f : ConnectionSet -> A) : Op A := fun s => (Ok (f s), s).
Definition fresh : Op nat := ask (fun t => t).
Definition emit (e : Effect) : Op unit := st_modify (on_log (fun l => l ++ [e])).
(** Iteration over a hash table, and [sample_iter]. *)
Definition in_order {A} (l : list A) : Op (list A) := ask (fun t => e_order env A t l).
Definition sample {A} (l : list A) (n : nat) : Op (list A) := ask (fun t => e_sample env A t l n).

(** ** [addr.rs] *)

Definition addr_cell_new (names : list string) (port : Z) : Op AddrCell :=
  futures <-- (fix go (l : list string) : Op (list (string * nat)) :=
    match l with
    | [] => st_ret []
    | n :: l' => job <-- fresh;; emit (ResolveHost job n) ;;; rest <-- go l';; st_ret ((n, job) :: rest)
    end) names;;
  st_ret (AddrFetching {| af_port := port; af_futures := futures; current := no_address |}).

(** [for _ in 0..self.futures.len()]: what is not ready goes to the back. *)
Fixpoint addr_future_poll (n : nat) (f : AddrFuture) : Op AddrFuture :=
  match n with
  | O => st_ret f
  | S n' =>
      match af_futures f with
      | [] => st_lift Panic
      | (name, job) :: rest =>
          a <-- ask (fun t => e_resolve env t job);;
          let '(rest', cur) :=
            match a with
            | Ready new => (rest, union [current f; with_port new (af_port f)])
            | NotReady => (rest ++ [(name, job)], current f)
            | Failed => (rest, current f)
            end in
          addr_future_poll n' {| af_port := af_port f; af_futures := rest'; current := cur |}
      end
  end.

Definition addr_cell_poll : Op unit :=
  cell <-- gets initial_addr;;
  match cell with
  | AddrReady _ => st_ret tt
  | AddrFetching f =>
      f' <-- addr_future_poll (length (af_futures f)) f;;
      st_modify (on_initial_addr (fun _ =>
        if decide (0 < length (af_futures f'))%nat then AddrFetching f' else AddrReady (current f')))
  end.

Definition addr_get (c : AddrCell) : Address := match c with AddrReady a => a | AddrFetching f => current f end.
Definition is_done (c : AddrCell) : bool := match c with AddrReady _ => true | _ => false end.

(** ** Messages *)

Definition set_timeout (d : Z) : Op Z := now <-- ask (e_now env);; st_ret (now + d).

Definition start_upload (up : NewUpload) : Op unit :=
  early <-- set_timeout (early_timeout config);;
  deadline <-- set_timeout (maximum_timeout config);;
  st_modify (on_uploads (fun l => l ++
    [{| u_replace := nu_replace up; u_weak := nu_weak up; u_old_image := nu_old_image up; u_upload := nu_upload up;
        u_stats := nu_stats up; u_resolve := nu_resolve up; u_connections := ∅; u_futures := ∅; u_early := early;
        u_deadline := deadline; u_candidates := ∅ |}])).

Definition start_fetch_index (path : VPath) (tx : nat) : Op unit :=
  loc <-- fresh;;
  st_modify (on_pointers (<[loc := {| vpath := path; candidate_hosts := ∅; p_failures := new_slow |}]>)) ;;;
  st_modify (on_fetches (fun l => l ++ [{| f_location := loc; f_connection := None; f_req := FIndex None tx |}])).

Definition start_fetch_file (path : Path.t) (loc : nat) (size : nat) (hashes : Hashes) (tx : nat) : Op unit :=
  st_modify (on_fetches (fun l => l ++
    [{| f_location := loc; f_connection := None; f_req := FFile (replicate size Byte.x00) path 0 hashes None tx |}])).

Definition with_stats (st : Stats) (u : Upload) : Upload :=
  {| u_replace := u_replace u; u_weak := u_weak u; u_old_image := u_old_image u; u_upload := u_upload u; u_stats := st;
     u_resolve := u_resolve u; u_connections := u_connections u; u_futures := u_futures u; u_early := u_early u;
     u_deadline := u_deadline u; u_candidates := u_candidates u |}.
Definition with_conns (conns : gmap SocketAddr nat) (futures : gmap SocketAddr RFuture) (u : Upload) : Upload :=
  {| u_replace := u_replace u; u_weak := u_weak u; u_old_image := u_old_image u; u_upload := u_upload u; u_stats := u_stats u;
     u_resolve := u_resolve u; u_connections := conns; u_futures := futures; u_early := u_early u;
     u_deadline := u_deadline u; u_candidates := u_candidates u |}.
Definition with_candidates (c : gset string) (u : Upload) : Upload :=
  {| u_replace := u_replace u; u_weak := u_weak u; u_old_image := u_old_image u; u_upload := u_upload u; u_stats := u_stats u;
     u_resolve := u_resolve u; u_connections := u_connections u; u_futures := u_futures u; u_early := u_early u;
     u_deadline := u_deadline u; u_candidates := c |}.

(** The condition of the source compares the path twice. *)
Definition note_received (addr : SocketAddr) (img : ReceivedImage) (u : Upload) : Upload :=
  if bool_decide (up_path (u_upload u) = ri_path img) && (u_weak u || bool_decide (up_path (u_upload u) = ri_path img))
  then with_stats (received_image addr img (u_stats u)) u else u.
Definition note_aborted (addr : SocketAddr) (img : AbortedImage) (u : Upload) : Upload :=
  if bool_decide (up_image_id (u_upload u) = ai_id img) && (u_weak u || bool_decide (up_path (u_upload u) = ai_path img))
  then with_stats (aborted_image addr img (u_stats u)) u else u.
Definition forget_conn (addr : SocketAddr) (u : Upload) : Upload := with_conns (delete addr (u_connections u)) (u_futures u) u.

Definition read_message (m : Message) : Op unit :=
  match m with
  | MNewUpload up => start_upload up
  | MFetchIndex path tx => start_fetch_index path tx
  | MFetchFile path loc size hashes tx => start_fetch_file path loc size hashes tx
  | MNotification addr (NReceivedImage img) => st_modify (on_uploads (map (note_received addr img)))
  | MNotification addr (NAbortedImage img) => st_modify (on_uploads (map (note_aborted addr img)))
  | MNotification _ _ => st_ret tt
  | MClosed addr =>
      st_modify (on_uploads (map (forget_conn addr))) ;;;
      act <-- gets active;;
      match act !! addr with
      | Some _ => st_modify (on_active (delete addr))
      | None => st_lift Panic
      end
  end.

(** The messages that were sent, then [NotReady], or the end of the channel
    when all senders are gone. *)
Definition read_messages : Op unit :=
  l <-- gets chan;; st_modify (on_chan (fun _ => [])) ;;; st_each read_message l ;;;
  ended <-- ask (e_ended env);;
  if ended : bool then st_modify (on_chan_done (fun _ => true)) else st_ret tt.

(** ** Connecting *)

Definition is_pending (a : SocketAddr) (s : ConnectionSet) : bool := bool_decide (is_Some (pending s !! a)).
Definition is_active (a : SocketAddr) (s : ConnectionSet) : bool := bool_decide (is_Some (active s !! a)).
Definition keys (m : gmap SocketAddr nat) : list SocketAddr := map fst (map_to_list m).

(** [self.failures.can_try(a)], [self.failures.add_failure(a)]. *)
Definition can_try_host (a : SocketAddr) : Op bool := now <-- ask (e_now env);; gets (fun s => can_try now a (failures s)).
Definition add_host_failure (a : SocketAddr) : Op unit :=
  t0 <-- ask (e_now env);; now <-- ask (e_now env);; st_modify (on_failures (add_failure t0 now a)).

(** Neither connecting nor connected, and not failed a moment ago. *)
Definition can_connect (a : SocketAddr) : Op bool :=
  known <-- gets (fun s => is_pending a s || is_active a s);;
  if known : bool then st_ret false else can_try_host a.

(** [filter_map(|h| self.addrs.get(h).and_then(|a| a.pick_one()))]. *)
Fixpoint pick_addrs (hosts : list string) : Op (list SocketAddr) :=
  match hosts with
  | [] => st_ret []
  | h :: hosts' =>
      known <-- gets (fun s => addrs s !! h);;
      match known with
      | None => pick_addrs hosts'
      | Some a => p <-- ask (fun t => e_pick env t a);; rest <-- pick_addrs hosts';; st_ret (option_list p ++ rest)
      end
  end.

Definition can_resolve (h : string) : Op bool :=
  now <-- ask (e_now env);;
  gets (fun s => can_try now h (failed_addrs s) && bool_decide (addrs s !! h = None) && bool_decide (pending_addrs s !! h = None)).
Definition start_resolve (h : string) : Op unit :=
  job <-- fresh;; emit (ResolveHost job h) ;;; st_modify (on_pending_addrs (<[h := job]>)).

(** [Client::spawn], after the check for a duplicate. *)
Definition spawn_conn (naddr : SocketAddr) : Op unit :=
  dup <-- gets (is_pending naddr);;
  if dup : bool then st_ret tt
  else c <-- fresh;; emit (Connect c naddr) ;;; st_modify (on_pending (<[naddr := c]>)).

Definition st_and (p q : Op bool) : Op bool := b <-- p;; if b : bool then q else st_ret false.
Definition initial_addrs (s : ConnectionSet) : list SocketAddr := addresses_at (addr_get (initial_addr s)) 0.

Definition resolve_some (hosts : list string) (n : nat) : Op unit :=
  hosts <-- in_order hosts;; free <-- st_filter can_resolve hosts;;
  to_resolve <-- sample free n;; st_each start_resolve to_resolve.

Definition usable (up : Upload) (a : SocketAddr) : Op bool :=
  if is_rejected a (u_stats up) then st_ret false else can_connect a.

Definition new_conns_for_upload (up : Upload) : Op unit := fun s =>
  let initial := Z.to_nat (initial_connections config) in
  let accepting := List.filter (fun a => negb (is_rejected a (u_stats up))) in
  if bool_decide (initial <= size (u_connections up))%nat then (Ok tt, s)
  else if bool_decide (initial <= length (accepting (keys (pending s))) + length (accepting (keys (active s))))%nat then (Ok tt, s)
  else
    (hosts <-- in_order (elements (u_candidates up));;
     picked <-- pick_addrs hosts;; found <-- st_filter (usable up) picked;;
     new_addresses <-- sample found initial;;
     let slots_left := (initial - length new_addresses)%nat in
     more <-- (if bool_decide (0 < slots_left)%nat then
                 resolve_some (elements (u_candidates up)) slots_left ;;;
                 init <-- gets initial_addrs;;
                 found <-- st_filter (fun a => if bool_decide (is_Some (u_connections up !! a)) then st_ret false else usable up a) init;;
                 sample found slots_left
               else st_ret []);;
     st_each spawn_conn (new_addresses ++ more)) s.

Definition get_pointer (loc : nat) : Op Pointer := p <-- gets (fun s => pointers s !! loc);; st_lift (expect p).
Definition can_try_location (p : Pointer) (a : SocketAddr) : Op bool := now <-- ask (e_now env);; st_ret (can_try now a (p_failures p)).

(** New addresses are connected only when no candidate was found. *)
Definition new_conn_for_fetch (fetch : Fetch) : Op unit :=
  match f_connection fetch with
  | Some _ => st_ret tt
  | None =>
      p <-- get_pointer (f_location fetch);;
      hosts <-- in_order (elements (candidate_hosts p));; picked <-- pick_addrs hosts;;
      found <-- st_filter (fun a => st_and (can_try_location p a) (can_connect a)) picked;;
      new_addresses <-- sample found 1;;
      if bool_decide (length new_addresses = 0)%nat then
        resolve_some (elements (candidate_hosts p)) 1 ;;;
        init <-- gets initial_addrs;;
        found <-- st_filter (fun a => st_and (can_connect a) (can_try_location p a)) init;;
        new_addresses <-- sample found 1;;
        st_each spawn_conn new_addresses
      else st_ret tt
  end.

(** [for _ in 0..queue.len()]: the front is taken, and put at the back when it
    is to stay. *)
Fixpoint spin {A} (queue : ConnectionSet -> list A) (on_queue : (list A -> list A) -> ConnectionSet -> ConnectionSet)
    (step : A -> Op (option A)) (n : nat) : Op unit :=
  match n with
  | O => st_ret tt
  | S n' => fun s =>
      match queue s with
      | [] => (Panic, s)
      | cur :: rest =>
          (r <-- step cur;; st_modify (on_queue (fun l => l ++ option_list r)) ;;;
           spin queue on_queue step n') (on_queue (fun _ => rest) s)
      end
  end.
Definition spin_uploads (step : Upload -> Op (option Upload)) : Op unit :=
  n <-- gets (fun s => length (uploads s));; spin uploads on_uploads step n.
Definition spin_fetches (step : Fetch -> Op (option Fetch)) : Op unit :=
  n <-- gets (fun s => length (fetches s));; spin fetches on_fetches step n.

Definition poll_connect : Op unit :=
  spin_uploads (fun cur => new_conns_for_upload cur ;;; st_ret (Some cur)) ;;;
  spin_fetches (fun cur => new_conn_for_fetch cur ;;; st_ret (Some cur)).

Definition poll_client (e : SocketAddr * nat) : Op unit :=
  let (addr, c) := e in
  a <-- ask (fun t => e_client env t c);;
  match a with
  | NotReady => st_ret tt
  | Ready _ => st_modify (on_active (<[addr := c]>)) ;;; st_modify (on_pending (delete addr))
  | Failed => add_host_failure addr ;;; st_modify (on_pending (delete addr))
  end.

Definition poll_name (e : string * nat) : Op unit :=
  let (name, job) := e in
  a <-- ask (fun t => e_resolve env t job);;
  match a with
  | NotReady => st_ret tt
  | Ready ips => st_modify (on_addrs (<[name := with_port ips (port config)]>)) ;;; st_modify (on_pending_addrs (delete name))
  | Failed =>
      t0 <-- ask (e_now env);; now <-- ask (e_now env);;
      st_modify (on_failed_addrs (add_failure t0 now name)) ;;; st_modify (on_pending_addrs (delete name))
  end.

Definition poll_pending : Op unit :=
  l <-- gets (fun s => map_to_list (pending s));; l <-- in_order l;; st_each poll_client l ;;;
  l <-- gets (fun s => map_to_list (pending_addrs s));; l <-- in_order l;; st_each poll_name l.

(** ** Sending requests *)

Definition send (conn : nat) (r : Request) : Op nat := req <-- fresh;; emit (SendRequest req conn r) ;;; st_ret req.

Definition upload_request (up : Upload) (conn : nat) : Op RFuture :=
  let u := u_upload up in
  if u_replace up then
    req <-- send conn (ReqReplaceDir {| rd_path := up_path u; rd_image := up_image_id u; rd_old_image := u_old_image up;
                                        rd_timestamp := up_timestamp u; rd_signatures := up_signatures u |});;
    st_ret (RReplace req)
  else
    req <-- send conn (ReqAppendDir {| ad_path := up_path u; ad_image := up_image_id u; ad_timestamp := up_timestamp u;
                                       ad_signatures := up_signatures u |});;
    st_ret (RAppend req).

Fixpoint wake_upload (hosts : list (SocketAddr * nat)) (up : Upload) : Op Upload :=
  match hosts with
  | [] => st_ret up
  | (addr, conn) :: hosts' =>
      if bool_decide (u_connections up !! addr = None) && negb (is_rejected addr (u_stats up)) then
        emit (SendNotification conn (NPublishImage {| pi_id := up_image_id (u_upload up) |})) ;;;
        fut <-- upload_request up conn;;
        wake_upload hosts' (with_conns (<[addr := conn]> (u_connections up)) (<[addr := fut]> (u_futures up)) up)
      else wake_upload hosts' up
  end.

(** [for x in &mut queue]. *)
Fixpoint st_update {A} (f : A -> Op A) (l : list A) : Op (list A) :=
  match l with [] => st_ret [] | x :: l' => x' <-- f x;; rest <-- st_update f l';; st_ret (x' :: rest) end.

Definition active_hosts : Op (list (SocketAddr * nat)) := l <-- gets (fun s => map_to_list (active s));; in_order l.

Definition wakeup_uploads : Op unit :=
  ups <-- gets uploads;;
  ups' <-- st_update (fun up =>
    if bool_decide (Z.of_nat (size (u_connections up)) < initial_connections config) then
      hosts <-- active_hosts;; wake_upload hosts up
    else st_ret up) ups;;
  st_modify (on_uploads (fun _ => ups')).

(** [hash_at]; [None] is a panic. *)
Definition hash_at (hashes : Hashes) (position : nat) : option BlockHash.BlockHash :=
  if decide (h_block_size hashes = 0) then None
  else b ← h_hashes hashes !! Z.to_nat (Z.of_nat position / h_block_size hashes); BlockHash.from_bytes b.

Definition block_request (conn : nat) (p : Pointer) (path : Path.t) (hashes : Hashes) (position : nat) : Op (nat * GetBlock) :=
  hash <-- st_lift (expect (hash_at hashes position));;
  let g := {| gb_hash := hash; gb_hint := Some (vpath p, path, Z.of_nat position) |} in
  req <-- send conn (ReqGetBlock g);; st_ret (req, g).

Definition fetch_request (conn : nat) (p : Pointer) (r : FRequest) : Op FRequest :=
  match r with
  | FIndex _ tx => req <-- send conn (ReqGetIndexAt {| gia_path := vpath p |});; st_ret (FIndex (Some req) tx)
  | FFile buf path position hashes _ tx =>
      req <-- block_request conn p path hashes position;; st_ret (FFile buf path position hashes (Some req) tx)
  end.

(** There is no [break]: every host that can be tried is asked, and the last
    one counts. *)
Fixpoint wake_fetch (p : Pointer) (hosts : list (SocketAddr * nat)) (fetch : Fetch) : Op Fetch :=
  match hosts with
  | [] => st_ret fetch
  | (addr, conn) :: hosts' =>
      ok <-- can_try_location p addr;;
      if ok : bool then
        r <-- fetch_request conn p (f_req fetch);;
        wake_fetch p hosts' {| f_location := f_location fetch; f_connection := Some (addr, conn); f_req := r |}
      else wake_fetch p hosts' fetch
  end.

Definition wakeup_fetches : Op unit :=
  l <-- gets fetches;;
  l' <-- st_update (fun fetch =>
    match f_connection fetch with
    | Some _ => st_ret fetch
    | None => p <-- get_pointer (f_location fetch);; hosts <-- active_hosts;; wake_fetch p hosts fetch
    end) l;;
  st_modify (on_fetches (fun _ => l')).

(** ** Polling uploads *)

Definition parse_hosts (hosts : gmap MachineId.MachineId string) : gset string :=
  list_to_set (omap (fun e => parse_name (snd e)) (map_to_list hosts)).

(** An answer to either request. *)
Definition upload_answered (addr : SocketAddr) (accepted : bool) (reason : option string)
    (hosts : gmap MachineId.MachineId string) (up : Upload) : Upload :=
  let (ok, st) := add_response addr accepted reason hosts (u_stats up) in
  with_candidates (u_candidates up ∪ parse_hosts hosts)
    (with_conns (if ok then u_connections up else delete addr (u_connections up)) (delete addr (u_futures up)) (with_stats st up)).

Definition upload_failed (addr : SocketAddr) (e : RequestError) (up : Upload) : Op Upload :=
  match e with UnexpectedTermination => st_ret tt | OtherError => add_host_failure addr end ;;;
  st_ret (with_conns (delete addr (u_connections up)) (delete addr (u_futures up)) up).

Definition poll_rfuture (e : SocketAddr * RFuture) (up : Upload) : Op Upload :=
  let (addr, capsule) := e in
  match capsule with
  | RAppend req =>
      a <-- ask (fun t => e_append env t req);;
      match a with
      | Waiting => st_ret up
      | Replied resp => st_ret (upload_answered addr (ada_accepted resp) (ada_reject_reason resp) (ada_hosts resp) up)
      | Broken e => upload_failed addr e up
      end
  | RReplace req =>
      a <-- ask (fun t => e_replace env t req);;
      match a with
      | Waiting => st_ret up
      | Replied resp => st_ret (upload_answered addr (rda_accepted resp) (rda_reject_reason resp) (rda_hosts resp) up)
      | Broken e => upload_failed addr e up
      end
  end.

(** [up.futures.retain(..)]. *)
Fixpoint poll_rfutures (l : list (SocketAddr * RFuture)) (up : Upload) : Op Upload :=
  match l with [] => st_ret up | e :: l' => up' <-- poll_rfuture e up;; poll_rfutures l' up' end.

Definition run_check (up : Upload) (early : bool) : Op (option (Res ErrorKind unit)) := fun s =>
  (Ok (check (u_stats up) config (is_done (initial_addr s)) (initial_addrs s) early (bool_decide (u_candidates up = ∅))), s).

(** [None] is [Ready]: the upload is over. *)
Definition poll_upload (up : Upload) : Op (option Upload) :=
  l <-- in_order (map_to_list (u_futures up));;
  up <-- poll_rfutures l up;;
  early <-- ask (fun t => e_timer env t (u_early up));;
  verdict <-- (if bool_decide (size (u_futures up) = 0%nat) &&
                  bool_decide (0 < total_responses (u_stats up) mod u32_modulus)
               then run_check up early else st_ret None);;
  match verdict with
  | Some r => emit (UploadDone (u_resolve up) r) ;;; st_ret None
  | None =>
      late <-- ask (fun t => e_timer env t (u_deadline up));;
      if late : bool then
        verdict <-- run_check up early;;
        emit (UploadDone (u_resolve up) (default (Err DeadlineReached) verdict)) ;;; st_ret None
      else st_ret (Some up)
  end.

(** ** Polling fetches *)

Definition fail_location (loc : nat) (addr : SocketAddr) : Op unit :=
  p <-- get_pointer loc;; t0 <-- ask (e_now env);; now <-- ask (e_now env);;
  st_modify (on_pointers (<[loc := {| vpath := vpath p; candidate_hosts := candidate_hosts p;
                                      p_failures := add_failure t0 now addr (p_failures p) |}]>)).
Definition extend_location (loc : nat) (hosts : gset string) : Op unit :=
  p <-- get_pointer loc;;
  st_modify (on_pointers (<[loc := {| vpath := vpath p; candidate_hosts := candidate_hosts p ∪ hosts; p_failures := p_failures p |}]>)).

(** [if let Some((addr, _)) = fetch.connection.take()]. *)
Definition take_connection (fetch : Fetch) : Op Fetch :=
  match f_connection fetch with Some (addr, _) => fail_location (f_location fetch) addr | None => st_ret tt end ;;;
  st_ret {| f_location := f_location fetch; f_connection := None; f_req := f_req fetch |}.
Definition with_req (r : FRequest) (fetch : Fetch) : Fetch :=
  {| f_location := f_location fetch; f_connection := f_connection fetch; f_req := r |}.

(** A future that is not there is not ready. *)
Definition poll_opt {F A} (q : nat -> F -> Reply A) (future : option F) : Op (Reply A) :=
  match future with Some r => ask (fun t => q t r) | None => st_ret Waiting end.

Definition poll_fetch_index (fetch : Fetch) (future : option nat) (tx : nat) : Op (option Fetch) :=
  a <-- poll_opt (e_index env) future;;
  match a with
  | Waiting => st_ret (Some fetch)
  | Replied result =>
      match giar_data result with
      | Some data => emit (IndexDone tx {| ri_data := data; ri_location := f_location fetch |}) ;;; st_ret None
      | None =>
          fetch <-- take_connection fetch;; extend_location (f_location fetch) (parse_hosts (giar_hosts result)) ;;;
          st_ret (Some (with_req (FIndex None tx) fetch))
      end
  | Broken _ => fetch <-- take_connection fetch;; st_ret (Some (with_req (FIndex None tx) fetch))
  end.

(** [buf[position..end].clone_from_slice(&data)]. *)
Definition splice (buf : bytes) (position : nat) (data : bytes) : bytes :=
  take position buf ++ data ++ drop (position + length data) buf.

Fixpoint poll_fetch_file (fuel : nat) (fetch : Fetch) (buf : bytes) (path : Path.t) (position : nat) (hashes : Hashes)
    (future : option (nat * GetBlock)) (tx : nat) : Op (option Fetch) :=
  match fuel with
  | O => st_err OutOfFuel
  | S fuel' =>
      a <-- poll_opt (e_block env) future;;
      match a with
      | Waiting => st_ret (Some (with_req (FFile buf path position hashes future tx) fetch))
      | Replied result =>
          let data := gbr_data result in
          let end_ := (position + length data)%nat in
          if bool_decide (length buf < end_)%nat then
            fetch <-- take_connection fetch;; poll_fetch_file fuel' fetch buf path position hashes None tx
          else
            let buf := splice buf position data in
            if bool_decide (end_ = length buf) then emit (FileDone tx buf) ;;; st_ret None
            else
              conn <-- st_lift (expect (f_connection fetch));;
              p <-- get_pointer (f_location fetch);;
              req <-- block_request (snd conn) p path hashes end_;;
              poll_fetch_file fuel' fetch buf path end_ hashes (Some req) tx
      | Broken _ => fetch <-- take_connection fetch;; poll_fetch_file fuel' fetch buf path position hashes None tx
      end
  end.

Definition resolve_of (r : FRequest) : nat := match r with FIndex _ tx | FFile _ _ _ _ _ tx => tx end.

Definition poll_fetch (fuel : nat) (fetch : Fetch) : Op (option Fetch) :=
  r <-- match f_req fetch with
        | FIndex future tx => poll_fetch_index fetch future tx
        | FFile buf path position hashes future tx => poll_fetch_file fuel fetch buf path position hashes future tx
        end;;
  match r with
  | None => st_ret None
  | Some fetch =>
      gone <-- ask (fun t => e_cancel env t (resolve_of (f_req fetch)));;
      st_ret (if gone : bool then None else Some fetch)
  end.

Definition poll_uploads : Op unit := spin_uploads poll_upload.
Definition poll_fetches (fuel : nat) : Op unit := spin_fetches (poll_fetch fuel).

(** ** [ConnectionSet::poll] *)

Definition count {A} (f : ConnectionSet -> A) (len : A -> nat) : Op nat := gets (fun s => len (f s)).

Definition poll_retry : Op bool :=
  ready <-- (fun s => ask (fun t => e_timer env t (retry s)) s);;
  if ready : bool then
    n <-- count uploads length;;
    if bool_decide (0 < n)%nat then
      at_ <-- set_timeout nanos_per_sec;; st_modify (on_retry (fun _ => at_)) ;;; st_ret true
    else st_ret false
  else st_ret false.

(** [m] notes whether a number changes. *)
Definition changes {A} (f : ConnectionSet -> A) (len : A -> nat) (m : Op unit) : Op bool :=
  n <-- count f len;; m ;;; n' <-- count f len;; st_ret (negb (bool_decide (n = n'))).

Definition pending_changes : Op bool :=
  n <-- count pending size;; k <-- count pending_addrs size;;
  poll_pending ;;;
  n' <-- count pending size;; k' <-- count pending_addrs size;;
  st_ret (negb (bool_decide (n = n')) || negb (bool_decide (k = k'))).

(** One pass of [while repeat]. *)
Definition round (fuel : nat) : Op bool :=
  r0 <-- poll_retry;;
  r1 <-- changes pending size poll_connect;;
  r2 <-- pending_changes;;
  wakeup_uploads ;;; wakeup_fetches ;;;
  r3 <-- changes uploads length poll_uploads;;
  r4 <-- changes fetches length (poll_fetches fuel);;
  st_ret (r0 || r1 || r2 || r3 || r4).

Fixpoint rounds (inner fuel : nat) : Op unit :=
  match fuel with
  | O => st_err OutOfFuel
  | S fuel' => repeat <-- round inner;; if repeat : bool then rounds inner fuel' else st_ret tt
  end.

(** [true] is [Async::Ready(())]. *)
Definition poll (fuel : nat) : Op bool :=
  addr_cell_poll ;;; read_messages ;;; rounds fuel fuel ;;;
  gets (fun s => chan_done s && bool_decide (length (uploads s) = 0%nat)).

(** [ConnectionSet::spawn], on the outside as it is. *)
Definition spawn (initial_address : list string) : Op unit :=
  cell <-- addr_cell_new initial_address (port config);;
  at_ <-- set_timeout nanos_per_sec;;
  fun s => (Ok tt,
    {| initial_addr := cell; chan := []; chan_done := false; failures := new_default; pending := ∅; active := ∅;
       uploads := []; fetches := []; pending_addrs := ∅; failed_addrs := new_default; addrs := ∅; retry := at_;
       pointers := pointers s; log := log s; tick := tick s |}).
End Set_.

(** ** [Connection]: what a client sends to the set *)

Section Connection.
Context `{AbstractNs}.

(** [_upload], with the clock; [tx] is the new one-shot channel. *)
Definition _upload (now : Z) (cluster_name : list string) (replace weak : bool) (upload : SignedUpload)
    (old_image : option ImageId) (tx : nat) : Message :=
  MNewUpload {| nu_replace := replace; nu_weak := weak; nu_upload := upload; nu_old_image := old_image;
                nu_stats := stats_new now cluster_name (up_path upload) weak; nu_resolve := tx |}.
Definition append now names upload := _upload now names false false upload None.
Definition append_weak now names upload := _upload now names false true upload None.
Definition replace now names upload := _upload now names true false upload None.
Definition replace_if_matches now names upload old_image := _upload now names true false upload (Some old_image).

Definition fetch_index (vpath : VPath) (tx : nat) : Message := MFetchIndex vpath tx.

(** [fetch_file]; [None] is a panic: no such file, an overflow, or a failed
    assertion. *)
Definition fetch_file (idx : MutableIndex) (path : Path.t) (tx : nat) : option Message :=
  file ← get_file path (root idx);
  let '(_, size, hashes) := file in
  if bool_decide (size < usize_max) then
    a ← Index.checked64 (size + mi_block_size idx); b ← Index.checked64 (a - 1);
    if decide (mi_block_size idx = 0) then None
    else if bool_decide (b / mi_block_size idx = Z.of_nat (length hashes)) then
      Some (MFetchFile path (location idx) (Z.to_nat size)
              {| h_block_size := mi_block_size idx; h_hashes := hashes |} tx)
    else None
  else None.

(** The receiving ends: [UploadFuture], [IndexFuture] and [FileFuture]. *)
Inductive UploadErr := UploadFatal (msg : string) | NetworkError (kind : ErrorKind).
Inductive FetchErr := FetchFatal (msg : string).

Definition upload_future_poll (inner : Answer (Res ErrorKind unit)) : Answer (Res UploadErr unit) :=
  match inner with
  | NotReady => NotReady
  | Ready res => Ready (res_map_err NetworkError res)
  | Failed => Ready (Err (UploadFatal "uploader crashed"))
  end.
Definition fetch_future_poll {A} (inner : Answer (Res FetchErr A)) : Answer (Res FetchErr A) :=
  match inner with
  | NotReady => NotReady
  | Ready res => Ready res
  | Failed => Ready (Err (FetchFatal "channel closed unexpectedly"))
  end.
End Connection.
