(* ===== verification/ConnSetInv.v ===== *)
(** * What the connections of a client keep: the invariant of [ConnSet]

    The invariant speaks of the queues of the set and of what a poll has taken
    out of them and holds.  Ghost data say which uploads were ever sent, what
    the files are that are fetched, and how far a poll is. *)
From S2P Require Import Prelude Serde VirtualPath Ids Time Signature Commands Peers Upload Download ConnSet.
Import VPath ImageId SignedUpload.
Local Open Scope Z_scope.

(** ** Rules for loops *)

Section Loops.
Context {S0 E A : Type} (R : E -> S0 -> Prop).

Lemma triple_each (J : S0 -> Prop) (f : A -> ST S0 E unit) l :
  (forall x, x ∈ l -> triple J (f x) (fun _ => J) R) -> triple J (st_each f l) (fun _ => J) R.
Proof.
  induction l as [|x l IH]; intros H; cbn; [by apply triple_ret|].
  eapply (triple_bind (fun _ => J)); [apply H; by left|]. intros []. apply IH. intros y Hy. apply H. by right.
Qed.

Lemma triple_filter (J : S0 -> Prop) (P : A -> Prop) (p : A -> ST S0 E bool) l :
  (forall x, x ∈ l -> triple J (p x) (fun b s => J s /\ (b = true -> P x)) R) ->
  triple J (st_filter p l) (fun r s => J s /\ forall x, x ∈ r -> x ∈ l /\ P x) R.
Proof.
  induction l as [|x l IH]; intros H; cbn; [apply triple_ret; intros s Hs; split; [done|by intros ? ?%not_elem_of_nil]|].
  eapply triple_bind; [apply H; by left|]. intros b. apply triple_at. intros s0 [H0 Hb].
  eapply triple_bind; [eapply triple_conseq; [apply IH; intros y Hy; apply H; by right|by intros s <-|intros r s Hr; exact Hr|done]|].
  intros r. apply triple_ret. intros s [Hs Hr]. split; [done|]. intros y Hy. destruct b; [apply elem_of_cons in Hy as [->|Hy]|].
  - split; [by left|by apply Hb].
  - destruct (Hr y Hy). split; [by right|done].
  - destruct (Hr y Hy). split; [by right|done].
Qed.

(** What holds before and does not change. *)
Lemma triple_keep {B} (J : S0 -> Prop) (m : ST S0 E B) (Q : Prop) : (Q -> triple J m (fun _ => J) R) ->
  triple (fun s => J s /\ Q) m (fun _ s => J s /\ Q) R.
Proof. intros H s [Hs Hq]. specialize (H Hq s Hs). by destruct (m s) as [[]]. Qed.
End Loops.

(** The next call, by its triple; facts beside the state property are dropped. *)
Tactic Notation "tcall" uconstr(lem) :=
  eapply triple_bind; [eapply triple_conseq; [eapply lem|first [done|by intros ? [? _]]|intros ? ? X; exact X|done]|].
Tactic Notation "tlast" uconstr(lem) :=
  eapply triple_conseq; [eapply lem|first [done|by intros ? [? _]]|first [done|by intros ? ? [? _]]|done].

(** ** The invariant *)

Section Invariant.
Context `{AbstractNs} (env : Env) (config : Config).

(** [honest]: what is assumed of the servers for what is said of the content
    of files; [file] is what they have, [want] what a fetch is for. *)
Context (honest : Prop) (file : VPath -> Path.t -> bytes) (want : nat -> bytes).
(** [universe]: what is assumed of addresses for the end of a poll. *)
Context (universe : Prop) (U : gset SocketAddr).

Definition hashes_ok (size : nat) (h : Hashes) : Prop := forall pos, (pos < size)%nat -> is_Some (hash_at h pos).

Definition request_ok (p : Pointer) (f : Fetch) : Prop :=
  match f_req f with
  | FIndex future _ => is_Some future -> is_Some (f_connection f)
  | FFile buf path pos h future tx =>
      (is_Some future -> is_Some (f_connection f)) /\ (pos < length buf)%nat /\ hashes_ok (length buf) h /\
      (forall r g, future = Some (r, g) -> gb_hint g = Some (vpath p, path, Z.of_nat pos)) /\
      (honest -> length buf = length (want tx) /\ file (vpath p) path = want tx /\ take pos buf = take pos (want tx))
  end.
Definition fetch_ok (ps : gmap nat Pointer) (f : Fetch) : Prop := exists p, ps !! f_location f = Some p /\ request_ok p f.

Definition msg_ok (ps : gmap nat Pointer) (m : Message) : Prop :=
  match m with
  | MFetchFile path loc size h tx =>
      exists p, ps !! loc = Some p /\ (0 < size)%nat /\ hashes_ok size h /\
        (honest -> size = length (want tx) /\ file (vpath p) path = want tx)
  | _ => True
  end.

Definition closed_addr (m : Message) : list SocketAddr := match m with MClosed a => [a] | _ => [] end.
Definition msg_upload (m : Message) : list nat := match m with MNewUpload up => [nu_resolve up] | _ => [] end.
Definition done_upload (e : Effect) : list nat := match e with UploadDone tx _ => [tx] | _ => [] end.

(** [hm], [hu], [hf]: messages, uploads and fetches that are held. *)
Record Inv (ids : list nat) (hm : list Message) (hu : list Upload) (hf : list Fetch) (s : ConnectionSet) : Prop := {
  iv_disjoint : forall a, is_Some (pending s !! a) -> active s !! a = None;
  iv_fetches : Forall (fetch_ok (pointers s)) (hf ++ fetches s);
  iv_chan : Forall (msg_ok (pointers s)) (hm ++ chan s);
  iv_closing : NoDup ((hm ++ chan s) ≫= closed_addr);
  iv_closing_active : forall a, a ∈ (hm ++ chan s) ≫= closed_addr -> is_Some (active s !! a);
  iv_ids : ((hm ++ chan s) ≫= msg_upload) ++ map u_resolve (hu ++ uploads s) ++ (log s ≫= done_upload) ≡ₚ ids;
  iv_done : honest -> forall tx data, FileDone tx data ∈ log s -> data = want tx;
  iv_fresh : forall loc, is_Some (pointers s !! loc) -> (loc < tick s)%nat
}.

(** From this tick on nothing is ready and no timer that is set now is over. *)
Definition quiet_from (k : nat) : Prop :=
  forall t, (k <= t)%nat -> (forall c, e_client env t c = NotReady) /\ (forall j, e_resolve env t j = NotReady) /\
    (forall r, e_block env t r = Waiting) /\
    (forall t0, (k <= t0 <= t)%nat -> e_timer env t (e_now env t0 + nanos_per_sec) = false).

(** A segment of a poll: from what tick, and how many connections were being
    made; bounds of what is in the queues and held; the timer of retries; how much
    is left in the queues at least, and what tick it is at least. *)
Record Seg := { g_lo : nat; g_pending : nat; g_uploads : nat; g_fetches : nat; g_retry : Z; g_uq : nat; g_fq : nat; g_at : nat }.

Record Safe (ids : list nat) (g : Seg) (hm : list Message) (hu : list Upload) (hf : list Fetch) (s : ConnectionSet) : Prop := {
  sf_inv : Inv ids hm hu hf s;
  sf_tick : (g_lo g <= tick s)%nat;
  sf_pending : quiet_from (g_lo g) -> (g_pending g <= size (pending s))%nat;
  sf_universe : universe -> dom (pending s) ⊆ U;
  sf_uploads : (length (hu ++ uploads s) <= g_uploads g)%nat;
  sf_fetches : (length (hf ++ fetches s) <= g_fetches g)%nat;
  sf_retry : retry s = g_retry g;
  sf_uq : (g_uq g <= length (uploads s))%nat;
  sf_fq : (g_fq g <= length (fetches s))%nat;
  sf_at : (g_at g <= tick s)%nat
}.

(** The states [s] and [s'] agree on what the invariant is about. *)
Record same (s s' : ConnectionSet) : Prop := {
  sm_pending : pending s' = pending s; sm_active : active s' = active s; sm_chan : chan s' = chan s;
  sm_uploads : uploads s' = uploads s; sm_fetches : fetches s' = fetches s; sm_pointers : pointers s' = pointers s;
  sm_log : log s' = log s; sm_retry : retry s' = retry s; sm_tick : (tick s <= tick s')%nat
}.

Lemma Inv_same ids hm hu hf s s' : same s s' -> Inv ids hm hu hf s -> Inv ids hm hu hf s'.
Proof.
  intros [Hp Ha Hc Hu Hf Hps Hl _ Ht] []. split; rewrite ?Hp, ?Ha, ?Hc, ?Hu, ?Hf, ?Hps, ?Hl; try done.
  intros loc Hloc. specialize (iv_fresh0 loc Hloc). lia.
Qed.

Lemma CSafe_same ids g hm hu hf s s' : same s s' -> Safe ids g hm hu hf s -> Safe ids g hm hu hf s'.
Proof.
  intros Hs [Hi Ht Hp Hn Hu Hf Hr Huq Hfq Hat]. pose proof (Inv_same _ _ _ _ _ _ Hs Hi) as Hi'.
  destruct Hs as [Ep _ _ Eu Ef _ _ Er Et]. split; rewrite ?Ep, ?Eu, ?Ef, ?Er; try done; lia.
Qed.

Definition quiet_effect (e : Effect) : Prop := match e with UploadDone _ _ | FileDone _ _ => False | _ => True end.

Lemma done_quiet l e : done_upload e = [] -> (l ++ [e]) ≫= done_upload = l ≫= done_upload.
Proof. intros He. rewrite bind_app. cbn. by rewrite He, !app_nil_r. Qed.

Lemma CInv_emit ids hm hu hf s e : quiet_effect e -> Inv ids hm hu hf s -> Inv ids hm hu hf (on_log (fun l => l ++ [e]) s).
Proof.
  intros He []. split; cbn; try done.
  - rewrite done_quiet; [done|by destruct e].
  - intros Hh tx data [Hin|<-%list_elem_of_singleton]%elem_of_app; [by apply iv_done0|done].
Qed.

Lemma Safe_inv ids g hm hu hf s s' : Safe ids g hm hu hf s -> Inv ids hm hu hf s' ->
  pending s' = pending s -> uploads s' = uploads s -> fetches s' = fetches s -> retry s' = retry s -> (tick s <= tick s')%nat ->
  Safe ids g hm hu hf s'.
Proof. intros [Hi Ht Hp Hn Hu Hf Hr Huq Hfq Hat] Hi' Ep Eu Ef Er Et. split; rewrite ?Ep, ?Eu, ?Ef, ?Er; try done; lia. Qed.

(** ** Steps that keep the invariant *)

(** The only failure is that of the fuel of [poll_fetch]: too little for a
    poll in which nothing is ready from some tick on. *)
Context (fuel : nat).
Definition spent (e : Stop) (_ : ConnectionSet) : Prop := ~ exists k, quiet_from k /\ (k < fuel)%nat.

Section Steps.
Context (ids : list nat) (g : Seg) (hm : list Message) (hu : list Upload) (hf : list Fetch).
Abbreviation J := (Safe ids g hm hu hf).

Lemma ask_safe {A} (q : nat -> A) : triple J (ask q) (fun a s => J s /\ exists t, (g_lo g <= t < tick s)%nat /\ a = q t) spent.
Proof.
  intros s Hs. cbn. split; [by eapply (CSafe_same _ _ _ _ _ s); [split; cbn; try done; lia|]|].
  exists (tick s). split; [|done]. cbn. pose proof (sf_tick _ _ _ _ _ _ Hs). lia.
Qed.

Lemma gets_safe {A} (P : ConnectionSet -> Prop) (f : ConnectionSet -> A) : triple P (gets f) (fun a s => P s /\ a = f s) spent.
Proof. by intros s Hs. Qed.

Lemma emit_safe e : quiet_effect e -> triple J (emit e) (fun _ => J) spent.
Proof. intros He s Hs. cbn. eapply (Safe_inv _ _ _ _ _ s); [done|by apply CInv_emit, Hs|done..]. Qed.

Lemma modify_safe f : (forall s, same s (f s)) -> triple J (st_modify f) (fun _ => J) spent.
Proof. intros Hf s Hs. cbn. by eapply CSafe_same. Qed.

(** *** Connecting *)

Context (sample_law : forall A t (l : list A) n x, x ∈ e_sample env A t l n -> x ∈ l).
Context (universe_law : universe -> (forall ad n a, a ∈ addresses_at ad n -> a ∈ U) /\ (forall t ad a, e_pick env t ad = Some a -> a ∈ U)).

(** Connections that are open do not change. *)
Definition JA (A : gmap SocketAddr nat) (s : ConnectionSet) : Prop := J s /\ active s = A.

Lemma JA_ask {B} A (q : nat -> B) : triple (JA A) (ask q) (fun a s => JA A s /\ exists t, a = q t) spent.
Proof. intros s [Hs Ha]. destruct (ask_safe q s Hs) as [H' (t & _ & Ht)]. cbn in *. split; [done|by exists t]. Qed.

Lemma JA_sample {B} A (l : list B) n : triple (JA A) (sample env l n) (fun r s => JA A s /\ forall x, x ∈ r -> x ∈ l) spent.
Proof.
  eapply triple_conseq; [apply (JA_ask A)|done| |done]. intros r s [Hs [t ->]]. split; [done|]. intros x. apply sample_law.
Qed.

Lemma JA_lift {B} A (m : ST ConnectionSet Stop B) Q : triple J m (fun a s => J s /\ Q a) spent ->
  (forall s, active (snd (m s)) = active s) -> triple (JA A) m (fun a s => JA A s /\ Q a) spent.
Proof.
  intros Hm Ha s [Hs HA]. specialize (Hm s Hs). specialize (Ha s). destruct (m s) as [[a|e|] s']; cbn in *; [|done..].
  destruct Hm. split; [split; [done|congruence]|done].
Qed.

Lemma can_connect_safe A a : triple (JA A) (can_connect env a) (fun b s => JA A s /\ (b = true -> A !! a = None)) spent.
Proof.
  unfold can_connect. eapply triple_bind; [apply gets_safe|]. intros known. destruct known.
  { apply triple_ret. by intros s [Hs _]. }
  intros s [[Hs Ha] Hk]. symmetry in Hk. apply orb_false_iff in Hk as [_ Hk%bool_decide_eq_false].
  destruct (JA_ask A (e_now env) s (conj Hs Ha)) as [H' _]. cbn in *. split; [done|]. intros _.
  rewrite <- Ha. by apply eq_None_not_Some.
Qed.

Lemma pick_addrs_safe A hosts : triple (JA A) (pick_addrs env hosts) (fun l s => JA A s /\ forall a, a ∈ l -> universe -> a ∈ U) spent.
Proof.
  induction hosts as [|h hosts IH]; cbn; [apply triple_ret; intros s Hs; split; [done|by intros a ?%not_elem_of_nil]|].
  eapply triple_bind; [apply gets_safe|]. intros [ad|]; [|eapply triple_conseq; [apply IH|by intros s [? _]|done|done]].
  eapply triple_bind; [eapply triple_conseq; [apply JA_ask|by intros s [? _]|intros p s Hp; exact Hp|done]|]. intros p. cbn.
  apply triple_at. intros s0 [H0 [t Ht]].
  eapply triple_bind; [eapply triple_conseq; [apply IH|by intros s <-|intros r s Hr; exact Hr|done]|]. intros rest.
  apply triple_ret. intros s [Hs Hr]. split; [done|]. intros a [Ha|Ha]%elem_of_app Hu; [|by apply Hr].
  destruct p as [x|]; cbn in Ha; [|by apply not_elem_of_nil in Ha]. apply list_elem_of_singleton in Ha as ->. by eapply universe_law.
Qed.

Lemma start_resolve_safe A h : triple (JA A) (start_resolve h) (fun _ => JA A) spent.
Proof.
  intros s [Hs Ha]. cbn. split; [|done]. eapply (Safe_inv _ _ _ _ _ s); try done; [|cbn; lia].
  eapply Inv_same; [|apply (CInv_emit _ _ _ _ s (ResolveHost (tick s) h)); [done|apply Hs]]. split; cbn; try done; lia.
Qed.

Lemma resolve_some_safe A hosts n : triple (JA A) (resolve_some env hosts n) (fun _ => JA A) spent.
Proof.
  unfold resolve_some. eapply triple_bind; [apply JA_ask|]. intros l. cbn.
  eapply triple_bind; [eapply triple_conseq; [apply (triple_filter _ _ (fun _ => True)); intros h _|by intros s [? _]|intros r s Hr; exact Hr|done]|].
  { unfold can_resolve. eapply triple_bind; [apply JA_ask|]. intros now. by intros s [Hs _]. }
  intros r. cbn. eapply triple_bind; [eapply triple_conseq; [apply JA_sample|by intros s [? _]|intros x s Hx; exact Hx|done]|].
  intros x. cbn. eapply triple_conseq; [apply triple_each; intros h _; apply start_resolve_safe|by intros s [? _]|done|done].
Qed.

Lemma spawn_conn_safe A a : A !! a = None -> (universe -> a ∈ U) -> triple (JA A) (spawn_conn a) (fun _ => JA A) spent.
Proof.
  intros Hna Hu. unfold spawn_conn. eapply triple_bind; [apply gets_safe|]. intros dup.
  destruct dup; [apply triple_ret; by intros s [? _]|]. intros s [[[Hi Ht Hp Hn Hup Hfe Hr Huq Hfq Hat] Ha] Hd].
  symmetry in Hd. apply bool_decide_eq_false, eq_None_not_Some in Hd. cbn. split; [|done].
  apply (CInv_emit _ _ _ _ _ (Connect (tick s) a)) in Hi as []; [|done]. split; cbn in *; try done; [|lia| | |lia].
  - split; cbn; try done; [|intros loc Hl; specialize (iv_fresh0 loc Hl); lia].
    intros b [c Hb]. destruct (decide (b = a)) as [->|Hne]; [by rewrite Ha|].
    rewrite lookup_insert_ne in Hb by done. eauto.
  - intros Hq. rewrite map_size_insert_None by done. specialize (Hp Hq). lia.
  - intros Hv. rewrite dom_insert_L. specialize (Hn Hv). specialize (Hu Hv). set_solver.
Qed.

Lemma spawn_conns_safe A l : (forall a, a ∈ l -> A !! a = None /\ (universe -> a ∈ U)) ->
  triple (JA A) (st_each spawn_conn l) (fun _ => JA A) spent.
Proof. intros Hl. apply triple_each. intros a Ha. destruct (Hl a Ha). by apply spawn_conn_safe. Qed.

Lemma usable_safe A up a : triple (JA A) (usable env up a) (fun b s => JA A s /\ (b = true -> A !! a = None)) spent.
Proof. unfold usable. destruct (is_rejected _ _); [by apply triple_ret|apply can_connect_safe]. Qed.

Lemma initial_safe A : triple (JA A) (gets initial_addrs) (fun l s => JA A s /\ forall a, a ∈ l -> universe -> a ∈ U) spent.
Proof. intros s Hs. cbn. split; [done|]. intros a Ha Hu. destruct (universe_law Hu) as [Hl _]. by eapply Hl. Qed.

(** Facts that do not speak of the state are taken out of a precondition. *)
Lemma triple_fact {B} (P : ConnectionSet -> Prop) (F : Prop) (m : ST ConnectionSet Stop B) Q R :
  (F -> triple P m Q R) -> triple (fun s => P s /\ F) m Q R.
Proof. intros Hm s [Hs Hf]. by apply Hm. Qed.

Lemma new_conns_safe up : triple J (new_conns_for_upload env config up) (fun _ => J) spent.
Proof.
  intros s Hs. unfold new_conns_for_upload. case_bool_decide; [done|]. case_bool_decide; [done|].
  set (initial := Z.to_nat (initial_connections config)). set (A := active s).
  match goal with |- match ?m s with _ => _ end => enough (Hm : triple (JA A) m (fun _ => J) spent) by (by apply Hm) end.
  unfold in_order. tcall (JA_ask A). intros hosts. cbn. tcall (pick_addrs_safe A). intros picked. cbn.
  apply triple_fact. intros Hp.
  tcall (triple_filter spent (JA A) (fun a => A !! a = None)); [intros a _; apply usable_safe|]. intros found. cbn.
  apply triple_fact. intros Hf. tcall (JA_sample A). intros news. cbn. apply triple_fact. intros Hn.
  eapply (triple_bind (fun more s => JA A s /\ forall a, a ∈ more -> A !! a = None /\ (universe -> a ∈ U))).
  - case_bool_decide; [|apply triple_ret; intros s' Hs'; split; [done|by intros a ?%not_elem_of_nil]].
    tcall (resolve_some_safe A). intros []. tcall (initial_safe A). intros init. cbn. apply triple_fact. intros Hi.
    tcall (triple_filter spent (JA A) (fun a => A !! a = None)).
    { intros a _. cbn. case_bool_decide; [by apply triple_ret|apply usable_safe]. }
    intros found'. cbn. apply triple_fact. intros Hf'. eapply triple_conseq; [apply JA_sample|done| |done].
    intros r s' [Hs' Hr]. split; [done|]. intros a Ha%Hr. destruct (Hf' a Ha). split; [done|]. by apply Hi.
  - intros more. apply triple_fact. intros Hm. eapply triple_conseq; [apply (spawn_conns_safe A)|done|by intros ? ? []|done].
    intros a [Ha|Ha]%elem_of_app; [|by apply Hm]. apply Hn in Ha. destruct (Hf a Ha). split; [done|]. by apply Hp.
Qed.
End Steps.

Section FetchSteps.
Context (ids : list nat) (g : Seg) (hm : list Message) (hu : list Upload) (hf : list Fetch).
Abbreviation J := (Safe ids g hm hu hf).
Abbreviation JA := (JA ids g hm hu hf).
Context (sample_law : forall A t (l : list A) n x, x ∈ e_sample env A t l n -> x ∈ l).
Context (universe_law : universe -> (forall ad n a, a ∈ addresses_at ad n -> a ∈ U) /\ (forall t ad a, e_pick env t ad = Some a -> a ∈ U)).

Lemma held_fetch f s : f ∈ hf -> J s -> fetch_ok (pointers s) f.
Proof.
  intros Hf Hs. pose proof (iv_fetches _ _ _ _ _ (sf_inv _ _ _ _ _ _ Hs)) as Ha. rewrite Forall_forall in Ha.
  apply Ha, elem_of_app. by left.
Qed.

Lemma get_pointer_safe f : f ∈ hf -> triple J (get_pointer (f_location f)) (fun p s => J s /\ pointers s !! f_location f = Some p /\ request_ok p f) spent.
Proof.
  intros Hf s Hs. destruct (held_fetch f s Hf Hs) as (p & Hp & Hr). unfold get_pointer, st_bind, gets. cbn. by rewrite Hp.
Qed.

Lemma try_location_safe A p a : triple (JA A) (can_try_location env p a) (fun _ => JA A) spent.
Proof. unfold can_try_location. tcall JA_ask. intros now. by intros s [Hs _]. Qed.

Lemma st_and_safe A m a : triple (JA A) m (fun _ => JA A) spent ->
  triple (JA A) (st_and m (can_connect env a)) (fun b s => JA A s /\ (b = true -> A !! a = None)) spent /\
  triple (JA A) (st_and (can_connect env a) m) (fun b s => JA A s /\ (b = true -> A !! a = None)) spent.
Proof.
  intros Hm. split; unfold st_and.
  - tcall Hm. intros []; [apply can_connect_safe|by apply triple_ret].
  - tcall can_connect_safe. intros []; cbn; apply triple_fact; intros Hb; [|by apply triple_ret].
    eapply triple_conseq; [apply Hm|done| |done]. intros b s Hs. split; [done|]. intros _. by apply Hb.
Qed.

Lemma new_conn_safe f : f ∈ hf -> triple J (new_conn_for_fetch env f) (fun _ => J) spent.
Proof.
  intros Hf. unfold new_conn_for_fetch. destruct (f_connection f); [by apply triple_ret|].
  tcall (get_pointer_safe f Hf). intros p. cbn. apply triple_at. intros s0 [H0 _]. set (A := active s0).
  match goal with |- triple (eq s0) ?m _ _ => enough (Hm : triple (JA A) m (fun _ => J) spent) by (intros s <-; by apply Hm) end.
  unfold in_order. tcall (JA_ask ids g hm hu hf A). intros hosts. cbn. tcall (pick_addrs_safe ids g hm hu hf universe_law A). intros picked. cbn.
  apply triple_fact. intros Hp.
  tcall (triple_filter spent (JA A) (fun a => A !! a = None)); [intros a _; apply st_and_safe, try_location_safe|].
  intros found. cbn. apply triple_fact. intros Hfo. tcall (JA_sample ids g hm hu hf sample_law A). intros news. cbn. apply triple_fact. intros Hn.
  case_bool_decide; [|apply triple_ret; by intros s []].
  tcall (resolve_some_safe ids g hm hu hf sample_law A). intros []. tcall (initial_safe ids g hm hu hf universe_law A).
  intros init. cbn. apply triple_fact. intros Hi.
  tcall (triple_filter spent (JA A) (fun a => A !! a = None)); [intros a _; apply st_and_safe, try_location_safe|].
  intros found'. cbn. apply triple_fact. intros Hf'. tcall (JA_sample ids g hm hu hf sample_law A). intros news'. cbn. apply triple_fact. intros Hn'.
  eapply triple_conseq; [apply (spawn_conns_safe ids g hm hu hf sample_law universe_law A)|done|by intros ? ? []|done].
  intros a Ha%Hn'. destruct (Hf' a Ha). split; [done|]. by apply Hi.
Qed.
End FetchSteps.

(** *** The queues *)

Definition seg_uq (n : nat) (g : Seg) : Seg :=
  {| g_lo := g_lo g; g_pending := g_pending g; g_uploads := g_uploads g; g_fetches := g_fetches g; g_retry := g_retry g; g_uq := n; g_fq := g_fq g; g_at := g_at g |}.
Definition seg_fq (n : nat) (g : Seg) : Seg :=
  {| g_lo := g_lo g; g_pending := g_pending g; g_uploads := g_uploads g; g_fetches := g_fetches g; g_retry := g_retry g; g_uq := g_uq g; g_fq := n; g_at := g_at g |}.

Lemma Inv_uploads ids hm hu hu' hf s l : hu' ++ l ≡ₚ hu ++ uploads s -> Inv ids hm hu hf s -> Inv ids hm hu' hf (on_uploads (fun _ => l) s).
Proof. intros Hp []. split; cbn; try done. by rewrite <- iv_ids0, Hp. Qed.

Lemma Inv_fetches ids hm hu hf hf' s l : hf' ++ l ≡ₚ hf ++ fetches s -> Inv ids hm hu hf s -> Inv ids hm hu hf' (on_fetches (fun _ => l) s).
Proof. intros Hp []. split; cbn; try done. by rewrite Hp. Qed.

(** [J n held]: at least [n] are left in the queue. *)
Lemma spin_rule {A} queue on_queue (step : A -> ST ConnectionSet Stop (option A)) (J : nat -> list A -> ConnectionSet -> Prop) :
  (forall n s, J (S n) [] s -> exists cur rest, queue s = cur :: rest /\ J n [cur] (on_queue (fun _ => rest) s)) ->
  (forall n cur, triple (J n [cur]) (step cur) (fun r => J n (option_list r)) spent) ->
  (forall n r s, J n (option_list r) s -> J n [] (on_queue (fun l => l ++ option_list r) s)) ->
  forall n, triple (J n []) (spin queue on_queue step n) (fun _ => J 0%nat []) spent.
Proof.
  intros Htake Hstep Hput n. induction n as [|n IH]; cbn [spin]; [by apply triple_ret|]. intros s Hs.
  destruct (Htake n s Hs) as (cur & rest & -> & H1).
  match goal with |- match ?m ?s1 with _ => _ end => enough (Hm : triple (J n [cur]) m (fun _ => J 0%nat []) spent) by apply (Hm s1 H1) end.
  eapply triple_bind; [apply Hstep|]. intros r. cbn.
  eapply (triple_bind (fun _ => J n [])); [|intros []; apply IH]. apply triple_modify. intros s1. apply Hput.
Qed.

Lemma spin_uploads_safe ids hm hf step :
  (forall g cur, triple (Safe ids g hm [cur] hf) (step cur) (fun r => Safe ids g hm (option_list r) hf) spent) ->
  forall g, triple (Safe ids g hm [] hf) (spin_uploads step) (fun _ => Safe ids (seg_uq 0 g) hm [] hf) spent.
Proof.
  intros Hstep g. unfold spin_uploads. eapply triple_bind; [apply gets_safe|]. intros n s [Hs ->].
  refine (spin_rule uploads on_uploads step (fun n held => Safe ids (seg_uq n g) hm held hf) _ _ _ _ s _);
    [|intros n cur; apply Hstep| |by destruct Hs].
  - intros n s1 [Hi Ht Hp Hnn Hu Hf Hr Huq Hfq Hat]. cbn in Huq. destruct (uploads s1) as [|cur rest] eqn:Eu; [cbn in Huq; lia|].
    exists cur, rest. split; [done|]. split; cbn in *; try done; [|lia]. by apply (Inv_uploads ids hm [] [cur]); [rewrite Eu|].
  - intros n r s1 [Hi Ht Hp Hnn Hu Hf Hr Huq Hfq Hat]. split; cbn in *; rewrite ?length_app in *; try done; [|lia..].
    apply (Inv_uploads ids hm (option_list r) [] hf s1 (uploads s1 ++ option_list r)); [cbn; apply Permutation_app_comm|done].
Qed.

Lemma spin_fetches_safe ids hm hu step :
  (forall g cur, triple (Safe ids g hm hu [cur]) (step cur) (fun r => Safe ids g hm hu (option_list r)) spent) ->
  forall g, triple (Safe ids g hm hu []) (spin_fetches step) (fun _ => Safe ids (seg_fq 0 g) hm hu []) spent.
Proof.
  intros Hstep g. unfold spin_fetches. eapply triple_bind; [apply gets_safe|]. intros n s [Hs ->].
  refine (spin_rule fetches on_fetches step (fun n held => Safe ids (seg_fq n g) hm hu held) _ _ _ _ s _);
    [|intros n cur; apply Hstep| |by destruct Hs].
  - intros n s1 [Hi Ht Hp Hnn Hu Hf Hr Huq Hfq Hat]. cbn in Hfq. destruct (fetches s1) as [|cur rest] eqn:Eu; [cbn in Hfq; lia|].
    exists cur, rest. split; [done|]. split; cbn in *; try done; [|lia]. by apply (Inv_fetches ids hm hu [] [cur]); [rewrite Eu|].
  - intros n r s1 [Hi Ht Hp Hnn Hu Hf Hr Huq Hfq Hat]. split; cbn in *; rewrite ?length_app in *; try done; [|lia..].
    apply (Inv_fetches ids hm hu (option_list r) [] s1 (fetches s1 ++ option_list r)); [cbn; apply Permutation_app_comm|done].
Qed.

(** *** Connections and names that are ready *)

(** A segment in which connections may be ready says nothing of how many are
    being made. *)
Definition seg_open (g : Seg) : Seg :=
  {| g_lo := g_lo g; g_pending := 0; g_uploads := g_uploads g; g_fetches := g_fetches g; g_retry := g_retry g; g_uq := g_uq g; g_fq := g_fq g; g_at := g_at g |}.

Section Ready.
Context (ids : list nat) (g : Seg) (hm : list Message) (hu : list Upload) (hf : list Fetch).
Abbreviation J := (Safe ids (seg_open g) hm hu hf).

Lemma forget_pending s a : J s -> J (on_pending (delete a) s).
Proof.
  intros [[] Ht Hp Hn Hu Hf Hr Huq Hfq Hat]. split; cbn in *; try done; [|lia|].
  - split; cbn; try done. intros b. rewrite lookup_delete_is_Some. intros [_ Hb]. by apply iv_disjoint0.
  - intros Hv. rewrite dom_delete_L. specialize (Hn Hv). set_solver.
Qed.

Lemma add_host_failure_safe a : triple J (add_host_failure env a) (fun _ => J) spent.
Proof.
  unfold add_host_failure. tcall ask_safe. intros t0. cbn. tcall ask_safe. intros now. cbn.
  eapply triple_conseq; [apply modify_safe|by intros ? [? _]|done|done]. done.
Qed.

Lemma poll_client_safe e : triple J (poll_client env e) (fun _ => J) spent.
Proof.
  destruct e as [addr c]. unfold poll_client. tcall ask_safe. intros a. cbn.
  destruct a as [|[]|].
  - apply triple_ret. by intros s [? _].
  - intros s [[[] Ht Hp Hn Hu Hf Hr Huq Hfq Hat] _]. cbn. split; cbn in *; try done; [|lia|].
    + split; cbn; try done.
      * intros b. rewrite lookup_delete_is_Some. intros [Hne Hb]. rewrite lookup_insert_ne by done. by apply iv_disjoint0.
      * intros b Hb. destruct (decide (b = addr)) as [->|Hne]; [by rewrite lookup_insert_eq|]. rewrite lookup_insert_ne by done. auto.
    + intros Hv. rewrite dom_delete_L. specialize (Hn Hv). set_solver.
  - tcall add_host_failure_safe. intros []. apply triple_modify. intros s. apply forget_pending.
Qed.

Lemma poll_name_safe e : triple J (poll_name env config e) (fun _ => J) spent.
Proof.
  destruct e as [name job]. unfold poll_name. tcall ask_safe. intros a. cbn. destruct a as [|ips|].
  - apply triple_ret. by intros s [? _].
  - tcall modify_safe; [done|]. intros []. by apply modify_safe.
  - tcall ask_safe. intros t0. cbn. tcall ask_safe. intros now. cbn. tcall modify_safe; [done|]. intros []. by apply modify_safe.
Qed.

Lemma poll_pending_safe : triple J (poll_pending env config) (fun _ => J) spent.
Proof.
  unfold poll_pending. tcall gets_safe. intros l. cbn. tcall ask_safe. intros l'. cbn.
  tcall triple_each; [intros e _; apply poll_client_safe|]. intros []. tcall gets_safe. intros k. cbn. tcall ask_safe. intros k'. cbn.
  tlast triple_each. intros e _. apply poll_name_safe.
Qed.
End Ready.

(** *** Requests *)

Lemma triple_update {A} (I : ConnectionSet -> Prop) (P : A -> A -> Prop) f l :
  (forall x, x ∈ l -> triple I (f x) (fun y s => I s /\ P x y) spent) ->
  triple I (st_update f l) (fun l' s => I s /\ Forall2 P l l') spent.
Proof.
  induction l as [|x l IH]; intros Hf; cbn; [apply triple_ret; by constructor|].
  eapply triple_bind; [apply Hf; by left|]. intros y. cbn. apply triple_fact. intros Hxy.
  tcall IH; [intros z Hz; apply Hf; by right|]. intros l'. cbn. apply triple_fact. intros Hl. apply triple_ret. intros s Hs. split; [done|by constructor].
Qed.

Section Wake.
Context (ids : list nat) (g : Seg) (hm : list Message).
Abbreviation J := (Safe ids g hm [] []).

(** The queues and the locations are as they were. *)
Definition JZ (us : list Upload) (fs : list Fetch) (ps : gmap nat Pointer) (s : ConnectionSet) : Prop :=
  J s /\ uploads s = us /\ fetches s = fs /\ pointers s = ps.

Lemma JZ_ask {A} us fs ps (q : nat -> A) : triple (JZ us fs ps) (ask q) (fun _ => JZ us fs ps) spent.
Proof. intros s [Hs Hz]. destruct (ask_safe ids g hm [] [] q s Hs) as [H' _]. by split. Qed.

Lemma JZ_send us fs ps conn r : triple (JZ us fs ps) (send conn r) (fun _ => JZ us fs ps) spent.
Proof.
  unfold send. tcall JZ_ask. intros req. eapply (triple_bind (fun _ => JZ us fs ps)); [|intros []; by apply triple_ret].
  intros s [Hs Hz]. split; [|done]. by apply (emit_safe ids g hm [] [] (SendRequest req conn r) I s).
Qed.

Lemma active_hosts_safe us fs ps : triple (JZ us fs ps) (active_hosts env) (fun _ => JZ us fs ps) spent.
Proof. unfold active_hosts. tcall gets_safe. intros l. tlast JZ_ask. Qed.

Lemma wake_upload_safe us fs ps hosts : forall up,
  triple (JZ us fs ps) (wake_upload hosts up) (fun up' s => JZ us fs ps s /\ u_resolve up' = u_resolve up) spent.
Proof.
  induction hosts as [|[addr conn] hosts IH]; intros up; cbn; [by apply triple_ret|].
  destruct (bool_decide _ && negb _); [|apply IH].
  eapply (triple_bind (fun _ => JZ us fs ps)).
  { intros s [Hs Hz]. split; [|done]. by apply (emit_safe ids g hm [] [] (SendNotification conn _) I s). }
  intros []. eapply (triple_bind (fun _ => JZ us fs ps)).
  { unfold upload_request. destruct (u_replace up); (tcall JZ_send; intros req; by apply triple_ret). }
  intros fut. eapply triple_conseq; [apply IH|done| |done]. done.
Qed.

Lemma Inv_wake_uploads hu hf s us : map u_resolve us = map u_resolve (uploads s) -> Inv ids hm hu hf s -> Inv ids hm hu hf (on_uploads (fun _ => us) s).
Proof. intros Hm []. split; cbn; try done. by rewrite map_app, Hm, <- map_app. Qed.

Lemma wakeup_uploads_safe : triple J (wakeup_uploads env config) (fun _ => J) spent.
Proof.
  unfold wakeup_uploads. apply triple_at. intros s0 H0.
  eapply (triple_bind (fun us s => JZ us (fetches s0) (pointers s0) s)); [by intros s <-|]. intros us.
  tcall (triple_update (JZ us (fetches s0) (pointers s0)) (fun up up' => u_resolve up' = u_resolve up)).
  { intros up _. cbn. case_bool_decide; [|by apply triple_ret]. tcall active_hosts_safe. intros hosts. apply wake_upload_safe. }
  intros us'. cbn. apply triple_fact. intros Hus. apply triple_modify. intros s [[Hi Ht Hp Hn Hu Hf Hr Huq Hfq Hat] (<- & _)].
  pose proof (Forall2_length _ _ _ Hus) as Hlen. split; cbn in *; try done; [|lia..]. apply Inv_wake_uploads; [|done].
  clear -Hus. induction Hus as [|x y l l' Hxy _ IH]; cbn; [done|]. by rewrite Hxy, IH.
Qed.

Lemma fetch_request_safe us fs ps conn p f :
  request_ok p f ->
  triple (JZ us fs ps) (fetch_request conn p (f_req f))
    (fun r s => JZ us fs ps s /\ forall a, request_ok p {| f_location := f_location f; f_connection := Some (a, conn); f_req := r |}) spent.
Proof.
  intros Hr. destruct f as [loc c [fut tx|buf path pos h fut tx]]; unfold request_ok in Hr; cbn in *.
  - tcall JZ_send. intros req. apply triple_ret. intros s Hs. split; [done|]. by intros a _; cbn.
  - destruct Hr as (_ & Hpos & Hh & _ & Hhon). destruct (Hh pos Hpos) as [b Hb]. unfold block_request. rewrite Hb.
    eapply (triple_bind (fun rg s => JZ us fs ps s /\ gb_hint (snd rg) = Some (vpath p, path, Z.of_nat pos))).
    { eapply (triple_bind (fun x s => JZ us fs ps s /\ x = b)); [by intros s Hs|]. intros x. apply triple_fact. intros ->.
      tcall JZ_send. intros req. by apply triple_ret. }
    intros [r gg]. cbn. apply triple_fact. intros Hg. apply triple_ret. intros s Hs. split; [done|]. intros a. unfold request_ok. cbn.
    split_and!; try done. by intros r' g' [= <- <-].
Qed.

Lemma wake_fetch_safe us fs ps p hosts : forall f, request_ok p f -> ps !! f_location f = Some p ->
  triple (JZ us fs ps) (wake_fetch env p hosts f) (fun f' s => JZ us fs ps s /\ fetch_ok ps f') spent.
Proof.
  induction hosts as [|[addr conn] hosts IH]; intros f Hf Hp; cbn; [apply triple_ret; intros s Hs; split; [done|by exists p]|].
  unfold can_try_location. eapply (triple_bind (fun _ => JZ us fs ps)); [tcall JZ_ask; intros now; by apply triple_ret|].
  intros ok. destruct ok; [|by apply IH]. tcall fetch_request_safe; [exact Hf|]. intros r. cbn. apply triple_fact. intros Hr. by apply IH.
Qed.

Lemma wakeup_fetches_safe : triple J (wakeup_fetches env) (fun _ => J) spent.
Proof.
  unfold wakeup_fetches. apply triple_at. intros s0 H0.
  eapply (triple_bind (fun fs s => JZ (uploads s0) fs (pointers s0) s)); [by intros s <-|]. intros fs. apply triple_at. intros s1 H1.
  assert (Hok : Forall (fetch_ok (pointers s0)) fs).
  { destruct H1 as (Hs1 & _ & <- & <-). apply (iv_fetches _ _ _ _ _ (sf_inv _ _ _ _ _ _ Hs1)). }
  rewrite Forall_forall in Hok.
  eapply (triple_conseq (JZ (uploads s0) fs (pointers s0))); [|by intros s <-|intros ? ? X; exact X|intros ? ? X; exact X].
  tcall (triple_update (JZ (uploads s0) fs (pointers s0)) (fun _ f' => fetch_ok (pointers s0) f')).
  { intros f Hin. cbn. destruct (f_connection f) eqn:Ec; [apply triple_ret; intros s Hs; split; [done|by apply Hok]|].
    destruct (Hok f Hin) as (p & Hp & Hr). unfold get_pointer.
    eapply (triple_bind (fun q s => JZ (uploads s0) fs (pointers s0) s /\ q = p)).
    { intros s (Hs & Hu & Hf & Hps). unfold st_bind, gets. cbn. rewrite Hps, Hp. cbn. split; [|done]. by split_and!. }
    intros q. apply triple_fact. intros ->. tcall active_hosts_safe. intros hosts. by apply wake_fetch_safe. }
  intros fs'. cbn. apply triple_fact. intros Hfs. apply triple_modify. intros s [[[] Ht Hp Hn Hu Hf Hr Huq Hfq Hat] (Hus & Hfe & Hps)].
  pose proof (Forall2_length _ _ _ Hfs) as Hlen. split; cbn in *; try done; [|rewrite Hfe in *; lia..]. split; cbn; try done.
  rewrite Hps. apply Forall_forall. intros f' (i & Hi)%list_elem_of_lookup. destruct (Forall2_lookup_r _ _ _ _ _ Hfs Hi) as (f & _ & Hf'). done.
Qed.
End Wake.

(** *** Uploads *)

Section PollUpload.
Context (ids : list nat) (g : Seg) (hm : list Message) (up0 : Upload).
Abbreviation J := (Safe ids g hm [up0] []).

Lemma add_failure_safe a : triple J (add_host_failure env a) (fun _ => J) spent.
Proof.
  unfold add_host_failure. tcall ask_safe. intros t0. cbn. tcall ask_safe. intros now. cbn. tlast modify_safe. done.
Qed.

Lemma upload_failed_safe a e up : triple J (upload_failed env a e up) (fun up' s => J s /\ u_resolve up' = u_resolve up) spent.
Proof.
  unfold upload_failed. destruct e; [eapply (triple_bind (fun _ => J)); [by apply triple_ret|]|tcall add_failure_safe];
    intros []; by apply triple_ret.
Qed.

Lemma upload_answered_resolve a ok r h up : u_resolve (upload_answered a ok r h up) = u_resolve up.
Proof. unfold upload_answered. by destruct (add_response a ok r h (u_stats up)). Qed.

Lemma poll_rfutures_safe l : forall up, triple J (poll_rfutures env l up) (fun up' s => J s /\ u_resolve up' = u_resolve up) spent.
Proof.
  induction l as [|[addr c] l IH]; intros up; cbn [poll_rfutures]; [by apply triple_ret|].
  eapply (triple_bind (fun up' s => J s /\ u_resolve up' = u_resolve up)).
  - unfold poll_rfuture. destruct c; (tcall ask_safe; intros a; cbn; destruct a as [|resp|e];
      [by apply triple_ret; intros s [? _]|apply triple_ret; intros s [? _]; by rewrite upload_answered_resolve|tlast upload_failed_safe; done]).
  - intros up'. apply triple_fact. intros E. eapply triple_conseq; [apply IH|done| |done]. cbn. intros a s [? ->]. done.
Qed.

Lemma done_upload_snoc l tx r : (l ++ [UploadDone tx r]) ≫= done_upload = (l ≫= done_upload) ++ [tx].
Proof. by rewrite bind_app. Qed.

Lemma upload_over tx r : tx = u_resolve up0 -> triple J (emit (UploadDone tx r)) (fun _ => Safe ids g hm [] []) spent.
Proof.
  intros -> s [[] Ht Hp Hn Hu Hf Hr Huq Hfq Hat]. cbn. split; cbn in *; try done; [|lia]. split; cbn; try done.
  - rewrite done_upload_snoc, <- iv_ids0. apply Permutation_app_head. by rewrite app_assoc, <- Permutation_cons_append.
  - intros Hh tx data [Hin|[=]%list_elem_of_singleton]%elem_of_app. by apply iv_done0.
Qed.
End PollUpload.

Lemma poll_upload_safe ids g hm up :
  triple (Safe ids g hm [up] []) (poll_upload env config up) (fun r => Safe ids g hm (option_list r) []) spent.
Proof.
  unfold poll_upload. tcall ask_safe. intros l. cbn. tcall poll_rfutures_safe. intros up'. cbn. apply triple_fact. intros E.
  assert (Hkeep : forall s, Safe ids g hm [up] [] s -> Safe ids g hm [up'] [] s).
  { intros s [[] Ht Hp Hn Hu Hf Hr Huq Hfq Hat]. split; cbn in *; try done. split; cbn in *; try done. by rewrite E. }
  tcall (ask_safe ids g hm [up] []). intros early. cbn. eapply (triple_bind (fun _ => Safe ids g hm [up] [])).
  { destruct (bool_decide _ && _); [|by apply triple_ret; intros s [? _]]. by intros s [? _]. }
  intros [r|]; [eapply (triple_bind (fun _ => Safe ids g hm [] [])); [by apply upload_over|intros []; by apply triple_ret]|].
  tcall (ask_safe ids g hm [up] []). intros late. cbn. destruct late; [|apply triple_ret; intros s [Hs _]; by apply Hkeep].
  eapply (triple_bind (fun _ => Safe ids g hm [up] [])); [by intros s [? _]|]. intros v.
  eapply (triple_bind (fun _ => Safe ids g hm [] [])); [by apply upload_over|intros []; by apply triple_ret].
Qed.

(** *** Fetches *)

Section PollFetch.
Context (ids : list nat) (g : Seg) (hm : list Message).
Abbreviation J f := (Safe ids g hm [] [f]).
Definition no_future (r : FRequest) : FRequest :=
  match r with FIndex _ tx => FIndex None tx | FFile buf path pos h _ tx => FFile buf path pos h None tx end.

Lemma Safe_held f f' s : J f s -> (fetch_ok (pointers s) f -> fetch_ok (pointers s) f') -> J f' s.
Proof. intros [[] Ht Hp Hn Hu Hf Hr Huq Hfq Hat] Hok. split; try done. split; try done. cbn in *. inversion iv_fetches0; subst. constructor; auto. Qed.

Lemma request_ok_vpath p p' f : vpath p' = vpath p -> request_ok p f -> request_ok p' f.
Proof. unfold request_ok. by intros ->. Qed.

Lemma Safe_pointer f s loc p p' : J f s -> pointers s !! loc = Some p -> vpath p' = vpath p -> J f (on_pointers (<[loc := p']>) s).
Proof.
  intros [[] Ht Hp Hn Hu Hf Hr Huq Hfq Hat] Hl Hv. split; cbn in *; try done. split; cbn; try done.
  - eapply Forall_impl; [exact iv_fetches0|]. intros x (q & Hq & Hok). unfold fetch_ok.
    destruct (decide (f_location x = loc)) as [E|Hne]; [|exists q; by rewrite lookup_insert_ne].
    exists p'. rewrite E in *. rewrite lookup_insert_eq. split; [done|]. rewrite Hl in Hq. injection Hq as <-. by eapply request_ok_vpath.
  - eapply Forall_impl; [exact iv_chan0|]. intros [|path|path lc size h tx|a n|a]; cbn; try done. intros (q & Hq & Hok).
    destruct (decide (lc = loc)) as [->|Hne]; [|exists q; by rewrite lookup_insert_ne].
    exists p'. rewrite lookup_insert_eq. split; [done|]. rewrite Hl in Hq. injection Hq as <-. by rewrite Hv.
  - intros l'. rewrite lookup_insert_is_Some'. intros [<-|Hl']; [|by apply iv_fresh0]. apply iv_fresh0. by eexists.
Qed.

Lemma held_pointer f s : J f s -> exists p, pointers s !! f_location f = Some p /\ request_ok p f.
Proof. intros Hs. pose proof (iv_fetches _ _ _ _ _ (sf_inv _ _ _ _ _ _ Hs)) as Ha. by inversion Ha. Qed.

Lemma get_held f : triple (J f) (get_pointer (f_location f)) (fun p s => J f s /\ pointers s !! f_location f = Some p /\ request_ok p f) spent.
Proof. intros s Hs. destruct (held_pointer f s Hs) as (p & Hp & Hr). unfold get_pointer, st_bind, gets. cbn. by rewrite Hp. Qed.

Lemma fail_location_safe f a : triple (J f) (fail_location env (f_location f) a) (fun _ => J f) spent.
Proof.
  unfold fail_location. eapply triple_bind; [apply get_held|]. intros p. cbn.
  intros s (Hs & Hp & _). destruct (ask_safe ids g hm [] [f] (e_now env) s Hs) as [H1 _].
  destruct (ask_safe ids g hm [] [f] (e_now env) _ H1) as [H2 _]. cbn in *. by eapply (Safe_pointer f _ _ p).
Qed.

Lemma extend_location_safe f hosts : triple (J f) (extend_location (f_location f) hosts) (fun _ => J f) spent.
Proof.
  unfold extend_location. eapply triple_bind; [apply get_held|]. intros p. cbn. intros s (Hs & Hp & _). cbn. by eapply (Safe_pointer f _ _ p).
Qed.

Lemma take_connection_safe r f :
  triple (J (with_req r f)) (take_connection env f) (fun f' => J (with_req (no_future r) f')) spent.
Proof.
  unfold take_connection. eapply (triple_bind (fun _ => J (with_req r f))).
  - destruct (f_connection f) as [[a c]|]; [apply (fail_location_safe (with_req r f))|by apply triple_ret].
  - intros []. apply triple_ret. intros s Hs. eapply Safe_held; [exact Hs|]. intros (p & Hp & Hok). exists p. split; [done|].
    unfold request_ok in *. destruct r; cbn in *; [by intros [? ?]|]. destruct Hok as (_ & Hpos & Hh & _ & Hhon). split_and!; try done.
Qed.

Lemma poll_opt_safe {F A} f (q : nat -> F -> Reply A) fut :
  triple (J f) (poll_opt q fut)
    (fun a s => J f s /\ (a <> Waiting -> exists x t, fut = Some x /\ a = q t x /\ (g_lo g <= t < tick s)%nat)) spent.
Proof.
  unfold poll_opt. destruct fut as [x|].
  - intros s Hs. destruct (ask_safe ids g hm [] [f] (fun t => q t x) s Hs) as [H1 (t & Ht & E)]. cbn in *. split; [done|].
    intros _. by exists x, t.
  - apply triple_ret. intros s Hs. by split.
Qed.

Lemma poll_fetch_index_safe f fut tx :
  triple (J (with_req (FIndex fut tx) f)) (poll_fetch_index env (with_req (FIndex fut tx) f) fut tx)
    (fun r => Safe ids g hm [] (option_list r)) spent.
Proof.
  unfold poll_fetch_index. tcall poll_opt_safe. intros a. cbn. set (f0 := with_req (FIndex fut tx) f).
  assert (Htake : triple (J f0) (take_connection env f0) (fun f' => J (with_req (FIndex None tx) f')) spent)
    by exact (take_connection_safe (FIndex fut tx) f0).
  destruct a as [|d|e]; [by apply triple_ret; intros s [? _]| |].
  - destruct (giar_data d) as [data|].
    + eapply (triple_bind (fun _ => Safe ids g hm [] [])); [|intros []; by apply triple_ret].
      intros s [Hs _]. cbn. apply (emit_safe ids g hm [] [f0] (IndexDone tx {| ri_data := data; ri_location := f_location f0 |}) I) in Hs. cbn in Hs.
      destruct Hs as [[] Ht Hp Hn Hu Hf Hr Huq Hfq Hat]. split; cbn in *; try done; [|lia]. split; cbn in *; try done. by inversion iv_fetches0.
    + tcall Htake. intros f'. tcall (extend_location_safe (with_req (FIndex None tx) f')). intros []. by apply triple_ret.
  - tcall Htake. intros f'. by apply triple_ret.
Qed.

Definition file_req buf path pos h fut tx (f : Fetch) : Fetch := with_req (FFile buf path pos h fut tx) f.

Lemma splice_length buf pos data : (pos + length data <= length buf)%nat -> length (splice buf pos data) = length buf.
Proof. intros Hl. unfold splice. rewrite !length_app, length_take, length_drop. lia. Qed.

Lemma splice_take buf pos data : (pos + length data <= length buf)%nat ->
  take (pos + length data) (splice buf pos data) = take pos buf ++ data.
Proof.
  intros Hl. unfold splice. rewrite app_assoc, take_app_length'; [done|]. rewrite length_app, length_take. lia.
Qed.

(** An honest answer adds to what the file has so far. *)
Lemma splice_prefix buf pos data c : (pos + length data <= length buf)%nat -> length buf = length c ->
  take pos buf = take pos c -> data `prefix_of` drop pos c -> take (pos + length data) (splice buf pos data) = take (pos + length data) c.
Proof.
  intros Hl Hc Ht [rest Hd]. rewrite splice_take, Ht by done. rewrite <- (take_drop pos c) at 2.
  rewrite take_app_ge by (rewrite length_take; lia). f_equal. rewrite Hd, take_app_le by (rewrite length_take; lia).
  rewrite length_take. symmetry. apply take_ge. lia.
Qed.

End PollFetch.

Definition seg_at (n : nat) (g : Seg) : Seg :=
  {| g_lo := g_lo g; g_pending := g_pending g; g_uploads := g_uploads g; g_fetches := g_fetches g; g_retry := g_retry g;
     g_uq := g_uq g; g_fq := g_fq g; g_at := n |}.

Lemma Safe_at ids g n hm hu hf s : (n <= tick s)%nat -> Safe ids g hm hu hf s -> Safe ids (seg_at n g) hm hu hf s.
Proof. by intros Hn []. Qed.

Lemma Safe_at_inv ids g n hm hu hf s : (g_at g <= n)%nat -> Safe ids (seg_at n g) hm hu hf s -> Safe ids g hm hu hf s.
Proof. intros Hn []. split; try done. cbn in *. lia. Qed.

Section PollFile.
Context (ids : list nat) (hm : list Message).
Context (honest_law : honest -> forall t r q d v p pos, e_block env t (r, q) = Replied d -> gb_hint q = Some (v, p, pos) ->
  gbr_data d `prefix_of` drop (Z.to_nat pos) (file v p)).
Abbreviation J g f := (Safe ids g hm [] [f]).

(** Enough fuel for the answers that may come before it is quiet. *)
Definition fuelled (fu n : nat) : Prop := forall k, quiet_from k -> (k < fuel)%nat -> (1 + (k - n) <= fu)%nat.

(** The block after the one that came. *)
Lemma next_block g f buf path pos h r q tx d s (Hs : J g (file_req buf path pos h (Some (r, q)) tx f) s) t :
  e_block env t (r, q) = Replied d -> (pos + length (gbr_data d) <= length buf)%nat ->
  exists conn p, f_connection f = Some conn /\ pointers s !! f_location f = Some p /\
    let buf' := splice buf pos (gbr_data d) in
    let end_ := (pos + length (gbr_data d))%nat in
    length buf' = length buf /\ hashes_ok (length buf') h /\
    (honest -> length buf' = length (want tx) /\ file (vpath p) path = want tx /\ take end_ buf' = take end_ (want tx)).
Proof.
  intros Hd Hl. destruct (held_pointer ids g hm _ s Hs) as (p & Hp & Hc & Hpos & Hh & Hg & Hhon). cbn in Hc, Hp.
  destruct (Hc ltac:(by eexists)) as [conn Hconn]. exists conn, p. cbn zeta. rewrite splice_length by done. split_and!; [done..|].
  intros Hho. destruct (Hhon Hho) as (H1 & H2 & H3). split_and!; [done..|].
  apply splice_prefix; [done..|]. specialize (honest_law Hho _ _ _ _ _ _ _ Hd (Hg r q eq_refl)).
  by rewrite Nat2Z.id, H2 in honest_law.
Qed.

Lemma file_done g f buf path pos h fut tx data s : J g (file_req buf path pos h fut tx f) s -> (honest -> data = want tx) ->
  Safe ids g hm [] [] (on_log (fun l => l ++ [FileDone tx data]) s).
Proof.
  intros [[] Ht Hp Hn Hu Hf Hr Huq Hfq Hat] Hd. split; cbn in *; try done; [|lia]. split; cbn in *; try done.
  - by inversion iv_fetches0.
  - by rewrite done_quiet.
  - intros Hh tx' data' [Hin|[= -> ->]%list_elem_of_singleton]%elem_of_app; [by apply iv_done0|auto].
Qed.

Lemma poll_fetch_file_safe fu : forall g f buf path pos h fut tx, fuelled fu (g_at g) ->
  triple (J g (file_req buf path pos h fut tx f)) (poll_fetch_file env fu f buf path pos h fut tx)
    (fun r => Safe ids g hm [] (option_list r)) spent.
Proof.
  induction fu as [|fu IH]; intros g f buf path pos h fut tx Hfu; cbn [poll_fetch_file].
  { apply triple_err. intros s _ (k & Hq & Hk). specialize (Hfu k Hq Hk). lia. }
  destruct fut as [[r q]|]; [|by apply triple_ret]. intros s Hs. unfold poll_opt, st_bind at 1, ask at 1.
  set (g' := seg_at (S (tick s)) g). assert (Hg : (g_at g <= S (tick s))%nat) by (pose proof (sf_at _ _ _ _ _ _ Hs); lia).
  assert (H1 : J g' (file_req buf path pos h (Some (r, q)) tx f) (next_tick s)).
  { apply Safe_at; [done|]. by apply (ask_safe ids g hm [] _ (fun t => t) s). }
  assert (Hfu' : e_block env (tick s) (r, q) <> Waiting -> fuelled fu (g_at g')).
  { intros Hne k Hq Hk. specialize (Hfu k Hq Hk). pose proof (sf_at _ _ _ _ _ _ Hs). cbn.
    destruct (decide (k <= tick s)%nat) as [Hle|]; [|lia]. destruct (Hq _ Hle) as (_ & _ & Hb & _). by rewrite Hb in Hne. }
  assert (Hback : forall m : ST ConnectionSet Stop (option Fetch), triple (J g' (file_req buf path pos h (Some (r, q)) tx f)) m
    (fun r => Safe ids g' hm [] (option_list r)) spent -> match m (next_tick s) with
    | (Ok a, s') => Safe ids g hm [] (option_list a) s' | (Err e, s') => spent e s' | (Panic, _) => False end).
  { intros m Hm. specialize (Hm _ H1). destruct (m (next_tick s)) as [[]]; try done. by eapply Safe_at_inv. }
  assert (Htake : e_block env (tick s) (r, q) <> Waiting ->
    triple (J g' (file_req buf path pos h (Some (r, q)) tx f)) (f' <-- take_connection env f;; poll_fetch_file env fu f' buf path pos h None tx)%st
      (fun r => Safe ids g' hm [] (option_list r)) spent).
  { intros Hne. tcall (take_connection_safe ids g' hm (FFile buf path pos h (Some (r, q)) tx) f). intros f'. by apply IH, Hfu'. }
  destruct (e_block env (tick s) (r, q)) as [|d|e] eqn:Eb.
  - by eapply Safe_at_inv.
  - case_bool_decide as Hlen; [by apply Hback, Htake|]. apply Hback. intros s1 Hs1.
    destruct (next_block g' f buf path pos h r q tx d s1 Hs1 (tick s) Eb ltac:(lia)) as (conn & p & Hc & Hp & Hbl & Hh & Hhon).
    cbn in Hbl, Hh, Hhon. case_bool_decide as Hend.
    + cbn. eapply (file_done g'); [exact Hs1|]. intros Hho. destruct (Hhon Hho) as (E1 & _ & E2).
      rewrite !take_ge in E2 by lia. done.
    + destruct (Hh (pos + length (gbr_data d))%nat) as [hash Hhash]; [lia|].
      unfold st_bind, st_lift, expect, get_pointer, gets, block_request. rewrite Hc. cbn. rewrite Hp. cbn. rewrite Hhash. cbn.
      apply (IH g' f _ path _ h (Some (_, _)) tx); [by apply Hfu'|].
      eapply Safe_held; [eapply (emit_safe ids g' hm [] _ (SendRequest _ _ _) I), (ask_safe ids g' hm [] _ (fun t => t)), Hs1|].
      intros (p' & Hp' & _). cbn in Hp'. exists p. split; [done|]. unfold request_ok. cbn. split_and!; try done; [lia|].
      by intros r' q' [= <- <-].
  - by apply Hback, Htake.
Qed.
End PollFile.

(** ** A round *)

Section Round.
Context (ids : list nat).
Context (sample_law : forall A t (l : list A) n x, x ∈ e_sample env A t l n -> x ∈ l).
Context (universe_law : universe -> (forall ad n a, a ∈ addresses_at ad n -> a ∈ U) /\ (forall t ad a, e_pick env t ad = Some a -> a ∈ U)).
Context (honest_law : honest -> forall t r q d v p pos, e_block env t (r, q) = Replied d -> gb_hint q = Some (v, p, pos) ->
  gbr_data d `prefix_of` drop (Z.to_nat pos) (file v p)).

Lemma drop_held g hm f s : Safe ids g hm [] [f] s -> Safe ids g hm [] [] s.
Proof.
  intros [[] Ht Hp Hn Hu Hf Hr Huq Hfq Hat]. split; cbn in *; try done; [|lia]. split; try done. by inversion iv_fetches0.
Qed.

Lemma poll_fetch_safe g hm f : triple (Safe ids g hm [] [f]) (poll_fetch env fuel f) (fun r => Safe ids g hm [] (option_list r)) spent.
Proof.
  unfold poll_fetch. eapply (triple_bind (fun r => Safe ids g hm [] (option_list r))).
  - destruct f as [loc c [fut tx|buf path pos h fut tx]]; cbn [f_req].
    + exact (poll_fetch_index_safe ids g hm {| f_location := loc; f_connection := c; f_req := FIndex fut tx |} fut tx).
    + apply (poll_fetch_file_safe ids hm honest_law fuel g {| f_location := loc; f_connection := c; f_req := FFile buf path pos h fut tx |}).
      intros k _ Hk. lia.
  - intros [f'|]; [|by apply triple_ret]. tcall ask_safe. intros gone. cbn. apply triple_ret. intros s [Hs _].
    destruct gone; [by eapply drop_held|done].
Qed.

(** Between the phases of a round: how much can still happen after the tick
    [lo] is at most [n - d]; [m] bounds it at any time. *)
Definition left (s : ConnectionSet) : nat := (size U - size (pending s)) + length (uploads s) + length (fetches s).
Definition top (s : ConnectionSet) : nat := size U + length (uploads s) + length (fetches s).
Definition Good (s : ConnectionSet) : Prop := Inv ids [] [] [] s /\ (universe -> dom (pending s) ⊆ U).
Record K (lo w n d m : nat) (r : Z) (s : ConnectionSet) : Prop := {
  k_good : Good s;
  k_tick : (lo <= tick s)%nat;
  k_at : (w <= tick s)%nat;
  k_left : quiet_from lo -> universe -> (left s + d <= n)%nat;
  k_top : (top s <= m)%nat;
  k_retry : retry s = r
}.

Definition seg (lo : nat) (s : ConnectionSet) : Seg :=
  {| g_lo := lo; g_pending := size (pending s); g_uploads := length (uploads s); g_fetches := length (fetches s);
     g_retry := retry s; g_uq := 0; g_fq := 0; g_at := tick s |}.

Lemma Good_seg lo s : Good s -> (lo <= tick s)%nat -> Safe ids (seg lo s) [] [] [] s.
Proof. intros [Hi Hu] Ht. split; cbn; try done; lia. Qed.

(** A phase that keeps [Safe] in any segment. *)
Definition calm {A} (p : ST ConnectionSet Stop A) : Prop :=
  forall lo s, triple (Safe ids (seg lo s) [] [] []) p (fun _ => Safe ids (seg lo s) [] [] []) spent.

Lemma Safe_left lo s s' : Safe ids (seg lo s) [] [] [] s' ->
  Good s' /\ (lo <= tick s')%nat /\ (tick s <= tick s')%nat /\ (quiet_from lo -> (size (pending s) <= size (pending s'))%nat) /\
  (length (uploads s') <= length (uploads s))%nat /\ (length (fetches s') <= length (fetches s))%nat /\ retry s' = retry s.
Proof. intros [Hi Ht Hp Hn Hu Hf Hr Huq Hfq Hat]. by split_and!. Qed.

Lemma calm_K {A} (p : ST ConnectionSet Stop A) lo w n d m r : calm p -> triple (K lo w n d m r) p (fun _ => K lo w n d m r) spent.
Proof.
  intros Hc s [Hg Ht Hw Hl Hm Hr]. specialize (Hc lo s s (Good_seg lo s Hg Ht)). destruct (p s) as [[a|e|] s']; [|done..].
  destruct (Safe_left _ _ _ Hc) as (Hg' & Ht' & Hw' & Hp & Hu & Hf & Er). split; try done; [lia| |unfold top in *; lia|congruence].
  intros Hq Hv. specialize (Hl Hq Hv). specialize (Hp Hq). unfold left in *. lia.
Qed.

(** A change of a number that only goes up, or only down, counts. *)
Lemma changes_K {B} (f : ConnectionSet -> B) len p lo w n d m r : calm p ->
  (forall s s', Safe ids (seg lo s) [] [] [] s' -> quiet_from lo -> universe -> len (f s) <> len (f s') -> (left s' < left s)%nat) ->
  triple (K lo w n d m r) (changes f len p) (fun b => K lo w n (d + Nat.b2n b) m r) spent.
Proof.
  intros Hc Hlt s HK. pose proof (calm_K p lo w n d m r Hc s HK) as HK'.
  pose proof (Hc lo s s (Good_seg lo s (k_good _ _ _ _ _ _ _ HK) (k_tick _ _ _ _ _ _ _ HK))) as Hs.
  unfold changes, count, st_bind, gets, st_ret. destruct (p s) as [[[]|e|] s']; [|done..].
  case_bool_decide as Hne; cbn; [by rewrite Nat.add_0_r|]. specialize (Hlt s s' Hs).
  destruct HK as [_ _ _ Hl _ _], HK' as [Hg Ht Hw Hl' Hm Hr]. split; try done. intros Hq Hv. specialize (Hl Hq Hv). specialize (Hlt Hq Hv Hne). lia.
Qed.

Lemma connect_calm : calm (poll_connect env config).
Proof.
  intros lo s. unfold poll_connect. eapply (triple_bind (fun _ => Safe ids (seg lo s) [] [] [])).
  - apply (spin_uploads_safe ids [] [] _); [|done..]. intros g cur. eapply (triple_bind (fun _ => Safe ids g [] [cur] []));
      [by apply new_conns_safe|intros []; by apply triple_ret].
  - intros []. apply (spin_fetches_safe ids [] [] _). intros g cur. eapply (triple_bind (fun _ => Safe ids g [] [] [cur]));
      [apply new_conn_safe; [done..|by left]|intros []; by apply triple_ret].
Qed.

Lemma uploads_calm : calm (poll_uploads env config).
Proof. intros lo s. apply (spin_uploads_safe ids [] [] _). intros g cur. apply poll_upload_safe. Qed.

Lemma fetches_calm : calm (poll_fetches env fuel).
Proof. intros lo s. apply (spin_fetches_safe ids [] [] _). intros g cur. apply poll_fetch_safe. Qed.

Lemma wake_calm : calm (wakeup_uploads env config) /\ calm (wakeup_fetches env).
Proof. split; intros lo s; [apply wakeup_uploads_safe|apply wakeup_fetches_safe]. Qed.

(** When it is quiet no connection and no name gets ready. *)
Lemma poll_client_quiet lo l s : quiet_from lo -> (lo <= tick s)%nat ->
  exists s', st_each (poll_client env) l s = (Ok tt, s') /\ same s s' /\ pending_addrs s' = pending_addrs s.
Proof.
  intros Hq. revert s. induction l as [|[a c] l IH]; intros s Ht; cbn; [by exists s|].
  destruct (Hq (tick s) Ht) as (Hc & _).
  assert (E : poll_client env (a, c) s = (Ok tt, next_tick s)) by (unfold poll_client, st_bind, ask; by rewrite Hc).
  rewrite (st_bind_ok _ _ _ _ _ E). destruct (IH (next_tick s)) as (s' & -> & Hs & Ep); [cbn; lia|]. exists s'. split; [done|]. split; [|done].
  destruct Hs; split; cbn in *; try done; lia.
Qed.

Lemma poll_name_quiet lo l s : quiet_from lo -> (lo <= tick s)%nat ->
  exists s', st_each (poll_name env config) l s = (Ok tt, s') /\ same s s' /\ pending_addrs s' = pending_addrs s.
Proof.
  intros Hq. revert s. induction l as [|[a c] l IH]; intros s Ht; cbn; [by exists s|].
  destruct (Hq (tick s) Ht) as (_ & Hc & _).
  assert (E : poll_name env config (a, c) s = (Ok tt, next_tick s)) by (unfold poll_name, st_bind, ask; by rewrite Hc).
  rewrite (st_bind_ok _ _ _ _ _ E). destruct (IH (next_tick s)) as (s' & -> & Hs & Ep); [cbn; lia|]. exists s'. split; [done|]. split; [|done].
  destruct Hs; split; cbn in *; try done; lia.
Qed.

Lemma poll_pending_quiet lo s : quiet_from lo -> (lo <= tick s)%nat ->
  exists s', poll_pending env config s = (Ok tt, s') /\ same s s' /\ pending_addrs s' = pending_addrs s.
Proof.
  intros Hq Ht. unfold poll_pending, st_bind, gets, in_order, ask. cbn [next_tick tick].
  destruct (poll_client_quiet lo (e_order env (SocketAddr * nat) (tick s) (map_to_list (pending s))) (next_tick s) Hq) as (s1 & -> & H1 & E1); [cbn; lia|].
  destruct (poll_name_quiet lo (e_order env (string * nat) (tick s1) (map_to_list (pending_addrs s1))) (next_tick s1) Hq) as (s2 & -> & H2 & E2).
  { destruct H1; cbn in *. lia. }
  exists s2. split; [done|]. split; [|by rewrite E2]. destruct H1, H2; split; cbn in *; try congruence. lia.
Qed.

(** The phase in which connections and names get ready. *)
Lemma pending_K lo w n d m r : triple (K lo w n d m r)
  (pending_changes env config) (fun b s => K lo w n d m r s /\ (quiet_from lo -> b = false)) spent.
Proof.
  intros s [Hg Ht Hw Hl Hm Hr]. pose proof (Good_seg lo s Hg Ht) as Hs.
  assert (Ho : Safe ids (seg_open (seg lo s)) [] [] [] s) by (destruct Hs; split; cbn; try done; lia).
  pose proof (poll_pending_safe ids (seg lo s) [] [] [] s Ho) as Hp.
  assert (Hq : quiet_from lo -> pending (snd (poll_pending env config s)) = pending s /\
    pending_addrs (snd (poll_pending env config s)) = pending_addrs s).
  { intros Hq. destruct (poll_pending_quiet lo s Hq Ht) as (s2 & -> & [] & Ea). by split. }
  unfold pending_changes, count, st_bind, gets. destruct (poll_pending env config s) as [[[]|e|] s']; [|done..].
  destruct Hp as [Hi Ht' _ Hn Hu Hf Hr' _ _ Hat]. cbn in *.
  split; [|intros Hq'; destruct (Hq Hq') as [-> ->]; by rewrite !bool_decide_eq_true_2]. split; try done; [lia| |unfold top in *; lia|congruence].
  intros Hq' Hv. specialize (Hl Hq' Hv). destruct (Hq Hq') as [Ep _]. unfold left in *. rewrite Ep. lia.
Qed.

(** The timer of retries: it fires, or nothing changes. *)
Lemma retry_K lo w n d m r : triple (K lo w n d m r) (poll_retry env)
  (fun b s => if b : bool then (exists t, (lo <= t)%nat /\ e_timer env t r = true) /\
                               exists t, (w <= t)%nat /\ K lo (S t) n d m (e_now env t + nanos_per_sec) s
              else K lo (S w) n d m r s) spent.
Proof.
  intros s HK. unfold poll_retry, st_bind at 1, ask at 1. pose proof (k_retry _ _ _ _ _ _ _ HK) as Er.
  assert (H1 : K lo (S w) n d m r (next_tick s)).
  { destruct (calm_K (ask (fun t => t)) lo w n d m r (ltac:(intros l s0 s1 Hs1; by apply (ask_safe ids _ [] [] [] (fun t => t) s1))) s HK).
    pose proof (k_at _ _ _ _ _ _ _ HK). split; try done. cbn. lia. }
  destruct (e_timer env (tick s) (retry s)) eqn:Et; [|done]. unfold st_bind, count, gets. cbn. case_bool_decide; [|done].
  cbn. split; [exists (tick s); split; [apply HK|by rewrite <- Er]|]. exists (S (tick s)).
  destruct H1 as [[[] Hu] Ht Hw Hl Hm Hr]. cbn in *. split; [lia|].
  split; cbn; try lia; try done. split; [|done]. split; try done. intros loc Hloc. cbn. specialize (iv_fresh0 loc Hloc). lia.
Qed.

Lemma after_retry_K lo w n d m r (r0 : bool) : triple (K lo w n d m r)
  (r1 <-- changes pending size (poll_connect env config);; r2 <-- pending_changes env config;;
   wakeup_uploads env config ;;; wakeup_fetches env ;;;
   r3 <-- changes uploads length (poll_uploads env config);; r4 <-- changes fetches length (poll_fetches env fuel);;
   st_ret (r0 || r1 || r2 || r3 || r4))%st
  (fun b s => exists d', K lo w n (d + d') m r s /\ (quiet_from lo -> b = true -> r0 = true \/ (0 < d')%nat)) spent.
Proof.
  tcall changes_K; [apply connect_calm|..].
  { intros s s' Hs Hq Hv Hne. pose proof (sf_universe _ _ _ _ _ _ Hs Hv) as HU.
    apply subseteq_size in HU. rewrite size_dom in HU. apply Safe_left in Hs as (_ & _ & _ & Hp & Hu & Hf & _). specialize (Hp Hq). unfold left. lia. }
  intros r1. tcall pending_K. intros r2. cbn. apply triple_fact. intros H2.
  tcall calm_K; [apply wake_calm|]. intros []. tcall calm_K; [apply wake_calm|]. intros [].
  tcall changes_K; [apply uploads_calm|..].
  { intros s s' Hs Hq Hv Hne. apply Safe_left in Hs as (_ & _ & _ & Hp & Hu & Hf & _). specialize (Hp Hq). unfold left. lia. }
  intros r3. tcall changes_K; [apply fetches_calm|..].
  { intros s s' Hs Hq Hv Hne. apply Safe_left in Hs as (_ & _ & _ & Hp & Hu & Hf & _). specialize (Hp Hq). unfold left. lia. }
  intros r4. apply triple_ret. intros s Hs. exists (Nat.b2n r1 + Nat.b2n r3 + Nat.b2n r4)%nat.
  rewrite <- !Nat.add_assoc in Hs. rewrite <- Nat.add_assoc. split; [done|]. intros Hq. rewrite (H2 Hq).
  destruct r0, r1, r3, r4; cbn; auto with lia.
Qed.

Lemma round_K lo w n d m r : (lo <= w)%nat -> triple (K lo w n d m r) (round env config fuel)
  (fun b s => exists d' r', K lo (S w) n (d + d') m r' s /\
     ((r' = r /\ (quiet_from lo -> b = true -> (0 < d')%nat)) \/
      (exists t, (lo <= t)%nat /\ e_timer env t r = true) /\ exists t, (lo <= t < tick s)%nat /\ r' = e_now env t + nanos_per_sec)) spent.
Proof.
  intros Hlo. unfold round. eapply triple_bind; [apply retry_K|]. intros r0. apply triple_at. intros s0 H0. destruct r0.
  - destruct H0 as (Hf & t & Ht & HK). eapply triple_conseq; [apply (after_retry_K lo (S t) n d m (e_now env t + nanos_per_sec) true)|by intros s <-| |done].
    intros b s (d' & HK' & _). exists d', (e_now env t + nanos_per_sec). split.
    + destruct HK' as [? ? Hat]. split; try done. lia.
    + right. split; [done|]. exists t. split; [|done]. pose proof (k_at _ _ _ _ _ _ _ HK'). lia.
  - eapply triple_conseq; [apply (after_retry_K lo (S w) n d m r false)|by intros s <-| |done]. intros b s (d' & HK & Hb).
    exists d', r. split; [done|]. left. split; [done|]. intros Hq E. by destruct (Hb Hq E).
Qed.

Lemma Good_K s : Good s -> K (tick s) (tick s) (left s) 0 (top s) (retry s) s.
Proof. intros Hg. split; try done. intros _ _. lia. Qed.

Lemma rounds_good n : triple Good (rounds env config fuel n) (fun _ => Good) (fun _ _ => True).
Proof.
  induction n as [|n IH]; cbn [rounds]; [by apply triple_err|].
  eapply (triple_bind (fun _ => Good)); [|intros []; [apply IH|by apply triple_ret]].
  intros s Hs. pose proof (round_K (tick s) (tick s) (left s) 0 (top s) (retry s) (Nat.le_refl _) s (Good_K s Hs)) as Hr.
  destruct (round env config fuel s) as [[b|e|] s']; [|done..]. destruct Hr as (d' & r' & HK & _). by destruct HK.
Qed.

(** How many rounds are left: [b] says that the timer was set when it was
    quiet already, so that it is not over. *)
Definition fresh_timer (T : nat) (b : bool) (s : ConnectionSet) : Prop :=
  b = true -> exists t, (T <= t < tick s)%nat /\ retry s = e_now env t + nanos_per_sec.
Definition rounds_left (T : nat) (b : bool) (s : ConnectionSet) : nat :=
  if decide (T <= tick s)%nat then left s + (if b then 0 else 1) else (T - tick s) + top s + 1.

Lemma left_top s : (left s <= top s)%nat.
Proof. unfold left, top. lia. Qed.

Lemma rounds_end T : quiet_from T -> universe -> (T < fuel)%nat -> forall n b s, Good s -> fresh_timer T b s -> (rounds_left T b s < n)%nat ->
  exists s', rounds env config fuel n s = (Ok tt, s') /\ Good s'.
Proof.
  intros Hq Hv Hf n. induction n as [|n IH]; intros b s Hg Hb Hn; [lia|].
  pose proof (round_K (tick s) (tick s) (left s) 0 (top s) (retry s) (Nat.le_refl _) s (Good_K s Hg)) as Hr.
  cbn [rounds]. unfold st_bind. destruct (round env config fuel s) as [[[]|e|] s']; [| |by destruct Hr; exists T|done].
  2: { exists s'. split; [done|]. destruct Hr as (d' & r' & HK & _). by destruct HK. }
  destruct Hr as (d' & r' & [Hg' Ht Hw Hl Hm Hr] & Hcase). pose proof (left_top s') as Hlt. unfold rounds_left in Hn.
  destruct (decide (T <= tick s)%nat) as [Hle|Hle].
  - assert (Hqs : quiet_from (tick s)) by (intros t Ht'; destruct (Hq t) as (?&?&?&Htm); [lia|]; split_and!; try done; intros; apply Htm; lia).
    specialize (Hl Hqs Hv). destruct Hcase as [[-> Hd]|[(t1 & Ht1 & Hfire) (t & Ht' & ->)]].
    + specialize (Hd Hqs eq_refl). apply (IH b s' Hg').
      * intros Eb. destruct (Hb Eb) as (t & Ht' & E). exists t. split; [lia|congruence].
      * unfold rounds_left. rewrite decide_True by lia. destruct b; lia.
    + apply (IH true s' Hg'); [intros _; exists t; split; [lia|done]|]. unfold rounds_left. rewrite decide_True by lia.
      destruct b; [|lia]. destruct (Hb eq_refl) as (t0 & Ht0 & E). destruct (Hq t1) as (_ & _ & _ & Htm); [lia|].
      rewrite E in Hfire. rewrite Htm in Hfire by lia. done.
  - apply (IH false s' Hg'); [done|]. unfold rounds_left. case_decide; lia.
Qed.

(** ** A poll *)

(** Messages that were taken out of the channel are held. *)
Definition Reading (hm : list Message) (s : ConnectionSet) : Prop := Inv ids hm [] [] s /\ (universe -> dom (pending s) ⊆ U).

Lemma Reading_tick hm s : Reading hm s -> Reading hm (next_tick s).
Proof. intros [Hi Hu]. split; [|done]. eapply Inv_same; [|exact Hi]. split; cbn; try done; lia. Qed.

(** A message that changes the uploads but not which they are. *)
Lemma Reading_uploads hm m f s : msg_upload m = [] -> closed_addr m = [] -> (forall u, u_resolve (f u) = u_resolve u) ->
  Reading (m :: hm) s -> Reading hm (on_uploads (map f) s).
Proof.
  intros Hm Hc Hf [[] Hu]. split; [|done]. cbn in *. rewrite Hc, Hm in *. split; cbn; try done.
  - by inversion iv_chan0.
  - rewrite map_map. by rewrite (map_ext _ _ Hf).
Qed.

Lemma read_message_safe hm m : triple (Reading (m :: hm)) (read_message env config m) (fun _ => Reading hm) (fun _ _ => False).
Proof.
  destruct m as [up|path tx|path loc size h tx|a n|a]; intros s Hs; cbn.
  - destruct (Reading_tick _ _ (Reading_tick _ _ Hs)) as [[] Hu]. split; [|done]. split; cbn in *; try done.
    + by inversion iv_chan0.
    + rewrite map_app, <- iv_ids0. cbn. rewrite <- !app_assoc. cbn. by rewrite <- !Permutation_middle.
  - destruct (Reading_tick _ _ Hs) as [[] Hu]. cbn in *. split; [|done].
    assert (Hnew : pointers s !! tick s = None).
    { apply eq_None_not_Some. intros Hl. destruct Hs as [[] _]. specialize (iv_fresh1 _ Hl). lia. }
    assert (Hmono : forall loc p, pointers s !! loc = Some p -> <[tick s := {| vpath := path; candidate_hosts := ∅; p_failures := new_slow |}]> (pointers s) !! loc = Some p).
    { intros loc p Hl. rewrite lookup_insert_ne; [done|]. intros <-. congruence. }
    split; cbn in *; try done.
    + apply Forall_app. split; [|apply Forall_singleton; eexists; split; [apply lookup_insert_eq|]; by intros [? ?]].
      eapply Forall_impl; [exact iv_fetches0|]. intros f (p & Hp & Hr). exists p. auto.
    + apply Forall_cons in iv_chan0 as [_ Hc]. eapply Forall_impl; [exact Hc|]. intros []; cbn; try done. intros (p & Hp & Hr). exists p. auto.
    + intros loc. rewrite lookup_insert_is_Some'. intros [<-|Hl]; [lia|]. by apply iv_fresh0.
  - destruct Hs as [[] Hu]. split; [|done]. cbn in *. apply Forall_cons in iv_chan0 as [(p & Hp & Hsz & Hh & Hhon) Hc].
    split; cbn; try done. apply Forall_app. split; [done|]. apply Forall_singleton. exists p. split; [done|]. unfold request_ok. cbn.
    rewrite length_replicate. split_and!; try done. intros Hho. by destruct (Hhon Hho).
  - destruct n as [n|n|n]; cbn.
    + destruct Hs as [[] Hu]. split; [|done]. cbn in *. split; try done. by inversion iv_chan0.
    + apply (Reading_uploads hm (MNotification a (NReceivedImage n))); try done. intros u. unfold note_received. by destruct (_ && _).
    + apply (Reading_uploads hm (MNotification a (NAbortedImage n))); try done. intros u. unfold note_aborted. by destruct (_ && _).
  - destruct Hs as [[] Hu]. cbn in *. apply NoDup_cons in iv_closing0 as [Hna Hnd]. apply Forall_cons in iv_chan0 as [_ Hc].
    destruct (iv_closing_active0 a ltac:(by left)) as [c Ha]. unfold st_bind, gets. cbn. rewrite Ha. cbn. split; [|done]. split; cbn; try done.
    + intros b Hb. rewrite lookup_delete_None. right. by apply iv_disjoint0.
    + intros b Hb. rewrite lookup_delete_is_Some. split; [intros <-; done|]. apply iv_closing_active0. by right.
    + by rewrite map_map.
Qed.

Lemma read_all_safe l : triple (Reading l) (st_each (read_message env config) l) (fun _ => Reading []) (fun _ _ => False).
Proof.
  induction l as [|m l IH]; cbn [st_each]; [by apply triple_ret|].
  eapply (triple_bind (fun _ => Reading l)); [apply read_message_safe|]. intros []. exact IH.
Qed.

Lemma read_messages_keep : triple Good (read_messages env config) (fun _ => Good) (fun _ _ => False).
Proof.
  intros s [[] Hu]. unfold read_messages, st_bind at 1 2, gets, st_modify.
  assert (Hr : Reading (chan s) (on_chan (fun _ => []) s)) by (split; [|done]; split; cbn in *; rewrite ?app_nil_r; done).
  pose proof (read_all_safe (chan s) _ Hr) as Ha. unfold st_bind at 1.
  destruct (st_each _ (chan s) _) as [[[]|e|] s1]; [|done..]. unfold st_bind, ask, st_modify, st_ret.
  apply Reading_tick in Ha. destruct (e_ended env (tick s1)); [|done]. destruct Ha as [[] Hu']. by split.
Qed.

(** Messages can only be read into the queues. *)
Lemma read_message_top m s : match read_message env config m s with
  | (Ok _, s') => (top s' <= S (top s))%nat /\ retry s' = retry s /\ (tick s <= tick s')%nat | _ => True end.
Proof.
  destruct m as [up|path tx|path loc size h tx|a n|a]; cbn; unfold top; cbn; rewrite ?length_app; cbn; try (split_and!; [lia|done|lia]).
  - destruct n as [n|n|n]; cbn; rewrite ?length_map; split_and!; (done || lia).
  - unfold st_bind, gets. cbn. destruct (active s !! a); cbn; rewrite ?length_map; [split_and!; (done || lia)|done].
Qed.

Lemma read_all_top l s : match st_each (read_message env config) l s with
  | (Ok _, s') => (top s' <= length l + top s)%nat /\ retry s' = retry s /\ (tick s <= tick s')%nat | _ => True end.
Proof.
  revert s. induction l as [|m l IH]; intros s; cbn [st_each]; [by cbn|]. unfold st_bind. pose proof (read_message_top m s) as Hm.
  destruct (read_message env config m s) as [[[]|e|] s1]; [|done..]. specialize (IH s1).
  destruct (st_each _ l s1) as [[[]|e|] s2]; [|done..]. destruct Hm as (? & ? & ?), IH as (? & ? & ?). cbn. split_and!; [lia|congruence|lia].
Qed.

Lemma read_messages_top s : match read_messages env config s with
  | (Ok _, s') => (top s' <= length (chan s) + top s)%nat /\ (tick s <= tick s')%nat | _ => True end.
Proof.
  unfold read_messages, st_bind at 1 2, gets, st_modify. pose proof (read_all_top (chan s) (on_chan (fun _ => []) s)) as Ha.
  unfold st_bind at 1. destruct (st_each _ (chan s) _) as [[[]|e|] s1]; [|done..]. destruct Ha as (Ht & _ & Hk).
  unfold st_bind, ask, st_modify, st_ret. cbn. unfold top in *. destruct (e_ended env (tick s1)); cbn in *; split; lia.
Qed.

(** ** Addresses *)

Lemma addr_future_poll_same n : forall f s, (n <= length (af_futures f))%nat ->
  exists f' s', addr_future_poll env n f s = (Ok f', s') /\ same s s' /\ chan s' = chan s.
Proof.
  induction n as [|n IH]; intros f s Hn; cbn [addr_future_poll]; [by exists f, s|].
  destruct (af_futures f) as [|[name job] rest] eqn:Ef; cbn in Hn; [lia|]. unfold st_bind, ask. cbn.
  assert (Hgo : forall f1, (n <= length (af_futures f1))%nat ->
    exists f' s', addr_future_poll env n f1 (next_tick s) = (Ok f', s') /\ same s s' /\ chan s' = chan s).
  { intros f1 H1. destruct (IH f1 (next_tick s) H1) as (f' & s' & Hr & Hs & Hc). exists f', s'. split; [done|]. split; [|done].
    destruct Hs; split; cbn in *; try done; lia. }
  destruct (e_resolve env (tick s) job); apply Hgo; cbn; rewrite ?length_app; cbn; lia.
Qed.

Lemma addr_cell_poll_same s : exists s', addr_cell_poll env s = (Ok tt, s') /\ same s s'.
Proof.
  unfold addr_cell_poll, st_bind at 1, gets. destruct (initial_addr s) as [a|f]; [by exists s|].
  destruct (addr_future_poll_same (length (af_futures f)) f s (Nat.le_refl _)) as (f' & s' & Hr & Hs & _).
  unfold st_bind, st_modify. rewrite Hr. eexists. split; [done|]. by destruct Hs.
Qed.

Lemma CGood_same s s' : same s s' -> Good s -> Good s'.
Proof. intros Hs [Hi Hu]. split; [by eapply Inv_same|]. by rewrite (sm_pending _ _ Hs). Qed.

(** ** A poll keeps the invariant and returns *)

Lemma poll_good_end s : Good s ->
  match poll env config fuel s with (Ok _, s') => Good s' | (Err _, _) => True | (Panic, _) => False end /\
  (forall T, quiet_from T -> universe -> (T + top s + length (chan s) + 2 < fuel)%nat -> exists b, fst (poll env config fuel s) = Ok b).
Proof.
  intros Hg. destruct (addr_cell_poll_same s) as (s1 & H1 & Hs1). pose proof (CGood_same _ _ Hs1 Hg) as Hg1.
  pose proof (read_messages_keep s1 Hg1) as Hr. pose proof (read_messages_top s1) as Ht.
  unfold poll. rewrite (st_bind_ok _ _ _ _ _ H1). destruct (read_messages env config s1) as [[[]|e|] s2] eqn:E2; [|done..].
  rewrite (st_bind_ok _ _ _ _ _ E2). split.
  - pose proof (rounds_good fuel s2 Hr) as Hround. unfold st_bind at 1. by destruct (rounds env config fuel fuel s2) as [[[]|e|] s3].
  - intros T Hq Hv Hf. destruct (rounds_end T Hq Hv ltac:(lia) fuel false s2 Hr ltac:(done)) as (s3 & H3 & _).
    { assert (Et : top s1 = top s) by (unfold top; destruct Hs1; congruence). assert (Ec : chan s1 = chan s) by by destruct Hs1.
      rewrite Et, Ec in Ht. pose proof (left_top s2). unfold rounds_left. case_decide; lia. }
    rewrite (st_bind_ok _ _ _ _ _ H3). by eexists.
Qed.
End Round.
End Invariant.
