(* ===== verification/ConnSetSpec.v ===== *)
(** * What the connections of a client do: theorems on [ConnSet]

    [world] are the states a set can be in: it is spawned, gets messages, is
    polled again and again, and time passes.  [ConnSetInv] shows what holds in
    all of them; here is what follows, with an example. *)
From S2P Require Import Prelude Serde VirtualPath Ids Time Signature Commands Peers Upload Download ConnSet ConnSetInv.
Import VPath ImageId SignedUpload.
Local Open Scope Z_scope.

Section World.
Context `{AbstractNs} (env : Env) (config : Config).
Context (honest : Prop) (file : VPath -> Path.t -> bytes) (want : nat -> bytes).

(** The end of a connection is told once, after it was seen open; a file that
    is fetched is not empty and its hashes fit. *)
Definition sendable (s : ConnectionSet) (m : Message) : Prop :=
  match m with
  | MClosed a => is_Some (active s !! a) /\ a ∉ chan s ≫= closed_addr
  | _ => msg_ok honest file want (pointers s) m
  end.

(** [ids]: the uploads that were sent.  Locations are shared with other sets,
    which may change them, but for their path. *)
Inductive world : list nat -> ConnectionSet -> Prop :=
| w_spawn s0 names s : (forall loc, is_Some (pointers s0 !! loc) -> (loc < tick s0)%nat) -> log s0 = [] ->
    spawn env config names s0 = (Ok tt, s) -> world [] s
| w_send ids s m : world ids s -> sendable s m -> world (ids ++ msg_upload m) (on_chan (fun l => l ++ [m]) s)
| w_time ids s : world ids s -> world ids (next_tick s)
| w_pointer ids s loc p : world ids s -> (loc < tick s)%nat -> (forall q, pointers s !! loc = Some q -> vpath p = vpath q) ->
    world ids (on_pointers (<[loc := p]>) s)
| w_poll ids s fuel b s' : world ids s -> poll env config fuel s = (Ok b, s') -> world ids s'.

Context (universe : Prop) (U : gset SocketAddr).
Context (sample_law : forall A t (l : list A) n x, x ∈ e_sample env A t l n -> x ∈ l).
Context (universe_law : universe -> (forall ad n a, a ∈ addresses_at ad n -> a ∈ U) /\ (forall t ad a, e_pick env t ad = Some a -> a ∈ U)).
Context (honest_law : honest -> forall t r q d v p pos, e_block env t (r, q) = Replied d -> gb_hint q = Some (v, p, pos) ->
  gbr_data d `prefix_of` drop (Z.to_nat pos) (file v p)).

Abbreviation Good := (Good honest file want universe U).

Lemma addr_cell_new_ok names p s : exists cell s', addr_cell_new names p s = (Ok cell, s') /\ (tick s <= tick s')%nat /\
  pointers s' = pointers s /\ (forall e, e ∈ log s' -> e ∈ log s \/ exists j n, e = ResolveHost j n).
Proof.
  unfold addr_cell_new, st_bind at 1.
  match goal with |- context[?f names s] => set (go := f) end.
  assert (Hgo : forall l s, exists r s', go l s = (Ok r, s') /\ (tick s <= tick s')%nat /\ pointers s' = pointers s /\
    (forall e, e ∈ log s' -> e ∈ log s \/ exists j n, e = ResolveHost j n)).
  { clear. induction l as [|n l IH]; intros s; [exists [], s; split_and!; try done; by left|].
    cbn [go]. unfold st_bind, fresh, ask, emit, st_modify, st_ret. fold go.
    destruct (IH (on_log (fun l => l ++ [ResolveHost (tick s) n]) (next_tick s))) as (r & s' & E & Ht & Hp & Hl). cbn in *. rewrite E.
    eexists _, s'. split_and!; [done|lia|done|]. intros e [[He|He%list_elem_of_singleton]%elem_of_app|He]%Hl; [by left|right; eauto|by right]. }
  destruct (Hgo names s) as (r & s' & -> & Ht & Hp & Hl). eexists _, s'. by split_and!.
Qed.

Lemma world_good ids s : world ids s -> Good ids s.
Proof using sample_law universe_law honest_law.
  induction 1 as [s0 names s Hp Hl Hs|ids s m _ [[] Hu] Hm|ids s _ [Hi Hu]|ids s loc p _ [[] Hu] Hloc Hp|ids s fuel b s' _ Hg Hs].
  - unfold spawn in Hs. destruct (addr_cell_new_ok names (port config) s0) as (cell & s1 & E & Ht & Ep & El).
    rewrite (st_bind_ok _ _ _ _ _ E) in Hs. unfold set_timeout, st_bind, ask, st_ret in Hs. injection Hs as <-.
    split; [|cbn; intros _; rewrite dom_empty_L; set_solver].
    assert (Hd : log s1 ≫= done_upload = [] /\ forall tx d, FileDone tx d ∉ log s1).
    { rewrite Hl in El. clear -El. generalize dependent (log s1). intros l Hl. split.
      - induction l as [|e l IH]; [done|]. cbn. rewrite IH by (intros x Hx; apply Hl; by right).
        destruct (Hl e ltac:(by left)) as [?%not_elem_of_nil|(j & n & ->)]; done.
      - intros tx d [?%not_elem_of_nil|(j & n & [=])]%Hl; done. }
    destruct Hd as [Hd Hf]. split; cbn; try done; [constructor|by intros a ?%not_elem_of_nil|by rewrite Hd|..].
    + intros _ tx d Hin. by apply Hf in Hin.
    + intros loc. rewrite Ep. intros Hloc%Hp. lia.
  - split; [|done]. cbn in *. split; cbn; try done.
    + apply Forall_app. split; [done|]. apply Forall_singleton. by destruct m.
    + rewrite bind_app. cbn. rewrite app_nil_r. apply NoDup_app. split_and!; [done| |].
      * intros a Ha Hin. destruct m; cbn in Hin; try by apply not_elem_of_nil in Hin. apply list_elem_of_singleton in Hin as ->. by destruct Hm.
      * destruct m; cbn; try constructor; [by apply not_elem_of_nil|constructor].
    + intros a. rewrite bind_app, elem_of_app. intros [Ha|Ha]; [auto|]. cbn in Ha. rewrite app_nil_r in Ha.
      destruct m; cbn in Ha; try by apply not_elem_of_nil in Ha. apply list_elem_of_singleton in Ha as ->. by destruct Hm.
    + rewrite bind_app. cbn. rewrite app_nil_r, <- iv_ids. rewrite <- !app_assoc. apply Permutation_app_head. by rewrite Permutation_app_comm, <- app_assoc.
  - split; [|done]. eapply Inv_same; [|exact Hi]. split; cbn; try done; lia.
  - split; [|done]. cbn in *.
    assert (Hmono : forall l q, pointers s !! l = Some q -> exists q', <[loc := p]> (pointers s) !! l = Some q' /\ vpath q' = vpath q).
    { intros l q Hq. destruct (decide (l = loc)) as [->|Hne]; [|exists q; by rewrite lookup_insert_ne].
      exists p. rewrite lookup_insert_eq. split; [done|]. by apply Hp. }
    split; cbn; try done.
    + eapply Forall_impl; [exact iv_fetches|]. intros f (q & Hq & Hr). destruct (Hmono _ _ Hq) as (q' & Hq' & Hv).
      exists q'. split; [done|]. by eapply request_ok_vpath.
    + eapply Forall_impl; [exact iv_chan|]. intros [|?|? ? ? ? ?|? ?|?]; cbn; try done. intros (q & Hq & Hr).
      destruct (Hmono _ _ Hq) as (q' & Hq' & Hv). exists q'. split; [done|]. by rewrite Hv.
    + intros l. rewrite lookup_insert_is_Some'. intros [<-|Hl]; [done|]. by apply iv_fresh.
  - pose proof (poll_good_end env config honest file want universe U fuel ids sample_law universe_law honest_law s Hg) as [Hp _].
    by rewrite Hs in Hp.
Qed.


(** C15. Of the uploads that were sent each is in the channel, in the queue, or was
    answered, and that once. *)
Theorem uploads_answered_once ids s : world ids s ->
  (chan s ≫= msg_upload) ++ map u_resolve (uploads s) ++ (log s ≫= done_upload) ≡ₚ ids.
Proof using sample_law universe_law honest_law. intros [Hi _]%world_good. apply Hi. Qed.


(** C27. A poll returns, with fuel for the ticks until it is quiet, the addresses
    there are, and what is in the queues and the channel. *)
Theorem conn_poll_returns ids s T fuel : world ids s -> universe -> quiet_from env T ->
  (T + top U s + length (chan s) + 2 < fuel)%nat -> exists b, fst (poll env config fuel s) = Ok b.
Proof using sample_law universe_law honest_law.
  intros Hg%world_good Hv Hq Hf.
  pose proof (poll_good_end env config honest file want universe U fuel ids sample_law universe_law honest_law s Hg) as [_ Hp].
  by apply (Hp T).
Qed.
End World.

(** ** When an upload is answered *)

Section Outcome.
Context `{AbstractNs} (env : Env) (config : Config).

(** What does not change of an upload. *)
Definition kept (u u' : Upload) : Prop := u_resolve u' = u_resolve u /\ u_early u' = u_early u /\ u_deadline u' = u_deadline u.

Lemma upload_answered_kept a ok r h up : kept up (upload_answered a ok r h up).
Proof. unfold kept, upload_answered. by destruct (add_response a ok r h (u_stats up)). Qed.

(** Effects that polling requests has: failures of hosts are noted. *)
Lemma poll_rfutures_ok l up s : exists up' s', poll_rfutures env l up s = (Ok up', s') /\ log s' = log s /\
  initial_addr s' = initial_addr s /\ kept up up'.
Proof.
  revert up s. induction l as [|[addr c] l IH]; intros up s; cbn [poll_rfutures]; [by exists up, s|].
  assert (Hone : exists up' s', poll_rfuture env (addr, c) up s = (Ok up', s') /\ log s' = log s /\ initial_addr s' = initial_addr s /\ kept up up').
  { unfold poll_rfuture, upload_failed, add_host_failure, st_bind, ask, st_modify, st_ret. destruct c as [req|req].
    - destruct (e_append env (tick s) req) as [|resp|[]]; [by eexists _, _|eexists _, _; split; [done|]; by split_and!; [| |apply upload_answered_kept]|by eexists _, _..].
    - destruct (e_replace env (tick s) req) as [|resp|[]]; [by eexists _, _|eexists _, _; split; [done|]; by split_and!; [| |apply upload_answered_kept]|by eexists _, _..]. }
  destruct Hone as (up1 & s1 & E1 & Hl1 & Hi1 & Hu1). destruct (IH up1 s1) as (up2 & s2 & E2 & Hl2 & Hi2 & Hu2).
  exists up2, s2. rewrite (st_bind_ok _ _ _ _ _ E1). unfold kept in *. split_and!; naive_solver congruence.
Qed.

(** An upload that is polled is answered exactly when no request hangs, a
    server responded and the rules decide, or when its deadline is over; the
    answer is what the rules say, and otherwise that of the deadline.  Until
    then it stays as its requests left it. *)
Theorem upload_outcome up s : exists r s' up1 s1,
  poll_upload env config up s = (Ok r, s') /\
  poll_rfutures env (e_order env _ (tick s) (map_to_list (u_futures up))) up (next_tick s) = (Ok up1, s1) /\
  let early := e_timer env (tick s1) (u_early up) in
  let verdict := check (u_stats up1) config (is_done (initial_addr s)) (initial_addrs s) early (bool_decide (u_candidates up1 = ∅)) in
  let idle := u_futures up1 = ∅ /\ 0 < total_responses (u_stats up1) mod u32_modulus in
  (r = None <-> (idle /\ is_Some verdict) \/ e_timer env (S (tick s1)) (u_deadline up) = true) /\
  match r with
  | None => log s' = log s ++ [UploadDone (u_resolve up) (default (Err DeadlineReached) verdict)]
  | Some up' => up' = up1 /\ log s' = log s
  end.
Proof.
  destruct (poll_rfutures_ok (e_order env _ (tick s) (map_to_list (u_futures up))) up (next_tick s)) as (up1 & s1 & E & Hl & Hi & Hr & Hea & Hd).
  set (verdict := check (u_stats up1) config (is_done (initial_addr s)) (initial_addrs s) (e_timer env (tick s1) (u_early up)) (bool_decide (u_candidates up1 = ∅))).
  enough (Hrun : exists r s', poll_upload env config up s = (Ok r, s') /\
    (r = None <-> ((u_futures up1 = ∅ /\ 0 < total_responses (u_stats up1) mod u32_modulus) /\ is_Some verdict) \/ e_timer env (S (tick s1)) (u_deadline up) = true) /\
    match r with None => log s' = log s ++ [UploadDone (u_resolve up) (default (Err DeadlineReached) verdict)] | Some up' => up' = up1 /\ log s' = log s end)
    by (destruct Hrun as (r & s' & H1 & H2); exists r, s', up1, s1; split; [exact H1|]; split; [exact E|]; exact H2).
  unfold poll_upload, in_order. unfold st_bind at 1, ask at 1. rewrite (st_bind_ok _ _ _ _ _ E).
  rewrite <- Hr, <- Hd. cbn in Hl, Hi. rewrite <- Hl.
  unfold st_bind, ask, run_check, initial_addrs, emit, st_modify, st_ret. cbn -[check]. rewrite Hea.
  assert (Hid : forall b, b = bool_decide (size (u_futures up1) = 0%nat) && bool_decide (0 < total_responses (u_stats up1) mod u32_modulus) ->
    (u_futures up1 = ∅ /\ 0 < total_responses (u_stats up1) mod u32_modulus <-> b = true)).
  { intros b ->. by rewrite andb_true_iff, !bool_decide_eq_true, map_size_empty_iff. }
  specialize (Hid _ eq_refl). set (over := e_timer env (S (tick s1)) (u_deadline up1)).
  destruct (bool_decide _ && _); cbn -[check]; rewrite ?Hi; fold (initial_addrs s); fold verdict.
  - destruct verdict as [v|] eqn:Ev; unfold verdict in Ev; cbn -[check].
    { eexists _, _. split; [done|]. split; [|done]. split; [intros _; left; by split; [apply Hid|]|done]. }
    fold over. destruct over; cbn -[check]; rewrite ?Hi; fold (initial_addrs s); rewrite ?Ev; eexists _, _; (split; [done|]); (split; [|done]);
      [by split; [auto|]|split; [done|]]. by intros [[_ [? ?]]|?].
  - fold over. destruct over; cbn -[check]; rewrite ?Hi; fold (initial_addrs s); fold verdict; eexists _, _; (split; [done|]); (split; [|done]);
      [by split; [auto|]|split; [done|]]. intros [[Hidle _]|?]; [by apply Hid in Hidle|done].
Qed.
End Outcome.

(** ** When a poll panics *)

Section Panics.
Context `{AbstractNs} (env : Env) (config : Config).

(** Hashes of the right number, of 32 bytes each, are found at every position. *)
Lemma fetch_file_hashes idx path tx m : fetch_file idx path tx = Some m -> 0 <= mi_block_size idx ->
  (forall e s hs, get_file path (root idx) = Some (e, s, hs) -> 0 <= s /\ Forall (fun b : bytes => length b = 32%nat) hs) ->
  exists size h, m = MFetchFile path (location idx) size h tx /\ hashes_ok size h.
Proof.
  unfold fetch_file. intros Hm Hbs Hf. destruct (get_file path (root idx)) as [[[e sz] hs]|]; [|done]. cbn in Hm.
  destruct (Hf e sz hs eq_refl) as [Hsz Hlen]. case_bool_decide as Hmax; [|done]. unfold Index.checked64 in Hm.
  destruct (decide (0 <= sz + mi_block_size idx < u64_modulus)); [|done]. cbn in Hm.
  destruct (decide (0 <= sz + mi_block_size idx - 1 < u64_modulus)); [|done]. cbn in Hm.
  destruct (decide (mi_block_size idx = 0)) as [|Hz]; [done|]. case_bool_decide as Hn; [|done]. injection Hm as <-. eexists _, _. split; [done|].
  intros pos Hpos. unfold hash_at. cbn. rewrite decide_False by done.
  destruct (lookup_lt_is_Some_2 hs (Z.to_nat (Z.of_nat pos / mi_block_size idx))) as [b Hb].
  { assert (Hq : Z.of_nat pos / mi_block_size idx < (sz + mi_block_size idx - 1) / mi_block_size idx).
    { replace (sz + mi_block_size idx - 1) with (sz - 1 + 1 * mi_block_size idx) by lia. rewrite Z.div_add by lia.
      enough (Z.of_nat pos / mi_block_size idx <= (sz - 1) / mi_block_size idx) by lia. apply Z.div_le_mono; lia. }
    assert (0 <= Z.of_nat pos / mi_block_size idx) by (apply Z.div_pos; lia). lia. }
  rewrite Hb. cbn. rewrite Forall_forall in Hlen. unfold BlockHash.from_bytes. rewrite decide_True; [by eexists|].
  apply Hlen. by apply list_elem_of_lookup_2 in Hb.
Qed.

(** The end of a connection that was not seen open is a panic, and so is the
    first request for an empty file. *)
Theorem poll_panics :
  (forall fuel s a rest, chan s = MClosed a :: rest -> active s !! a = None -> fst (poll env config fuel s) = Panic) /\
  (forall s p a conn hosts f path bs tx, items (p_failures p) !! a = None ->
     f_req f = FFile [] path 0 {| h_block_size := bs; h_hashes := [] |} None tx ->
     fst (wake_fetch env p ((a, conn) :: hosts) f s) = Panic).
Proof.
  split.
  - intros fuel s a rest Hc Ha. destruct (addr_cell_poll_same env s) as (s1 & E & Hs). unfold poll. rewrite (st_bind_ok _ _ _ _ _ E).
    unfold read_messages. unfold st_bind at 1 2 3, gets. rewrite (sm_chan _ _ Hs), Hc. cbn. unfold st_bind, gets. cbn.
    by rewrite (sm_active _ _ Hs), Ha.
  - intros s p a conn hosts f path bs tx Hp Hf. cbn. unfold can_try_location, st_bind, ask, st_ret, can_try. cbn. rewrite Hp. cbn.
    unfold fetch_request. rewrite Hf. unfold block_request, st_bind, st_lift, hash_at. cbn. by destruct (decide (bs = 0)).
Qed.
End Panics.

(** ** An example *)

Module ConnSetExample.
(** One server, which answers at once until tick 100; it has the file of five
    bytes, and sends it in pieces of two.  Names have its address or none. *)
Definition server : SocketAddr := {| ip := 1; sport := 24783 |}.
#[export] Instance ns : AbstractNs := {|
  Address := bool; IpList := bool; with_port ips _ := ips; union := existsb (fun b => b); no_address := false;
  addresses_at a n := match n with O => if a then [server] else [] | _ => [] end; parse_name := Some |}.

Definition content : bytes := [Byte.x61; Byte.x62; Byte.x63; Byte.x64; Byte.x65].
Definition soon {A} (t : nat) (a b : A) : A := if (t <? 100)%nat then a else b.
Definition ack : AppendDirAck := {| ada_accepted := true; ada_reject_reason := None; ada_hosts := ∅ |}.
Definition piece (g : GetBlock) : Reply GetBlockResponse :=
  match gb_hint g with
  | Some (_, _, pos) => Replied {| gbr_data := take 2 (drop (Z.to_nat pos) content) |}
  | None => Broken OtherError
  end.
Definition env : Env := {|
  e_now t := Z.of_nat t; e_timer _ at_ := bool_decide (at_ <= 0); e_order A t l := l; e_sample A t l n := take n l;
  e_pick _ (a : Address) := if a : bool then Some server else None; e_ended _ := false; e_client t _ := soon t (Ready tt) NotReady;
  e_resolve t _ := soon t (Ready true) NotReady; e_append _ _ := Replied ack; e_replace _ _ := Waiting; e_index _ _ := Waiting;
  e_block t rq := soon t (piece (snd rq)) Waiting; e_cancel _ _ := false |}.

Definition key : VPath := VPath.of_names "k" ["a"]%string.
Definition hashes : Hashes := {| h_block_size := 2; h_hashes := replicate 3 (replicate 32 Byte.x00) |}.
Definition outside : ConnectionSet :=
  {| initial_addr := AddrReady false; chan := []; chan_done := false; failures := new_default; pending := ∅; active := ∅; uploads := [];
     fetches := []; pending_addrs := ∅; failed_addrs := new_default; addrs := ∅; retry := 0; pointers := ∅; log := []; tick := 0 |}.
Definition started : ConnectionSet := snd (spawn env config_new ["ciruela"%string] outside).
Definition signed : SignedUpload := {| up_path := key; up_image_id := ImageId.from_slice []; up_timestamp := 0; up_signatures := [] |}.
Definition upload_message : Message := append 0 ["ciruela"%string] signed 5.
Definition file_path : Path.t := [Path.RootDir; Path.Normal "f"%string].
Definition with_location : ConnectionSet :=
  on_pointers (<[0%nat := {| vpath := key; candidate_hosts := ∅; p_failures := new_slow |}]>) started.
Definition asked : ConnectionSet :=
  on_chan (fun l => l ++ [MFetchFile file_path 0 5 hashes 7]) (on_chan (fun l => l ++ [upload_message]) with_location).
Definition ran : ConnectionSet := snd (poll env config_new 200 asked).

Definition want (_ : nat) : bytes := content.
Definition file (_ : VPath) (_ : Path.t) : bytes := content.
Definition all_servers : gset SocketAddr := {[ server ]}.

Lemma sample_law A t (l : list A) n x : x ∈ e_sample env A t l n -> x ∈ l.
Proof. cbn. intros (i & Hi & _)%elem_of_take. by apply list_elem_of_lookup_2 in Hi. Qed.

Lemma honest_law : True -> forall t r q d v p pos, e_block env t (r, q) = Replied d -> gb_hint q = Some (v, p, pos) ->
  gbr_data d `prefix_of` drop (Z.to_nat pos) (file v p).
Proof.
  intros _ t r q d v p pos. cbn. unfold soon, piece. destruct (t <? 100)%nat; [|done]. intros E Hh. rewrite Hh in E. injection E as <-.
  cbn. apply prefix_take.
Qed.

Lemma universe_law : True -> (forall ad n a, a ∈ addresses_at ad n -> a ∈ all_servers) /\
  (forall t ad a, e_pick env t ad = Some a -> a ∈ all_servers).
Proof.
  intros _. split.
  - intros [] [|n] a; cbn; set_solver.
  - intros t [] a; cbn; set_solver.
Qed.

Lemma asked_world : world env config_new True file want ([] ++ msg_upload upload_message ++ []) asked.
Proof.
  unfold asked. change ([] ++ msg_upload upload_message ++ []) with (([] ++ msg_upload upload_message) ++ msg_upload (MFetchFile file_path 0 5 hashes 7)).
  assert (H0 : world env config_new True file want [] with_location).
  { apply w_pointer; [|vm_compute; lia|by intros q]. apply (w_spawn _ _ _ _ _ outside ["ciruela"%string]); [by intros ? [? ?]|done|by vm_compute]. }
  apply w_send; [apply w_send; [exact H0|done]|].
  exists {| vpath := key; candidate_hosts := ∅; p_failures := new_slow |}. split_and!; [done|lia| |by split].
  intros pos Hpos. do 5 (destruct pos as [|pos]; [vm_compute; by eexists|]). lia.
Qed.

Lemma ran_ok : poll env config_new 200 asked = (Ok false, ran).
Proof.
  unfold ran. apply (run_result (poll env config_new 200 asked) (Ok false)). vm_cast_no_check (@eq_refl (Res Stop bool) (Ok false)).
Qed.

Lemma ran_world : world env config_new True file want [5%nat] ran.
Proof. exact (w_poll _ _ _ _ _ _ asked 200 false ran asked_world ran_ok). Qed.

Lemma ran_done : FileDone 7 content ∈ log ran.
Proof. apply (list_elem_of_lookup_2 _ 7). vm_compute. reflexivity. Qed.

(** What happens when a server closes the connection before the set has seen
    it open. *)
Definition lost : ConnectionSet := on_chan (fun _ => [MClosed server]) (on_pending (<[server := 3%nat]>) started).

Lemma quiet_100 : quiet_from env 100.
Proof.
  intros t Ht. assert (E : (t <? 100)%nat = false) by (apply Nat.ltb_ge; lia). cbn. unfold soon. rewrite E. split_and!; try done.
  intros t0 Ht0. apply bool_decide_eq_false. unfold nanos_per_sec. lia.
Qed.
End ConnSetExample.

Import ConnSetExample.


Lemma uploads_answered_once_witness : (chan ran ≫= msg_upload) ++ map u_resolve (uploads ran) ++ (log ran ≫= done_upload) ≡ₚ [5%nat].
Proof. exact (uploads_answered_once env config_new True file want True all_servers sample_law universe_law honest_law [5%nat] ran ran_world). Defined.


Lemma top_asked : (100 + top all_servers asked + length (chan asked) + 2 < 200)%nat.
Proof. apply Nat.ltb_lt. vm_cast_no_check (eq_refl true). Qed.

Lemma conn_poll_returns_witness : quiet_from env 100 /\ exists b, fst (poll env config_new 200 asked) = Ok b.
Proof.
  split; [exact quiet_100|].
  exact (conn_poll_returns env config_new True file want True all_servers sample_law universe_law honest_law _ asked 100 200 asked_world I quiet_100 top_asked).
Defined.

Lemma poll_panics_witness : fst (poll env config_new 200 lost) = Panic.
Proof. exact (proj1 (poll_panics env config_new) 200%nat lost server [] eq_refl eq_refl). Defined.
