(* ===== verification/DiskFs.v ===== *)
(** * The file system of the images: the [openat] crate, with directories that move

    The store of images renames, exchanges and removes whole directories while
    it holds handles to them, and links files into several directories.  So a
    state of the file system is seen as a graph here ([View]): directories and
    files have numbers, a directory is a map of names, and a handle stands for
    a number, wherever the directory is moved.  [DiskOps] are the operations of
    [openat] and of files the code calls, [DiskLaws] what it relies on: each may
    fail at any call, and what a failure leaves is said.  Names that are not
    plain ([..], names with a slash) have no law.  [MemDisk] is an instance in
    memory whose operations fail on demand. *)
From S2P Require Import Prelude Serde VirtualPath Fs.

(** ** The graph of directories and files *)

Inductive Node := NDir (i : nat) | NFile (i : nat) | NLink (i : nat) (dest : Path.t).
#[export] Instance Node_eq_dec : EqDecision Node.
Proof. solve_decision. Defined.
Definition ino (x : Node) : nat := match x with NDir i | NFile i | NLink i _ => i end.

Record FileNode := { fn_data : bytes; fn_mode : Z }.
Record View := { v_dirs : gmap nat (gmap string Node); v_files : gmap nat FileNode }.

(** The name [n] in the directory [i]. *)
Definition at_name (v : View) (i : nat) (n : string) : option Node := ents ← v_dirs v !! i; ents !! n.

Definition link (i : nat) (n : string) (x : Node) (v : View) : View :=
  {| v_dirs := alter (insert n x) i (v_dirs v); v_files := v_files v |}.
Definition unlink (i : nat) (n : string) (v : View) : View :=
  {| v_dirs := alter (delete n) i (v_dirs v); v_files := v_files v |}.
Definition new_dir (j : nat) (v : View) : View := {| v_dirs := <[j := ∅]> (v_dirs v); v_files := v_files v |}.
Definition set_file (j : nat) (f : FileNode) (v : View) : View :=
  {| v_dirs := v_dirs v; v_files := <[j := f]> (v_files v) |}.
Definition set_data (j : nat) (d : bytes) (v : View) : View :=
  {| v_dirs := v_dirs v; v_files := alter (fun f => {| fn_data := d; fn_mode := fn_mode f |}) j (v_files v) |}.
Definition set_mode (j : nat) (m : Z) (v : View) : View :=
  {| v_dirs := v_dirs v; v_files := alter (fun f => {| fn_data := fn_data f; fn_mode := m |}) j (v_files v) |}.
Definition set_mode_at (x : Node) (m : Z) (v : View) : View := match x with NFile j => set_mode j m v | _ => v end.

(** A number nothing has and nothing refers to. *)
Definition fresh_ino (v : View) (j : nat) : Prop :=
  v_dirs v !! j = None /\ v_files v !! j = None /\ forall i n x, at_name v i n = Some x -> ino x <> j.

(** Writing at an offset: a gap is filled with zeros. *)
Definition overwrite (d : bytes) (off : nat) (b : bytes) : bytes :=
  match b with
  | [] => d
  | _ => take off d ++ replicate (off - length d) Byte.x00 ++ b ++ drop (off + length b) d
  end.

(** ** Operations *)

Record DEntry := { de_name : string; de_type : option SimpleType }.
Record FileMeta := { fm_len : Z; fm_mode : Z }.

Class DiskOps (W : Type) := {
  dhandle : Type;
  fhandle : Type;
  d_open : Path.t -> ST W IoError dhandle;
  d_sub_dir : dhandle -> string -> ST W IoError dhandle;
  d_create_dir : dhandle -> string -> Z -> ST W IoError unit;
  d_open_file : dhandle -> string -> ST W IoError fhandle;
  (** [new_file]: created, an error when the name is taken. *)
  d_new_file : dhandle -> string -> Z -> ST W IoError fhandle;
  (** [update_file]: created or opened for writing, not truncated. *)
  d_update_file : dhandle -> string -> Z -> ST W IoError fhandle;
  d_symlink : dhandle -> string -> Path.t -> ST W IoError unit;
  d_local_rename : dhandle -> string -> string -> ST W IoError unit;
  d_local_exchange : dhandle -> string -> string -> ST W IoError unit;
  d_remove_file : dhandle -> string -> ST W IoError unit;
  d_remove_dir : dhandle -> string -> ST W IoError unit;
  (** [openat::hardlink]. *)
  d_hardlink : dhandle -> string -> dhandle -> string -> ST W IoError unit;
  d_metadata : dhandle -> string -> ST W IoError Metadata;
  (** [list_dir(".")]; the names come without [.] and [..]. *)
  d_list_dir : dhandle -> ST W IoError (list (Res IoError DEntry));
  d_recover_path : dhandle -> W -> Res IoError Path.t;
  (** [seek] to an offset and one [read]. *)
  f_read : fhandle -> nat -> nat -> ST W IoError bytes;
  (** [seek] to an offset and [write_all]. *)
  f_write_all : fhandle -> nat -> bytes -> ST W IoError unit;
  f_set_permissions : fhandle -> Z -> ST W IoError unit;
  (** [futimens] with both times. *)
  f_futimens : fhandle -> Z -> ST W IoError unit;
  f_metadata : fhandle -> ST W IoError FileMeta;
  (** [dir_signature::v1::Hashes::check_file]. *)
  f_check : list bytes -> fhandle -> ST W IoError bool
}.

(** The result of an operation that failed: nothing changed. *)
Definition on_ok {A E} (r : Res E A) (P : A -> Prop) (Q : E -> Prop) : Prop :=
  match r with Ok a => P a | Err e => Q e | Panic => False end.

Class DiskLaws (W : Type) `{DiskOps W} := {
  view : W -> View;
  dino : dhandle -> nat;
  fnode : fhandle -> Node;
  (** The directory a configured path names; it is not replaced. *)
  base_ino : Path.t -> nat;
  (** What [check_file] decides of the bytes of a file. *)
  file_matches : list bytes -> bytes -> bool;
  l_open : forall p w r w', d_open p w = (r, w') -> view w' = view w /\
    on_ok r (fun h => dino h = base_ino p) (fun _ => True);
  l_sub_dir : forall h n w r w', Path.name_ok n = true -> d_sub_dir h n w = (r, w') -> view w' = view w /\
    on_ok r (fun h' => exists x, at_name (view w) (dino h) n = Some x /\ ino x = dino h')
      (fun e => io_kind e = NotFound -> at_name (view w) (dino h) n = None);
  l_create_dir : forall h n m w r w', Path.name_ok n = true -> d_create_dir h n m w = (r, w') ->
    on_ok r (fun _ => exists j, fresh_ino (view w) j /\ is_Some (v_dirs (view w) !! dino h) /\
               at_name (view w) (dino h) n = None /\ view w' = link (dino h) n (NDir j) (new_dir j (view w)))
      (fun e => view w' = view w /\ (io_kind e = AlreadyExists -> is_Some (at_name (view w) (dino h) n)));
  l_open_file : forall h n w r w', Path.name_ok n = true -> d_open_file h n w = (r, w') -> view w' = view w /\
    on_ok r (fun f => at_name (view w) (dino h) n = Some (fnode f))
      (fun e => io_kind e = NotFound -> at_name (view w) (dino h) n = None);
  l_new_file : forall h n m w r w', Path.name_ok n = true -> d_new_file h n m w = (r, w') ->
    on_ok r (fun f => exists j m', fnode f = NFile j /\ fresh_ino (view w) j /\ is_Some (v_dirs (view w) !! dino h) /\
               at_name (view w) (dino h) n = None /\
               view w' = link (dino h) n (NFile j) (set_file j {| fn_data := []; fn_mode := m' |} (view w)))
      (fun e => view w' = view w /\ (io_kind e = AlreadyExists -> is_Some (at_name (view w) (dino h) n)));
  l_update_file : forall h n m w r w', Path.name_ok n = true -> d_update_file h n m w = (r, w') ->
    on_ok r (fun f => exists j, fnode f = NFile j /\
               ((at_name (view w) (dino h) n = Some (NFile j) /\ is_Some (v_files (view w) !! j) /\ view w' = view w) \/
                exists m', fresh_ino (view w) j /\ is_Some (v_dirs (view w) !! dino h) /\
                  at_name (view w) (dino h) n = None /\
                  view w' = link (dino h) n (NFile j) (set_file j {| fn_data := []; fn_mode := m' |} (view w))))
      (fun e => view w' = view w);
  l_symlink : forall h n dest w r w', Path.name_ok n = true -> d_symlink h n dest w = (r, w') ->
    on_ok r (fun _ => exists j, fresh_ino (view w) j /\ is_Some (v_dirs (view w) !! dino h) /\
               at_name (view w) (dino h) n = None /\ view w' = link (dino h) n (NLink j dest) (view w))
      (fun _ => view w' = view w);
  (** A rename onto a link to the same file does nothing. *)
  l_rename : forall h a b w r w', Path.name_ok a = true -> Path.name_ok b = true ->
    d_local_rename h a b w = (r, w') ->
    on_ok r (fun _ => exists x, at_name (view w) (dino h) a = Some x /\
               (view w' = link (dino h) b x (unlink (dino h) a (view w)) \/
                at_name (view w) (dino h) b = Some x /\ view w' = view w))
      (fun e => view w' = view w /\ (io_kind e = NotFound -> at_name (view w) (dino h) a = None));
  l_exchange : forall h a b w r w', Path.name_ok a = true -> Path.name_ok b = true ->
    d_local_exchange h a b w = (r, w') ->
    on_ok r (fun _ => exists x y, at_name (view w) (dino h) a = Some x /\ at_name (view w) (dino h) b = Some y /\
               view w' = link (dino h) a y (link (dino h) b x (view w)))
      (fun _ => view w' = view w);
  l_remove_file : forall h n w r w', Path.name_ok n = true -> d_remove_file h n w = (r, w') ->
    on_ok r (fun _ => view w' = unlink (dino h) n (view w))
      (fun e => view w' = view w /\ (io_kind e = NotFound -> at_name (view w) (dino h) n = None));
  l_remove_dir : forall h n w r w', Path.name_ok n = true -> d_remove_dir h n w = (r, w') ->
    on_ok r (fun _ => view w' = unlink (dino h) n (view w))
      (fun e => view w' = view w /\ (io_kind e = NotFound -> at_name (view w) (dino h) n = None));
  l_hardlink : forall h n h2 n2 w r w', Path.name_ok n = true -> Path.name_ok n2 = true ->
    d_hardlink h n h2 n2 w = (r, w') ->
    on_ok r (fun _ => exists x, at_name (view w) (dino h) n = Some x /\ v_dirs (view w) !! ino x = None /\
               is_Some (v_dirs (view w) !! dino h2) /\ at_name (view w) (dino h2) n2 = None /\
               view w' = link (dino h2) n2 x (view w))
      (fun _ => view w' = view w);
  l_metadata : forall h n w r w', Path.name_ok n = true -> d_metadata h n w = (r, w') -> view w' = view w /\
    on_ok r (fun m => exists x, at_name (view w) (dino h) n = Some x /\
               (meta_type m = TDir <-> x = NDir (ino x)))
      (fun e => io_kind e = NotFound -> at_name (view w) (dino h) n = None);
  l_list_dir : forall h w r w', d_list_dir h w = (r, w') -> view w' = view w /\
    on_ok r (fun es => is_Some (v_dirs (view w) !! dino h) /\
                Forall (fun r => on_ok r (fun e => Path.name_ok (de_name e) = true /\
                  is_Some (at_name (view w) (dino h) (de_name e))) (fun _ => True)) es)
      (** the directory was removed *)
      (fun e => io_kind e = NotFound -> forall i n x, at_name (view w) i n = Some x -> ino x <> dino h);
  l_read : forall f off n w r w', f_read f off n w = (r, w') -> view w' = view w /\
    on_ok r (fun b => exists j x, fnode f = NFile j /\ v_files (view w) !! j = Some x /\
               b `prefix_of` take n (drop off (fn_data x)) /\ (b = [] -> take n (drop off (fn_data x)) = []))
      (fun _ => True);
  l_write_all : forall f off b w r w' j x, f_write_all f off b w = (r, w') -> fnode f = NFile j ->
    v_files (view w) !! j = Some x ->
    on_ok r (fun _ => view w' = set_data j (overwrite (fn_data x) off b) (view w))
      (fun _ => exists k, view w' = set_data j (overwrite (fn_data x) off (take k b)) (view w));
  l_set_permissions : forall f m w r w', f_set_permissions f m w = (r, w') ->
    on_ok r (fun _ => view w' = set_mode_at (fnode f) m (view w)) (fun _ => view w' = view w);
  l_futimens : forall f t w r w', f_futimens f t w = (r, w') -> view w' = view w /\ r <> Panic;
  l_fmetadata : forall f w r w', f_metadata f w = (r, w') -> view w' = view w /\
    on_ok r (fun m => forall j, fnode f = NFile j -> exists x, v_files (view w) !! j = Some x /\
               fm_len m = Z.of_nat (length (fn_data x)) /\ fm_mode m = fn_mode x)
      (fun _ => True);
  l_check : forall hs f w r w', f_check hs f w = (r, w') -> view w' = view w /\
    on_ok r (fun b => exists j x, fnode f = NFile j /\ v_files (view w) !! j = Some x /\
               b = file_matches hs (fn_data x)) (fun _ => True)
}.

(** ** An instance in memory *)

Module MemDisk.

(** [fuse]: how many calls succeed before one fails. *)
Record Mem := { md_view : View; fuse : option nat }.

Definition nf : IoError := {| io_kind := NotFound; io_msg := "not found" |}.
Definition exists_error : IoError := {| io_kind := AlreadyExists; io_msg := "exists" |}.
Definition eio : IoError := {| io_kind := OtherKind 5; io_msg := "input/output error" |}.
Definition enotdir : IoError := {| io_kind := OtherKind 20; io_msg := "not a directory" |}.
Definition enotempty : IoError := {| io_kind := OtherKind 39; io_msg := "not empty" |}.

Definition on_view (f : View -> View) (s : Mem) : Mem := {| md_view := f (md_view s); fuse := fuse s |}.

(** An operation, of the view, that may fail before it starts. *)
Definition op {A} (f : View -> Res IoError A * View) : ST Mem IoError A := fun s =>
  match fuse s with
  | Some O => (Err eio, {| md_view := md_view s; fuse := None |})
  | k => let (r, v) := f (md_view s) in (r, {| md_view := v; fuse := pred <$> k |})
  end.

Definition all_inos (v : View) : list nat :=
  elements (dom (v_dirs v)) ++ elements (dom (v_files v)) ++
  concat (map (fun e => map (fun e => ino (snd e)) (map_to_list (snd e))) (map_to_list (v_dirs v))).
Definition next_ino (v : View) : nat := S (list_max (all_inos v)).

Lemma in_all_inos v j : (is_Some (v_dirs v !! j) \/ is_Some (v_files v !! j) \/
  exists i n x, at_name v i n = Some x /\ ino x = j) -> j ∈ all_inos v.
Proof.
  unfold all_inos. rewrite !elem_of_app, !elem_of_elements, !elem_of_dom.
  intros [H|[H|(i & n & x & H & <-)]]; [by left|by right; left|]. right. right.
  unfold at_name in H. apply bind_Some in H as (ents & Hi & Hn). apply list_elem_of_In, in_concat.
  exists (map (fun e => ino (snd e)) (map_to_list ents)). split.
  - apply (in_map (fun e => map (fun e => ino (snd e)) (map_to_list (snd e))) _ (i, ents)).
    by apply list_elem_of_In, elem_of_map_to_list.
  - apply (in_map (fun e => ino (snd e)) _ (n, x)). by apply list_elem_of_In, elem_of_map_to_list.
Qed.

Lemma next_ino_fresh v : fresh_ino v (next_ino v).
Proof.
  assert (Hn : next_ino v ∉ all_inos v).
  { intros H%list_elem_of_In. assert (next_ino v <= list_max (all_inos v)); [|unfold next_ino in *; lia].
    pose proof (proj1 (list_max_le (all_inos v) _) (le_n _)) as Hall. rewrite List.Forall_forall in Hall. by apply Hall. }
  split_and!.
  - apply eq_None_not_Some. intros H. apply Hn, in_all_inos. by left.
  - apply eq_None_not_Some. intros H. apply Hn, in_all_inos. by right; left.
  - intros i n x H E. apply Hn, in_all_inos. right. right. by exists i, n, x.
Qed.

(** A new node under a free name of a directory. *)
Definition create {A} (h : nat) (n : string) (mk : nat -> Node) (put : nat -> View -> View) (ret : nat -> A) (v : View)
  : Res IoError A * View :=
  match v_dirs v !! h with
  | None => (Err nf, v)
  | Some ents =>
      match ents !! n with
      | Some _ => (Err exists_error, v)
      | None => let j := next_ino v in (Ok (ret j), link h n (mk j) (put j v))
      end
  end.
Definition on_file {A} (x : Node) (f : nat -> FileNode -> View -> Res IoError A * View) (v : View) : Res IoError A * View :=
  match x with
  | NFile j => match v_files v !! j with Some fn => f j fn v | None => (Err nf, v) end
  | _ => (Err eio, v)
  end.

Definition type_of (x : Node) : SimpleType := match x with NDir _ => TDir | NFile _ => TFile | NLink _ _ => TSymlink end.

#[global] Instance mem_disk : DiskOps Mem := {
  dhandle := nat;
  fhandle := Node;
  d_open p := op (fun v => (Ok 0, v));
  d_sub_dir h n := op (fun v => (match at_name v h n with Some x => Ok (ino x) | None => Err nf end, v));
  d_create_dir h n _ := op (create h n NDir new_dir (fun _ => tt));
  d_open_file h n := op (fun v => (match at_name v h n with Some x => Ok x | None => Err nf end, v));
  d_new_file h n m := op (create h n NFile (fun j => set_file j {| fn_data := []; fn_mode := m |}) NFile);
  d_update_file h n m := op (fun v =>
    match at_name v h n with
    | Some (NFile j) => (match v_files v !! j with Some _ => Ok (NFile j) | None => Err eio end, v)
    | Some _ => (Err eio, v)
    | None => create h n NFile (fun j => set_file j {| fn_data := []; fn_mode := m |}) NFile v
    end);
  d_symlink h n dest := op (create h n (fun j => NLink j dest) (fun _ v => v) (fun _ => tt));
  d_local_rename h a b := op (fun v =>
    match at_name v h a with
    | Some x =>
        match at_name v h b with
        | None => (Ok tt, link h b x (unlink h a v))
        | Some _ => (Err exists_error, v)
        end
    | None => (Err nf, v)
    end);
  d_local_exchange h a b := op (fun v =>
    match at_name v h a, at_name v h b with
    | Some x, Some y => (Ok tt, link h a y (link h b x v))
    | _, _ => (Err nf, v)
    end);
  d_remove_file h n := op (fun v =>
    match at_name v h n with
    | Some (NDir _) => (Err eio, v)
    | Some _ => (Ok tt, unlink h n v)
    | None => (Err nf, v)
    end);
  d_remove_dir h n := op (fun v =>
    match at_name v h n with
    | Some (NDir i) => if decide (v_dirs v !! i = Some ∅) then (Ok tt, unlink h n v) else (Err enotempty, v)
    | Some _ => (Err enotdir, v)
    | None => (Err nf, v)
    end);
  d_hardlink h n h2 n2 := op (fun v =>
    match at_name v h n, v_dirs v !! h2, at_name v h2 n2 with
    | Some x, Some _, None => match v_dirs v !! ino x with None => (Ok tt, link h2 n2 x v) | Some _ => (Err eio, v) end
    | _, _, _ => (Err nf, v)
    end);
  d_metadata h n := op (fun v =>
    (match at_name v h n with Some x => Ok {| meta_type := type_of x; st_mtime := 0 |} | None => Err nf end, v));
  d_list_dir h := op (fun v =>
    (match v_dirs v !! h with
     | Some ents => Ok (omap (fun e => if Path.name_ok (fst e) then Some (Ok {| de_name := fst e; de_type := Some (type_of (snd e)) |}) else None)
                          (map_to_list ents))
     | None => Err enotdir
     end, v));
  d_recover_path h m := Ok [Path.RootDir];
  f_read x off n := op (on_file x (fun _ fn v => (Ok (take n (drop off (fn_data fn))), v)));
  f_write_all x off b := op (on_file x (fun j fn v => (Ok tt, set_data j (overwrite (fn_data fn) off b) v)));
  f_set_permissions x m := op (fun v => (Ok tt, set_mode_at x m v));
  f_futimens x _ := op (fun v => (Ok tt, v));
  f_metadata x := op (on_file x (fun _ fn v => (Ok {| fm_len := Z.of_nat (length (fn_data fn)); fm_mode := fn_mode fn |}, v)));
  f_check hs x := op (on_file x (fun _ fn v => (Ok (bool_decide (fn_data fn = concat hs)), v)))
}.

Lemma op_inv {A} (f : View -> Res IoError A * View) s r s' : op f s = (r, s') ->
  (r = Err eio /\ md_view s' = md_view s) \/ f (md_view s) = (r, md_view s').
Proof.
  unfold op. destruct (fuse s) as [[|k]|]; [intros [= <- <-]; by left|..];
    destruct (f (md_view s)) as [r1 v1] eqn:E; intros [= <- <-]; by right.
Qed.

Lemma create_inv {A} h n mk put (ret : nat -> A) v r v' : create h n mk put ret v = (r, v') ->
  on_ok r (fun a => exists j, a = ret j /\ fresh_ino v j /\ is_Some (v_dirs v !! h) /\ at_name v h n = None /\
             v' = link h n (mk j) (put j v))
    (fun e => v' = v /\ (io_kind e = AlreadyExists -> is_Some (at_name v h n))).
Proof.
  unfold create. destruct (v_dirs v !! h) as [ents|] eqn:Hh; [|by intros [= <- <-]].
  destruct (ents !! n) as [x|] eqn:Hn; intros [= <- <-]; cbn.
  - split; [done|]. intros _. exists x. unfold at_name. by rewrite Hh.
  - exists (next_ino v). split_and!; [done|apply next_ino_fresh|by eexists| |done]. unfold at_name. by rewrite Hh.
Qed.

Lemma on_file_inv {A} x (f : nat -> FileNode -> View -> Res IoError A * View) v r v' : on_file x f v = (r, v') ->
  (v' = v /\ exists e, r = Err e) \/
  exists j fn, x = NFile j /\ v_files v !! j = Some fn /\ f j fn v = (r, v').
Proof.
  destruct x as [i|i|i d]; cbn; [intros [= <- <-]; left; eauto| |intros [= <- <-]; left; eauto].
  destruct (v_files v !! i) as [fn|] eqn:E; [eauto 10|]. intros [= <- <-]. left. eauto.
Qed.

Ltac mem_op H := apply op_inv in H as [[-> ->]|H]; [try done|].

#[global] Program Instance mem_disk_laws : DiskLaws Mem := {
  view := md_view;
  dino h := h;
  fnode f := f;
  base_ino _ := 0;
  file_matches hs d := bool_decide (d = concat hs)
}.
Next Obligation. intros p w r w' H. mem_op H. injection H as <- <-. done. Qed.
Next Obligation.
  intros h n w r w' _ H. mem_op H. injection H as <- <-. split; [done|].
  destruct (at_name _ h n) as [x|]; cbn; [by exists x|done].
Qed.
Next Obligation. intros h n m w r w' _ H. mem_op H. apply create_inv in H. destruct r; cbn in *; [|done..]. naive_solver. Qed.
Next Obligation.
  intros h n w r w' _ H. mem_op H. injection H as <- <-. split; [done|]. by destruct (at_name _ h n).
Qed.
Next Obligation.
  intros h n m w r w' _ H. mem_op H. apply create_inv in H. destruct r; cbn in *; [|done..].
  destruct H as (j & -> & H). eauto 10.
Qed.
Next Obligation.
  intros h n m w r w' _ H. mem_op H. destruct (at_name _ h n) as [[i|i|i d]|] eqn:E.
  - by injection H as <- <-.
  - injection H as <- <-. destruct (v_files _ !! i) eqn:Ei; cbn; [|done]. exists i. split; [done|]. left. eauto.
  - by injection H as <- <-.
  - apply create_inv in H. destruct r; cbn in *; [|naive_solver|done]. destruct H as (j & -> & H).
    exists j. split; [done|]. right. exists m. destruct H as (?&?&_&?). by split_and!.
Qed.
Next Obligation.
  intros h n dest w r w' _ H. mem_op H. apply create_inv in H. destruct r; cbn in *; [|naive_solver|done]. naive_solver.
Qed.
Next Obligation.
  intros h a b w r w' _ _ H. mem_op H. destruct (at_name _ h a) as [x|]; [|by injection H as <- <-].
  destruct (at_name _ h b); injection H as <- <-; cbn; [done|]. eauto.
Qed.
Next Obligation.
  intros h a b w r w' _ _ H. mem_op H.
  destruct (at_name _ h a) as [x|]; [|by injection H as <- <-].
  destruct (at_name _ h b) as [y|]; injection H as <- <-; cbn; [|done]. by exists x, y.
Qed.
Next Obligation.
  intros h n w r w' _ H. mem_op H. destruct (at_name _ h n) as [[]|]; by injection H as <- <-.
Qed.
Next Obligation.
  intros h n w r w' _ H. mem_op H. destruct (at_name _ h n) as [[i| |]|]; [|by injection H as <- <-..].
  case_decide; by injection H as <- <-.
Qed.
Next Obligation.
  intros h n h2 n2 w r w' _ _ H. mem_op H. destruct (at_name _ h n) as [x|]; [|by injection H as <- <-].
  repeat case_match; injection H as <- <-; cbn; try done. exists x. split_and!; eauto.
Qed.
Next Obligation.
  intros h n w r w' _ H. mem_op H. injection H as <- <-. split; [done|].
  destruct (at_name _ h n) as [x|]; cbn; [|done]. exists x. split; [done|]. by destruct x.
Qed.
Next Obligation.
  intros h w r w' H. mem_op H. injection H as <- <-. split; [done|].
  case_match eqn:Eh; cbn; [|done]. split; [by eexists|].
  apply Forall_forall. intros r ([n x] & Hin%elem_of_map_to_list & Hx)%list_elem_of_omap. cbn in Hx.
  destruct (Path.name_ok n) eqn:E; [|done].
  injection Hx as <-. cbn. split; [done|]. exists x. apply bind_Some. eauto.
Qed.
Next Obligation.
  intros f off n w r w' H. mem_op H. apply on_file_inv in H as [[-> [e ->]]|(i & fn & E & Hfn & H)]; [done|]. injection H as <- <-. split; [done|]. cbn.
  by exists i, fn.
Qed.
Next Obligation.
  intros f off b w r w' j x H Hf Hx. cbn in Hf. subst f. apply op_inv in H as [[-> ->]|H]; cbn.
  - exists 0. unfold overwrite, set_data. cbn. destruct (md_view w) as [ds fs]. cbn in *. f_equal. symmetry. apply alter_id.
    intros y Hy. destruct y, x. by simplify_eq.
  - cbn in H. rewrite Hx in H. by injection H as <- <-.
Qed.
Next Obligation. intros f m w r w' H. mem_op H. by injection H as <- <-. Qed.
Next Obligation. intros f t w r w' H. mem_op H. by injection H as <- <-. Qed.
Next Obligation.
  intros f w r w' H. mem_op H. apply on_file_inv in H as [[-> [e ->]]|(i & fn & E & Hfn & H)]; [done|]. injection H as <- <-. split; [done|]. cbn.
  intros j Hj. rewrite E in Hj. injection Hj as ->. by exists fn.
Qed.
Next Obligation.
  intros hs f w r w' H. mem_op H. apply on_file_inv in H as [[-> [e ->]]|(i & fn & E & Hfn & H)]; [done|]. injection H as <- <-. split; [done|]. cbn.
  by exists i, fn.
Qed.

End MemDisk.
