(* ===== verification/DiskGraph.v ===== *)
(** * How views of the file system change

    Reachability between directories, and two preorders of views: [grows t],
    a tree is being filled below the directory [t] and nothing else changes;
    [removes p n], names may vanish below the name [n] of the directory [p] and
    nothing else changes. *)
From S2P Require Import Prelude Serde VirtualPath Fs DiskFs.

Definition edge (v : View) (i j : nat) : Prop := exists n x, at_name v i n = Some x /\ ino x = j.
Definition reach (v : View) : nat -> nat -> Prop := rtc (edge v).

Definition is_dir (v : View) (i : nat) : Prop := is_Some (v_dirs v !! i).
Definition same_data (v v' : View) : Prop :=
  forall j f, v_files v !! j = Some f -> exists f', v_files v' !! j = Some f' /\ fn_data f' = fn_data f.

Lemma at_name_dir v i n x : at_name v i n = Some x -> is_dir v i.
Proof. unfold at_name, is_dir. intros (ents & -> & _)%bind_Some. by eexists. Qed.

Lemma at_name_dirs v v' i n : v_dirs v' !! i = v_dirs v !! i -> at_name v' i n = at_name v i n.
Proof. unfold at_name. by intros ->. Qed.

Lemma at_name_link v i n x i' n' : at_name (link i n x v) i' n' =
  if decide (i' = i /\ n' = n /\ is_dir v i) then Some x else at_name v i' n'.
Proof.
  unfold at_name, link, is_dir. cbn. rewrite lookup_alter. destruct (decide (i = i')) as [<-|Hi].
  - destruct (v_dirs v !! i) as [ents|]; cbn; [|by rewrite decide_False by (intros (_ & _ & [? ?]); done)].
    destruct (decide (n' = n)) as [->|Hn]; [by rewrite lookup_insert_eq, decide_True by eauto|].
    rewrite lookup_insert_ne by done. rewrite decide_False; [done|]. by intros (_ & ? & _).
  - rewrite decide_False; [done|]. intros (? & _). congruence.
Qed.

Lemma at_name_unlink v i n i' n' : at_name (unlink i n v) i' n' =
  if decide (i' = i /\ n' = n) then None else at_name v i' n'.
Proof.
  unfold at_name, unlink. cbn. rewrite lookup_alter. destruct (decide (i = i')) as [<-|Hi].
  - destruct (v_dirs v !! i) as [ents|]; cbn; [|by case_decide].
    destruct (decide (n' = n)) as [->|Hn]; [by rewrite lookup_delete_eq, decide_True|].
    rewrite lookup_delete_ne by done. rewrite decide_False; [done|]. by intros (_ & ?).
  - rewrite decide_False; [done|]. intros (? & _). congruence.
Qed.

Lemma is_dir_link i n x v j : is_dir (link i n x v) j <-> is_dir v j.
Proof. unfold is_dir, link. cbn. rewrite lookup_alter. case_decide as E; [subst|done]. by rewrite fmap_is_Some. Qed.
Lemma is_dir_unlink i n v j : is_dir (unlink i n v) j <-> is_dir v j.
Proof. unfold is_dir, unlink. cbn. rewrite lookup_alter. case_decide as E; [subst|done]. by rewrite fmap_is_Some. Qed.

Lemma reach_mono v v' i j : (forall i n x, at_name v i n = Some x -> at_name v' i n = Some x) -> reach v i j -> reach v' i j.
Proof. intros H. apply rtc_subrel. intros a b (n & x & Ha & Hx). exists n, x. eauto. Qed.

(** Induction from the far end. *)
Lemma reach_ind v i (P : nat -> Prop) : P i ->
  (forall j n x, reach v i j -> at_name v j n = Some x -> P j -> P (ino x)) -> forall j, reach v i j -> P j.
Proof. intros H0 Hs. apply rtc_ind_r; [done|]. intros j k Hj (n & x & Hn & <-) Hp. by apply (Hs j n x). Qed.

Lemma reach_step v i j n x : reach v i j -> at_name v j n = Some x -> reach v i (ino x).
Proof. intros Hj Hn. eapply rtc_r; [exact Hj|]. by exists n, x. Qed.

(** Two views that agree on what is reachable in one of them. *)
Lemma reach_agree v v' i j : (forall k n, reach v i k -> at_name v' k n = at_name v k n) -> reach v' i j -> reach v i j.
Proof.
  intros H. revert j. apply reach_ind; [apply rtc_refl|]. intros j n x _ Hn IH.
  apply (reach_step v i j n x IH). by rewrite <- H.
Qed.

(** ** Directories form trees *)

(** Every directory has one name, and no directory is below itself. *)
Record forest (v : View) : Prop := {
  f_parent : forall i1 n1 x1 i2 n2 x2, at_name v i1 n1 = Some x1 -> at_name v i2 n2 = Some x2 -> ino x1 = ino x2 ->
    is_dir v (ino x1) -> i1 = i2 /\ n1 = n2;
  f_acyclic : forall i n x, at_name v i n = Some x -> ~ reach v (ino x) i
}.

Lemma forest_sub v v' : (forall i n x, at_name v' i n = Some x -> at_name v i n = Some x) ->
  (forall i, is_dir v' i <-> is_dir v i) -> forest v -> forest v'.
Proof.
  intros Hs Hd [Hp Ha]. split.
  - intros i1 n1 x1 i2 n2 x2 H1%Hs H2%Hs E Hx%Hd. by apply (Hp i1 n1 x1 i2 n2 x2).
  - intros i n x Hn Hr. apply (Ha i n x); [by apply Hs|]. by eapply reach_mono.
Qed.

(** A new name, of a number that nothing referred to or that has no names. *)
Lemma forest_link v v1 d n x : at_name v d n = None -> ~ is_dir v (ino x) -> is_dir v d ->
  (forall i m, at_name v1 i m = at_name v i m) -> (forall i, is_dir v1 i -> i = ino x \/ is_dir v i) ->
  (~ is_dir v1 (ino x) \/ forall i m y, at_name v i m = Some y -> ino y <> ino x) ->
  forest v -> forest (link d n x v1).
Proof.
  intros Hn Hx Hd Hat Hdir Hnew [Hp Ha].
  assert (Hold : forall i m y, ~ (i = d /\ m = n) -> at_name (link d n x v1) i m = Some y -> at_name v i m = Some y).
  { intros i m y Hne. rewrite at_name_link, decide_False, Hat by tauto. done. }
  split.
  - intros i1 n1 x1 i2 n2 x2 H1 H2 E Hdx. rewrite is_dir_link in Hdx. rewrite at_name_link in H1, H2.
    rewrite Hat in H1, H2. destruct (decide (i1 = d /\ n1 = n /\ _)) as [D1|D1], (decide (i2 = d /\ n2 = n /\ _)) as [D2|D2].
    + naive_solver.
    + injection H1 as <-. destruct Hnew as [?|Hnew]; [done|]. destruct (Hnew i2 n2 x2 H2); congruence.
    + injection H2 as <-. rewrite E in Hdx. destruct Hnew as [?|Hnew]; [done|]. destruct (Hnew i1 n1 x1 H1); congruence.
    + destruct (Hdir _ Hdx) as [Ex|Hdv]; [|by apply (Hp i1 n1 x1 i2 n2 x2)].
      rewrite Ex in Hdx. destruct Hnew as [?|Hnew]; [done|]. destruct (Hnew i1 n1 x1 H1); congruence.
  - assert (Hrx : forall j, reach (link d n x v1) (ino x) j -> j = ino x).
    { apply reach_ind; [done|]. intros j m y _ Hy ->. destruct (decide (ino x = d /\ m = n)) as [[E _]|Hne]; [by rewrite E in Hx|].
      apply Hold in Hy; [|tauto]. by apply at_name_dir in Hy. }
    assert (Hr : forall i j, reach (link d n x v1) i j -> j = ino x \/ reach v i j).
    { intros i. apply reach_ind; [right; apply rtc_refl|]. intros j m y _ Hy [->|Hr].
      - destruct (decide (ino x = d /\ m = n)) as [[E _]|Hne]; [by rewrite E in Hx|]. apply Hold in Hy; [|tauto]. by apply at_name_dir in Hy.
      - destruct (decide (j = d /\ m = n)) as [[-> ->]|Hne].
        + rewrite at_name_link in Hy. case_decide as E; [injection Hy as <-; by left|]. rewrite Hat in Hy. congruence.
        + apply Hold in Hy; [|tauto]. right. by eapply reach_step. }
    intros i m y Hy Hi. destruct (decide (i = d /\ m = n)) as [[-> ->]|Hne].
    + rewrite at_name_link in Hy. case_decide; [|rewrite Hat in Hy; congruence]. injection Hy as <-.
      apply Hrx in Hi. by subst d.
    + apply Hold in Hy; [|tauto]. destruct (Hr _ _ Hi) as [->|Hi']; [by apply at_name_dir in Hy|]. by apply (Ha i m y).
Qed.

(** ** Growth below a directory *)

Record grows (t : nat) (v v' : View) : Prop := {
  g_keeps : forall i n x, at_name v i n = Some x -> at_name v' i n = Some x;
  g_other : forall i n, is_dir v i -> ~ reach v t i -> at_name v' i n = at_name v i n;
  g_reach : forall i, is_dir v i -> reach v' t i -> reach v t i;
  g_dirs : forall i, is_dir v i -> is_dir v' i;
  g_leaf : forall i n x, at_name v i n = Some x -> ~ is_dir v (ino x) -> ~ is_dir v' (ino x);
  g_data : same_data v v';
  g_forest : forest v -> forest v'
}.

#[export] Instance grows_preorder t : PreOrder (grows t).
Proof.
  split.
  - intros v. split; try done. intros j f Hj. by exists f.
  - intros v1 v2 v3 H1 H2. split.
    + intros i n x Hi. by apply (g_keeps _ _ _ H2), (g_keeps _ _ _ H1).
    + intros i n Hd Hr. rewrite (g_other _ _ _ H2); [by apply (g_other _ _ _ H1)|by apply (g_dirs _ _ _ H1)|].
      intros Hr2. by apply Hr, (g_reach _ _ _ H1).
    + intros i Hd Hr. apply (g_reach _ _ _ H1); [done|]. apply (g_reach _ _ _ H2); [by apply (g_dirs _ _ _ H1)|done].
    + intros i Hd. by apply (g_dirs _ _ _ H2), (g_dirs _ _ _ H1).
    + intros i n x Hi Hx. apply (g_leaf _ _ _ H2 i n); [by apply (g_keeps _ _ _ H1)|by apply (g_leaf _ _ _ H1 i n)].
    + intros j f (f1 & Hf1 & <-)%(g_data _ _ _ H1). apply (g_data _ _ _ H2) in Hf1 as (f2 & Hf2 & <-). by exists f2.
    + intros Hf. by apply (g_forest _ _ _ H2), (g_forest _ _ _ H1).
Qed.

Lemma grows_same t v v' : v_dirs v' = v_dirs v -> same_data v v' -> grows t v v'.
Proof.
  intros Hd Hf. assert (Hat : forall i n, at_name v' i n = at_name v i n) by (intros; unfold at_name; by rewrite Hd).
  assert (Hdir : forall i, is_dir v' i <-> is_dir v i) by (intros i; unfold is_dir; by rewrite Hd).
  split.
  - intros i n x. by rewrite Hat.
  - intros; apply Hat.
  - intros i _. apply reach_mono. intros *. by rewrite Hat.
  - intros i. by rewrite Hdir.
  - intros i n x _. by rewrite Hdir.
  - done.
  - apply forest_sub; [|done]. intros i n x. by rewrite Hat.
Qed.

(** A new name in a directory below [t]; what it stands for may have been made
    just before, as an empty directory or a file. *)
Lemma grows_link t v v1 d n x : reach v t d -> at_name v d n = None -> ~ is_dir v (ino x) -> is_dir v d ->
  (forall i, i <> ino x -> v_dirs v1 !! i = v_dirs v !! i) ->
  (v_dirs v1 !! ino x = None \/ v_dirs v1 !! ino x = Some ∅ /\ forall i m y, at_name v i m = Some y -> ino y <> ino x) ->
  same_data v v1 -> grows t v (link d n x v1).
Proof.
  intros Hr Hn Hx Hdir Hothers Hnew Hdata.
  assert (Hdx : d <> ino x) by (intros ->; done).
  assert (Hat1 : forall i m, at_name v1 i m = at_name v i m).
  { intros i m. destruct (decide (i = ino x)) as [->|Hi]; [|by apply at_name_dirs, Hothers].
    unfold at_name. destruct (v_dirs v !! ino x) eqn:E; [destruct Hx; by eexists|].
    destruct Hnew as [->|[-> _]]; done. }
  assert (Hd1 : forall i, is_dir v i -> is_dir v1 i).
  { intros i Hi. unfold is_dir. rewrite Hothers; [done|]. by intros ->. }
  split.
  - intros i m y Hi. rewrite at_name_link, Hat1. case_decide as E; [|done]. destruct E as (-> & -> & _). congruence.
  - intros i m Hi Hnr. rewrite at_name_link, Hat1. case_decide as E; [|done]. by destruct E as (-> & _).
  - intros i Hi Hri. assert (Hor : reach v t i \/ i = ino x); [|destruct Hor as [?| ->]; done].
    clear Hi. revert i Hri. apply reach_ind; [left; apply rtc_refl|]. intros k m y _ Hm IH.
    rewrite at_name_link, Hat1 in Hm. case_decide as E; [injection Hm as <-; by right|].
    left. destruct IH as [Hrk| ->].
    + by eapply reach_step.
    + apply at_name_dir in Hm. done.
  - intros i Hi. by apply is_dir_link, Hd1.
  - intros i m y Hi Hy. rewrite is_dir_link. unfold is_dir. destruct (decide (ino y = ino x)) as [E|E].
    + rewrite E. destruct Hnew as [->|[-> Hfr]]; [by intros [? ?]|]. by destruct (Hfr i m y Hi).
    + by rewrite Hothers.
  - done.
  - apply forest_link; [done..| |].
    + intros i Hi. destruct (decide (i = ino x)) as [->|Hne]; [by left|]. right. unfold is_dir. by rewrite <- Hothers.
    + destruct Hnew as [Hnew|[_ Hnew]]; [left|by right]. unfold is_dir. rewrite Hnew. by intros [? ?].
Qed.

Lemma grows_mkdir t v d n j : reach v t d -> is_dir v d -> at_name v d n = None -> fresh_ino v j ->
  grows t v (link d n (NDir j) (new_dir j v)).
Proof.
  intros Hr Hd Hn (Hj & _ & Hfr). apply grows_link; cbn; [done|done|by unfold is_dir; rewrite Hj; intros [? ?]|done| | |].
  - intros i Hi. by rewrite lookup_insert_ne.
  - right. rewrite lookup_insert_eq. split; [done|]. intros. by eapply Hfr.
  - intros k f Hk. by exists f.
Qed.

Lemma grows_mkfile t v d n j f : reach v t d -> is_dir v d -> at_name v d n = None -> fresh_ino v j ->
  grows t v (link d n (NFile j) (set_file j f v)).
Proof.
  intros Hr Hd Hn (Hj & Hf & Hfr). apply grows_link; cbn; [done|done|by unfold is_dir; rewrite Hj; intros [? ?]|done|done|by left|].
  intros k g Hk. exists g. split; [|done]. cbn. rewrite lookup_insert_ne; [done|]. intros ->. congruence.
Qed.

Lemma grows_mklink t v d n x : reach v t d -> is_dir v d -> at_name v d n = None -> v_dirs v !! ino x = None ->
  grows t v (link d n x v).
Proof.
  intros Hr Hd Hn Hj. apply grows_link; cbn; [done|done|by unfold is_dir; rewrite Hj; intros [? ?]|done|done|by left|].
  intros k g Hk. by exists g.
Qed.

Lemma grows_mode t v x m : grows t v (set_mode_at x m v).
Proof.
  destruct x as [| j |]; [reflexivity| |reflexivity]. apply grows_same; [done|].
  intros k f Hk. cbn. destruct (decide (k = j)) as [->|Hne].
  - rewrite lookup_alter_eq, Hk. by eexists.
  - rewrite lookup_alter_ne by done. by exists f.
Qed.

Lemma grows_reach t v v' i : grows t v v' -> reach v t i -> reach v' t i.
Proof. intros H. apply reach_mono, H. Qed.

(** ** Siblings *)

(** What the names of [p] stand for are trees apart, none with [p] in it. *)
Definition siblings_apart (v : View) (p : nat) : Prop :=
  (forall n x, at_name v p n = Some x -> ~ reach v (ino x) p) /\
  (forall n1 n2 x1 x2 i, at_name v p n1 = Some x1 -> at_name v p n2 = Some x2 -> n1 <> n2 ->
     reach v (ino x1) i -> reach v (ino x2) i -> ~ is_dir v i).

Lemma forest_apart v p : forest v -> siblings_apart v p.
Proof.
  intros [Hp Ha]. split; [intros n x; apply Ha|]. intros n1 n2 x1 x2 i H1 H2 Hne Hr1.
  revert i Hr1. apply (reach_ind v (ino x1) (fun i => reach v (ino x2) i -> ~ is_dir v i)).
  - intros Hr2 Hd. apply rtc_inv_r in Hr2 as [E|(l & Hl & m & y & Hy & E)].
    + by destruct (Hp p n1 x1 p n2 x2 H1 H2 (eq_sym E) Hd) as [_ ?].
    + destruct (Hp p n1 x1 l m y) as [<- _]; [done..|]. by apply (Ha p n2 x2).
  - intros j n x Hj Hx IH Hr2 Hd. apply rtc_inv_r in Hr2 as [E|(l & Hl & m & y & Hy & E)].
    + destruct (Hp j n x p n2 x2) as [-> _]; [done..|]. by apply (Ha p n1 x1).
    + destruct (Hp j n x l m y) as [<- _]; [done..|]. apply IH; [done|]. by eapply at_name_dir.
Qed.

(** The tree below [i] is the same. *)
Definition same_tree (v v' : View) (i : nat) : Prop := forall k n, reach v i k -> at_name v' k n = at_name v k n.

Lemma same_tree_trans v1 v2 v3 i : same_tree v1 v2 i -> same_tree v2 v3 i -> same_tree v1 v3 i.
Proof.
  intros H1 H2 k n Hk. rewrite H2; [by apply H1|]. clear n. revert k Hk. apply reach_ind; [apply rtc_refl|]. intros k m x Hk Hm IH.
  apply (reach_step v2 i k m x IH). by rewrite H1.
Qed.

(** While the tree of one name grows, its siblings and their directory stay. *)
Lemma grows_siblings t v v' p a : siblings_apart v p -> at_name v p a = Some (NDir t) -> is_dir v t -> grows t v v' ->
  (forall n, at_name v' p n = at_name v p n) /\
  (forall n x, n <> a -> at_name v p n = Some x -> same_tree v v' (ino x)) /\
  siblings_apart v' p.
Proof.
  intros [Hp Hs] Ha Ht Hg.
  assert (Hpn : forall n, at_name v' p n = at_name v p n).
  { intros n. apply (g_other _ _ _ Hg); [by eapply at_name_dir|]. apply (Hp a (NDir t) Ha). }
  assert (Hst : forall n x, n <> a -> at_name v p n = Some x -> same_tree v v' (ino x)).
  { intros n x Hn Hx k m Hk. destruct (v_dirs v !! k) as [ents|] eqn:E.
    - apply (g_other _ _ _ Hg); [by eexists|]. intros Hr. refine (Hs n a x (NDir t) k Hx Ha Hn Hk Hr _). by eexists.
    - assert (Hnd : ~ is_dir v k) by (unfold is_dir; rewrite E; by intros [? ?]).
      assert (Hnd' : ~ is_dir v' k).
      { apply rtc_inv_r in Hk as [<-|(l & _ & (m' & y & Hy & <-))]; [by apply (g_leaf _ _ _ Hg p n x)|].
        by apply (g_leaf _ _ _ Hg l m' y). }
      destruct (at_name v k m) eqn:E1; [by apply at_name_dir in E1|].
      destruct (at_name v' k m) eqn:E2; [by apply at_name_dir in E2|done]. }
  split_and!; [done|done|]. split.
  - intros n x Hx Hr. rewrite Hpn in Hx. destruct (decide (n = a)) as [->|Hn].
    + rewrite Ha in Hx. injection Hx as <-. apply (Hp a _ Ha). apply (g_reach _ _ _ Hg); [by eapply at_name_dir|done].
    + apply (Hp n x Hx). eapply reach_agree; [|exact Hr]. intros k m. by apply (Hst n).
  - assert (Hone : forall n x i, at_name v p n = Some x -> reach v' (ino x) i -> reach v (ino x) i \/
      n = a /\ ~ is_dir v i).
    { intros n x i Hx Hr. destruct (decide (n = a)) as [->|Hn].
      - rewrite Ha in Hx. injection Hx as <-. destruct (v_dirs v !! i) eqn:E.
        + left. apply (g_reach _ _ _ Hg); [by eexists|done].
        + right. split; [done|]. unfold is_dir. rewrite E. by intros [? ?].
      - left. eapply reach_agree; [|exact Hr]. intros k m. by apply (Hst n). }
    intros n1 n2 x1 x2 i H1 H2 Hne Hr1 Hr2 Hi. rewrite Hpn in H1, H2.
    pose proof (Hone n1 x1 i H1 Hr1) as Ho1. pose proof (Hone n2 x2 i H2 Hr2) as Ho2.
    destruct (decide (is_dir v i)) as [Hd|Hd].
    + destruct Ho1 as [Ho1|[_ ?]]; [|done]. destruct Ho2 as [Ho2|[_ ?]]; [|done].
      by apply (Hs n1 n2 x1 x2 i).
    + (* a directory made since is only below [a] *)
      assert (Hin : forall n x, n <> a -> at_name v p n = Some x -> reach v (ino x) i -> ~ is_dir v' i).
      { intros n x Hn Hx Hk. apply rtc_inv_r in Hk as [<-|(l & _ & (m' & y & Hy & <-))]; [by apply (g_leaf _ _ _ Hg p n x)|].
        by apply (g_leaf _ _ _ Hg l m' y). }
      destruct (decide (n1 = a)) as [->|Hn1].
      * destruct Ho2 as [Ho2|[-> _]]; [|done]. by apply (Hin n2 x2).
      * destruct Ho1 as [Ho1|[-> _]]; [|done]. by apply (Hin n1 x1).
Qed.

(** ** Removal *)

(** Names that may vanish, and nothing else. *)
Record removes (S : nat -> string -> Prop) (v v' : View) : Prop := {
  r_files : v_files v' = v_files v;
  r_dirs : forall i, is_dir v' i <-> is_dir v i;
  r_names : forall i n, at_name v' i n = at_name v i n \/ at_name v' i n = None /\ S i n
}.

#[export] Instance removes_preorder S : PreOrder (removes S).
Proof.
  split; [by intros v; split; auto|]. intros v1 v2 v3 H1 H2. split.
  - by rewrite (r_files _ _ _ H2), (r_files _ _ _ H1).
  - intros i. by rewrite (r_dirs _ _ _ H2), (r_dirs _ _ _ H1).
  - intros i n. destruct (r_names _ _ _ H2 i n) as [E|E]; [|by right]. rewrite E. apply (r_names _ _ _ H1).
Qed.

Lemma removes_weaken (S S' : nat -> string -> Prop) v v' : (forall i n, S i n -> S' i n) -> removes S v v' -> removes S' v v'.
Proof. intros HS H. split; [apply H..|]. intros i n. destruct (r_names _ _ _ H i n) as [?|[? ?]]; auto. Qed.

Lemma removes_sub S v v' i n x : removes S v v' -> at_name v' i n = Some x -> at_name v i n = Some x.
Proof. intros H Hn. destruct (r_names _ _ _ H i n) as [<-|[E _]]; [done|congruence]. Qed.

Lemma removes_unlink (S : nat -> string -> Prop) v i n : S i n -> removes S v (unlink i n v).
Proof.
  intros HS. split; [done|intros j; apply is_dir_unlink|]. intros j m. rewrite at_name_unlink.
  case_decide as E; [destruct E as [-> ->]; by right|by left].
Qed.

(** The name [n] of the directory [p] and everything below it. *)
Definition below (v : View) (p : nat) (n : string) (i : nat) (m : string) : Prop :=
  (i = p /\ m = n) \/ exists x, at_name v p n = Some x /\ reach v (ino x) i.

Lemma below_sub S v v' p n i m : removes S v v' -> below v' p n i m -> below v p n i m.
Proof.
  intros H [?|(x & Hx & Hr)]; [by left|]. right. exists x. split; [by eapply removes_sub|].
  eapply reach_mono; [|exact Hr]. intros *. by apply (removes_sub S).
Qed.

(** Below an entry of a directory is below the directory. *)
Lemma below_entry v p n x m i k : at_name v p n = Some x -> below v (ino x) m i k -> below v p n i k.
Proof.
  intros Hx [[-> _]|(y & Hy & Hr)]; right; exists x; (split; [done|]); [apply rtc_refl|].
  eapply rtc_l; [|exact Hr]. by exists m, y.
Qed.

(** The directories below the name [n] of [p] are less than [fuel] deep: a
    measure goes down along the names. *)
Definition fits (v : View) (p : nat) (n : string) (fuel : nat) : Prop :=
  forall x, at_name v p n = Some x -> exists rk : nat -> nat, rk (ino x) < fuel /\
    forall i m y, reach v (ino x) i -> at_name v i m = Some y -> rk (ino y) < rk i.

Lemma fits_sub S v v' p n fuel : removes S v v' -> fits v p n fuel -> fits v' p n fuel.
Proof.
  intros H Hf x Hx. destruct (Hf x) as (rk & Hrk & Hd); [by eapply removes_sub|]. exists rk. split; [done|].
  intros i m y Hi Hy. apply (Hd i m y); [|by eapply removes_sub]. eapply reach_mono; [|exact Hi]. intros *. by apply (removes_sub S).
Qed.

Lemma fits_entry v p n x m fuel : fits v p n (S fuel) -> at_name v p n = Some x -> is_Some (at_name v (ino x) m) ->
  0 < fuel /\ fits v (ino x) m fuel.
Proof.
  intros Hf Hx [y Hy]. destruct (Hf x Hx) as (rk & Hrk & Hd). pose proof (Hd (ino x) m y (rtc_refl _ _) Hy). split; [lia|].
  intros y' Hy'. rewrite Hy in Hy'. injection Hy' as <-. exists rk. split; [lia|].
  intros i k z Hi Hz. apply (Hd i k z); [|done]. eapply rtc_l; [|exact Hi]. by exists m, y.
Qed.

Lemma fits_same v v' p q n n' fuel x : at_name v p n = Some x -> at_name v' q n' = Some x -> same_tree v v' (ino x) ->
  fits v p n fuel -> fits v' q n' fuel.
Proof.
  intros Hx Hx' Hs Hf x' E. rewrite Hx' in E. injection E as <-. destruct (Hf x Hx) as (rk & Hrk & Hd). exists rk.
  split; [done|]. intros i m y Hi Hy.
  assert (Hi' : reach v (ino x) i) by (eapply reach_agree; [|exact Hi]; intros; by apply Hs).
  apply (Hd i m y Hi'). by rewrite <- (Hs i m Hi').
Qed.

(** Only names of [p] changed: the trees below its names did not. *)
Lemma same_tree_names v v' p x : (forall i n, i <> p -> at_name v' i n = at_name v i n) -> ~ reach v (ino x) p ->
  same_tree v v' (ino x).
Proof. intros H Hp k n Hk. apply H. by intros ->. Qed.

Lemma same_tree_reach v v' i j : same_tree v v' i -> reach v' i j -> reach v i j.
Proof. intros H. apply reach_agree. intros k n Hk. by apply H. Qed.

(** What an exchange of two names leaves. *)
Lemma siblings_exchange v p a b x y : siblings_apart v p -> at_name v p a = Some x -> at_name v p b = Some y -> a <> b ->
  let v' := link p a y (link p b x v) in
  siblings_apart v' p /\ at_name v' p a = Some y /\ at_name v' p b = Some x /\
  (forall i n, (i <> p \/ n <> a /\ n <> b) -> at_name v' i n = at_name v i n).
Proof.
  intros [Hp Hs] Ha Hb Hab v'. assert (Hd : is_dir v p) by (by eapply at_name_dir).
  assert (Hat : forall i n, at_name v' i n = if decide (i = p /\ n = a) then Some y
                              else if decide (i = p /\ n = b) then Some x else at_name v i n).
  { intros i n. unfold v'. rewrite !at_name_link.
    destruct (decide (i = p /\ n = a)) as [[-> ->]|H1]; [by rewrite decide_True by (by rewrite is_dir_link)|].
    rewrite decide_False by tauto. destruct (decide (i = p /\ n = b)) as [[-> ->]|H2]; [by rewrite decide_True|].
    by rewrite decide_False by tauto. }
  pose (perm n := if decide (n = a) then b else if decide (n = b) then a else n).
  assert (Hperm : forall n, at_name v' p n = at_name v p (perm n)).
  { intros n. rewrite Hat. unfold perm. destruct (decide (n = a)) as [->|Hna]; [by rewrite decide_True|].
    rewrite decide_False by tauto. destruct (decide (n = b)) as [->|Hnb]; [by rewrite decide_True|].
    by rewrite decide_False by tauto. }
  assert (Hinj : forall m n, perm m = perm n -> m = n) by (intros m n; unfold perm; repeat case_decide; congruence).
  assert (Hst : forall n z, at_name v p n = Some z -> same_tree v v' (ino z)).
  { intros n z Hz. apply (same_tree_names v v' p); [|by eapply Hp]. intros i m Hi. rewrite Hat.
    rewrite !decide_False; [done|tauto..]. }
  split_and!.
  - split.
    + intros n z Hz Hr. rewrite Hperm in Hz. apply (Hp _ _ Hz). eapply same_tree_reach; [by eapply Hst|done].
    + intros n1 n2 x1 x2 i H1 H2 Hne Hr1 Hr2. rewrite Hperm in H1, H2. unfold v'. rewrite !is_dir_link.
      apply (Hs (perm n1) (perm n2) x1 x2 i H1 H2); [by intros ?%Hinj|eapply same_tree_reach; [by eapply Hst|done]..].
  - rewrite Hat. by rewrite decide_True.
  - rewrite Hat, decide_False by (intros [_ ?]; congruence). by rewrite decide_True.
  - intros i n Hn. rewrite Hat, !decide_False; [done|tauto..].
Qed.
