(* ===== verification/DiskDir.v ===== *)
(** * Work on directories: [src/daemon/disk/dir.rs] and [src/daemon/disk/error.rs]

    Opening and creating directories along a path, and removing a directory
    with all it holds.  A removal first renames the directory away, so that
    its name never stands for half of a directory.  Recursion over the file
    system takes fuel; [OutOfFuel] is not an error of the source. *)
From S2P Require Import Prelude Serde VirtualPath Fs DiskFs DiskGraph.
Local Open Scope st_scope.
Import VPath.

(** ** [enum Error] *)

Inductive Error :=
| NoDir (dir : VPath)
| OpenBase (dir : Path.t) (e : IoError)
| OpenDir (dir : Path.t) (e : IoError)
| CreateDir (dir : Path.t) (e : IoError)
| CreateDirRace (dir : Path.t) (e : IoError)
| WriteFile (path : Path.t) (e : IoError)
| RenameDir (path : Path.t) (e : IoError)
| Hardlink (path : Path.t) (e : IoError)
| SetTimestamp (path : Path.t) (e : IoError)
| ReadFile (path : Path.t) (e : IoError)
| ReadKeepList (path : Path.t) (e : IoError)
| SetPermissions (path : Path.t) (e : IoError)
| CreateSymlink (path : Path.t) (e : IoError)
| Checksum (path : Path.t)
| Commit (path : Path.t) (e : IoError)
| Delete (path : Path.t) (e : IoError)
| AlreadyExists
| ExistsNotADir (path : Path.t).

Inductive Stop := Failed (e : Error) | OutOfFuel.

Section Dir.
Context {W : Type} `{DiskOps W}.

Definition Op (A : Type) : Type := ST W Stop A.

(** [match operation { .. }]. *)
Definition on_io {A B} (m : ST W IoError A) (k : Res IoError A -> Op B) : Op B := fun w => let (r, w') := m w in k r w'.
(** An error that names a path of the directory. *)
Definition fail {A} (f : W -> Error) : Op A := fun w => (Err (Failed (f w)), w).
Definition panic {A} : Op A := fun w => (Panic, w).
(** [operation.map_err(..)?]. *)
Definition map_io {A} (m : ST W IoError A) (f : IoError -> W -> Error) : Op A :=
  on_io m (fun r => match r with Ok a => st_ret a | Err e => fail (f e) | Panic => panic end).

(** A call whose error [NotFound] is another result. *)
Definition if_found {A B} (m : ST W IoError A) (ok : A -> Op B) (absent : Op B) (f : IoError -> W -> Error) : Op B :=
  on_io m (fun r => match r with
    | Ok a => ok a
    | Err e => if decide (io_kind e = NotFound) then absent else fail (f e)
    | Panic => panic
    end).

(** [skip_not_found(..).map_err(..)?]. *)
Definition skip_not_found (m : ST W IoError unit) (f : IoError -> W -> Error) : Op unit :=
  if_found m st_ret (st_ret tt) f.

(** [recover_path]. *)
Definition recover_path (d : dhandle) (p : Path.t) (w : W) : Path.t :=
  match d_recover_path d w with
  | Ok base => Path.join base p
  | _ => Path.join [Path.Normal "<unknown>"] p
  end.
Definition recover_name (d : dhandle) (n : string) (w : W) : Path.t := recover_path d (Path.parse n) w.

(** ** Paths of directories *)

Definition ensure_subdir (dir : dhandle) (name : string) : Op dhandle :=
  if_found (d_sub_dir dir name) st_ret
    (on_io (d_create_dir dir name 493) (fun r => match r with
       | Ok _ => map_io (d_sub_dir dir name) (fun e w => CreateDirRace (recover_name dir name w) e)
       | Err e =>
           if decide (io_kind e = Fs.AlreadyExists) then
             map_io (d_sub_dir dir name) (fun e w => OpenDir (recover_name dir name w) e)
           else fail (fun w => CreateDir (recover_name dir name w) e)
       | Panic => panic
       end))
    (fun e w => OpenDir (recover_name dir name w) e).

(** [strip_prefix("/")] of an absolute path. *)
Definition relative (path : Path.t) : Path.t := default path (Path.strip_root path).

Fixpoint ensure_names (dir : dhandle) (names : list string) : Op dhandle :=
  match names with
  | [] => st_ret dir
  | n :: names' => d <-- ensure_subdir dir n ;; ensure_names d names'
  end.
Definition ensure_path (dir : dhandle) (path : Path.t) : Op dhandle := ensure_names dir (Path.iter (relative path)).

Fixpoint open_names (dir : dhandle) (names : list string) : Op dhandle :=
  match names with
  | [] => st_ret dir
  | n :: names' => d <-- map_io (d_sub_dir dir n) (fun e w => OpenDir (recover_name dir n w) e) ;; open_names d names'
  end.
Definition open_path (dir : dhandle) (path : Path.t) : Op dhandle := open_names dir (Path.iter (relative path)).

(** The level of a path without a suffix is 0, which [level() - 1] cannot take. *)
Definition ensure_virtual_parent (dir : dhandle) (path : VPath) : Op dhandle :=
  suffix <-- st_lift (expect (suffix path)) ;;
  level <-- st_lift (expect (level path)) ;;
  n <-- st_lift (expect (match level with O => None | S n => Some n end)) ;;
  ensure_names dir (take n (Path.iter suffix)).

(** ** Removal *)

(** The loop over the entries of the directory [me], which is in [dir]. *)
Fixpoint remove_items (remove_by_entry : dhandle -> string -> Op unit) (dir me : dhandle)
    (me_err : IoError -> W -> Error) (es : list (Res IoError DEntry)) : Op unit :=
  match es with
  | [] => st_ret tt
  | r :: es' =>
      entry <-- map_io (st_lift r) me_err ;;
      typ <-- match de_type entry with
              | Some typ => st_ret (Some typ)
              | None => if_found (d_metadata dir (de_name entry)) (fun m => st_ret (Some (meta_type m))) (st_ret None)
                          (fun e w => Delete (recover_name dir (de_name entry) w) e)
              end ;;
      match typ with
      | None => st_ret tt
      | Some TDir => remove_by_entry me (de_name entry)
      | Some _ => skip_not_found (d_remove_file me (de_name entry))
                    (fun e w => Delete (recover_name me (de_name entry) w) e)
      end ;;;
      remove_items remove_by_entry dir me me_err es'
  end.

Fixpoint remove_by_entry (fuel : nat) (dir : dhandle) (inp : string) : Op unit :=
  match fuel with
  | O => st_err OutOfFuel
  | S fuel' =>
      let me_err := fun e w => Delete (recover_name dir inp w) e in
      if_found (d_sub_dir dir inp)
        (fun me => if_found (d_list_dir me)
          (fun dir_iter =>
             remove_items (remove_by_entry fuel') dir me me_err dir_iter ;;;
             skip_not_found (d_remove_dir dir inp) me_err)
          (st_ret tt) me_err)
        (st_ret tt) me_err
  end.

(** [e.raw_os_error() == Some(ENOTDIR)]. *)
Definition not_a_dir (e : IoError) : bool := bool_decide (io_kind e = OtherKind 20).

Definition remove_by_str (fuel : nat) (dir : dhandle) (name : string) : Op unit :=
  let me_err := fun e w => Delete (recover_name dir name w) e in
  if_found (d_sub_dir dir name)
    (fun me => on_io (d_list_dir me) (fun r => match r with
       | Ok dir_iter =>
           remove_items (remove_by_entry fuel) dir me me_err dir_iter ;;;
           skip_not_found (d_remove_dir dir name) me_err
       | Err e =>
           if decide (io_kind e = NotFound) then st_ret tt
           else if not_a_dir e then map_io (d_remove_file dir name) me_err
           else fail (me_err e)
       | Panic => panic
       end))
    (st_ret tt) me_err.

Definition old_name (name : string) : string := (".tmp.old." +:+ name)%string.

Definition remove_dir_recursive (fuel : nat) (dir : dhandle) (name : string) : Op unit :=
  remove_by_str fuel dir (old_name name) ;;;
  on_io (d_local_rename dir name (old_name name)) (fun r => match r with
    | Ok _ => remove_by_str fuel dir (old_name name)
    | Err e =>
        if decide (io_kind e = NotFound) then st_ret tt
        else fail (fun w => RenameDir (recover_name dir name w) e)
    | Panic => panic
    end).
End Dir.

(** ** Post-conditions

    [post w m R Q F]: run from [w] the call does not panic, relates the views
    by [R], gives a result with [Q] or an error, and the fuel is too small only
    when [F] holds. *)

Section Post.
Context `{DiskLaws W}.

Definition post {A} (w : W) (m : ST W Stop A) (R : View -> View -> Prop) (Q : A -> View -> Prop) (F : Prop) : Prop :=
  let (r, w') := m w in
  R (view w) (view w') /\
  match r with Ok a => Q a (view w') | Err (Failed _) => True | Err OutOfFuel => F | Panic => False end.

Context (R : View -> View -> Prop) `{!PreOrder R}.
Implicit Types (F : Prop).

Lemma post_ret {A} w (a : A) (Q : A -> View -> Prop) F : Q a (view w) -> post w (st_ret a) R Q F.
Proof. intros HQ. split; [reflexivity|done]. Qed.

Lemma post_fail {A} w f (Q : A -> View -> Prop) F : post w (fail f) R Q F.
Proof. split; [reflexivity|done]. Qed.

Lemma post_bind {A B} w (m : ST W Stop A) (f : A -> ST W Stop B) (Q : A -> View -> Prop) (Q' : B -> View -> Prop) F :
  post w m R Q F -> (forall a w1, R (view w) (view w1) -> Q a (view w1) -> post w1 (f a) R Q' F) ->
  post w (st_bind f m) R Q' F.
Proof.
  unfold post, st_bind. intros Hm Hf. destruct (m w) as [[a|e|] w1]; [|done..]. destruct Hm as [HR HQ].
  specialize (Hf a w1 HR HQ). destruct (f a w1) as [r w2]. destruct Hf as [HR' HQ']. split; [by etransitivity|done].
Qed.

Lemma post_io {A B} w (m : ST W IoError A) (k : Res IoError A -> ST W Stop B) (Q : B -> View -> Prop) F :
  (forall r w1, m w = (r, w1) -> R (view w) (view w1) /\ post w1 (k r) R Q F) -> post w (on_io m k) R Q F.
Proof.
  unfold post, on_io. intros Hm. destruct (m w) as [r w1]. destruct (Hm r w1 eq_refl) as [HR Hk].
  destruct (k r w1) as [r2 w2]. destruct Hk as [HR' HQ']. split; [by etransitivity|done].
Qed.

(** An operation that is an error unless it succeeds. *)
Lemma post_map_io {A} w (m : ST W IoError A) f (Q : A -> View -> Prop) F :
  (forall r w1, m w = (r, w1) -> R (view w) (view w1) /\ on_ok r (fun a => Q a (view w1)) (fun _ => True)) ->
  post w (map_io m f) R Q F.
Proof.
  intros Hm. apply post_io. intros r w1 Hr. destruct (Hm r w1 Hr) as [HR HQ]. split; [done|].
  destruct r as [a|e|]; [by apply post_ret|apply post_fail|done].
Qed.

Lemma post_if_found {A B} w (m : ST W IoError A) ok (absent : ST W Stop B) f (Q : B -> View -> Prop) F :
  (forall r w1, m w = (r, w1) -> R (view w) (view w1) /\
     on_ok r (fun a => post w1 (ok a) R Q F) (fun e => io_kind e = NotFound -> post w1 absent R Q F)) ->
  post w (if_found m ok absent f) R Q F.
Proof.
  intros Hm. apply post_io. intros r w1 Hr. destruct (Hm r w1 Hr) as [HR HQ]. split; [done|].
  destruct r as [a|e|]; cbn in HQ; [done| |done]. case_decide; [by apply HQ|apply post_fail].
Qed.

Lemma post_rel {A} w (m : ST W Stop A) (Q : A -> View -> Prop) F :
  post w m R Q F -> post w m R (fun a v => R (view w) v /\ Q a v) F.
Proof. unfold post. destruct (m w) as [[a|[]|] w1]; tauto. Qed.

Lemma post_weaken {A} w (m : ST W Stop A) (R' : View -> View -> Prop) (Q Q' : A -> View -> Prop) F F' :
  post w m R' Q F -> (forall v v', R' v v' -> R v v') -> (forall a v, Q a v -> Q' a v) -> (F -> F') -> post w m R Q' F'.
Proof.
  unfold post. intros Hm HR HQ HF. destruct (m w) as [[a|[]|] w1]; destruct Hm as [H1 H2]; auto.
Qed.
End Post.

#[global] Arguments post {W _ _ A} w m R Q F : simpl never.

(** ** Removal removes *)

Section Remove.
Context `{DiskLaws W}.

Lemma skip_not_found_post w (h : dhandle) (op : dhandle -> string -> ST W IoError unit) n f S F : S (dino h) n ->
  (forall w r w', op h n w = (r, w') ->
    on_ok r (fun _ => view w' = unlink (dino h) n (view w))
      (fun e => view w' = view w /\ (io_kind e = NotFound -> at_name (view w) (dino h) n = None))) ->
  post w (skip_not_found (op h n) f) (removes S) (fun _ v => at_name v (dino h) n = None) F.
Proof.
  intros HS Hop. apply (post_if_found _). intros r w1 Hr. specialize (Hop w r w1 Hr).
  destruct r as [a|e|]; cbn [on_ok] in *; [| |done].
  - split; [rewrite Hop; by apply removes_unlink|]. apply (post_ret _). rewrite Hop, at_name_unlink. by rewrite decide_True.
  - destruct Hop as [Ev Hop]. split; [by rewrite Ev|]. intros Hnf. apply (post_ret _). rewrite Ev. by apply Hop.
Qed.

(** The loop, when each recursive call is right. *)
Lemma remove_items_post rec (dir me : dhandle) me_err v0 (F : Prop) (S : nat -> string -> Prop) es w :
  (forall w1 n, Path.name_ok n = true -> is_Some (at_name v0 (dino me) n) -> removes S v0 (view w1) ->
     post w1 (rec me n) (removes (below (view w1) (dino me) n)) (fun _ _ => True) F) ->
  (forall n i m, below v0 (dino me) n i m -> S i m) ->
  Forall (fun r => on_ok r (fun e => Path.name_ok (de_name e) = true /\ is_Some (at_name v0 (dino me) (de_name e)))
            (fun _ => True)) es ->
  removes S v0 (view w) ->
  post w (remove_items rec dir me me_err es) (removes S) (fun _ _ => True) F.
Proof.
  intros Hrec HS Hes. revert w. induction Hes as [|x es Hx Hes IH]; intros w Hw; cbn [remove_items]; [by apply (post_ret _)|].
  apply (post_bind _ _ _ _ (fun e _ => Path.name_ok (de_name e) = true /\ is_Some (at_name v0 (dino me) (de_name e)))).
  { apply (post_map_io _). intros r w1 [= <- <-]. split; [reflexivity|]. by destruct x. }
  intros entry w1 Hw1 [Hn Hat]. apply (post_bind _ _ _ _ (fun _ _ => True)).
  { destruct (de_type entry); [by apply (post_ret _)|]. apply (post_if_found _). intros r w2 [Hv Hr]%l_metadata; [|done].
    split; [by rewrite Hv|]. destruct r; cbn [on_ok] in *; [by apply (post_ret _)|intros _; by apply (post_ret _)|done]. }
  intros typ w2 Hw2 _. apply (post_bind _ _ _ _ (fun _ _ => True)).
  - assert (Hw02 : removes S v0 (view w2)) by (etransitivity; [exact Hw|]; by etransitivity).
    assert (Hfile : post w2 (skip_not_found (d_remove_file me (de_name entry))
      (fun e w => Delete (recover_name me (de_name entry) w) e)) (removes S) (fun _ _ => True) F).
    { eapply post_weaken; [apply (skip_not_found_post w2 me d_remove_file (de_name entry))|done|done|done].
      - apply (HS (de_name entry)). by left.
      - intros *. by apply l_remove_file. }
    assert (Hdir : post w2 (rec me (de_name entry)) (removes S) (fun _ _ => True) F).
    { eapply post_weaken; [by apply Hrec| |done|done]. intros v v' Hr. eapply removes_weaken; [|exact Hr].
      intros i m Hb. apply (HS (de_name entry)). by eapply below_sub. }
    destruct typ as [[]|]; [done..|]. by apply (post_ret _).
  - intros _ w3 Hw3 _. apply IH. etransitivity; [exact Hw|]. etransitivity; [exact Hw1|]. by etransitivity.
Qed.

(** The end of both functions: the loop, then the directory itself. *)
Lemma remove_all_post rec (dir me : dhandle) n me_err v0 fuel es w x :
  at_name v0 (dino dir) n = Some x -> ino x = dino me -> Path.name_ok n = true ->
  (forall w1 m, Path.name_ok m = true ->
     post w1 (rec me m) (removes (below (view w1) (dino me) m)) (fun _ _ => True)
       (~ (0 < fuel /\ fits (view w1) (dino me) m fuel))) ->
  Forall (fun r => on_ok r (fun e => Path.name_ok (de_name e) = true /\ is_Some (at_name v0 (dino me) (de_name e)))
            (fun _ => True)) es ->
  view w = v0 ->
  post w (remove_items rec dir me me_err es ;;; skip_not_found (d_remove_dir dir n) me_err)
    (removes (below v0 (dino dir) n)) (fun _ v => at_name v (dino dir) n = None) (~ fits v0 (dino dir) n (S fuel)).
Proof.
  intros Hx Hme Hn Hrec Hes Hw. apply (post_bind _ _ _ _ (fun _ _ => True)).
  - apply (remove_items_post _ _ _ _ v0); [| |done|by rewrite Hw].
    + intros w1 m Hm Hat Hw1. eapply post_weaken; [by apply Hrec|done..|]. intros Hno Hf. apply Hno.
      rewrite <- Hme in Hat. destruct (fits_entry _ _ _ _ m _ Hf Hx Hat) as [H1 H2]. split; [done|].
      rewrite <- Hme. by eapply fits_sub.
    + intros m i k Hb. eapply below_entry; [exact Hx|]. by rewrite Hme.
  - intros _ w1 Hw1 _. apply skip_not_found_post; [by left|]. intros *. by apply l_remove_dir.
Qed.

Lemma remove_by_entry_post fuel dir n w : Path.name_ok n = true ->
  post w (remove_by_entry fuel dir n) (removes (below (view w) (dino dir) n))
    (fun _ v => at_name v (dino dir) n = None) (~ (0 < fuel /\ fits (view w) (dino dir) n fuel)).
Proof.
  revert dir n w. induction fuel as [|fuel IH]; intros dir n w Hn; cbn [remove_by_entry].
  { split; [reflexivity|]. intros [? _]. lia. }
  apply (post_if_found _). intros r w1 [Hv Hr]%l_sub_dir; [|done]. split; [by rewrite Hv|].
  destruct r as [me|e|]; cbn [on_ok] in *; [|intros Hnf; apply (post_ret _); rewrite Hv; by apply Hr|done].
  destruct Hr as (x & Hx & Hme). apply (post_if_found _). intros r w2 [Hv2 Hr]%l_list_dir. split; [by rewrite Hv2|].
  destruct r as [es|e|]; cbn [on_ok] in *; [| |done].
  - rewrite Hv in Hr. eapply post_weaken.
    + eapply remove_all_post; [exact Hx|done|done| |apply Hr|congruence]. intros w3 m Hm.
      eapply post_weaken; [by apply IH|done..].
    + done.
    + done.
    + intros Hno [_ Hf]. by apply Hno.
  - intros Hnf. destruct (Hr Hnf (dino dir) n x); [by rewrite Hv|done].
Qed.

Lemma remove_by_str_post fuel dir n w : 0 < fuel -> Path.name_ok n = true ->
  post w (remove_by_str fuel dir n) (removes (below (view w) (dino dir) n))
    (fun _ v => at_name v (dino dir) n = None) (~ fits (view w) (dino dir) n fuel).
Proof.
  intros Hpos Hn. apply (post_if_found _). intros r w1 [Hv Hr]%l_sub_dir; [|done]. split; [by rewrite Hv|].
  destruct r as [me|e|]; cbn [on_ok] in *; [|intros Hnf; apply (post_ret _); rewrite Hv; by apply Hr|done].
  destruct Hr as (x & Hx & Hme). apply (post_io _). intros r w2 [Hv2 Hr]%l_list_dir. split; [by rewrite Hv2|].
  destruct r as [es|e|]; cbn [on_ok] in *; [| |done].
  - rewrite Hv in Hr. eapply post_weaken.
    + eapply (remove_all_post _ _ _ _ _ _ fuel); [exact Hx|done|done| |apply Hr|congruence]. intros w3 m Hm.
      eapply post_weaken; [by apply remove_by_entry_post|done..].
    + done.
    + done.
    + intros Hno Hf. apply Hno. intros y Hy. destruct (Hf y Hy) as (rk & Hrk & Hd). exists rk. split; [lia|done].
  - case_decide as Hnf; [destruct (Hr Hnf (dino dir) n x); [by rewrite Hv|done]|].
    destruct (not_a_dir e); [|apply (post_fail _)]. apply (post_map_io _). intros r w3 Hr3%l_remove_file; [|done].
    destruct r as [[]|e3|]; cbn [on_ok] in *; [| |done].
    + rewrite Hr3, Hv2, Hv. split; [apply removes_unlink; by left|]. rewrite at_name_unlink. by rewrite decide_True.
    + destruct Hr3 as [-> _]. split; [reflexivity|done].
Qed.
End Remove.

(** ** Removal by renaming away *)

Lemma no_slash_app a b : Path.no_slash (a +:+ b) = Path.no_slash a && Path.no_slash b.
Proof. induction a as [|c a IH]; [done|]. change (String c a +:+ b) with (String c (a +:+ b)). cbn. rewrite IH. by rewrite andb_assoc. Qed.

Lemma name_ok_prefix a n : Path.no_slash a = true -> 2 < String.length a -> Path.no_slash n = true ->
  Path.name_ok (a +:+ n) = true.
Proof.
  intros Ha Hl Hn. unfold Path.name_ok. rewrite no_slash_app, Ha, Hn. cbn.
  assert (Hlen : 2 < String.length (a +:+ n)) by (rewrite string_length_app; lia).
  rewrite !bool_decide_eq_false_2; [done|..]; intros E; rewrite E in Hlen; cbn in Hlen; lia.
Qed.

Lemma name_ok_no_slash n : Path.name_ok n = true -> Path.no_slash n = true.
Proof. unfold Path.name_ok. intros H. by repeat apply andb_true_iff in H as [H _]. Qed.

Lemma old_name_ok n : Path.name_ok n = true -> Path.name_ok (old_name n) = true.
Proof. intros Hn%name_ok_no_slash. apply name_ok_prefix; [done|cbn; lia|done]. Qed.

Lemma old_name_ne n : old_name n <> n.
Proof. intros E%(f_equal String.length). unfold old_name in E. rewrite string_length_app in E. cbn in E. lia. Qed.

(** What a removal by renaming away leaves, also when it fails. *)
Record clears (p : nat) (n : string) (v v' : View) : Prop := {
  c_files : v_files v' = v_files v;
  c_dirs : forall i, is_dir v' i <-> is_dir v i;
  c_names : forall i m, i <> p \/ m <> old_name n ->
    at_name v' i m = at_name v i m \/
    at_name v' i m = None /\ (below v p n i m \/ below v p (old_name n) i m);
  c_atomic : at_name v' p n = None \/ removes (below v p (old_name n)) v v'
}.

Section RemoveDir.
Context `{DiskLaws W}.

Lemma clears_old p n v v' : removes (below v p (old_name n)) v v' -> clears p n v v'.
Proof.
  intros Hr. split; [apply Hr..| |by right]. intros i m _. destruct (r_names _ _ _ Hr i m) as [?|[? ?]]; auto.
Qed.

Lemma renamed_reach p n v v1 x : ~ reach v (ino x) p -> removes (below v p (old_name n)) v v1 ->
  forall i, reach (link p (old_name n) x (unlink p n v1)) (ino x) i -> reach v (ino x) i.
Proof.
  intros Hcyc H1. apply reach_ind; [apply rtc_refl|]. intros j m y _ Hy IH.
  assert (j <> p) by (by intros ->). rewrite at_name_link, decide_False, at_name_unlink, decide_False in Hy by tauto.
  eapply reach_step; [exact IH|by eapply removes_sub].
Qed.

Lemma clears_renamed p n v v1 v' x : ~ reach v (ino x) p -> removes (below v p (old_name n)) v v1 -> at_name v1 p n = Some x ->
  removes (below (link p (old_name n) x (unlink p n v1)) p (old_name n)) (link p (old_name n) x (unlink p n v1)) v' ->
  clears p n v v'.
Proof.
  intros Hcyc H1 Hx H2. set (v2 := link p (old_name n) x (unlink p n v1)) in *.
  assert (Hd : is_dir v1 p) by (by eapply at_name_dir).
  assert (Hxv : at_name v p n = Some x) by (by eapply removes_sub).
  assert (Hat2 : forall i m, at_name v2 i m = if decide (i = p /\ m = old_name n) then Some x
                              else if decide (i = p /\ m = n) then None else at_name v1 i m).
  { intros i m. unfold v2. rewrite at_name_link, at_name_unlink.
    destruct (decide (i = p /\ m = old_name n)) as [[-> ->]|Hne].
    - rewrite decide_True; [done|]. by rewrite is_dir_unlink.
    - rewrite decide_False; [done|]. tauto. }
  pose proof (renamed_reach _ _ _ _ _ Hcyc H1) as Hsub. fold v2 in Hsub.
  split.
  - rewrite (r_files _ _ _ H2). apply H1.
  - intros i. rewrite (r_dirs _ _ _ H2). unfold v2. rewrite is_dir_link, is_dir_unlink. apply H1.
  - intros i m Hne.
    destruct (r_names _ _ _ H2 i m) as [E|[E Hb]]; rewrite E.
    + rewrite Hat2, decide_False by tauto. case_decide as En; [right; split; [done|]; left; by left|].
      destruct (r_names _ _ _ H1 i m) as [->|[-> Hb]]; auto.
    + right. split; [done|]. left. destruct Hb as [[-> ->]|(y & Hy & Hr)]; [destruct Hne; done|].
      rewrite Hat2, decide_True in Hy by done. injection Hy as <-. right. exists x. split; [done|by apply Hsub].
  - left. destruct (r_names _ _ _ H2 p n) as [E|[E _]]; [|done]. rewrite E, Hat2.
    rewrite decide_False by (intros [_ E']; by apply (old_name_ne n)). by rewrite decide_True.
Qed.

(** Siblings of a name that is cleared stay. *)
Lemma clears_sibling p n v v' m x : siblings_apart v p -> clears p n v v' -> m <> n -> m <> old_name n ->
  at_name v p m = Some x -> at_name v' p m = Some x /\ same_tree v v' (ino x).
Proof.
  intros [Hp Hs] Hc Hmn Hmo Hx.
  assert (Hnot : forall n', m <> n' -> ~ below v p n' p m).
  { intros n' Hne [[_ ?]|(y & Hy & Hr)]; [done|]. by apply (Hp n' y). }
  split.
  - destruct (c_names _ _ _ _ Hc p m (or_intror Hmo)) as [->|[_ [Hb|Hb]]]; [done|exfalso; eapply Hnot; [|exact Hb]; done..].
  - intros k i Hk. assert (Hkp : k <> p) by (intros ->; by apply (Hp m x)).
    assert (Hd : forall n', m <> n' -> below v p n' k i -> at_name v k i = None).
    { intros n' Hne [[? _]|(y & Hy & Hr)]; [done|]. destruct (at_name v k i) eqn:E; [|done].
      apply at_name_dir in E. by destruct (Hs m n' x y k Hx Hy Hne Hk Hr). }
    destruct (c_names _ _ _ _ Hc k i (or_introl Hkp)) as [->|[-> [Hb|Hb]]]; [done|symmetry; eapply Hd; [|exact Hb]; done..].
Qed.

(** The directory under its new name is as deep as before. *)
Lemma fits_renamed p n v v1 x fuel : ~ reach v (ino x) p -> removes (below v p (old_name n)) v v1 -> at_name v1 p n = Some x ->
  fits v p n fuel -> fits (link p (old_name n) x (unlink p n v1)) p (old_name n) fuel.
Proof.
  intros Hcyc H1 Hx Hf y Hy. assert (Hd : is_dir v1 p) by (by eapply at_name_dir).
  rewrite at_name_link, decide_True in Hy by (by rewrite is_dir_unlink). injection Hy as <-.
  destruct (Hf x) as (rk & Hrk & Hdec); [by eapply removes_sub|]. exists rk. split; [done|]. intros i m y Hi Hy.
  pose proof (renamed_reach _ _ _ _ _ Hcyc H1 i Hi) as Hi'. apply (Hdec i m y Hi').
  assert (i <> p) by (by intros ->). rewrite at_name_link, decide_False, at_name_unlink, decide_False in Hy by tauto.
  by eapply removes_sub.
Qed.

Lemma remove_dir_recursive_post fuel dir n w : 0 < fuel -> Path.name_ok n = true ->
  (forall x, at_name (view w) (dino dir) n = Some x -> ~ reach (view w) (ino x) (dino dir)) ->
  post w (remove_dir_recursive fuel dir n) (clears (dino dir) n)
    (fun _ v => at_name v (dino dir) n = None /\ at_name v (dino dir) (old_name n) = None)
    (~ (fits (view w) (dino dir) n fuel /\ fits (view w) (dino dir) (old_name n) fuel)).
Proof.
  intros Hpos Hn Hcyc. pose proof (old_name_ok n Hn) as Ho.
  pose proof (remove_by_str_post fuel dir (old_name n) w Hpos Ho) as H1.
  unfold remove_dir_recursive, post, st_bind in *. destruct (remove_by_str fuel dir (old_name n) w) as [[[]|e|] w1];
    destruct H1 as [H1 Hold]; [|split; [by apply clears_old|]; destruct e; [done|tauto]|done].
  unfold on_io. destruct (d_local_rename dir n (old_name n) w1) as [r w2] eqn:Hr. apply l_rename in Hr; [|done..].
  destruct r as [[]|e|]; cbn [on_ok] in Hr; [| |done].
  - destruct Hr as (x & Hx & [Hv2|[Hx2 _]]); [|congruence].
    assert (Hxv : at_name (view w) (dino dir) n = Some x) by (by eapply removes_sub).
    pose proof (remove_by_str_post fuel dir (old_name n) w2 Hpos Ho) as H3. unfold post in H3.
    destruct (remove_by_str fuel dir (old_name n) w2) as [r3 w3]. destruct H3 as [H3 Hr3].
    rewrite Hv2 in H3. assert (Hc : clears (dino dir) n (view w) (view w3)) by (eapply clears_renamed; [by apply Hcyc|done..]).
    split; [exact Hc|]. destruct r3 as [[]|[]|]; [|done| |done].
    + split; [|done]. destruct (r_names _ _ _ H3 (dino dir) n) as [E|[E _]]; [|done]. rewrite E, at_name_link, at_name_unlink.
      rewrite decide_False by (intros (_ & E' & _); by apply (old_name_ne n)). by rewrite decide_True.
    + intros [Hfn _]. apply Hr3. rewrite Hv2. eapply fits_renamed; [by apply Hcyc|done..].
  - destruct Hr as [Hv2 Hnf]. unfold fail. case_decide as Hk; cbn; rewrite Hv2; (split; [by apply clears_old|]); [|done].
    split; [by apply Hnf|done].
Qed.
End RemoveDir.

(** ** Directories along a path *)

(** The number a path stands for. *)
Fixpoint resolve (v : View) (i : nat) (names : list string) : option nat :=
  match names with
  | [] => Some i
  | n :: names' => x ← at_name v i n; resolve v (ino x) names'
  end.

Lemma resolve_keeps v v' i names j : (forall i n x, at_name v i n = Some x -> at_name v' i n = Some x) ->
  resolve v i names = Some j -> resolve v' i names = Some j.
Proof.
  intros H. revert i. induction names as [|n names IH]; intros i; cbn; [done|].
  intros (x & Hx & Hr)%bind_Some. rewrite (H _ _ _ Hx). by apply IH.
Qed.

Lemma resolve_reach v i names j : resolve v i names = Some j -> reach v i j.
Proof.
  revert i. induction names as [|n names IH]; intros i; cbn; [intros [= ->]; apply rtc_refl|].
  intros (x & Hx & Hr)%bind_Some. eapply rtc_l; [|by apply IH]. by exists n, x.
Qed.

(** Growth by new directories alone. *)
Definition mkdirs (t : nat) (v v' : View) : Prop :=
  grows t v v' /\ v_files v' = v_files v /\ forall i n x, at_name v' i n = Some x ->
    at_name v i n = Some x \/ x = NDir (ino x) /\ ~ is_dir v (ino x).

#[export] Instance mkdirs_preorder t : PreOrder (mkdirs t).
Proof.
  split; [split; [reflexivity|by split; [|left]]|]. intros v1 v2 v3 (H1 & F1 & N1) (H2 & F2 & N2).
  split; [by etransitivity|]. split; [congruence|].
  intros i n x [Hx|[Hx Hd]]%N2; [by apply N1|]. right. split; [done|]. intros ?%(g_dirs _ _ _ H1). done.
Qed.

Lemma mkdirs_mkdir t v d n j : reach v t d -> is_dir v d -> at_name v d n = None -> fresh_ino v j ->
  mkdirs t v (link d n (NDir j) (new_dir j v)).
Proof.
  intros Hr Hd Hn Hj. split; [by apply grows_mkdir|]. split; [done|]. destruct Hj as (Hj & _ & _).
  assert (Hnd : ~ is_dir v j) by (unfold is_dir; rewrite Hj; by intros [? ?]).
  intros i m x. rewrite at_name_link. case_decide; [intros [= <-]; by right|]. unfold at_name, new_dir. cbn.
  rewrite lookup_insert. case_decide as E; [cbn; by rewrite lookup_empty|]. by left.
Qed.

(** A path to a directory that was there was there. *)
Lemma mkdirs_resolve t v v' i names j : mkdirs t v v' -> is_dir v j -> resolve v' i names = Some j -> resolve v i names = Some j.
Proof.
  intros (Hg & _ & Hnew) Hj.
  assert (Hdir : forall names a, resolve v a names = Some j -> is_dir v a).
  { intros [|n ns] a; cbn; [by intros [= ->]|]. intros (x & Hx & _)%bind_Some. by eapply at_name_dir. }
  revert i. induction names as [|n names IH]; intros i; cbn; [done|].
  intros (x & Hx & Hr)%bind_Some. specialize (IH _ Hr). destruct (Hnew i n x Hx) as [->|[_ Hnd]]; [done|].
  by apply Hdir in IH.
Qed.

Section Paths.
Context `{DiskLaws W}.

Lemma sub_dir_post R `{!PreOrder R} dir n w f F : Path.name_ok n = true ->
  post w (map_io (d_sub_dir dir n) f) R (fun h v => exists x, at_name v (dino dir) n = Some x /\ ino x = dino h) F.
Proof.
  intros Hn. apply (post_map_io _). intros r w1 [Hv Hr]%l_sub_dir; [|done]. rewrite Hv. split; [reflexivity|].
  by destruct r.
Qed.

Lemma ensure_subdir_post t dir n w F : Path.name_ok n = true -> reach (view w) t (dino dir) ->
  post w (ensure_subdir dir n) (mkdirs t) (fun h v => exists x, at_name v (dino dir) n = Some x /\ ino x = dino h) F.
Proof.
  intros Hn Ht. apply (post_if_found _). intros r w1 [Hv Hr]%l_sub_dir; [|done]. split; [by rewrite Hv|].
  destruct r as [h|e|]; cbn [on_ok] in *; [apply (post_ret _); by rewrite Hv| |done].
  intros _. apply (post_io _). intros r w2 Hr2%l_create_dir; [|done].
  destruct r as [[]|e2|]; cbn [on_ok] in Hr2; [| |done].
  - destruct Hr2 as (j & Hj & Hd & Hno & Hv2). rewrite Hv2. split; [rewrite Hv in *; by apply mkdirs_mkdir|].
    by apply (sub_dir_post _).
  - destruct Hr2 as [Hv2 _]. rewrite Hv2. split; [reflexivity|].
    case_decide; [by apply (sub_dir_post _)|apply (post_fail _)].
Qed.

(** A directory whose name was free is new, and empty. *)
Lemma ensure_subdir_new t dir n w F : Path.name_ok n = true -> reach (view w) t (dino dir) ->
  at_name (view w) (dino dir) n = None ->
  post w (ensure_subdir dir n) (grows t) (fun h v => at_name v (dino dir) n = Some (NDir (dino h)) /\ v_dirs v !! dino h = Some ∅) F.
Proof.
  intros Hn Ht Hno. apply (post_if_found _). intros r w1 [Hv Hr]%l_sub_dir; [|done]. split; [by rewrite Hv|].
  destruct r as [h|e|]; cbn [on_ok] in *; [destruct Hr as (x & Hx & _); congruence| |done].
  intros _. apply (post_io _). intros r w2 Hr2%l_create_dir; [|done].
  destruct r as [[]|e2|]; cbn [on_ok] in Hr2; [| |done].
  - destruct Hr2 as (j & Hj & Hd & _ & Hv2). rewrite Hv in *. rewrite Hv2. split; [by apply grows_mkdir|].
    assert (Hat : at_name (view w2) (dino dir) n = Some (NDir j)).
    { rewrite Hv2, at_name_link, decide_True; [done|]. split_and!; [done..|]. destruct Hd as [ents Hd]. unfold is_dir, new_dir.
      cbn. rewrite lookup_insert_ne; [by eexists|]. intros E. destruct Hj as [Hj _]. congruence. }
    apply (post_map_io _). intros r w3 [Hv3 Hr3]%l_sub_dir; [|done]. rewrite Hv3. split; [reflexivity|].
    destruct r as [h|e3|]; cbn [on_ok] in *; [|done..]. destruct Hr3 as (x & Hx & Hxh). rewrite Hat in Hx. injection Hx as <-.
    cbn in Hxh. subst j. split; [done|]. rewrite Hv2. unfold link, new_dir. cbn. rewrite lookup_alter_ne.
    + by rewrite lookup_insert_eq.
    + intros E. destruct Hj as [Hj _]. destruct Hd as [ents Hd]. congruence.
  - destruct Hr2 as [Hv2 Hae]. rewrite Hv2. split; [by rewrite Hv|]. case_decide as Hk; [|apply (post_fail _)].
    destruct (Hae Hk) as [x Hx]. rewrite Hv in Hx. congruence.
Qed.

Lemma ensure_names_mkdirs t names dir w F : Forall (fun n => Path.name_ok n = true) names -> reach (view w) t (dino dir) ->
  post w (ensure_names dir names) (mkdirs t) (fun h v => resolve v (dino dir) names = Some (dino h)) F.
Proof.
  intros Hn. revert dir w. induction Hn as [|n names Hn Hns IH]; intros dir w Ht; cbn [ensure_names]; [by apply (post_ret _)|].
  eapply (post_bind _); [by apply ensure_subdir_post|]. cbn. intros h w1 Hg (x & Hx & Hxh).
  eapply post_weaken; [apply post_rel, (IH h w1)|done| |done].
  - rewrite <- Hxh. eapply reach_step; [|exact Hx]. eapply grows_reach; [apply Hg|done].
  - cbn. intros d v [[Hg2 _] Hd]. rewrite (g_keeps _ _ _ Hg2 _ _ _ Hx). cbn. by rewrite Hxh.
Qed.

Lemma ensure_names_post t names dir w F : Forall (fun n => Path.name_ok n = true) names -> reach (view w) t (dino dir) ->
  post w (ensure_names dir names) (grows t) (fun h v => resolve v (dino dir) names = Some (dino h)) F.
Proof. intros Hn Ht. eapply post_weaken; [by apply ensure_names_mkdirs|by intros v v' []|done..]. Qed.

Lemma open_names_post names dir w F : Forall (fun n => Path.name_ok n = true) names ->
  post w (open_names dir names) eq (fun h v => resolve v (dino dir) names = Some (dino h)) F.
Proof.
  intros Hn. revert dir w. induction Hn as [|n names Hn Hns IH]; intros dir w; cbn [open_names]; [by apply (post_ret _)|].
  eapply (post_bind _); [by apply (sub_dir_post _)|]. cbn. intros h w1 Hv (x & Hx & Hxh).
  eapply post_weaken; [apply post_rel, (IH h w1)|done| |done].
  cbn. intros d v [<- Hd]. rewrite Hx. cbn. by rewrite Hxh.
Qed.
End Paths.
