(* ===== verification/Disk.v ===== *)
(** * The store of images: [src/daemon/disk/public.rs] and
    [src/daemon/disk/commit.rs]

    An image is made in a temporary directory beside its final name: blocks are
    written into its files, files of other images are linked in, and the commit
    checks every file against the index before it exchanges the temporary
    directory with what the final name stood for.  Each call of the source runs
    on a pool of threads; here it is one sequence of operations.  Counters of
    metrics are left out.  [debug_assertions] says how the daemon was built. *)
From S2P Require Import Prelude Serde VirtualPath Ids Index Fs Text Config DiskFs DiskGraph DiskDir.
Local Open Scope st_scope.
Import VPath.

(** [struct Hardlink] of [metadata/hardlink_sources.rs]. *)
Record Link := {
  source : VPath;
  hl_path : Path.t;
  hl_exe : bool;
  hl_size : Z;
  hl_hashes : list bytes
}.

(** [OsStr::to_str]. *)
Definition to_str (s : string) : option string := if utf8_valid (bytes_of_string s) then Some s else None.

Definition tmp_name (name : string) : string := (".tmp." +:+ name)%string.

Section Disk.
Context {W : Type} `{DiskOps W} (debug_assertions : bool).

(** [struct Image]. *)
Record Image := {
  virtual_path : VPath;
  parent : dhandle;
  temporary_name : string;
  temporary : dhandle;
  index : IndexData
}.

Definition try_opt {A} (o : option A) : Op (W := W) A := st_lift (expect o).

(** ** Images *)

(** The function [check_exists], which nothing calls. *)
Definition check_exists_fn (dir : dhandle) (name : string) : Op unit :=
  if_found (d_metadata dir name)
    (fun m => if decide (meta_type m = TDir) then fail (fun _ => AlreadyExists)
              else fail (fun w => ExistsNotADir (recover_name dir name w)))
    (st_ret tt)
    (fun e w => OpenDir (recover_name dir name w) e).

Definition start_image (fuel : nat) (base_dir : Path.t) (idx : IndexData) (vpath : VPath) : Op Image :=
  base <-- map_io (d_open base_dir) (fun e _ => OpenBase base_dir e) ;;
  dir <-- ensure_virtual_parent base vpath ;;
  name <-- try_opt (final_name vpath) ;;
  let tmp := tmp_name name in
  remove_dir_recursive fuel dir tmp ;;;
  temp_dir <-- ensure_subdir dir tmp ;;
  st_ret {| virtual_path := vpath; parent := dir; temporary_name := tmp; temporary := temp_dir; index := idx |}.

Definition remove_image (fuel : nat) (cfg : Directory) (path : Path.t) : Op unit :=
  base <-- map_io (d_open (directory cfg)) (fun e _ => OpenBase (directory cfg) e) ;;
  parent <-- try_opt (Path.parent path) ;;
  dir <-- open_path base parent ;;
  filename <-- try_opt (Path.file_name path ≫= to_str) ;;
  remove_dir_recursive fuel dir filename.

Definition check_exists (cfg : Directory) (path : Path.t) : Op bool :=
  if_found (d_open (directory cfg))
    (fun dir w => match open_path dir path w with
       | (Ok _, w') => (Ok true, w')
       | (Err (Failed (OpenDir p e)), w') =>
           if decide (io_kind e = NotFound) then (Ok false, w') else (Err (Failed (OpenDir p e)), w')
       | (Err e, w') => (Err e, w')
       | (Panic, w') => (Panic, w')
       end)
    (st_ret false)
    (fun e _ => OpenBase (directory cfg) e).

(** ** Blocks *)

(** The length of the buffer of [read_block]. *)
Definition READ_SIZE : nat := Z.to_nat 32768.

Definition read_block (config : Config) (vpath : VPath) (path : Path.t) (offset : nat) (writing : bool) : Op bytes :=
  path <-- try_opt (Path.strip_root path) ;;
  key <-- try_opt (key vpath) ;;
  cfg <-- st_lift (ok_or (Failed (NoDir vpath)) (dirs config !! key)) ;;
  base <-- map_io (d_open (directory cfg)) (fun e _ => OpenBase (directory cfg) e) ;;
  suffix <-- try_opt (VPath.parent vpath ≫= suffix) ;;
  dir <-- open_path base suffix ;;
  name <-- try_opt (final_name vpath) ;;
  dir <-- open_path dir (Path.parse (if writing then tmp_name name else name)) ;;
  let epath := Path.join (Path.join (directory cfg) (default [] (VPath.suffix vpath))) path in
  parent <-- try_opt (Path.parent path) ;;
  file <-- open_path dir parent ;;
  fname <-- try_opt (Path.file_name path) ;;
  file <-- map_io (d_open_file file fname) (fun e _ => ReadFile epath e) ;;
  map_io (f_read file offset READ_SIZE) (fun e _ => ReadFile epath e).

(** The function [write_block]. *)
Definition write_block_io (dir : dhandle) (filename : string) (offset : nat) (block : bytes) : ST W IoError unit :=
  file <-- d_update_file dir filename 420 ;;
  f_write_all file offset block.

Definition write_block (image : Image) (path : Path.t) (offset : nat) (block : bytes) : Op unit :=
  path <-- try_opt (Path.strip_root path) ;;
  parent <-- try_opt (Path.parent path) ;;
  dir <-- ensure_path (temporary image) parent ;;
  fname <-- try_opt (Path.file_name path) ;;
  map_io (write_block_io dir fname offset block) (fun e w => WriteFile (recover_name dir fname w) e).

(** ** Links to files of other images *)

Definition try_hardlink (config : Config) (hlink : Link) (img : Image) : Op unit :=
  key <-- try_opt (key (source hlink)) ;;
  cfg <-- st_lift (ok_or (Failed (NoDir (source hlink))) (dirs config !! key)) ;;
  base <-- map_io (d_open (directory cfg)) (fun e _ => OpenBase (directory cfg) e) ;;
  suffix <-- try_opt (suffix (source hlink)) ;;
  dir <-- open_path base suffix ;;
  parent <-- try_opt (Path.parent (hl_path hlink)) ;;
  dir <-- open_path dir parent ;;
  let epath := Path.join (Path.join (directory cfg) suffix) (hl_path hlink) in
  file_name <-- try_opt (Path.file_name (hl_path hlink)) ;;
  file <-- map_io (d_open_file dir file_name) (fun e _ => ReadFile epath e) ;;
  ok <-- map_io (f_check (hl_hashes hlink) file) (fun e _ => ReadFile epath e) ;;
  if negb ok then fail (fun _ => Checksum epath)
  else
    meta <-- map_io (f_metadata file) (fun e _ => ReadFile epath e) ;;
    let target_perm := (if hl_exe hlink then 493 else 420)%Z in
    if negb (bool_decide (Z.land (fm_mode meta) 511 = target_perm)) then fail (fun _ => Checksum epath)
    else
      dest <-- ensure_path (temporary img) parent ;;
      map_io (d_hardlink dir file_name dest file_name) (fun e _ => Hardlink epath e).

(** The links are made by several threads; [hardlinks] is the order in which
    they end.  An error is logged. *)
Fixpoint check_and_hardlink (config : Config) (hardlinks : list Link) (image : Image) : Op (list Path.t) :=
  match hardlinks with
  | [] => st_ret []
  | hlink :: rest =>
      r <-- st_catch (try_hardlink config hlink image) ;;
      paths <-- check_and_hardlink config rest image ;;
      match r with
      | Ok _ => st_ret (hl_path hlink :: paths)
      | Err _ => st_ret paths
      | Panic => panic
      end
  end.

(** ** Commit *)

(** [reset_timestamp]. *)
Definition reset_timestamp (f : fhandle) : ST W IoError unit := f_futimens f 1.

(** [dir.as_ref().unwrap()] and the assertions about the order of the index;
    the directory and the name of a file. *)
Definition entry_place (dir : option (dhandle * Path.t)) (path : Path.t) : Op (dhandle * string) :=
  place <-- try_opt dir ;;
  (if debug_assertions then
     parent <-- try_opt (Path.parent path) ;;
     if decide (snd place = parent) then st_ret tt else panic
   else st_ret tt) ;;;
  filename <-- try_opt (Path.file_name path) ;;
  st_ret (fst place, filename).

Definition commit_empty_file (d : dhandle) (filename : string) (exe : bool) : Op unit :=
  on_io (d_new_file d filename 420) (fun r => match r with
    | Ok file =>
        if exe then map_io (f_set_permissions file 493) (fun e w => SetPermissions (recover_name d filename w) e)
        else st_ret tt
    | Err e =>
        if decide (io_kind e = Fs.AlreadyExists) then
          file <-- map_io (d_open_file d filename) (fun e w => ReadFile (recover_name d filename w) e) ;;
          meta <-- map_io (f_metadata file) (fun e w => ReadFile (recover_name d filename w) e) ;;
          if decide (fm_len meta <> 0)%Z then fail (fun w => Checksum (recover_name d filename w)) else st_ret tt
        else fail (fun w => WriteFile (recover_name d filename w) e)
    | Panic => panic
    end).

Definition commit_file (d : dhandle) (filename : string) (exe : bool) (hashes : list bytes) : Op unit :=
  file <-- map_io (d_open_file d filename) (fun e w => ReadFile (recover_name d filename w) e) ;;
  map_io (reset_timestamp file) (fun e w => SetTimestamp (recover_name d filename w) e) ;;;
  ok <-- map_io (f_check hashes file) (fun e w => ReadFile (recover_name d filename w) e) ;;
  if negb ok then fail (fun w => Checksum (recover_name d filename w))
  else if exe then map_io (f_set_permissions file 493) (fun e w => SetPermissions (recover_name d filename w) e)
  else st_ret tt.

Definition commit_entry (image : Image) (dir : option (dhandle * Path.t)) (entry : Index.Entry)
  : Op (option (dhandle * Path.t)) :=
  match entry with
  | Index.Dir path => d <-- ensure_path (temporary image) path ;; st_ret (Some (d, path))
  | Index.File path exe size hashes =>
      place <-- entry_place dir path ;;
      let (d, filename) := place : dhandle * string in
      (if decide (size = 0)%Z then commit_empty_file d filename exe else commit_file d filename exe hashes) ;;;
      st_ret dir
  | Index.Link path dest =>
      place <-- entry_place dir path ;;
      let (d, filename) := place : dhandle * string in
      map_io (d_symlink d filename dest) (fun e w => CreateSymlink (recover_name d filename w) e) ;;;
      st_ret dir
  end.

Fixpoint commit_entries (image : Image) (dir : option (dhandle * Path.t)) (entries : list Index.Entry) : Op unit :=
  match entries with
  | [] => st_ret tt
  | entry :: entries' => dir' <-- commit_entry image dir entry ;; commit_entries image dir' entries'
  end.

(** From the look at the final name on. *)
Definition publish (fuel : nat) (image : Image) : Op unit :=
  fname <-- try_opt (final_name (virtual_path image)) ;;
  let err := fun e w => Commit (recover_name (parent image) fname w) e in
  exists_ <-- if_found (d_metadata (parent image) fname) (fun _ => st_ret true) (st_ret false) err ;;
  if exists_ : bool then
    map_io (d_local_exchange (parent image) (temporary_name image) fname) err ;;;
    remove_dir_recursive fuel (parent image) (temporary_name image)
  else map_io (d_local_rename (parent image) (temporary_name image) fname) err.

Definition commit_image (fuel : nat) (image : Image) : Op unit :=
  commit_entries image None (entries (index image)) ;;; publish fuel image.
End Disk.
Arguments Image W {H}.

(** ** Lists in files *)

Section Files.
(** [std::fs::File::open]. *)
Context (open_file : Path.t -> Res IoError File).

(** The lines up to the first error, with that error; a line that is not UTF-8
    is an error of kind [InvalidData]. *)
Definition line_error (f : File) : IoError := default {| io_kind := OtherKind 0; io_msg := "stream did not contain valid UTF-8" |} (file_error f).

Definition ends_line (c : ascii) : bool := bool_decide (c = "/"%char).
Fixpoint trim_left_slash (s : string) : string :=
  match s with
  | String c s' => if ends_line c then trim_left_slash s' else s
  | EmptyString => s
  end.
Definition starts_with_hash (s : string) : bool := match s with String c _ => bool_decide (c = "#"%char) | EmptyString => false end.

(** The paths of the keep list until an error; [None] stands for one. *)
Fixpoint keep_lines (num_levels : nat) (ls : list (option string)) : option (list Path.t) :=
  match ls with
  | [] => Some []
  | None :: _ => None
  | Some line :: ls' =>
      let line := trim line in
      rest ← keep_lines num_levels ls';
      if starts_with_hash line then Some rest
      else
        let p := Path.parse (trim_left_slash line) in
        if decide (length p = num_levels) then Some (p :: rest) else Some rest
  end.

Definition read_keep_list (dir : Directory) : Res Error (list Path.t) :=
  match keep_list_file dir with
  | None => Ok []
  | Some fpath =>
      let res := match open_file fpath with
                 | Ok f => match keep_lines (num_levels dir) (lines f) with Some v => Ok v | None => Err (line_error f) end
                 | Err e => Err e
                 | Panic => Panic
                 end in
      match res with
      | Err e => if decide (io_kind e = NotFound) then Ok [] else Err (ReadKeepList fpath e)
      | Ok v => Ok v
      | Panic => Panic
      end
  end.

(** The regular expression [^[a-zA-Z0-9\._-]+$]. *)
Definition host_char (c : ascii) : bool :=
  let n := N_of_ascii c in
  (within 97 122 n || within 65 90 n || within 48 57 n || (n =? 46)%N || (n =? 95)%N || (n =? 45)%N).
Definition host_re (s : string) : bool :=
  negb (bool_decide (s = ""%string)) && forallb host_char (String.list_ascii_of_string s).

Fixpoint peer_lines (ls : list (option string)) : list string :=
  match ls with
  | [] | None :: _ => []
  | Some line :: ls' =>
      let line := trim line in
      if bool_decide (line = ""%string) || starts_with_hash line then peer_lines ls'
      else if host_re line then line :: peer_lines ls' else peer_lines ls'
  end.

Definition read_peer_list (path : Path.t) : list string :=
  match open_file path with Ok f => peer_lines (lines f) | _ => [] end.
End Files.

(** ** What an index says, and what a directory holds *)

(** The names of a path of an index. *)
Definition names_of (p : Path.t) : list string := Path.iter (relative p).

Section Holds.
Context `{DiskLaws W}.

(** The directory [t] has what an entry says, with the right contents. *)
Definition entry_ok (v : View) (t : nat) (e : Index.Entry) : Prop :=
  match e with
  | Index.Dir path => exists i, resolve v t (names_of path) = Some i
  | Index.File path _ size hashes => exists dp d f x,
      Path.parent path = Some dp /\ Path.file_name path = Some f /\
      resolve v t (names_of dp) = Some d /\ at_name v d f = Some x /\
      if decide (size = 0)%Z then forall j, x = NFile j -> exists fn, v_files v !! j = Some fn /\ fn_data fn = []
      else exists j fn, x = NFile j /\ v_files v !! j = Some fn /\ file_matches hashes (fn_data fn) = true
  | Index.Link path dest => exists dp d f j,
      Path.parent path = Some dp /\ Path.file_name path = Some f /\
      resolve v t (names_of dp) = Some d /\ at_name v d f = Some (NLink j dest)
  end.

Lemma resolve_below v v' t names j : (forall k n x, reach v t k -> at_name v k n = Some x -> at_name v' k n = Some x) ->
  resolve v t names = Some j -> resolve v' t names = Some j.
Proof.
  revert t. induction names as [|n names IH]; intros t Hk; cbn; [done|].
  intros (x & Hx & Hr)%bind_Some. rewrite (Hk t n x (rtc_refl _ _) Hx). cbn. apply IH; [|done].
  intros k m y Hr'. apply Hk. eapply rtc_l; [|exact Hr']. by exists n, x.
Qed.

(** What is below [t] stays, so what an entry says does. *)
Lemma entry_ok_keeps v v' t e : (forall k n x, reach v t k -> at_name v k n = Some x -> at_name v' k n = Some x) ->
  same_data v v' -> entry_ok v t e -> entry_ok v' t e.
Proof.
  intros Hk Hd. destruct e as [path|path dest|path exe size hs]; cbn.
  - intros [i Hi]. exists i. by eapply resolve_below.
  - intros (dp & d & f & j & Hp & Hf & Hr & Ha). exists dp, d, f, j. split_and!; [done..| |].
    + by eapply resolve_below.
    + apply Hk; [by eapply resolve_reach|done].
  - intros (dp & d & f & x & Hp & Hf & Hr & Ha & Hc). exists dp, d, f, x. split_and!; [done..| | |].
    + by eapply resolve_below.
    + apply Hk; [by eapply resolve_reach|done].
    + case_decide.
      * intros j Hj. destruct (Hc j Hj) as (fn & Hfn & Hz). destruct (Hd j fn Hfn) as (fn' & Hfn' & E). exists fn'. split; [done|congruence].
      * destruct Hc as (j & fn & Hj & Hfn & Hm). destruct (Hd j fn Hfn) as (fn' & Hfn' & E). exists j, fn'. by rewrite E.
Qed.

Lemma entry_ok_grows t v v' e : grows t v v' -> entry_ok v t e -> entry_ok v' t e.
Proof. intros Hg. apply entry_ok_keeps; [|apply Hg]. intros k n x _. apply Hg. Qed.

(** *** The entries of a commit *)

Lemma post_step {A B} R `{!PreOrder R} w (m : ST W Stop A) (f : A -> ST W Stop B) (Q : B -> View -> Prop) F a : m w = (Ok a, w) ->
  post w (f a) R Q F -> post w (st_bind f m) R Q F.
Proof. intros Hm. unfold post. by rewrite (st_bind_ok m f w a w Hm). Qed.

Lemma entry_place_run debug (d : dhandle) dp path f (w : W) : Path.parent path = Some dp -> Path.file_name path = Some f ->
  entry_place debug (Some (d, dp)) path w = (Ok (d, f), w).
Proof.
  intros Hp Hf. unfold entry_place, try_opt, st_lift, expect, st_ret, st_bind. rewrite Hp, Hf. cbn.
  by destruct debug; [rewrite decide_True|].
Qed.

Lemma commit_empty_file_post t (d : dhandle) f exe w F : reach (view w) t (dino d) -> Path.name_ok f = true ->
  post w (commit_empty_file d f exe) (grows t)
    (fun _ v => exists x, at_name v (dino d) f = Some x /\
       forall j, x = NFile j -> exists fn, v_files v !! j = Some fn /\ fn_data fn = []) F.
Proof.
  intros Ht Hf. apply (post_io _). intros r w1 Hr%l_new_file; [|done]. destruct r as [file|e|]; cbn [on_ok] in Hr; [| |done].
  - destruct Hr as (j & m & Hfile & Hj & Hd & Hno & Hv). rewrite Hv. split; [by apply grows_mkfile|].
    assert (Hat : at_name (view w1) (dino d) f = Some (NFile j)).
    { rewrite Hv, at_name_link, decide_True; [done|]. by split_and!. }
    assert (Hfn : v_files (view w1) !! j = Some {| fn_data := []; fn_mode := m |}) by (rewrite Hv; cbn; by rewrite lookup_insert_eq).
    destruct exe.
    + apply (post_map_io _). intros r w2 Hr%l_set_permissions. destruct r as [[]|e|]; cbn [on_ok] in *; [| |done].
      * rewrite Hr, Hfile. split; [apply grows_mode|]. exists (NFile j). split; [exact Hat|]. intros j' [= <-]. cbn.
        rewrite lookup_alter_eq, Hfn. by eexists.
      * by rewrite Hr.
    + apply (post_ret _). exists (NFile j). split; [done|]. intros j' [= <-]. by eexists.
  - destruct Hr as [Hv _]. rewrite Hv. split; [reflexivity|]. case_decide; [|apply (post_fail _)].
    apply (post_bind _ _ _ _ (fun file v => at_name v (dino d) f = Some (fnode file))).
    { apply (post_map_io _). intros r w2 [Hv2 Hr]%l_open_file; [|done]. rewrite Hv2. split; [reflexivity|]. by destruct r. }
    intros file w2 _ Hat. apply (post_bind _ _ _ _ (fun meta v => at_name v (dino d) f = Some (fnode file) /\
      forall j, fnode file = NFile j -> exists fn, v_files v !! j = Some fn /\ fm_len meta = Z.of_nat (length (fn_data fn)))).
    { apply (post_map_io _). intros r w3 [Hv3 Hr]%l_fmetadata. rewrite Hv3. split; [reflexivity|].
      destruct r as [m|e3|]; cbn [on_ok] in *; [|done..]. split; [done|]. intros j Hj. destruct (Hr j Hj) as (fn & ? & ? & _).
      by exists fn. }
    intros meta w3 _ [Hat3 Hlen]. case_decide as Hz; [apply (post_fail _)|]. apply (post_ret _). exists (fnode file).
    split; [done|]. intros j Hj. destruct (Hlen j Hj) as (fn & Hfn & El). exists fn. split; [done|].
    apply length_zero_iff_nil. lia.
Qed.

Lemma commit_file_post t (d : dhandle) f exe hashes w F : Path.name_ok f = true ->
  post w (commit_file d f exe hashes) (grows t)
    (fun _ v => exists j fn, at_name v (dino d) f = Some (NFile j) /\ v_files v !! j = Some fn /\
       file_matches hashes (fn_data fn) = true) F.
Proof.
  intros Hf. apply (post_bind _ _ _ _ (fun file v => at_name v (dino d) f = Some (fnode file))).
  { apply (post_map_io _). intros r w1 [Hv Hr]%l_open_file; [|done]. rewrite Hv. split; [reflexivity|]. by destruct r. }
  intros file w1 _ Hat. apply (post_bind _ _ _ _ (fun _ v => at_name v (dino d) f = Some (fnode file))).
  { apply (post_map_io _). intros r w2 [Hv Hr]%l_futimens. rewrite Hv. split; [reflexivity|]. by destruct r. }
  intros _ w2 _ Hat2. apply (post_bind _ _ _ _ (fun ok v => exists j fn, fnode file = NFile j /\
    at_name v (dino d) f = Some (NFile j) /\ v_files v !! j = Some fn /\ ok = file_matches hashes (fn_data fn))).
  { apply (post_map_io _). intros r w3 [Hv Hr]%l_check. rewrite Hv. split; [reflexivity|].
    destruct r as [ok|e|]; cbn [on_ok] in *; [|done..]. destruct Hr as (j & fn & Hfn & ? & ?). exists j, fn.
    rewrite Hfn in Hat2. by split_and!. }
  intros ok w3 _ (j & fn & Hfile & Hat3 & Hfn & Hok). destruct ok; [|apply (post_fail _)]. cbn [negb].
  destruct exe; [|apply (post_ret _); by exists j, fn]. apply (post_map_io _).
  intros r w4 Hr%l_set_permissions. destruct r as [[]|e|]; cbn [on_ok] in *; [| |done].
  - rewrite Hr, Hfile. split; [apply grows_mode|]. exists j. cbn. rewrite lookup_alter_eq, Hfn. eexists. by split_and!.
  - by rewrite Hr.
Qed.

(** What the handle of the current directory stands for. *)
Definition dir_ok (v : View) (t : nat) (dir : option (dhandle * Path.t)) : Prop :=
  match dir with None => True | Some (d, path) => resolve v t (names_of path) = Some (dino d) end.

Lemma dir_ok_grows v v' t dir : grows t v v' -> dir_ok v t dir -> dir_ok v' t dir.
Proof. intros Hg. destruct dir as [[d p]|]; cbn; [|done]. apply resolve_keeps, Hg. Qed.

Definition next_dir (dir : option Path.t) (e : Index.Entry) : option Path.t :=
  match e with Index.Dir path => Some path | _ => dir end.

Lemma plain_names p : plain_path p -> Forall (fun n => Path.name_ok n = true) (names_of p).
Proof. intros (ns & -> & Hns). unfold names_of, relative. cbn. unfold Path.iter. by rewrite map_map, map_id. Qed.

(** One entry: what holds of it afterwards, and of the current directory. *)
Lemma commit_entry_post debug img dir e es w F : let t := dino (temporary img) in
  dir_ok (view w) t dir -> ordered (snd <$> dir) (e :: es) ->
  post w (commit_entry debug img dir e) (grows t)
    (fun dir' v => dir_ok v t dir' /\ snd <$> dir' = next_dir (snd <$> dir) e /\ entry_ok v t e) F.
Proof.
  intros t Hd Ho. assert (Hplace : forall path, entry_in (snd <$> dir) path -> exists d dp f,
    dir = Some (d, dp) /\ Path.parent path = Some dp /\ Path.file_name path = Some f /\ Path.name_ok f = true /\
    resolve (view w) t (names_of dp) = Some (dino d) /\ entry_place debug dir path w = (Ok (d, f), w)).
  { intros path (dp & f & Hdir & Hp & Hf & Hok). destruct dir as [[d dp']|]; [|done]. injection Hdir as ->.
    exists d, dp, f. split_and!; try done. by apply entry_place_run. }
  destruct e as [path|path dest|path exe size hs]; cbn [ordered] in Ho; cbn [commit_entry next_dir entry_ok].
  - destruct Ho as [Hp _]. eapply (post_bind _).
    { apply (ensure_names_post t); [by apply plain_names|apply rtc_refl]. }
    cbn. intros d w1 _ Hr. apply (post_ret _). by eauto.
  - destruct Ho as [Hin _]. destruct (Hplace path Hin) as (d & dp & f & -> & Hp & Hf & Hok & Hr & Hrun).
    eapply (post_step _); [exact Hrun|]. cbn beta iota.
    apply (post_bind _ _ _ _ (fun _ v => dir_ok v t (Some (d, dp)) /\ exists j, at_name v (dino d) f = Some (NLink j dest))).
    + apply (post_map_io _). intros r w1 Hr1%l_symlink; [|done]. destruct r as [[]|e|]; cbn [on_ok] in *; [| |done].
      * destruct Hr1 as (j & Hj & Hdir & Hno & Hv). rewrite Hv.
        assert (Hg : grows t (view w) (link (dino d) f (NLink j dest) (view w))).
        { apply grows_mklink; [by eapply resolve_reach|done|done|apply Hj]. }
        split; [done|]. split; [by eapply dir_ok_grows|]. exists j. rewrite at_name_link, decide_True; [done|]. by split_and!.
      * by rewrite Hr1.
    + intros _ w1 _ [Hd1 [j Hj]]. apply (post_ret _). split_and!; [done..|]. exists dp, (dino d), f, j. by split_and!.
  - destruct Ho as [Hin _]. destruct (Hplace path Hin) as (d & dp & f & -> & Hp & Hf & Hok & Hr & Hrun).
    eapply (post_step _); [exact Hrun|]. cbn beta iota.
    assert (Htd : reach (view w) t (dino d)) by (by eapply resolve_reach).
    destruct (decide (size = 0)%Z) as [Hz|Hz]; eapply (post_bind _).
    + apply post_rel. by apply (commit_empty_file_post t).
    + cbn beta. intros _ w1 _ [Hg (x & Hx & Hj)]. apply (post_ret _). split_and!; [by eapply dir_ok_grows|done|].
      exists dp, (dino d), f, x. split_and!; try done. by apply (dir_ok_grows _ _ _ (Some (d, dp)) Hg).
    + apply post_rel. by apply (commit_file_post t).
    + cbn beta. intros _ w1 _ [Hg (j & fn & Hx & Hfn & Hm)]. apply (post_ret _). split_and!; [by eapply dir_ok_grows|done|].
      exists dp, (dino d), f, (NFile j). split_and!; try done; [by apply (dir_ok_grows _ _ _ (Some (d, dp)) Hg)|]. eauto.
Qed.

Lemma commit_entries_post debug img dir es w F : let t := dino (temporary img) in
  dir_ok (view w) t dir -> ordered (snd <$> dir) es ->
  post w (commit_entries debug img dir es) (grows t) (fun _ v => Forall (entry_ok v t) es) F.
Proof.
  intros t. revert dir w. induction es as [|e es IH]; intros dir w Hd Ho; cbn [commit_entries].
  { apply (post_ret _). constructor. }
  eapply (post_bind _); [by apply (commit_entry_post debug img dir e es)|]. cbn. intros dir' w1 _ (Hd1 & Hs & He).
  eapply post_weaken; [apply post_rel, IH; [done|]|done| |done].
  - rewrite Hs. destruct e; cbn in *; apply Ho.
  - cbn. intros _ v [Hg Hes]. constructor; [by eapply entry_ok_grows|done].
Qed.

(** *** Publishing *)

Lemma tmp_name_ok n : Path.name_ok n = true -> Path.name_ok (tmp_name n) = true.
Proof. intros Hn%name_ok_no_slash. apply name_ok_prefix; [done|cbn; lia|done]. Qed.

Lemma tmp_names n : tmp_name n <> n /\ old_name (tmp_name n) <> n /\ old_name (tmp_name n) <> tmp_name n.
Proof.
  unfold tmp_name, old_name. split_and!; intros E%(f_equal String.length); rewrite !string_length_app in E; cbn in E; lia.
Qed.

(** An image that is being made: its temporary directory is beside its final
    name, and nothing is shared between the two. *)
Record image_ready (v : View) (img : Image W) (f : string) : Prop := {
  i_name : final_name (virtual_path img) = Some f;
  i_ok : Path.name_ok f = true;
  i_tmp : temporary_name img = tmp_name f;
  i_at : at_name v (dino (parent img)) (tmp_name f) = Some (NDir (dino (temporary img)));
  i_dir : is_dir v (dino (temporary img));
  i_apart : siblings_apart v (dino (parent img))
}.

(** Names beside the ones a commit works with. *)
Definition beside (f n : string) : Prop := n <> f /\ n <> tmp_name f /\ n <> old_name (tmp_name f).

(** The final name stands for the new directory as it was, and nothing else
    is touched. *)
Definition published (p t : nat) (f : string) (v v' : View) : Prop :=
  at_name v' p f = Some (NDir t) /\ same_tree v v' t /\ v_files v' = v_files v /\
  (forall n x, beside f n -> at_name v p n = Some x -> at_name v' p n = Some x /\ same_tree v v' (ino x)).

Lemma publish_run fuel img f w r w' : 0 < fuel -> image_ready (view w) img f -> publish fuel img w = (r, w') ->
  let p := dino (parent img) in
  r <> Panic /\
  ((view w' = view w /\ exists e, r = Err (Failed e)) \/
   (published p (dino (temporary img)) f (view w) (view w') /\
    (r = Ok tt -> at_name (view w') p (tmp_name f) = None) /\
    (r = Err OutOfFuel -> ~ (fits (view w) p f fuel /\ fits (view w) p (old_name (tmp_name f)) fuel)))).
Proof.
  intros Hpos [Hname Hok Htmp Hat Hdir Hap] Hrun p. destruct (tmp_names f) as (Hn1 & Hn2 & Hn3).
  pose proof (tmp_name_ok f Hok) as Htok. set (t := dino (temporary img)) in *.
  fold p in Hat, Hap. unfold publish, try_opt, st_bind, st_lift, if_found, on_io in Hrun. rewrite Hname, Htmp in Hrun. cbn [expect] in Hrun.
  destruct (d_metadata (parent img) f w) as [rm w1] eqn:Hm. apply l_metadata in Hm as [Hv1 Hm]; [|done].
  destruct rm as [m|e|]; cbn [on_ok] in Hm; [| |done].
  - (* the name is taken *)
    cbn in Hrun. unfold map_io, on_io in Hrun.
    destruct (d_local_exchange (parent img) (tmp_name f) f w1) as [rx w2] eqn:Hx. apply l_exchange in Hx; [|done..].
    rewrite Hv1 in Hx. destruct rx as [[]|e|]; cbn [on_ok] in Hx; [| |done].
    2: { injection Hrun as <- <-. split; [done|]. left. split; [done|]. by eexists. }
    destruct Hx as (x & y & Hxt & Hy & Hv2). fold p in Hxt, Hy, Hv2. rewrite Hat in Hxt. injection Hxt as <-.
    destruct (siblings_exchange _ _ _ _ _ _ Hap Hat Hy Hn1) as (Hap2 & Ha2 & Hf2 & Ho2). rewrite <- Hv2 in *.
    cbn in Hrun. pose proof (remove_dir_recursive_post fuel (parent img) (tmp_name f) w2 Hpos Htok) as Hrm.
    unfold post in Hrm. rewrite Hrun in Hrm. destruct Hrm as [Hc Hr].
    { intros z Hz. apply (proj1 Hap2 (tmp_name f) z Hz). }
    fold p in Hc, Hr. assert (Hst : forall n x, at_name (view w) p n = Some x -> same_tree (view w) (view w2) (ino x)).
    { intros n x Hx. apply (same_tree_names _ _ p); [|by apply (proj1 Hap n)]. intros i k Hi. apply Ho2. by left. }
    split; [by intros ->|]. right. split_and!.
    + destruct (clears_sibling p (tmp_name f) _ _ f (NDir t) Hap2 Hc) as [H1 H2]; [done..|]. split_and!; [done| | |].
      * eapply (same_tree_trans _ (view w2)); [apply (Hst _ _ Hat)|done].
      * rewrite (c_files _ _ _ _ Hc), Hv2. done.
      * intros n x (Hnf & Hnt & Hno) Hx. destruct (clears_sibling p (tmp_name f) (view w2) (view w') n x Hap2 Hc) as [H3 H4];
          [done..|by rewrite Ho2 by auto|]. split; [done|]. eapply same_tree_trans; [by eapply Hst|done].
    + intros ->. apply Hr.
    + intros ->. intros [Hf1 Hf3]. apply Hr. split.
      * eapply fits_same; [exact Hy|exact Ha2|by eapply Hst|done].
      * intros z Hz. assert (Hz1 : at_name (view w) p (old_name (tmp_name f)) = Some z) by (rewrite <- Ho2; [done|by right]).
        by apply (fits_same (view w) (view w2) p p _ _ fuel z Hz1 Hz (Hst _ _ Hz1) Hf3).
  - case_decide as Hnf.
    2: { injection Hrun as <- <-. split; [done|]. left. split; [done|]. by eexists. }
    cbn in Hrun. unfold map_io, on_io in Hrun. specialize (Hm Hnf).
    destruct (d_local_rename (parent img) (tmp_name f) f w1) as [rx w2] eqn:Hx. apply l_rename in Hx; [|done..].
    rewrite Hv1 in Hx. destruct rx as [[]|e1|]; cbn [on_ok] in Hx; [| |done].
    2: { injection Hrun as <- <-. split; [done|]. left. split; [apply Hx|]. by eexists. }
    injection Hrun as <- <-. split; [done|]. right. destruct Hx as (x & Hx & [Hv2|[Hx2 _]]); [|fold p in Hx2, Hm; congruence].
    fold p in Hx, Hv2. rewrite Hat in Hx. injection Hx as <-. assert (Hpd : is_dir (view w) p) by (by eapply at_name_dir).
    assert (Hat2 : forall i n, (i <> p \/ n <> f /\ n <> tmp_name f) -> at_name (view w2) i n = at_name (view w) i n).
    { intros i n Hi. rewrite Hv2, at_name_link, at_name_unlink, !decide_False; [done|tauto..]. }
    assert (Hst : forall n x, at_name (view w) p n = Some x -> same_tree (view w) (view w2) (ino x)).
    { intros n x Hx. apply (same_tree_names _ _ p); [|by apply (proj1 Hap n)]. intros i k Hi. apply Hat2. by left. }
    split_and!.
    + split_and!; [|apply (Hst _ _ Hat)|by rewrite Hv2|].
      * rewrite Hv2, at_name_link, decide_True; [done|]. by rewrite is_dir_unlink.
      * intros n x (Hnf' & Hnt & _) Hx. split; [by rewrite Hat2 by auto|by eapply Hst].
    + intros _. rewrite Hv2, at_name_link, at_name_unlink, decide_False, decide_True; [done..|]. intros (_ & ? & _). done.
    + done.
Qed.
End Holds.

(** ** The theorem about commits *)

Section CommitTheorem.
Context `{DiskLaws W}.

Lemma fits_siblings t v v' p a n fuel : siblings_apart v p -> at_name v p a = Some (NDir t) -> is_dir v t -> grows t v v' ->
  n <> a -> fits v p n fuel -> fits v' p n fuel.
Proof.
  intros Hap Ha Ht Hg Hn Hf x Hx. destruct (grows_siblings _ _ _ _ _ Hap Ha Ht Hg) as (Hpn & Hst & _).
  rewrite Hpn in Hx. refine (fits_same v v' p p n n fuel x Hx _ (Hst n x Hn Hx) Hf x _); by rewrite Hpn.
Qed.

Lemma ready_grows v v' img f : image_ready v img f -> grows (dino (temporary img)) v v' -> image_ready v' img f.
Proof.
  intros [H1 H2 H3 H4 H5 H6] Hg. destruct (grows_siblings _ _ _ _ _ H6 H4 H5 Hg) as (Hpn & _ & Hap).
  split; [done..|by rewrite Hpn|by apply Hg|done].
Qed.

(** C7. A commit is atomic: its result is that the final name stands for what it
    did before, untouched, or for the new directory, with every entry of the
    index checked in it; the second if the commit succeeds, and also if it
    fails after the exchange.  The data of files and the other images stay. *)
Theorem commit_image_atomic debug fuel img f w r w' :
  commit_image debug fuel img w = (r, w') -> 0 < fuel -> image_ready (view w) img f ->
  ordered None (entries (Disk.index img)) ->
  let p := dino (parent img) in
  r <> Panic /\
  (r = Err OutOfFuel -> ~ (fits (view w) p f fuel /\ fits (view w) p (old_name (tmp_name f)) fuel)) /\
  (r = Ok tt -> at_name (view w') p (tmp_name f) = None) /\
  (at_name (view w') p f = at_name (view w) p f /\ r <> Ok tt /\
     (forall x, at_name (view w) p f = Some x -> same_tree (view w) (view w') (ino x)) \/
   at_name (view w') p f = Some (NDir (dino (temporary img))) /\
     Forall (entry_ok (view w') (dino (temporary img))) (entries (Disk.index img))) /\
  same_data (view w) (view w') /\
  (forall n x, beside f n -> at_name (view w) p n = Some x ->
     at_name (view w') p n = Some x /\ same_tree (view w) (view w') (ino x)).
Proof.
  intros Hrun Hpos Hready Hord p. set (t := dino (temporary img)).
  pose proof (commit_entries_post debug img None (entries (Disk.index img)) w False I Hord) as Hp.
  unfold post, commit_image, st_bind in *. destruct (commit_entries debug img None _ w) as [re w1]. fold t in Hp.
  destruct Hp as [Hg He]. pose proof Hready as [_ Hok Htmp Hat Hdir Hap]. fold p t in Hat, Hdir, Hap.
  destruct (grows_siblings _ _ _ _ _ Hap Hat Hdir Hg) as (Hpn & Hst & Hap1). destruct (tmp_names f) as (Hn1 & Hn2 & Hn3).
  assert (Hbeside : forall n x, beside f n -> at_name (view w) p n = Some x ->
     at_name (view w1) p n = Some x /\ same_tree (view w) (view w1) (ino x)).
  { intros n x (_ & Hnt & _) Hx. split; [by rewrite Hpn|by apply (Hst n)]. }
  assert (Hold : forall x, at_name (view w) p f = Some x -> same_tree (view w) (view w1) (ino x)).
  { intros x Hx. by apply (Hst f). }
  destruct re as [[]|e|]; [|injection Hrun as <- <-; destruct e; [|done]|done].
  2: { split_and!; [done..|left; by rewrite Hpn|apply Hg|done]. }
  destruct (publish_run fuel img f w1 r w' Hpos) as [Hr [[Hv [e ->]]|(Hpub & Hgone & Hfuel)]]; [by eapply ready_grows|done| |].
  - rewrite Hv. split_and!; [done..|left; by rewrite Hpn|apply Hg|done].
  - destruct Hpub as (Hf & Hsame & Hfiles & Hrest). fold p t in Hf, Hsame, Hrest.
    assert (Hdata : same_data (view w1) (view w')) by (intros j fn; rewrite Hfiles; eauto).
    split_and!; [done| |done| | |].
    + intros Hof [Hf1 Hf2]. apply (Hfuel Hof). split; (eapply fits_siblings; [exact Hap|exact Hat|done|done|congruence|done]).
    + right. split; [done|]. eapply Forall_impl; [exact He|]. intros e. apply entry_ok_keeps; [|done].
      intros k n x Hk Hx. by rewrite Hsame.
    + intros j fn (fn1 & Hfn1 & <-)%(g_data _ _ _ Hg). by apply Hdata.
    + intros n x Hb Hx. destruct (Hbeside n x Hb Hx) as [Hx1 Hs1]. destruct (Hrest n x Hb Hx1) as [Hx2 Hs2].
      split; [done|]. by eapply same_tree_trans.
Qed.
End CommitTheorem.

(** ** The start of an image *)

Section StartTheorem.
Context `{DiskLaws W}.

Definition anyhow (v v' : View) : Prop := True.
#[local] Instance anyhow_preorder : PreOrder anyhow.
Proof. done. Qed.

(** The relation of the views as a part of the result. *)
Lemma post_anyhow {A} w (m : ST W Stop A) R (Q : A -> View -> Prop) (Q' : A -> View -> Prop) F F' :
  post w m R Q F -> (forall a v, R (view w) v -> Q a v -> Q' a v) -> (F -> F') -> post w m anyhow Q' F'.
Proof. intros Hm HQ HF. unfold post in *. destruct (m w) as [[a|[]|] w1]; destruct Hm; split; auto; done. Qed.

Lemma ensure_virtual_parent_names (dir : dhandle) k ns f (w : W) :
  ensure_virtual_parent dir (of_names k (ns ++ [f])) w = ensure_names dir ns w.
Proof.
  unfold ensure_virtual_parent, st_bind, st_lift. rewrite suffix_of_names, level_of_names, length_app. cbn [expect length].
  rewrite Nat.add_1_r. cbn [expect]. f_equal. unfold Path.iter. rewrite map_map. cbn. rewrite map_id. by rewrite take_app_length.
Qed.

(** Names and what is below them are still there. *)
Definition stays (v v' : View) (p : nat) (n : string) : Prop :=
  forall x, at_name v p n = Some x -> at_name v' p n = Some x /\
    forall i m y, reach v (ino x) i -> at_name v i m = Some y -> at_name v' i m = Some y.

Lemma clears_forest p n v v' : clears p n v v' -> at_name v' p (old_name n) = None -> forest v -> forest v'.
Proof.
  intros Hc Ho. apply forest_sub; [|apply Hc]. intros i m x Hx.
  destruct (decide (i = p /\ m = old_name n)) as [[-> ->]|Hne]; [congruence|].
  destruct (c_names _ _ _ _ Hc i m) as [E|[E _]]; [|congruence..].
  destruct (decide (i = p)) as [->|]; [right|by left]. intros ->. by apply Hne.
Qed.

(** A path to the directory does not go through what is removed in it. *)
Lemma resolve_clears p n v v' i names : siblings_apart v p -> clears p n v v' ->
  resolve v i names = Some p -> resolve v' i names = Some p.
Proof.
  intros [Hp _] Hc. revert i. induction names as [|m names IH]; intros i; cbn; [done|].
  intros (x & Hx & Hr)%bind_Some. assert (Hxp : reach v (ino x) p) by (by eapply resolve_reach).
  assert (Hip : i <> p) by (intros ->; by apply (Hp m x)).
  assert (Hb : forall n', ~ below v p n' i m).
  { intros n' [[? _]|(y & Hy & Hyi)]; [done|]. apply (Hp n' y Hy). etransitivity; [by eapply reach_step|done]. }
  destruct (c_names _ _ _ _ Hc i m (or_introl Hip)) as [E|[_ [?|?]]]; [|by exfalso; eapply Hb..].
  rewrite E, Hx. cbn. by apply IH.
Qed.

Lemma start_image_post fuel base idx k ns f w : Forall (fun n => Path.name_ok n = true) (ns ++ [f]) -> 0 < fuel ->
  forest (view w) ->
  post w (start_image fuel base idx (of_names k (ns ++ [f]))) anyhow
    (fun img v => image_ready v img f /\ v_dirs v !! dino (temporary img) = Some ∅ /\ Disk.index img = idx /\ forest v /\
       resolve v (base_ino base) ns = Some (dino (parent img)) /\ same_data (view w) v /\
       forall n, n <> tmp_name f -> n <> old_name (tmp_name f) -> stays (view w) v (dino (parent img)) n)
    (exists v1 p, grows (base_ino base) (view w) v1 /\ resolve v1 (base_ino base) ns = Some p /\
       ~ (fits v1 p (tmp_name f) fuel /\ fits v1 p (old_name (tmp_name f)) fuel)).
Proof.
  intros Hall Hpos Hfor. apply Forall_app in Hall as [Hns Hf]. rewrite Forall_singleton in Hf. pose proof (tmp_name_ok f Hf) as Htok.
  destruct (tmp_names f) as (Hn1 & Hn2 & Hn3). set (b := base_ino base). unfold start_image.
  apply (post_bind _ _ _ _ (fun d v => v = view w /\ dino d = b)).
  { apply (post_map_io _). intros r w1 [Hv Hr]%l_open. split; [done|]. by destruct r. }
  intros d w1 _ [Hv Hd]. apply (post_bind _ _ _ _ (fun p v => grows b (view w) v /\ resolve v b ns = Some (dino p))).
  { unfold post. rewrite ensure_virtual_parent_names. fold (post w1 (ensure_names d ns) anyhow
      (fun p v => grows b (view w) v /\ resolve v b ns = Some (dino p))
      (exists v1 p, grows b (view w) v1 /\ resolve v1 b ns = Some p /\
        ~ (fits v1 p (tmp_name f) fuel /\ fits v1 p (old_name (tmp_name f)) fuel))).
    eapply (post_anyhow _ _ (grows b) _ _ False); [apply ensure_names_post; [done|]| |done].
    - rewrite Hv, Hd. apply rtc_refl.
    - cbn. rewrite Hv, Hd. done. }
  intros p w2 _ [Hg Hp]. eapply (post_step _). { unfold try_opt, st_lift. by rewrite final_name_snoc. }
  assert (Hfor2 : forest (view w2)) by (by apply (g_forest _ _ _ Hg)).
  apply (post_bind _ _ _ _ (fun _ v => clears (dino p) (tmp_name f) (view w2) v /\
    at_name v (dino p) (tmp_name f) = None /\ at_name v (dino p) (old_name (tmp_name f)) = None)).
  { eapply post_anyhow; [apply remove_dir_recursive_post; [done..|]| |].
    - intros x Hx. by apply (f_acyclic _ Hfor2 _ _ _ Hx).
    - done.
    - intros Hno. by exists (view w2), (dino p). }
  intros _ w3 _ (Hc & Hno & Hnoo). pose proof (clears_forest _ _ _ _ Hc Hnoo Hfor2) as Hfor3.
  eapply (post_bind _); [eapply post_anyhow; [by apply (ensure_subdir_new (dino p)); [..|apply rtc_refl|]| |]|].
  - intros h v Hg3 Hh. exact (conj Hg3 Hh).
  - exact (fun F : False => match F with end).
  - cbn beta. intros t w4 _ [Hg4 [Hat Hempty]]. apply (post_ret _). cbn.
    assert (Hap2 : siblings_apart (view w2) (dino p)) by (by apply forest_apart).
    assert (Hstay : forall n, n <> tmp_name f -> n <> old_name (tmp_name f) -> stays (view w) (view w4) (dino p) n).
    { intros n Hnt Hno' x Hx. pose proof (g_keeps _ _ _ Hg _ _ _ Hx) as Hx2.
      destruct (clears_sibling _ _ _ _ n x Hap2 Hc Hnt Hno' Hx2) as [Hx3 Hs3]. split; [by apply Hg4|].
      intros i m y Hi Hy. apply (g_keeps _ _ _ Hg4). rewrite Hs3; [by apply Hg|]. eapply reach_mono; [apply Hg|done]. }
    split_and!; try done.
    + split; cbn; try done; [by rewrite final_name_snoc|by eexists|]. apply forest_apart, (g_forest _ _ _ Hg4), Hfor3.
    + by apply (g_forest _ _ _ Hg4).
    + eapply resolve_keeps; [apply Hg4|]. by eapply resolve_clears.
    + intros j fn (fn1 & Hfn1 & <-)%(g_data _ _ _ Hg). apply (g_data _ _ _ Hg4). by rewrite (c_files _ _ _ _ Hc).
Qed.

(** C8. A new image: its temporary directory is empty and beside its final name,
    which keeps what it stands for; only leftovers of earlier temporary
    directories are removed.  The fuel is too small only for leftovers that are
    as deep. *)
Theorem start_image_ready fuel base idx k ns f w r w' : Forall (fun n => Path.name_ok n = true) (ns ++ [f]) -> 0 < fuel ->
  forest (view w) -> start_image fuel base idx (of_names k (ns ++ [f])) w = (r, w') ->
  r <> Panic /\
  (forall img, r = Ok img ->
     image_ready (view w') img f /\ v_dirs (view w') !! dino (temporary img) = Some ∅ /\ Disk.index img = idx /\
     forest (view w') /\ resolve (view w') (base_ino base) ns = Some (dino (parent img)) /\ same_data (view w) (view w') /\
     forall n, n <> tmp_name f -> n <> old_name (tmp_name f) -> stays (view w) (view w') (dino (parent img)) n) /\
  (r = Err OutOfFuel -> exists v1 p, grows (base_ino base) (view w) v1 /\ resolve v1 (base_ino base) ns = Some p /\
     ~ (fits v1 p (tmp_name f) fuel /\ fits v1 p (old_name (tmp_name f)) fuel)).
Proof.
  intros Hn Hpos Hfor Hrun. pose proof (start_image_post fuel base idx k ns f w Hn Hpos Hfor) as Hp.
  unfold post in Hp. rewrite Hrun in Hp. destruct r as [img|[e|]|]; destruct Hp as [_ Hp]; [| | |done].
  - split_and!; [done| |done]. by intros img' [= <-].
  - by split_and!.
  - by split_and!.
Qed.
End StartTheorem.

(** ** Writing blocks *)

Lemma length_overwrite d off b : b <> [] -> length (overwrite d off b) = Nat.max (length d) (off + length b).
Proof.
  intros Hb. unfold overwrite. destruct b as [|x b]; [done|].
  rewrite !length_app, length_take, length_replicate, length_drop. lia.
Qed.

Lemma overwrite_inside d off b i : off <= i < off + length b -> overwrite d off b !! i = b !! (i - off).
Proof.
  intros Hi. unfold overwrite. destruct b as [|x b]; [cbn in Hi; lia|].
  assert (Hl : length (take off d ++ replicate (off - length d) Byte.x00) = off).
  { rewrite length_app, length_take, length_replicate. lia. }
  rewrite app_assoc, lookup_app_r by lia. rewrite Hl. by rewrite lookup_app_l by lia.
Qed.

Lemma overwrite_outside d off b i : i < length d -> i < off \/ off + length b <= i -> overwrite d off b !! i = d !! i.
Proof.
  intros Hd Hi. unfold overwrite. destruct b as [|x b]; [done|]. destruct Hi as [Hi|Hi].
  - rewrite lookup_app_l by (rewrite length_take; lia). by rewrite lookup_take_lt by lia.
  - rewrite lookup_app_r by (rewrite length_take; lia).
    rewrite lookup_app_r by (rewrite length_take, length_replicate; lia).
    rewrite lookup_app_r by (rewrite length_take, length_replicate; lia). rewrite lookup_drop. f_equal.
    rewrite length_take, length_replicate. lia.
Qed.

(** The [k]th block of a file. *)
Definition block (bs : nat) (c : bytes) (k : nat) : bytes := take bs (drop (k * bs) c).

(** What was written of a file so far. *)
Definition written (bs : nat) (c : bytes) (ks : list nat) (d : bytes) : Prop :=
  length d <= length c /\ forall k i, k ∈ ks -> k * bs <= i < S k * bs -> i < length c -> d !! i = c !! i.

Lemma overwrite_written bs c ks k d : written bs c ks d -> written bs c (k :: ks) (overwrite d (k * bs) (block bs c k)).
Proof.
  intros [Hl Hw]. assert (Hlb : length (block bs c k) = Nat.min bs (length c - k * bs)).
  { unfold block. by rewrite length_take, length_drop. }
  destruct (decide (block bs c k = [])) as [E|Hne].
  - rewrite E. split; [done|]. intros m i [->|Hm]%elem_of_cons Hi Hc; [|by apply (Hw m)].
    rewrite E in Hlb. cbn in Hlb. lia.
  - assert (0 < length (block bs c k)) by (destruct (block bs c k); [done|cbn; lia]).
    split; [rewrite length_overwrite by done; lia|]. intros m i Hm Hi Hc.
    destruct (decide (k * bs <= i < k * bs + length (block bs c k))) as [Hin|Hout].
    + rewrite overwrite_inside by done. unfold block. rewrite lookup_take_lt by lia. rewrite lookup_drop. f_equal. lia.
    + apply elem_of_cons in Hm as [->|Hm]; [lia|]. pose proof (Hw m i Hm Hi Hc) as Hd.
      destruct (lookup_lt_is_Some_2 c i Hc) as [x Hx]. rewrite Hx in Hd. apply lookup_lt_Some in Hd as Hid.
      rewrite overwrite_outside by lia. by rewrite Hd, Hx.
Qed.

Lemma written_all bs c ks d : 0 < bs -> written bs c ks d -> (forall k, k * bs < length c -> k ∈ ks) -> d = c.
Proof.
  intros Hbs [Hl Hw] Hall. assert (Hi : forall i, i < length c -> d !! i = c !! i).
  { intros i Hi. pose proof (Nat.div_mod i bs ltac:(lia)). pose proof (Nat.mod_upper_bound i bs ltac:(lia)).
    apply (Hw (i / bs)); [apply Hall; nia|nia|done]. }
  apply list_eq. intros i. destruct (decide (i < length c)) as [Hlt|Hge]; [by apply Hi|].
  rewrite !lookup_ge_None_2 by lia. done.
Qed.

Section WriteTheorem.
Context `{DiskLaws W}.

(** The contents of the file at a path below a directory. *)
Definition file_at (v : View) (t : nat) (ds : list string) (f : string) : option bytes :=
  d ← resolve v t ds; x ← at_name v d f; match x with NFile j => fn_data <$> v_files v !! j | _ => None end.

Lemma file_at_some v t ds f d j fn : resolve v t ds = Some d -> at_name v d f = Some (NFile j) -> v_files v !! j = Some fn ->
  file_at v t ds f = Some (fn_data fn).
Proof. intros Hr Ha Hf. unfold file_at. rewrite Hr. cbn. rewrite Ha. cbn. by rewrite Hf. Qed.

Lemma resolve_set_data v j d i ns : resolve (set_data j d v) i ns = resolve v i ns.
Proof. revert i. induction ns as [|n ns IH]; intros i; cbn; [done|]. change (at_name (set_data j d v) i n) with (at_name v i n). by destruct (at_name v i n); cbn. Qed.

Lemma write_block_io_run t (dir : dhandle) f off b w r w' : Path.name_ok f = true -> reach (view w) t (dino dir) ->
  write_block_io dir f off b w = (r, w') ->
  r <> Panic /\ exists v1, grows t (view w) v1 /\
   (view w' = v1 /\ r <> Ok tt \/
    exists j fn k, at_name v1 (dino dir) f = Some (NFile j) /\ v_files v1 !! j = Some fn /\
      (at_name (view w) (dino dir) f = Some (NFile j) /\ v1 = view w \/ at_name (view w) (dino dir) f = None /\ fn_data fn = []) /\
      view w' = set_data j (overwrite (fn_data fn) off (take k b)) v1 /\ (r = Ok tt -> take k b = b)).
Proof.
  intros Hf Ht Hrun. unfold write_block_io, st_bind in Hrun.
  destruct (d_update_file dir f 420 w) as [ru w1] eqn:Hu. apply l_update_file in Hu; [|done].
  destruct ru as [file|e|]; cbn [on_ok] in Hu; [| |done].
  2: { injection Hrun as <- <-. split; [done|]. exists (view w). rewrite Hu. split; [reflexivity|]. by left. }
  destruct Hu as (j & Hfile & Hu).
  assert (Hv1 : grows t (view w) (view w1) /\ exists fn, at_name (view w1) (dino dir) f = Some (NFile j) /\
    v_files (view w1) !! j = Some fn /\ (at_name (view w) (dino dir) f = Some (NFile j) /\ view w1 = view w \/
      at_name (view w) (dino dir) f = None /\ fn_data fn = [])).
  { destruct Hu as [(Hat & [fn Hfn] & Hv)|(m & Hj & Hd & Hno & Hv)]; rewrite Hv.
    - split; [reflexivity|]. exists fn. split_and!; [done..|by left].
    - split; [by apply grows_mkfile|]. eexists. split_and!.
      + rewrite at_name_link, decide_True; [done|]. by split_and!.
      + cbn. by rewrite lookup_insert_eq.
      + by right. }
  destruct Hv1 as (Hg & fn & Hat & Hfn & Hor). pose proof (l_write_all file off b w1 r w' j fn Hrun Hfile Hfn) as Hw.
  destruct r as [[]|e|]; cbn [on_ok] in Hw; [| |done]; (split; [done|]); exists (view w1); (split; [done|]); right; exists j, fn.
  - exists (length b). rewrite firstn_all. by split_and!.
  - destruct Hw as [k Hw]. exists k. by split_and!.
Qed.

Lemma write_block_eq img ds f off b (w : W) :
  write_block img (Path.RootDir :: map Path.Normal (ds ++ [f])) off b w =
  st_bind (fun dir => map_io (write_block_io dir f off b) (fun e w => WriteFile (recover_name dir f w) e))
    (ensure_names (temporary img) ds) w.
Proof.
  unfold write_block, try_opt, st_bind, st_lift. cbn [Path.strip_root expect]. rewrite map_app. cbn [map].
  rewrite Path.path_parent_snoc, Path.file_name_snoc. cbn [expect]. unfold ensure_path.
  assert (Hrel : Path.iter (relative (map Path.Normal ds)) = ds).
  { unfold relative. replace (Path.strip_root (map Path.Normal ds)) with (@None Path.t) by (by destruct ds). cbn.
    unfold Path.iter. by rewrite map_map, map_id. }
  by rewrite Hrel.
Qed.

(** Only the data of a file changed. *)
Lemma set_data_ready v j d img f : image_ready v img f -> image_ready (set_data j d v) img f.
Proof. intros [H1 H2 H3 H4 H5 H6]. by split. Qed.
Lemma set_data_forest v j d : forest v -> forest (set_data j d v).
Proof. intros [H1 H2]. by split. Qed.

(** One block: the file has it, or if the call fails a part of it; files that
    are not at the path keep their data, and the image is still being made. *)
Lemma write_block_run img ds f off b fi w r w' : Forall (fun n => Path.name_ok n = true) (ds ++ [f]) ->
  write_block img (Path.RootDir :: map Path.Normal (ds ++ [f])) off b w = (r, w') ->
  image_ready (view w) img fi ->
  let t := dino (temporary img) in
  r <> Panic /\ r <> Err OutOfFuel /\ image_ready (view w') img fi /\ (forest (view w) -> forest (view w')) /\
  (r = Ok tt -> file_at (view w') t ds f = Some (overwrite (default [] (file_at (view w) t ds f)) off b)) /\
  (forall n x, n <> tmp_name fi -> at_name (view w) (dino (parent img)) n = Some x ->
     at_name (view w') (dino (parent img)) n = Some x /\ same_tree (view w) (view w') (ino x)) /\
  (forall j fn, v_files (view w) !! j = Some fn -> 
     (exists d, resolve (view w') t ds = Some d /\ at_name (view w') d f = Some (NFile j)) \/
     exists fn', v_files (view w') !! j = Some fn' /\ fn_data fn' = fn_data fn).
Proof.
  intros [Hds Hf]%Forall_app Hrun Hready t. rewrite Forall_singleton in Hf. rewrite write_block_eq in Hrun.
  pose proof (ensure_names_mkdirs t ds (temporary img) w False Hds (rtc_refl _ _)) as Hp. fold t in Hp.
  unfold post, st_bind in *. destruct (ensure_names (temporary img) ds w) as [re w1]. destruct Hp as [(Hg & Hfiles & Hnew) Hr].
  pose proof Hready as [_ _ _ Hat Hdir Hap]. fold t in Hat, Hdir.
  assert (Hgrown : forall v, grows t (view w) v -> image_ready v img fi /\ (forest (view w) -> forest v) /\
    (forall n x, n <> tmp_name fi -> at_name (view w) (dino (parent img)) n = Some x ->
       at_name v (dino (parent img)) n = Some x /\ same_tree (view w) v (ino x))).
  { intros v Hv. split_and!; [by eapply ready_grows|apply Hv|]. intros n x Hn Hx.
    destruct (grows_siblings _ _ _ _ _ Hap Hat Hdir Hv) as (Hpn & Hst & _). split; [by rewrite Hpn|by apply (Hst n)]. }
  destruct re as [d|e|]; [| |done].
  2: { injection Hrun as <- <-. destruct e; [|done]. destruct (Hgrown _ Hg) as (? & ? & ?). split_and!; try done.
       intros j fn Hj. right. by apply (g_data _ _ _ Hg). }
  unfold map_io, on_io in Hrun. destruct (write_block_io d f off b w1) as [rw w2] eqn:Hw.
  apply (write_block_io_run t) in Hw as (Hnp & v1 & Hg1 & Hcase); [|done|by eapply resolve_reach].
  assert (Hrr : w' = w2 /\ r <> Panic /\ r <> Err OutOfFuel /\ (r = Ok tt -> rw = Ok tt)).
  { destruct rw as [[]|e|]; injection Hrun as <- <-; by split_and!. }
  destruct Hrr as (-> & Hr1 & Hr2 & Hrok). assert (Hg01 : grows t (view w) v1) by (by etransitivity).
  destruct (Hgrown _ Hg01) as (Hrd & Hfo & Hsib).
  destruct Hcase as [[Hv Hbad]|(j & fn & k & Hatj & Hfn & Hor & Hv & Htake)]; rewrite Hv.
  { split_and!; try done; [by intros ?%Hrok|]. intros j fn Hj. right. by apply (g_data _ _ _ Hg01). }
  assert (Hres : resolve v1 t ds = Some (dino d)) by (eapply resolve_keeps; [apply Hg1|done]).
  split_and!; [done|done|by apply set_data_ready|intros Hfw; by apply set_data_forest, Hfo| |exact Hsib|].
  - intros Hok. rewrite (Htake (Hrok Hok)). erewrite file_at_some; [|by rewrite resolve_set_data|exact Hatj|].
    2: { cbn. rewrite lookup_alter_eq, Hfn. done. }
    cbn. f_equal. f_equal. destruct Hor as [[Hat1 ->]|[Hno Hempty]].
    + destruct (Hnew _ _ _ Hat1) as [Hat0|[? _]]; [|done].
      assert (Hres0 : resolve (view w) t ds = Some (dino d)).
      { eapply mkdirs_resolve; [by split|by eapply at_name_dir|done]. }
      unfold file_at. rewrite Hres0. cbn. rewrite Hat0. cbn. rewrite <- Hfiles, Hfn. done.
    + rewrite Hempty. destruct (file_at (view w) t ds f) as [c|] eqn:Ef; [|done]. exfalso.
      unfold file_at in Ef. apply bind_Some in Ef as (d0 & Hd0 & Ef). apply bind_Some in Ef as (x & Hx & Ef).
      assert (Hd1 : resolve (view w1) t ds = Some d0) by (eapply resolve_keeps; [apply Hg|done]).
      rewrite Hr in Hd1. injection Hd1 as <-. apply (g_keeps _ _ _ Hg) in Hx. congruence.
  - intros j' fn' Hj'. destruct (decide (j' = j)) as [->|Hne].
    + left. exists (dino d). by rewrite resolve_set_data.
    + right. destruct (g_data _ _ _ Hg01 j' fn' Hj') as (fn1 & Hfn1 & E). exists fn1. cbn. by rewrite lookup_alter_ne.
Qed.

(** Blocks written one after the other, as they arrive. *)
Fixpoint write_blocks (img : Image W) (path : Path.t) (l : list (nat * bytes)) : Op unit :=
  match l with
  | [] => st_ret tt
  | (off, b) :: l' => write_block img path off b ;;; write_blocks img path l'
  end.

Lemma write_blocks_written img ds f bs c ks fi ks0 w w' : Forall (fun n => Path.name_ok n = true) (ds ++ [f]) ->
  let t := dino (temporary img) in
  let path := Path.RootDir :: map Path.Normal (ds ++ [f]) in
  image_ready (view w) img fi -> written bs c ks0 (default [] (file_at (view w) t ds f)) ->
  write_blocks img path (map (fun k => (k * bs, block bs c k)) ks) w = (Ok tt, w') ->
  written bs c (reverse ks ++ ks0) (default [] (file_at (view w') t ds f)) /\
  (ks <> [] -> is_Some (file_at (view w') t ds f)) /\ image_ready (view w') img fi /\
  (forall n x, n <> tmp_name fi -> at_name (view w) (dino (parent img)) n = Some x ->
     at_name (view w') (dino (parent img)) n = Some x /\ same_tree (view w) (view w') (ino x)).
Proof.
  intros Hn t path. revert ks0 w. induction ks as [|k ks IH]; intros ks0 w Hready Hw; cbn [map write_blocks].
  { intros [= <-]. split_and!; [done..|]. intros n x _ Hx. split; [done|]. by intros i m _. }
  intros Hrun. apply st_bind_inv in Hrun as ([] & w1 & H1 & H2).
  destruct (write_block_run img ds f _ _ fi w _ w1 Hn H1 Hready) as (_ & _ & Hready1 & _ & Hfile & Hsib & _).
  fold t in Hfile. specialize (Hfile eq_refl).
  destruct (IH (k :: ks0) w1 Hready1) as (Hw' & Hsome & Hready' & Hsib'); [|done|].
  { rewrite Hfile. cbn. by apply overwrite_written. }
  split_and!; [|intros _|done|].
  - rewrite reverse_cons, <- app_assoc. exact Hw'.
  - destruct ks as [|k' ks]; [|by apply Hsome]. injection H2 as <-. rewrite Hfile. by eexists.
  - intros n x Hnn Hx. destruct (Hsib n x Hnn Hx) as [Hx1 Hs1]. destruct (Hsib' n x Hnn Hx1) as [Hx2 Hs2].
    split; [done|]. by eapply same_tree_trans.
Qed.

End WriteTheorem.

(** ** Reading blocks *)

Section ReadTheorem.
Context `{DiskLaws W}.

Lemma relative_normals ns : relative (map Path.Normal ns) = map Path.Normal ns.
Proof. unfold relative. by destruct ns. Qed.

Lemma iter_normals ns : Path.iter (map Path.Normal ns) = ns.
Proof. unfold Path.iter. by rewrite map_map, map_id. Qed.

Lemma open_path_post dir ns w F : Forall (fun n => Path.name_ok n = true) ns ->
  post w (open_path dir (map Path.Normal ns)) eq (fun h v => resolve v (dino dir) ns = Some (dino h)) F.
Proof. intros Hn. unfold open_path. rewrite relative_normals, iter_normals. by apply open_names_post. Qed.

Lemma resolve_app v i a b : resolve v i (a ++ b) = (j ← resolve v i a; resolve v j b).
Proof. revert i. induction a as [|n a IH]; intros i; cbn; [done|]. destruct (at_name v i n); cbn; [apply IH|done]. Qed.

(** C13. What is served of an image on disk, or of one that is being made: some of
    the bytes of the file at the offset, at most 32768, and none only at its end.
    Reading changes nothing. *)
Theorem read_block_spec config cfg k ns fi ds f off writing w :
  Forall (fun n => Path.name_ok n = true) ((k :: ns) ++ [fi]) -> Forall (fun n => Path.name_ok n = true) (ds ++ [f]) ->
  dirs config !! k = Some cfg ->
  post w (read_block config (of_names k (ns ++ [fi])) (Path.RootDir :: map Path.Normal (ds ++ [f])) off writing) eq
    (fun b v => exists i c, resolve v (base_ino (directory cfg)) (ns ++ [if writing then tmp_name fi else fi]) = Some i /\
       file_at v i ds f = Some c /\ b `prefix_of` take READ_SIZE (drop off c) /\ (b = [] -> drop off c = [])) False.
Proof.
  intros Hall Hfile Hcfg. apply Forall_app in Hall as [[Hk Hns]%Forall_cons Hfi]. rewrite Forall_singleton in Hfi.
  apply Forall_app in Hfile as [Hds Hf]. rewrite Forall_singleton in Hf. unfold read_block.
  eapply (post_step _); [done|]. eapply (post_step _). { unfold try_opt, st_lift. by rewrite key_of_names. }
  eapply (post_step _). { unfold st_lift. by rewrite Hcfg. }
  apply (post_bind _ _ _ _ (fun h _ => dino h = base_ino (directory cfg))).
  { apply (post_map_io _). intros r w1 [Hv Hr]%l_open. split; [done|]. by destruct r. }
  intros base w1 Hv1 Hbase. eapply (post_step _). { unfold try_opt, st_lift. rewrite parent_snoc. cbn [mbind option_bind]. by rewrite suffix_of_names. }
  eapply (post_bind _); [by apply open_path_post|]. cbn beta. intros d w2 Hv2 Hd.
  eapply (post_step _). { unfold try_opt, st_lift. by rewrite final_name_snoc. }
  set (name := if writing then tmp_name fi else fi).
  assert (Hname : Path.name_ok name = true) by (unfold name; destruct writing; [by apply tmp_name_ok|done]).
  rewrite (Path.parse_name name Hname). eapply (post_bind _); [by apply (open_path_post d [name]); constructor|].
  cbn beta. intros dimg w3 Hv3 Hdimg. eapply (post_step _).
  { unfold try_opt, st_lift. rewrite (map_app Path.Normal ds [f]). cbn [map]. by rewrite Path.path_parent_snoc. }
  eapply (post_bind _); [by apply open_path_post|]. cbn beta. intros df w4 Hv4 Hdf.
  eapply (post_step _). { unfold try_opt, st_lift. rewrite (map_app Path.Normal ds [f]). cbn [map]. by rewrite Path.file_name_snoc. }
  apply (post_bind _ _ _ _ (fun file v => at_name v (dino df) f = Some (fnode file))).
  { apply (post_map_io _). intros r w5 [Hv Hr]%l_open_file; [|done]. rewrite Hv. split; [done|]. by destruct r. }
  intros file w5 Hv5 Hat. apply (post_map_io _). intros r w6 [Hv6 Hr]%l_read. rewrite Hv6. split; [done|].
  destruct r as [b|e|]; cbn [on_ok] in *; [|done..]. destruct Hr as (j & fn & Hj & Hfn & Hpre & Hemp).
  exists (dino dimg), (fn_data fn). rewrite <- Hv5 in *. rewrite <- Hv4 in *. split_and!.
  - rewrite resolve_app, <- Hbase. rewrite <- Hv3 in *. by rewrite Hd.
  - rewrite Hj in Hat. by eapply file_at_some.
  - done.
  - intros Hb. specialize (Hemp Hb). by destruct (drop off (fn_data fn)).
Qed.
End ReadTheorem.

(** ** Links *)

Section LinkTheorem.
Context `{DiskLaws W}.

(** A link whose names are plain. *)
Definition plain_link (h : Link) : Prop := exists k ns ds f,
  source h = of_names k ns /\ Forall (fun n => Path.name_ok n = true) ns /\
  hl_path h = Path.RootDir :: map Path.Normal (ds ++ [f]) /\ Forall (fun n => Path.name_ok n = true) (ds ++ [f]).

(** The file of a link is in the directory, with the right contents. *)
Definition linked (v : View) (t : nat) (h : Link) : Prop := exists ds f d j fn,
  hl_path h = Path.RootDir :: map Path.Normal (ds ++ [f]) /\ resolve v t ds = Some d /\
  at_name v d f = Some (NFile j) /\ v_files v !! j = Some fn /\ file_matches (hl_hashes h) (fn_data fn) = true.

Lemma linked_grows v v' t h : grows t v v' -> linked v t h -> linked v' t h.
Proof.
  intros Hg (ds & f & d & j & fn & Hp & Hr & Ha & Hf & Hm). destruct (g_data _ _ _ Hg j fn Hf) as (fn' & Hf' & E).
  exists ds, f, d, j, fn'. rewrite E. split_and!; [done|eapply resolve_keeps; [apply Hg|done]|by apply Hg|done|done].
Qed.

Lemma open_path_post_eq p ns dir w F : relative p = map Path.Normal ns -> Forall (fun n => Path.name_ok n = true) ns ->
  post w (open_path dir p) eq (fun h v => resolve v (dino dir) ns = Some (dino h)) F.
Proof. intros Hp Hn. unfold open_path. rewrite Hp, iter_normals. by apply open_names_post. Qed.

Lemma post_same {A} R `{!PreOrder R} w (m : ST W Stop A) (Q : A -> View -> Prop) F : post w m eq Q F -> post w m R Q F.
Proof. intros Hm. eapply post_weaken; [exact Hm| |done..]. by intros v v' ->. Qed.

Lemma try_hardlink_post config h img w F : plain_link h ->
  post w (try_hardlink config h img) (grows (dino (temporary img)))
    (fun _ v => linked v (dino (temporary img)) h) F.
Proof.
  intros (k & ns & ds & f & Hsrc & Hns & Hpath & Hall). apply Forall_app in Hall as [Hds Hf]. rewrite Forall_singleton in Hf.
  set (t := dino (temporary img)). unfold try_hardlink. rewrite Hsrc, Hpath.
  assert (Hpar : Path.parent (Path.RootDir :: map Path.Normal (ds ++ [f])) = Some (Path.RootDir :: map Path.Normal ds) /\
    Path.file_name (Path.RootDir :: map Path.Normal (ds ++ [f])) = Some f).
  { rewrite map_app. cbn [map]. rewrite app_comm_cons. by rewrite Path.path_parent_snoc, Path.file_name_snoc. }
  destruct Hpar as [Hpar Hfn]. rewrite Hpar, Hfn.
  eapply (post_step _). { unfold try_opt, st_lift. by rewrite key_of_names. }
  destruct (dirs config !! k) as [cfg|]; [|apply (post_fail _ w (fun _ => NoDir (of_names k ns)))].
  eapply (post_step _); [done|]. apply (post_bind _ _ _ _ (fun _ _ => True)).
  { apply (post_map_io _). intros r w1 [Hv Hr]%l_open. rewrite Hv. split; [reflexivity|]. by destruct r. }
  intros base w1 _ _. eapply (post_step _). { unfold try_opt, st_lift. by rewrite suffix_of_names. }
  eapply (post_bind _); [apply (post_same _); by apply open_path_post|]. cbn beta. intros d w2 _ _.
  eapply (post_step _); [done|]. eapply (post_bind _); [apply (post_same _); by apply (open_path_post_eq _ ds)|].
  cbn beta. intros df w3 _ _. eapply (post_step _); [done|].
  apply (post_bind _ _ _ _ (fun file v => at_name v (dino df) f = Some (fnode file))).
  { apply (post_map_io _). intros r w4 [Hv Hr]%l_open_file; [|done]. rewrite Hv. split; [reflexivity|]. by destruct r. }
  intros file w4 _ Hat. apply (post_bind _ _ _ _ (fun ok v => exists j fn, fnode file = NFile j /\
    at_name v (dino df) f = Some (NFile j) /\ v_files v !! j = Some fn /\ ok = file_matches (hl_hashes h) (fn_data fn))).
  { apply (post_map_io _). intros r w5 [Hv Hr]%l_check. rewrite Hv. split; [reflexivity|].
    destruct r as [ok|e|]; cbn [on_ok] in *; [|done..]. destruct Hr as (j & fn & Hj & ? & ?). exists j, fn.
    rewrite Hj in Hat. by split_and!. }
  intros ok w5 _ (j & fn & Hj & Hat5 & Hfj & Hok). destruct ok; [|apply (post_fail _)]. cbn [negb].
  apply (post_bind _ _ _ _ (fun _ v => at_name v (dino df) f = Some (NFile j) /\ v_files v !! j = Some fn)).
  { apply (post_map_io _). intros r w6 [Hv Hr]%l_fmetadata. rewrite Hv. split; [reflexivity|]. by destruct r. }
  intros meta w6 _ [Hat6 Hf6]. destruct (negb _); [apply (post_fail _)|]. eapply (post_bind _).
  { unfold ensure_path. change (relative (Path.RootDir :: map Path.Normal ds)) with (map Path.Normal ds). rewrite iter_normals.
    apply post_rel. by apply (ensure_names_post t); [|apply rtc_refl]. }
  cbn beta. intros dest w7 _ [Hg Hd]. pose proof (g_keeps _ _ _ Hg _ _ _ Hat6) as Hat7.
  destruct (g_data _ _ _ Hg _ _ Hf6) as (fn7 & Hf7 & E7). apply (post_map_io _). intros r w8 Hr%l_hardlink; [|done..].
  destruct r as [[]|e|]; cbn [on_ok] in Hr; [| |done].
  - destruct Hr as (x & Hx & Hxd & Hdd & Hno & Hv). rewrite Hat7 in Hx. injection Hx as <-. rewrite Hv.
    assert (Hg8 : grows t (view w7) (link (dino dest) f (NFile j) (view w7))).
    { apply grows_mklink; [by eapply resolve_reach|done..]. }
    split; [done|]. cbn. exists ds, f, (dino dest), j, fn7. split_and!; [done| | |done|by rewrite E7].
    + eapply resolve_keeps; [apply Hg8|done].
    + rewrite at_name_link, decide_True; [done|]. by split_and!.
  - by rewrite Hr.
Qed.

(** C10. Every path that is reported as linked has a file that was checked against
    the hashes of the index; nothing outside of the new image changed. *)
Theorem check_and_hardlink_verified config hs img w : Forall plain_link hs ->
  post w (check_and_hardlink config hs img) (grows (dino (temporary img)))
    (fun paths v => forall p, p ∈ paths -> exists h, h ∈ hs /\ hl_path h = p /\ linked v (dino (temporary img)) h) False.
Proof.
  set (t := dino (temporary img)). intros Hp. revert w. induction Hp as [|h hs Hh Hp IH]; intros w; cbn [check_and_hardlink].
  { apply (post_ret _). by intros p ?%not_elem_of_nil. }
  apply (post_bind _ _ _ _ (fun r v => r <> Panic /\ (r = Ok tt -> linked v t h))).
  { pose proof (try_hardlink_post config h img w False Hh) as Ht. unfold post, st_catch in *. fold t in Ht.
    destruct (try_hardlink config h img w) as [[[]|[]|] w1]; destruct Ht; by split_and!. }
  intros r w1 _ [Hnp Hr]. eapply (post_bind _); [apply post_rel, IH|]. cbn beta. intros paths w2 _ [Hg Hps].
  assert (Hrest : forall p, p ∈ paths -> exists h', h' ∈ h :: hs /\ hl_path h' = p /\ linked (view w2) t h').
  { intros p (h' & Hh' & E & Hl)%Hps. exists h'. split_and!; [by right|done..]. }
  destruct r as [[]|e|]; [|by apply (post_ret _)|done]. apply (post_ret _). intros p [->|Hin]%elem_of_cons; [|by apply Hrest].
  exists h. split_and!; [by left|done|]. eapply linked_grows; [exact Hg|by apply Hr].
Qed.
End LinkTheorem.

(** ** Removal of an image *)

Section RemoveTheorem.
Context `{DiskLaws W}.

(** C12. The removal of an image ends, if the directories are not deeper than the
    fuel; a failure leaves the image whole or its name free. *)
Theorem remove_image_whole fuel cfg ns f w r w' : Forall (fun n => Path.name_ok n = true) (ns ++ [f]) ->
  to_str f = Some f -> 0 < fuel -> forest (view w) ->
  remove_image fuel cfg (map Path.Normal (ns ++ [f])) w = (r, w') ->
  r <> Panic /\
  (forall p, resolve (view w) (base_ino (directory cfg)) ns = Some p ->
     (fits (view w) p f fuel -> fits (view w) p (old_name f) fuel -> r <> Err OutOfFuel) /\
     (r = Ok tt -> at_name (view w') p f = None) /\
     (at_name (view w') p f = None \/ forall x, at_name (view w) p f = Some x ->
        at_name (view w') p f = Some x /\ same_tree (view w) (view w') (ino x)) /\
     (forall n x, n <> f -> n <> old_name f -> at_name (view w) p n = Some x ->
        at_name (view w') p n = Some x /\ same_tree (view w) (view w') (ino x))) /\
  v_files (view w') = v_files (view w).
Proof.
  intros Hall Hstr Hpos Hfor Hrun. apply Forall_app in Hall as [Hns Hf]. rewrite Forall_singleton in Hf.
  unfold remove_image, map_io, on_io, try_opt, st_lift, st_bind in Hrun.
  destruct (d_open (directory cfg) w) as [ro w1] eqn:Ho. apply l_open in Ho as [Hv1 Ho].
  assert (Hstay : view w' = view w -> r <> Panic -> r <> Err OutOfFuel -> r <> Ok tt -> 
    r <> Panic /\ (forall p, resolve (view w) (base_ino (directory cfg)) ns = Some p ->
     (fits (view w) p f fuel -> fits (view w) p (old_name f) fuel -> r <> Err OutOfFuel) /\
     (r = Ok tt -> at_name (view w') p f = None) /\
     (at_name (view w') p f = None \/ forall x, at_name (view w) p f = Some x ->
        at_name (view w') p f = Some x /\ same_tree (view w) (view w') (ino x)) /\
     (forall n x, n <> f -> n <> old_name f -> at_name (view w) p n = Some x ->
        at_name (view w') p n = Some x /\ same_tree (view w) (view w') (ino x))) /\
    v_files (view w') = v_files (view w)).
  { intros -> ? ? ?. split_and!; [done| |done]. intros p Hp. split_and!; [done..|right|]; intros; (split; [done|by intros i m _]). }
  destruct ro as [base|e|]; cbn [on_ok] in Ho; [| |done].
  2: { injection Hrun as <- <-. by apply Hstay. }
  rewrite map_app in Hrun. cbn [map] in Hrun. rewrite Path.path_parent_snoc, Path.file_name_snoc in Hrun.
  cbn [expect mbind option_bind st_ret] in Hrun. rewrite Hstr in Hrun.
  pose proof (open_path_post base ns w1 False Hns) as Hp. unfold post, st_ret in *.
  destruct (open_path base (map Path.Normal ns) w1) as [rp w2]. destruct Hp as [Hv2 Hp].
  destruct rp as [d|e|]; [| |done].
  2: { injection Hrun as <- <-. destruct e; [|done]. apply Hstay; [congruence|done..]. }
  cbn in Hrun. pose proof (remove_dir_recursive_post fuel d f w2 Hpos Hf) as Hr. unfold post in Hr. rewrite Hrun in Hr.
  rewrite <- Hv2, Hv1 in Hp, Hr. rewrite Ho in Hp.
  assert (Hap : siblings_apart (view w) (dino d)) by (by apply forest_apart).
  destruct Hr as [Hc Hr]; [apply Hap|]. split_and!; [by intros ->| |apply Hc].
  intros p Hp'. rewrite Hp in Hp'. injection Hp' as <-. split_and!.
  - intros H1 H2 ->. by apply Hr.
  - intros ->. apply Hr.
  - destruct (c_atomic _ _ _ _ Hc) as [Hno|Hrm]; [by left|]. destruct (at_name (view w') (dino d) f) as [y|] eqn:Ey; [right|by left].
    intros x Hx. pose proof (removes_sub _ _ _ _ _ _ Hrm Ey) as Hx'. rewrite Hx in Hx'. injection Hx' as <-. split; [done|].
    intros i m Hi. destruct (r_names _ _ _ Hrm i m) as [E|[E Hb]]; [done|]. rewrite E. symmetry.
    destruct Hb as [[-> ->]|(z & Hz & Hri)]; [by destruct (proj1 Hap f x Hx)|].
    destruct (at_name (view w) i m) eqn:Em; [|done]. apply at_name_dir in Em.
    destruct (proj2 Hap f (old_name f) x z i Hx Hz (not_eq_sym (old_name_ne f)) Hi Hri Em).
  - intros n x Hn1 Hn2 Hx. by apply (clears_sibling _ f).
Qed.
End RemoveTheorem.

(** ** Lists *)

(** A keep list has the paths of its lines that have the right depth. *)
Lemma keep_lines_in n ls ps p : keep_lines n ls = Some ps ->
  (p ∈ ps <-> exists line, Some line ∈ ls /\ starts_with_hash (trim line) = false /\
     p = Path.parse (trim_left_slash (trim line)) /\ length p = n).
Proof.
  revert ps. induction ls as [|[line|] ls IH]; intros ps; cbn [keep_lines]; [| |done].
  - intros [= <-]. split; [by intros ?%not_elem_of_nil|]. by intros (line & ?%not_elem_of_nil & _).
  - intros (rest & Hrest & Hps)%bind_Some. specialize (IH rest Hrest).
    assert (Hor : forall Q, (exists l, Some l ∈ Some line :: ls /\ Q l) <-> Q line \/ exists l, Some l ∈ ls /\ Q l).
    { intros Q. split; [intros (l & [[= ->]|Hl]%elem_of_cons & Hq); eauto|intros [?|(l & ? & ?)]; eexists; (split; [|done])].
      - by left.
      - by right. }
    rewrite Hor. destruct (starts_with_hash (trim line)) eqn:Eh.
    { injection Hps as <-. rewrite IH. split; [by right|]. intros [(? & _)|?]; done. }
    case_decide as Hl; injection Hps as <-.
    + rewrite elem_of_cons, IH. split; (intros [H1|H1]; [left|by right]).
      * by subst.
      * apply H1.
    + rewrite IH. split; [by right|]. intros [(_ & -> & ?)|?]; done.
Qed.

Lemma read_keep_list_absent open_file dir fpath e : keep_list_file dir = Some fpath -> open_file fpath = Err e ->
  io_kind e = NotFound -> read_keep_list open_file dir = Ok [].
Proof. intros Hk Ho He. unfold read_keep_list. rewrite Hk, Ho. by rewrite decide_True. Qed.

(** The names of a peer list can be names of hosts. *)
Lemma peer_lines_hosts ls h : h ∈ peer_lines ls -> host_re h = true.
Proof.
  induction ls as [|[line|] ls IH]; cbn [peer_lines]; [by intros ?%not_elem_of_nil| |by intros ?%not_elem_of_nil].
  case_match; [done|]. destruct (host_re (trim line)) eqn:E; [|done]. intros [->|?]%elem_of_cons; auto.
Qed.

(** ** Examples *)

Module DiskExample.
Import MemDisk.
Local Open Scope string_scope.

Definition base : Path.t := [Path.RootDir; Path.Normal "srv"].
Definition abc : bytes := [Byte.x61; Byte.x62; Byte.x63].
Definition idx : IndexData :=
  {| ix_id := ImageId.from_vec []; hash_type := Sha512_256; block_size := 2;
     entries := [Index.Dir [Path.RootDir]; Index.File [Path.RootDir; Path.Normal "a"] true 3 [abc];
                 Index.File [Path.RootDir; Path.Normal "b"] false 0 []; Index.Link [Path.RootDir; Path.Normal "c"] [Path.Normal "a"]];
     bytes_total := 3; blocks_total := 2 |}.

(** An image is there already, with a file that differs. *)
Definition view0 : View :=
  {| v_dirs := {[0 := {["img" := NDir 1]}; 1 := {["a" := NFile 2]}]};
     v_files := {[2 := {| fn_data := [Byte.x7a]; fn_mode := 420 |}]} |}.
Definition mem0 : Mem := {| md_view := view0; fuse := None |}.

Lemma view0_names i n x : at_name view0 i n = Some x -> (i = 0 /\ n = "img" /\ x = NDir 1) \/ (i = 1 /\ n = "a" /\ x = NFile 2).
Proof.
  unfold at_name, view0. cbn [v_dirs]. intros (ents & Hi & Hn)%bind_Some.
  rewrite lookup_insert_Some, lookup_singleton_Some in Hi. destruct Hi as [[<- <-]|[_ [<- <-]]];
    apply lookup_singleton_Some in Hn as [<- <-]; auto.
Qed.

Lemma view0_forest : forest view0.
Proof.
  assert (Hr : forall i j, reach view0 i j -> i <= j).
  { intros i. apply reach_ind; [done|]. intros j n x _ [(-> & _ & ->)|(-> & _ & ->)]%view0_names IH; cbn; lia. }
  split.
  - intros i1 n1 x1 i2 n2 x2 [(-> & -> & ->)|(-> & -> & ->)]%view0_names [(-> & -> & ->)|(-> & -> & ->)]%view0_names; by auto.
  - intros i n x [(-> & _ & ->)|(-> & _ & ->)]%view0_names H%Hr; cbn in H; lia.
Qed.

Definition name : VPath := of_names "k" ["img"].
Definition started : Res Stop (Image Mem) * Mem := start_image 5 base idx name mem0.
Definition img : Image Mem :=
  {| virtual_path := name; parent := (0 : @dhandle Mem _); temporary_name := ".tmp.img"; temporary := (3 : @dhandle Mem _); index := idx |}.
Definition path_a : Path.t := Path.RootDir :: map Path.Normal ([] ++ ["a"]).
Definition filled : Res Stop unit * Mem := write_blocks img path_a (map (fun k => (k * 2, block 2 abc k)) [1; 0; 1]) (snd started).
Definition committed : Res Stop unit * Mem := commit_image true 5 img (snd filled).

Lemma started_ok : fst started = Ok img.
Proof. vm_cast_no_check (eq_refl (fst started)). Qed.
Lemma filled_ok : fst filled = Ok tt.
Proof. vm_compute. reflexivity. Qed.
Lemma committed_ok : fst committed = Ok tt /\ at_name (md_view (snd committed)) 0 "img" = Some (NDir 3) /\
  file_at (md_view (snd committed)) 3 [] "a" = Some abc.
Proof. vm_compute. split_and!; reflexivity. Qed.

(** The removal of the old image fails: the commit is an error although the new
    image is in place. *)
Lemma error_after_exchange :
  let '(r, m) := commit_image true 5 img {| md_view := md_view (snd filled); fuse := Some 10 |} in
  (exists e, r = Err (Failed e)) /\ at_name (md_view m) 0 "img" = Some (NDir 3).
Proof. vm_compute. split; [by eexists|reflexivity]. Qed.

Definition directory0 : Directory :=
  {| directory := base; append_only := false; num_levels := 1; upload_keys := []; download_keys := []; auto_clean := false;
     keep_list_file := None; keep_min_directories := 1; keep_max_directories := 1; keep_recent := 0 |}.
Definition config0 : Config :=
  {| machine_id := MachineId.mk []; hostname := ""; port := 0; db_dir := []; config_dir := [];
     aggressive_index_gc := false; dirs := {["k" := directory0]} |}.
(** The file of the old image, for a new image that has the same one. *)
Definition link_a : Link :=
  {| source := name; hl_path := path_a; hl_exe := false; hl_size := 1; hl_hashes := [[Byte.x7a]] |}.
Lemma hardlinked : fst (check_and_hardlink config0 [link_a] img (snd started)) = Ok [path_a].
Proof. vm_compute. reflexivity. Qed.

Lemma started_ready : image_ready (md_view (snd started)) img "img" /\ v_dirs (md_view (snd started)) !! 3 = Some ∅.
Proof.
  pose proof (start_image_post 5 base idx "k" [] "img" mem0) as Hp. unfold post in Hp.
  change (start_image 5 base idx (of_names "k" ([] ++ ["img"])) mem0) with started in Hp.
  pose proof started_ok as Hs. destruct started as [r m]. cbn [fst snd] in *. rewrite Hs in Hp.
  destruct Hp as [_ (H1 & H2 & _)]; [by repeat constructor|lia|apply view0_forest|by split].
Qed.

Lemma filled_ready : image_ready (md_view (snd filled)) img "img".
Proof.
  pose proof (write_blocks_written img [] "a" 2 abc [1; 0; 1] "img" [] (snd started) (snd filled)) as H.
  destruct H as (_ & _ & H & _); [by repeat constructor|apply started_ready| |apply run_result, filled_ok|exact H].
  assert (E : file_at (view (snd started)) (dino (temporary img)) [] "a" = None) by (vm_compute; reflexivity).
  rewrite E.
  split; [cbn; lia|]. intros k i Hk. exfalso. exact (not_elem_of_nil k Hk).
Qed.

Lemma idx_ordered : ordered None (entries idx).
Proof.
  cbn. split_and!; [exists []; by split|..|done]; (eexists _, _; split_and!; reflexivity).
Qed.
End DiskExample.

Lemma start_image_ready_witness :
  image_ready (MemDisk.md_view (snd DiskExample.started)) DiskExample.img "img".
Proof.
  destruct (start_image_ready 5 DiskExample.base DiskExample.idx "k" [] "img" DiskExample.mem0 _ (snd DiskExample.started)
    ltac:(by repeat constructor) ltac:(lia) DiskExample.view0_forest (run_result _ _ DiskExample.started_ok)) as (_ & H & _).
  apply H. reflexivity.
Defined.


Lemma commit_image_atomic_witness :
  Ok (E := Stop) tt <> Panic /\
  Forall (entry_ok (view (snd DiskExample.committed)) (dino (temporary DiskExample.img))) (entries (Disk.index DiskExample.img)).
Proof.
  destruct (commit_image_atomic true 5 DiskExample.img "img" (snd DiskExample.filled) (Ok tt) (snd DiskExample.committed)
    (run_result _ _ (proj1 DiskExample.committed_ok)) ltac:(lia) DiskExample.filled_ready DiskExample.idx_ordered)
    as (Hnp & _ & _ & [(_ & Hno & _)|(_ & Hall)] & _).
  - by destruct Hno.
  - split; [exact Hnp|exact Hall].
Defined.

Lemma check_and_hardlink_verified_witness :
  exists h, h ∈ [DiskExample.link_a] /\ linked
    (view (snd (check_and_hardlink DiskExample.config0 [DiskExample.link_a] DiskExample.img (snd DiskExample.started))))
    (dino (temporary DiskExample.img)) h.
Proof.
  assert (Hp : Forall plain_link [DiskExample.link_a]).
  { constructor; [|constructor]. exists "k"%string, ["img"%string], [], "a"%string. split_and!; [done|by repeat constructor|done|by repeat constructor]. }
  pose proof (check_and_hardlink_verified DiskExample.config0 [DiskExample.link_a] DiskExample.img (snd DiskExample.started) Hp) as H.
  unfold post in H. pose proof DiskExample.hardlinked as E.
  destruct (check_and_hardlink DiskExample.config0 [DiskExample.link_a] DiskExample.img (snd DiskExample.started)) as [r m].
  cbn [fst] in E. subst r. destruct H as [_ H]. destruct (H DiskExample.path_a) as (h & Hh & _ & Hl); [by left|]. by exists h.
Defined.

Lemma remove_image_whole_witness :
  fst (remove_image 5 DiskExample.directory0 (map Path.Normal ["img"%string]) DiskExample.mem0) <> Panic.
Proof.
  destruct (remove_image 5 DiskExample.directory0 (map Path.Normal ["img"%string]) DiskExample.mem0) as [r m] eqn:E.
  apply (remove_image_whole 5 DiskExample.directory0 [] "img" DiskExample.mem0 r m
    ltac:(by repeat constructor) eq_refl ltac:(lia) DiskExample.view0_forest E).
Defined.

Lemma read_block_spec_witness :
  post DiskExample.mem0 (read_block DiskExample.config0 DiskExample.name DiskExample.path_a 0 false) eq
    (fun b v => exists i c, resolve v (base_ino (W := MemDisk.Mem) DiskExample.base) ["img"%string] = Some i /\ file_at v i [] "a" = Some c /\
       b `prefix_of` take READ_SIZE (drop 0 c) /\ (b = [] -> drop 0 c = [])) False.
Proof.
  apply (read_block_spec DiskExample.config0 DiskExample.directory0 "k" [] "img" [] "a" 0 false DiskExample.mem0).
  - by repeat constructor.
  - by repeat constructor.
  - reflexivity.
Defined.
