(* ===== verification/Hardlinks.v ===== *)
(** * Files to take from other images: [src/daemon/metadata/hardlink_sources.rs]
    and the calls of [read_index.rs] and [mod.rs] it uses

    Before the blocks of a new image are fetched, its files are looked for in
    images that are already there: in the one that is replaced, or in those of
    the same base directory.  [dir_signature] opens their indexes and merges
    them; both are the class [Merging]. *)
From S2P Require Import DiskFs DiskGraph DiskDir Disk BaseDir Prelude Serde VirtualPath Ids Time Signature Config Commands Index Fs MetaDir Text Metadata MetaScan.
Local Open Scope st_scope.
Import VPath ImageId Database.

(** ** [dir_signature] *)

(** A parser goes on reading its file; [Hashes] knows the type and the size of
    its blocks, here the header.  A call of [advance] is an iterator over the
    entries of that file in the merged indexes, [advanced m path]; when it is
    dropped after [k] calls of [next] it leaves [advance_rest m path k]. *)
Class Merging `{IndexParser} := {
  Parser : Type;
  parser_open : File -> Res string Parser;
  Merged : Type;
  merged_new : list (VPath * Parser) -> Res string Merged;
  advanced : Merged -> Path.t -> list (VPath * Res Index.ParseError (Header * Index.Entry));
  advance_rest : Merged -> Path.t -> nat -> Merged;
  hashes_eqb : Header * list bytes -> Header * list bytes -> bool
}.

(** What is merged are the entries of the files. *)
Inductive merging `{Merging} (files : list (VPath * Parser)) : Merged -> Prop :=
| merging_new m : merged_new files = Ok m -> merging files m
| merging_advance m path k : merging files m -> merging files (advance_rest m path k).

Class MergingLaws `{Merging} := {
  parser_header : Parser -> Header;
  parser_entries : Parser -> list Index.Entry;
  parser_open_law : forall f p, parser_open f = Ok p ->
    exists items, parser_new (file_data f) = Ok (parser_header p, items) /\ forall e, e ∈ parser_entries p -> Ok e ∈ items;
  advanced_law : forall files m path v h e, merging files m -> (v, Ok (h, e)) ∈ advanced m path ->
    exists p, (v, p) ∈ files /\ h = parser_header p /\ e ∈ parser_entries p;
  advanced_path_law : forall files m path v h p x s hs, merging files m ->
    (v, Ok (h, Index.File p x s hs)) ∈ advanced m path -> p = path;
  hashes_eqb_law : forall a b, hashes_eqb a b = true -> snd a = snd b
}.

Section Links.
Context {W : Type} `{OpenAt W} `{HexCodec} `{Merging}.
Context (base_dir : Dir (W := W)) (decode_state : bytes -> Res string State) (debug_assertions : bool).
(** [sort_unstable_by_key]. *)
Context (sort_by_key : list (string * State) -> list (string * State)).

(** ** [read_index.rs] *)

Definition open_index (image_id : ImageId) : M (W := W) Parser :=
  base <-- index_base base_dir image_id ;;
  file <-- on_fs (open_file base (index_file (display image_id))) ;;
  file <-- st_lift (ok_or IndexNotFound file) ;;
  st_lift (res_map_err IndexError (parser_open file)).

(** ** [scan_links] *)

(** The loop over what is found for one file: the first that is the same, and
    the number of calls of [next]. *)
Fixpoint first_link (header : Header) (path : Path.t) (exe : bool) (size : Z) (hashes : list bytes)
    (found : list (VPath * Res Index.ParseError (Header * Index.Entry))) (calls : nat) : Res Error (option VPath * nat) :=
  match found with
  | [] => Ok (None, S calls)
  | (vpath, Ok (h, Index.File tgt_path tgt_exe tgt_size tgt_hashes)) :: found' =>
      if bool_decide (exe = tgt_exe) && bool_decide (size = tgt_size) && hashes_eqb (header, hashes) (h, tgt_hashes) then
        if debug_assertions && negb (bool_decide (tgt_path = path)) then Panic else Ok (Some vpath, S calls)
      else first_link header path exe size hashes found' (S calls)
  | _ :: found' => first_link header path exe size hashes found' (S calls)
  end.

Fixpoint scan_entries (header : Header) (entries : list Index.Entry) (msig : Merged) : Res Error (list Disk.Link) :=
  match entries with
  | [] => Ok []
  | Index.File path exe size hashes :: entries' =>
      res_bind (fun '(target, calls) =>
        res_map (fun links =>
          match target with
          | Some vpath => {| source := vpath; hl_path := path; hl_exe := exe; hl_size := size; hl_hashes := hashes |} :: links
          | None => links
          end) (scan_entries header entries' (advance_rest msig path calls)))
      (first_link header path exe size hashes (advanced msig path) 0)
  | _ :: entries' => scan_entries header entries' msig
  end.

Definition index_header (index : IndexData) : Header := {| hd_hash_type := hash_type index; hd_block_size := block_size index |}.

Definition scan_links (index : IndexData) (files : list (VPath * Parser)) : M (W := W) (list Disk.Link) :=
  msig <-- st_lift (res_map_err MergeError (merged_new files)) ;;
  st_lift (scan_entries (index_header index) (entries index) msig).

(** ** [replace_mode] *)

Definition replace_mode (index : IndexData) (path : VPath) : M (W := W) (list Disk.Link) :=
  dir <-- on_fs (state_dir base_dir path) ;;
  name <-- st_lift (expect (final_name path)) ;;
  old <-- on_fs (read_file dir (state_file name) (read_state decode_state)) ;;
  match old with
  | None => st_ret []
  | Some st =>
      reader <-- st_catch (open_index (image st)) ;;
      match reader with
      | Ok p => scan_links index [(path, p)]
      | Err _ => st_ret []
      | Panic => st_lift Panic
      end
  end.

(** ** [append_mode] *)

(** [.max().unwrap_or(UNIX_EPOCH)]. *)
Definition latest (st : State) : Z :=
  match signatures st with [] => 0%Z | s :: l => foldl (fun m x => Z.max m (timestamp x)) (timestamp s) l end.

Definition MAX_SOURCES : nat := 36.

(** The loop that selects images, with the table of uploads. *)
Fixpoint select_sources (base : VPath) (writing : gmap VPath Writing) (vec : list (string * State))
    (visited : gset ImageId) (selected : list (string * State)) : option (list (string * State)) :=
  match vec with
  | [] => Some selected
  | (cur_dir, s) :: vec' =>
      if decide (image s ∈ visited) then select_sources base writing vec' visited selected
      else
        p ← join base (Path.parse cur_dir);
        if decide (is_Some (writing !! p)) then select_sources base writing vec' visited selected
        else
          let selected := selected ++ [(cur_dir, s)] in
          if decide (MAX_SOURCES < length selected) then Some selected
          else select_sources base writing vec' ({[image s]} ∪ visited) selected
  end.

Fixpoint open_sources (base : VPath) (selected : list (string * State)) : M (W := W) (list (VPath * Parser)) :=
  match selected with
  | [] => st_ret []
  | (dir_name, s) :: selected' =>
      index <-- st_catch (open_index (image s)) ;;
      match index with
      | Ok p =>
          v <-- st_lift (expect (join base (Path.parse dir_name))) ;;
          files <-- open_sources base selected' ;; st_ret ((v, p) :: files)
      | Err _ => open_sources base selected'
      | Panic => st_lift Panic
      end
  end.

Definition append_mode (index : IndexData) (base : VPath) : M (W := W) (list Disk.Link) :=
  root <-- on_fs (signatures_dir base_dir) ;;
  states <-- unless_absent (open_vpath root base) (st_ret ∅) (all_states decode_state base) ;;
  s <-- st_get ;;
  selected <-- st_lift (expect (select_sources base (writing s) (sort_by_key (btree_items states)) ∅ [])) ;;
  files <-- open_sources base selected ;;
  scan_links index files.

(** [Meta::files_to_hardlink]. *)
Definition files_to_hardlink (dir : VPath) (index : IndexData) (replacing : bool) : M (W := W) (list Disk.Link) :=
  if replacing then replace_mode index dir
  else base <-- st_lift (expect (parent dir)) ;; append_mode index base.
End Links.

(** ** Scanning: lemmas *)

Section ScanLaws.
Context `{MergingLaws} (debug_assertions : bool).

Abbreviation same_file h path exe size hashes vpath found :=
  (exists h' p hs, (vpath, Ok (h', Index.File p exe size hs)) ∈ found /\ hashes_eqb (h, hashes) (h', hs) = true).

Lemma first_link_found h path exe size hashes found calls :
  (forall v h' p x s hs, (v, Ok (h', Index.File p x s hs)) ∈ found -> p = path) ->
  exists target n, first_link debug_assertions h path exe size hashes found calls = Ok (target, n) /\
    forall v, target = Some v -> same_file h path exe size hashes v found.
Proof.
  revert calls. induction found as [|[v r] found IH]; intros calls Hp; cbn [first_link]; [by eexists _, _|].
  assert (Hnext : exists target n, first_link debug_assertions h path exe size hashes found (S calls) = Ok (target, n) /\
    forall v', target = Some v' -> same_file h path exe size hashes v' ((v, r) :: found)).
  { destruct (IH (S calls)) as (t & n & -> & Ht); [intros; eapply Hp; by right|]. exists t, n. split; [done|].
    intros v' (h' & p & hs & Hin & Hh)%Ht. exists h', p, hs. split; [by right|done]. }
  destruct r as [[h' [p|p dest|p x s hs]]|e|]; try exact Hnext.
  destruct (bool_decide (exe = x) && _ && _) eqn:E; [|exact Hnext].
  apply andb_true_iff in E as [[->%bool_decide_eq_true ->%bool_decide_eq_true]%andb_true_iff Hh].
  assert (p = path) as -> by (eapply Hp; by left). rewrite bool_decide_eq_true_2, andb_false_r by done.
  eexists _, _. split; [done|]. intros v' [= <-]. exists h', path, hs. split; [by left|done].
Qed.

Definition entry_path (e : Index.Entry) : option Path.t := match e with Index.File p _ _ _ => Some p | _ => None end.
(** The file of an index that a link is for. *)
Definition file_entry (l : Disk.Link) : Index.Entry := Index.File (hl_path l) (hl_exe l) (hl_size l) (hl_hashes l).

(** Never a panic; the links are in the order of the index, at most one for a
    file, and each leads to the same file of one of the merged indexes. *)
Lemma scan_entries_sound h es files m : merging files m ->
  exists links, scan_entries debug_assertions h es m = Ok links /\ map file_entry links `sublist_of` es /\
    forall l, l ∈ links -> exists p, (source l, p) ∈ files /\ file_entry l ∈ parser_entries p.
Proof.
  revert m. induction es as [|e es IH]; intros m Hm; cbn [scan_entries].
  { exists []. split_and!; [done|done|]. by intros l ?%not_elem_of_nil. }
  destruct e as [p|p dest|path exe size hashes];
    [destruct (IH m Hm) as (links & -> & Hs & Hl); exists links; split_and!; [done|by apply sublist_cons|done]..|].
  destruct (first_link_found h path exe size hashes (advanced m path) 0) as (target & n & -> & Ht).
  { intros v h' p x s hs Hin. by eapply advanced_path_law. }
  cbn [res_bind]. destruct (IH (advance_rest m path n)) as (links & -> & Hs & Hl); [by constructor|]. cbn [res_map].
  destruct target as [v|]; [|exists links; split_and!; [done|by apply sublist_cons|done]].
  eexists. split; [done|]. split; [by apply sublist_skip|]. intros l [->|Hin]%elem_of_cons; [|by apply Hl].
  destruct (Ht v eq_refl) as (h' & p & hs & Hin & Hh). pose proof (advanced_path_law _ _ _ _ _ _ _ _ _ Hm Hin) as ->.
  destruct (advanced_law _ _ _ _ _ _ Hm Hin) as (pr & Hpr & _ & He). apply hashes_eqb_law in Hh. cbn in Hh. subst hs.
  by exists pr.
Qed.
End ScanLaws.

(** ** Selection: lemmas *)

Section Select.
Context (base : VPath) (writing : gmap VPath Writing).

(** What may be a source: it has a path, and is not being uploaded. *)
Definition usable_source (x : string * State) : Prop :=
  exists p, join base (Path.parse (fst x)) = Some p /\ writing !! p = None.

(** The images of the first states that are not being uploaded, each once. *)
Lemma select_sources_run vec visited selected sel :
  select_sources base writing vec visited selected = Some sel -> length selected <= MAX_SOURCES ->
  exists new, sel = selected ++ new /\ new `sublist_of` vec /\ length sel <= S MAX_SOURCES /\ Forall usable_source new /\
    NoDup (map (image ∘ snd) new) /\ (forall x, x ∈ new -> image (snd x) ∉ visited) /\
    (length sel <= MAX_SOURCES -> forall x, x ∈ vec -> usable_source x -> image (snd x) ∈ visited \/
       exists y, y ∈ new /\ image (snd y) = image (snd x)).
Proof.
  revert visited selected. induction vec as [|[n st] vec IH]; intros visited selected; cbn [select_sources].
  { intros [= <-] Hl. exists []. rewrite app_nil_r. split_and!; try done; [lia|constructor|..]; set_solver. }
  case_decide as Hv.
  { intros Hs Hl. destruct (IH _ _ Hs Hl) as (new & -> & Hsub & Hlen & Hu & Hnd & Hvis & Hall). exists new.
    split_and!; [done|by apply sublist_cons|done..|]. intros Hm x [->|Hx]%elem_of_cons Hux; [by left|by apply Hall]. }
  destruct (join base (Path.parse n)) as [p|] eqn:Ej; [|done]. cbn [option_bind mbind option_ret]. case_decide as Hw.
  { intros Hs Hl. destruct (IH _ _ Hs Hl) as (new & -> & Hsub & Hlen & Hu & Hnd & Hvis & Hall). exists new.
    split_and!; [done|by apply sublist_cons|done..|]. intros Hm x [->|Hx]%elem_of_cons Hux; [|by apply Hall].
    destruct Hux as (q & Hq & Hnone). cbn in Hq. destruct Hw as [? ?]. congruence. }
  apply eq_None_not_Some in Hw. assert (Hux : usable_source (n, st)) by (by exists p).
  case_decide as Hmax.
  { intros [= <-] Hl. exists [(n, st)]. rewrite length_app in *. cbn in *.
    split_and!; [done|by apply sublist_skip, sublist_nil_l|lia|by apply Forall_singleton|apply NoDup_singleton| |lia].
    by intros x ->%list_elem_of_singleton. }
  intros Hs Hl. destruct (IH _ _ Hs ltac:(lia)) as (new & -> & Hsub & Hlen & Hu & Hnd & Hvis & Hall).
  exists ((n, st) :: new). rewrite <- app_assoc. split_and!; [done|by apply sublist_skip|by rewrite <- app_assoc in Hlen|by constructor| | |].
  - cbn. apply NoDup_cons. split; [|done]. intros ((n' & st') & Ey & Hy)%list_elem_of_fmap. apply Hvis in Hy. cbn in *. set_solver.
  - intros x [->|Hx]%elem_of_cons; [done|]. apply Hvis in Hx. set_solver.
  - intros Hm x [->|Hx]%elem_of_cons Hxu; [right; exists (n, st); split; [by left|done]|].
    rewrite <- app_assoc in Hall. destruct (Hall Hm x Hx Hxu) as [[->%elem_of_singleton|?]%elem_of_union|(y & Hy & Ey)];
      [right; exists (n, st); split; [by left|done]|by left|right; exists y; split; [by right|done]].
Qed.
End Select.

(** ** Sources: theorems *)

Section Sources.
Context {W : Type} `{OpenAtLaws W} `{HexCodec} `{MergingLaws}.
Context (base_dir : Dir (W := W)) (decode_state : bytes -> Res string State) (debug_assertions : bool).
Context (sort_by_key : list (string * State) -> list (string * State)).
Context (sort_law : forall l, sort_by_key l ≡ₚ l).

(** The index of the image is opened as the file, and what that says. *)
Definition opened (img : ImageId) (s : Inner W) (f : File) : Prop :=
  exists base w w', contents w = contents (fs s) /\ path_of base = fst (index_key base_dir img) /\
    oa_open_file base (index_file (display img)) w = (Ok f, w').

Lemma opened_contents img s f : opened img s f -> file_error f = None ->
  contents (fs s) !! index_key base_dir img = Some (file_data f).
Proof.
  intros (base & w & w' & <- & Hp & Ho) He. apply open_file_law in Ho as (_ & Ho & _). rewrite Hp in Ho. by apply Ho.
Qed.

Lemma opened_same img s s' f : same s s' -> opened img s f -> opened img s' f.
Proof. intros [_ Hc] (base & w & w' & Hw & Hp & Ho). exists base, w, w'. split_and!; [congruence|done|done]. Qed.

(** The index of an image has the file. *)
Definition indexed (img : ImageId) (s : Inner W) (e : Index.Entry) : Prop :=
  exists f h items, opened img s f /\ parser_new (file_data f) = Ok (h, items) /\ Ok e ∈ items.

Lemma indexed_same img s s' e : same s s' -> indexed img s e -> indexed img s' e.
Proof. intros Hs (f & h & items & Ho & Hp & He). exists f, h, items. split_and!; [by eapply opened_same|done|done]. Qed.

Lemma calm_seq {A B} (m : M (W := W) A) (f : A -> M (W := W) B) : calm m -> (forall a, calm (f a)) -> calm (st_bind f m).
Proof.
  intros Hm Hf s. unfold st_bind. specialize (Hm s). destruct (m s) as [[a|e|] s1]; cbn in *; [|done..].
  eapply same_trans; [exact Hm|apply Hf].
Qed.
Lemma calm_catch {A} (m : M (W := W) A) : calm m -> calm (st_catch m).
Proof. intros Hm s. unfold st_catch. specialize (Hm s). by destruct (m s). Qed.
Lemma calm_ret {A} (a : A) : calm (W := W) (st_ret a).
Proof. done. Qed.

Lemma dir_open_file_quiet d name : quiet (open_file (W := W) d name).
Proof. apply quiet_if_exists, open_file_quiet. Qed.

#[local] Hint Resolve calm_lift calm_on_fs calm_get calm_catch calm_ret dir_open_file_quiet dir_if_exists_quiet
  indexes_dir_quiet signatures_dir_quiet state_dir_quiet read_file_quiet open_vpath_quiet : ciruela.

Ltac calm_steps := repeat (apply calm_seq; [|intros ?]); auto with ciruela.

Lemma open_index_calm img : calm (open_index base_dir img).
Proof. unfold open_index, index_base. calm_steps. Qed.
#[local] Hint Resolve open_index_calm : ciruela.

Lemma open_index_run img s p s' e : open_index base_dir img s = (Ok p, s') -> e ∈ parser_entries p -> indexed img s' e.
Proof.
  intros Hr He. pose proof (open_index_calm img s) as Hs. rewrite Hr in Hs. cbn in Hs. unfold open_index in Hr. st_inv Hr.
  pose proof (index_base_path _ _ _ _ _ Hrun) as [Hb Hs0]. st_inv Hr. st_inv Hr. destruct a0 as [f|]; [|done]. injection Hrun1 as <- <-.
  apply on_fs_ok in Hrun0 as (w & Ho & ->). unfold st_lift in Hr. destruct (parser_open f) as [p'| |] eqn:Ep; [|done..].
  cbn in Hr. injection Hr as <- <-. apply parser_open_law in Ep as (items & Hi & Hin).
  exists f, (parser_header p'), items. split_and!; [|done|by apply Hin].
  unfold open_file in Ho. apply if_exists_some in Ho. exists a, (fs s0), w. split_and!; [|done|done].
  by apply open_file_law in Ho as [Hc _].
Qed.

Lemma scan_links_run index files s links s' : scan_links (W := W) debug_assertions index files s = (Ok links, s') ->
  s' = s /\ map file_entry links `sublist_of` entries index /\
  forall l, l ∈ links -> exists p, (source l, p) ∈ files /\ file_entry l ∈ parser_entries p.
Proof.
  unfold scan_links, st_bind, st_lift. destruct (merged_new files) as [m| |] eqn:Em; [|done..]. cbn.
  destruct (scan_entries_sound debug_assertions (index_header index) (entries index) files m (merging_new _ _ Em)) as (l & -> & Hs & Hl).
  intros [= <- <-]. done.
Qed.
Lemma scan_links_calm index files : calm (W := W) (scan_links (W := W) debug_assertions index files).
Proof. unfold scan_links. calm_steps. Qed.

Lemma open_sources_calm base selected : calm (open_sources base_dir base selected).
Proof.
  induction selected as [|[n st] selected IH]; cbn [open_sources]; [done|]. apply calm_seq; [auto with ciruela|].
  intros [p|e|]; [calm_steps|done|done].
Qed.

Lemma open_sources_run base selected s files s' : open_sources base_dir base selected s = (Ok files, s') ->
  same s s' /\ forall v p e, (v, p) ∈ files -> e ∈ parser_entries p ->
    exists x, x ∈ selected /\ join base (Path.parse (fst x)) = Some v /\ indexed (image (snd x)) s' e.
Proof.
  revert s files. induction selected as [|[n st] selected IH]; intros s files; cbn [open_sources].
  { intros [= <- <-]. split; [done|]. by intros v p e ?%not_elem_of_nil. }
  intros Hr. st_inv Hr. unfold st_catch in Hrun. pose proof (open_index_calm (image st) s) as Hs0.
  destruct (open_index base_dir (image st) s) as [r s1] eqn:Eo. injection Hrun as <- <-. cbn in Hs0.
  destruct r as [p|er|]; [|destruct (IH _ _ Hr) as [Hs Hf]; split; [by eapply same_trans|];
    intros v p e Hin He; destruct (Hf v p e Hin He) as (x & Hx & Hrest); exists x; split; [by right|done]|done].
  st_inv Hr. apply lift_ok in Hrun as [Hj ->]. st_inv Hr. injection Hr as <- <-. destruct (IH _ _ Hrun) as [Hs Hf].
  split; [by eapply same_trans|]. intros v q e [[= -> ->]|Hin]%elem_of_cons He.
  - exists (n, st). split_and!; [by left|done|]. eapply indexed_same; [exact Hs|]. by eapply open_index_run.
  - destruct (Hf v q e Hin He) as (x & Hx & Hrest). exists x. split; [by right|done].
Qed.

(** The committed state of an image. *)
Definition committed (k : string) (ns : list string) (n : string) (s : Inner W) (st : State) : Prop :=
  exists b, contents (fs s) !! state_key base_dir k ns (state_file n) = Some b /\ decode_state b = Ok st.

Lemma unless_absent_run {A B} (m : ST W Error A) (absent : M (W := W) B) present s r s' :
  quiet m -> unless_absent m absent present s = (r, s') ->
  (exists a w, m (fs s) = (Ok a, w) /\ same s (with_fs w s) /\ present a (with_fs w s) = (r, s')) \/
  (exists s1, same s s1 /\ absent s1 = (r, s')) \/ ((forall b, r <> Ok b) /\ same s s').
Proof.
  intros Hm Hr. unfold unless_absent, st_bind, st_catch in Hr. pose proof (calm_on_fs _ Hm s) as Hs. unfold on_fs in *.
  destruct (m (fs s)) as [[a|e|] w]; cbn in *; [left; by exists a, w| |right; right; by injection Hr as <- <-].
  destruct e; try (case_decide; [right; left; by eexists|]); right; right; by injection Hr as <- <-.
Qed.

Lemma signatures_path w d w' : signatures_dir base_dir w = (Ok d, w') -> path_of d = path_of base_dir ++ ["signatures"%string].
Proof.
  intros (ns & Hns & Hp)%ensure_dir_path. change (Path.parse "signatures") with (map Path.Normal ["signatures"%string]) in Hns.
  by apply normals_inj in Hns as <-.
Qed.

Lemma replace_mode_calm index path : calm (replace_mode base_dir decode_state debug_assertions index path).
Proof.
  unfold replace_mode. calm_steps. destruct a1 as [st|]; [|done]. apply calm_seq; [auto with ciruela|].
  intros [p|e|]; [apply scan_links_calm|done|done].
Qed.

(** Where a link of [append_mode] comes from. *)
Definition appended_from (k : string) (ns : list string) (s s' : Inner W) (l : Disk.Link) : Prop :=
  exists m st, join (of_names k ns) (Path.parse m) = Some (source l) /\ writing s !! source l = None /\
    signatures st <> [] /\ committed k ns m s st /\ indexed (image st) s' (file_entry l).

(** What a call may do to the store: a listing of the directory cleans it. *)
Definition only_cleans (k : string) (ns : list string) (s s' : Inner W) : Prop :=
  writing s' = writing s /\ forall D f, D <> path_of base_dir ++ "signatures"%string :: k :: ns ->
    contents (fs s') !! (D, f) = contents (fs s) !! (D, f).

Lemma only_cleans_same k ns s s1 s' : only_cleans k ns s s1 -> same s1 s' -> only_cleans k ns s s'.
Proof. intros [Hw Hc] [Hw' Hc']. split; [congruence|]. intros D f HD. rewrite Hc'. by apply Hc. Qed.
Lemma same_only_cleans k ns s s' : same s s' -> only_cleans k ns s s'.
Proof. intros [Hw Hc]. split; [done|]. intros D f _. by rewrite Hc. Qed.

(** The states [append_mode] looks at. *)
Lemma states_run k ns root s r s' : path_of root = path_of base_dir ++ ["signatures"%string] ->
  unless_absent (open_vpath root (of_names k ns)) (st_ret ∅) (all_states decode_state (of_names k ns)) s = (r, s') ->
  only_cleans k ns s s' /\ forall states n st, r = Ok states -> states !! n = Some st ->
    exists d, path_of d = path_of base_dir ++ "signatures"%string :: k :: ns /\ state_of decode_state (of_names k ns) d s n st.
Proof.
  intros Hp [(d & w & Hd & Hs & Hr)|[(s1 & Hs & Hr)|[Hno Hs]]]%unless_absent_run; [| | |apply open_vpath_quiet].
  - apply open_vpath_path in Hd. rewrite Hp, <- app_assoc in Hd. destruct (all_states_run _ _ _ _ _ _ Hr) as [[Hw Hf] Hst].
    destruct Hs as [Hw0 Hc0]. split; [split; [congruence|]|].
    + intros D f HD. destruct (Hf D f) as [->|[-> _]]; [by rewrite Hc0|by rewrite Hd in HD].
    + intros states n st -> Hn. exists d. split; [done|]. destruct (Hst _ eq_refl n st Hn) as (Hsig & f & b & Hb & Hdec & Hcase).
      rewrite Hc0 in Hb. split; [done|]. exists f, b. rewrite Hw0 in Hcase. done.
  - injection Hr as <- <-. split; [by apply same_only_cleans|]. intros states n st [= <-]. by rewrite lookup_empty.
  - split; [by apply same_only_cleans|]. intros states n st E. by apply Hno in E.
Qed.

Lemma append_mode_run index k ns s r s' :
  append_mode base_dir decode_state debug_assertions sort_by_key index (of_names k ns) s = (r, s') ->
  only_cleans k ns s s' /\ forall links, r = Ok links -> map file_entry links `sublist_of` entries index /\
    forall l, l ∈ links -> appended_from k ns s s' l.
Proof using Type* sort_law.
  unfold append_mode. intros Hr. apply calm_bind in Hr as [[Hno Hs]|(root & s1 & Hroot & Hs1 & Hr)];
    [split; [by apply same_only_cleans|]; intros l E; by apply Hno in E|..|auto with ciruela].
  apply on_fs_ok in Hroot as (w & Hroot & _). apply signatures_path in Hroot.
  unfold st_bind at 1 in Hr. destruct (unless_absent _ _ _ s1) as [r2 s2] eqn:E.
  apply (states_run k ns) in E as [Hcl Hst]; [|done].
  assert (Hcl2 : only_cleans k ns s s2) by (destruct Hcl as [Hw Hf], Hs1 as [Hw1 Hc1]; split; [congruence|];
    intros D f HD; rewrite Hf by done; by rewrite Hc1).
  destruct r2 as [states|e|]; [|by injection Hr as <- <-..]. specialize (Hst states).
  apply calm_bind in Hr as [[Hno Hs]|(s2' & s2'' & [= <- <-] & _ & Hr)]; [split; [by eapply only_cleans_same|]; intros l E; by apply Hno in E|..|auto with ciruela].
  apply calm_bind in Hr as [[Hno Hs]|(sel & s3 & Hsel & _ & Hr)];
    [split; [by eapply only_cleans_same|]; intros l E; by apply Hno in E|..|auto with ciruela].
  apply lift_ok in Hsel as [Hsel ->].
  destruct (select_sources_run _ _ _ _ _ _ Hsel ltac:(cbn; unfold MAX_SOURCES; lia)) as (new & -> & Hsub & _ & Hus & _).
  cbn [app] in Hr. unfold st_bind in Hr. pose proof (open_sources_calm (of_names k ns) new s2) as Hs3.
  destruct (open_sources base_dir (of_names k ns) new s2) as [r3 s3] eqn:Eo. cbn in Hs3.
  destruct r3 as [files|e|]; [|injection Hr as <- <-; by split; [eapply only_cleans_same|]..].
  pose proof (scan_links_calm index files s3) as Hs4. rewrite Hr in Hs4. cbn in Hs4.
  split; [by eapply only_cleans_same; [eapply only_cleans_same|]|]. intros links ->.
  apply scan_links_run in Hr as (-> & Hlinks & Hl). split; [done|]. intros l Hin. destruct (Hl l Hin) as (p & Hp & He).
  apply open_sources_run in Eo as [_ Eo]. destruct (Eo _ _ _ Hp He) as ((m & st) & Hm & Hj & Hix). cbn in Hj, Hix.
  assert (Hin' : states !! m = Some st).
  { apply elem_of_btree_items. rewrite <- sort_law. by eapply elem_of_sublist. }
  destruct (Hst m st eq_refl Hin') as (d & Hd & Hsig & f & b & Hb & Hdec & Hcase).
  rewrite Forall_forall in Hus. destruct (Hus _ Hm) as (q & Hq & Hwr). cbn in Hq. rewrite Hj in Hq. injection Hq as <-.
  rewrite (proj1 Hcl2) in Hwr. destruct Hs1 as [Hw1 Hc1].
  exists m, st. split_and!; [done|done|done| |done]. exists b. unfold state_key. rewrite <- Hd, <- Hc1. split; [|done].
  destruct Hcase as [<-|(_ & q & Hq & Hsome)]; [done|]. rewrite Hj in Hq. injection Hq as <-. rewrite Hw1 in Hsome. by destruct Hsome; congruence.
Qed.

Lemma replace_mode_run index k ns n s r s' :
  replace_mode base_dir decode_state debug_assertions index (of_names k (ns ++ [n])) s = (r, s') ->
  same s s' /\ forall links, r = Ok links -> map file_entry links `sublist_of` entries index /\
    forall l, l ∈ links -> source l = of_names k (ns ++ [n]) /\
      exists st, committed k ns n s st /\ indexed (image st) s' (file_entry l).
Proof.
  intros Hr. pose proof (replace_mode_calm index (of_names k (ns ++ [n])) s) as Hs. rewrite Hr in Hs. split; [done|].
  intros links ->. cbn in Hs. unfold replace_mode in Hr. st_inv Hr. apply on_fs_ok in Hrun as (w & Hd & ->).
  pose proof (state_dir_quiet base_dir (of_names k (ns ++ [n])) (fs s)) as Hc. rewrite Hd in Hc. cbn in Hc. apply (state_dir_path base_dir k ns n (fs s)) in Hd.
  st_inv Hr. apply lift_ok in Hrun as [Hn ->]. rewrite final_name_snoc in Hn. injection Hn as <-. st_inv Hr.
  destruct a0 as [st|]; [|injection Hr as <- <-; split; [apply sublist_nil_l|]; by intros l ?%not_elem_of_nil].
  destruct (read_some _ _ _ _ _ _ Hrun) as (b & Hb & Hdec). cbn in Hb. rewrite Hc, Hd in Hb.
  st_inv Hr. unfold st_catch in Hrun0. destruct (open_index base_dir (image st) s0) as [r1 s1'] eqn:Eo. injection Hrun0 as <- <-.
  destruct r1 as [p|e|]; [|injection Hr as <- <-; split; [apply sublist_nil_l|]; by intros l ?%not_elem_of_nil|done].
  apply scan_links_run in Hr as (-> & Hsub & Hl). split; [done|].
  intros l (q & [= Hv ->]%list_elem_of_singleton & He)%Hl. split; [done|]. exists st. split; [by exists b|].
  by eapply open_index_run.
Qed.

End Sources.

(** ** An example *)

Module HardlinkExample.
(** An index of one file, whose only hash is the text of the index; merging
    goes through the indexes one after the other. *)
Definition header0 : Header := {| hd_hash_type := Sha512_256; hd_block_size := 32768 |}.
Definition file_path : Path.t := [Path.RootDir; Path.Normal "f"%string].
Definition listed (b : bytes) : list Index.Entry := [Index.Dir [Path.RootDir]; Index.File file_path false 3 [b]].
Definition parse_list (b : bytes) : Res string (Header * list (Res string Index.Entry)) := Ok (header0, map Ok (listed b)).
Definition same_hashes (a b : Header * list bytes) : bool := bool_decide (snd a = snd b).
Definition entries_at (path : Path.t) (file : VPath * bytes) : list (VPath * Res string (Header * Index.Entry)) :=
  omap (fun e => if decide (entry_path e = Some path) then Some (fst file, Ok (header0, e)) else None) (listed (snd file)).

Definition merge_at (m : list (VPath * bytes)) (path : Path.t) : list (VPath * Res string (Header * Index.Entry)) :=
  m ≫= entries_at path.

#[export] Instance parser0 : IndexParser := {| Index.ParseError := string; Index.parser_new := parse_list |}.
#[export] Instance merging0 : @Merging parser0 := {|
  Parser := bytes; parser_open f := match file_error f with Some e => Err (io_msg e) | None => Ok (file_data f) end;
  Merged := list (VPath * bytes); merged_new files := Ok files; advanced := merge_at;
  advance_rest m _ _ := m; hashes_eqb := same_hashes |}.

Lemma merging0_files files m : merging files m -> m = files.
Proof. induction 1 as [m Hm|m path k _ ->]; [by injection Hm|done]. Qed.

Lemma advanced0 (files : list (VPath * bytes)) path v r : (v, r) ∈ merge_at files path ->
  exists p e, r = Ok (header0, e) /\ (v, p) ∈ files /\ e ∈ listed p /\ entry_path e = Some path.
Proof.
  intros ([w p] & Hin & Hf)%list_elem_of_bind. unfold entries_at in Hin. apply list_elem_of_omap in Hin as (e & He & Hd).
  cbn [fst snd] in *. destruct (decide (entry_path e = Some path)); [|done]. injection Hd as <- <-. eauto 10.
Qed.

#[export] Instance merging_laws0 : @MergingLaws parser0 merging0.
Proof.
  refine {| parser_header _ := header0; parser_entries := listed |}.
  - intros f p Hp. cbn in Hp. destruct (file_error f); [done|]. injection Hp as <-. eexists. split; [done|].
    intros e He. by apply list_elem_of_fmap_2.
  - intros files m path v h e ->%merging0_files (p & e' & [= -> ->] & Hin & He & _)%advanced0. by exists p.
  - intros files m path v h p x s hs _ (q & e' & [= -> <-] & _ & _ & [= ->])%advanced0. done.
  - intros a b Hh. by apply bool_decide_eq_true in Hh.
Qed.

#[local] Existing Instance HexCodecImpl.codec.
Definition decode (b : bytes) : Res string State :=
  if decide (length b = 32) then Ok {| image := ImageId.mk (B32 b);
    signatures := [{| timestamp := 0; signature := Signature.SshEd25519 [] |}] |} else Err "eof"%string.
Definition store : Inner MemFs.Mem := Example.store 1000 (<[GcExample.index_of Byte.x01 := [Byte.x07]]> (Example.committed Byte.x01)).
Definition new_index : IndexData :=
  {| ix_id := Example.img Byte.x02; hash_type := Sha512_256; block_size := 32768; entries := listed [Byte.x07];
     bytes_total := 3; blocks_total := 1 |}.
Definition newest (l : list (string * State)) : list (string * State) := stable_sort (fun x y => (latest (snd y) <=? latest (snd x))%Z) l.
Definition run : Res Error (list Disk.Link) * Inner MemFs.Mem :=
  files_to_hardlink (W := MemFs.Mem) [] decode true newest (of_names "k" ([] ++ ["j"%string])) new_index false store.

(** The new image has a file of the committed one. *)
Example file_found : fst run = Ok [{| source := Example.v; hl_path := file_path; hl_exe := false; hl_size := 3; hl_hashes := [[Byte.x07]] |}].
Proof. vm_compute. reflexivity. Qed.
End HardlinkExample.

Import HardlinkExample.

