(* ===== verification/FetchDir.v ===== *)
(** * The life of a download: [src/daemon/tracking/fetch_dir.rs]

    The task of a download calls the other parts of the daemon one after the
    other: the index is fetched ([FetchIndex]), the image is started ([Disk]),
    files are linked from other images ([Hardlinks], [Disk]), the blocks are
    fetched ([FetchBlocks]), the image is committed ([Disk]), its state is
    committed or aborted in the metadata store ([Metadata]), and the subsystem
    is told ([Tracking]).  Each of these is a future, so other tasks run in
    between: a task is a [Stage], and a step runs the next call of one task. *)
From S2P Require Import DiskFs DiskGraph DiskDir Disk BaseDir Prelude Serde VirtualPath Mask Ids Time Signature Config Commands Index Fs MetaDir Text Metadata MetaScan Hardlinks Peers Progress FetchBlocks Remote Tracking.
Import VPath ImageId.
Local Open Scope st_scope.

(** ** What a download is of *)

Definition identity (d : Downloading) : VPath * bool * ImageId * Directory := (dl_path d, dl_replacing d, dl_image d, dl_config d).

Section Keeps.
Context (blake2b_256 : bytes -> bytes) (env : FetchBlocks.Env).

Definition keeps {A} (m : ST FetchBlocks.FetchBlocks FetchBlocks.Stop A) : Prop :=
  forall s, identity (downloading (snd (m s))) = identity (downloading s).

Lemma identity_bind {A B} (m : ST FetchBlocks.FetchBlocks FetchBlocks.Stop A) (f : A -> ST FetchBlocks.FetchBlocks FetchBlocks.Stop B) :
  keeps m -> (forall a, keeps (f a)) -> keeps (st_bind f m).
Proof. intros Hm Hf s. apply (st_bind_inv_state (fun x => identity (downloading x) = identity (downloading s))); [apply Hm|]. intros a s' <-. apply Hf. Qed.
Lemma keeps_ret {A} (a : A) : keeps (st_ret a).
Proof. done. Qed.
Lemma keeps_err {A} e : keeps (A := A) (st_err e).
Proof. done. Qed.
Lemma keeps_lift {A} (r : Res FetchBlocks.Stop A) : keeps (st_lift r).
Proof. done. Qed.
Lemma keeps_ask {A} (q : nat -> A) : keeps (FetchBlocks.ask q).
Proof. done. Qed.
Lemma keeps_modify f : (forall s, identity (downloading (f s)) = identity (downloading s)) -> keeps (st_modify f).
Proof. intros Hf s. apply Hf. Qed.
(** The goal at a state, from the operation that is run in it. *)
Ltac keeps_at st := match goal with |- identity (downloading (snd (?m st))) = _ => cut (keeps m); [intros Hm; apply Hm|] end.

#[local] Hint Resolve identity_bind keeps_ret keeps_err keeps_lift keeps_ask keeps_modify : ciruela.
Ltac keeps_steps := repeat (apply identity_bind; [|intros ?]); auto with ciruela.

Lemma keeps_give_back i b a : keeps (give_back env i b a).
Proof. unfold give_back, slices_of, set_slices. by keeps_steps. Qed.
Lemma keeps_poll_writing j : keeps (poll_writing env j).
Proof. unfold poll_writing. keeps_steps. by destruct a. Qed.
Lemma keeps_poll_block f : keeps (poll_block blake2b_256 env f).
Proof.
  destruct f as [blk i a r|j]; cbn [poll_block]; [|apply keeps_poll_writing]. apply identity_bind; [done|].
  intros [|data|]; [done| |apply keeps_give_back]. case_decide; [|apply keeps_give_back].
  unfold slices_of, set_slices, write_block. keeps_steps; try done. by destruct a7.
Qed.

Lemma keeps_poll_futures n : keeps (poll_futures blake2b_256 env n).
Proof.
  induction n as [|n IH]; [done|]. intros s. cbn [poll_futures]. destruct (futures s) as [|f rest]; [done|].
  refine (identity_bind _ _ (keeps_poll_block f) _ (FetchBlocks.with_futures rest s)). intros [x|]; (apply identity_bind; [done|auto]).
Qed.

Lemma keeps_report_done s : keeps (report_done env s).
Proof.
  intros st. unfold report_done, report_slice. destruct (amask_set_fetched _ _); [|done]. cbn. done.
Qed.
Lemma keeps_retain l : keeps (retain_slices env l).
Proof.
  induction l as [|s l IH]; cbn [retain_slices]; [done|]. destruct (unfinished s); apply identity_bind; auto; [|apply keeps_report_done].
  intros rest. done.
Qed.

Lemma keeps_request_blocks s blocks new : keeps (request_blocks env s blocks new).
Proof.
  revert s new. induction blocks as [|blk rest IH]; intros s new; cbn [request_blocks]; [done|]. intros st. cbv beta. keeps_at st.
  apply identity_bind; [done|]. intros bit. apply identity_bind; [done|]. intros [addr|]; [|done]. apply identity_bind; [done|]. intros req.
  do 2 (apply identity_bind; [done|intros _]). intros st'. cbv beta. destruct (_ <? _)%nat; [done|apply IH].
Qed.
Lemma keeps_request_slices l new : keeps (request_slices env l new).
Proof.
  revert new. induction l as [|s l IH]; intros new; cbn [request_slices]; [done|]. apply identity_bind; [apply keeps_request_blocks|].
  intros [[s' n'] []]; [done|]. apply identity_bind; [apply IH|]. by intros [[? ?] ?].
Qed.

Lemma keeps_wait : keeps (wait_and_retry env).
Proof.
  unfold wait_and_retry. apply identity_bind; [done|]. intros _. apply identity_bind; [done|]. intros now. apply identity_bind.
  - intros st. cbv beta. case_decide; [|done]. keeps_at st. apply identity_bind; [done|]. intros c. apply identity_bind; [done|]. by intros [].
  - intros _. apply identity_bind; [done|]. by intros [].
Qed.

Lemma keeps_round : keeps (round blake2b_256 env).
Proof.
  unfold round. apply identity_bind; [intros st; apply keeps_poll_futures|]. intros _.
  apply identity_bind; [done|]. intros l. apply identity_bind; [apply keeps_retain|]. intros kept. apply identity_bind; [done|]. intros _.
  intros st. cbv beta. destruct (_ && _); [done|]. keeps_at st. apply identity_bind; [done|]. intros []; [done|].
  intros st'. cbv beta. destruct (_ <=? _)%nat; [done|]. keeps_at st'. apply identity_bind; [done|]. intros l'.
  apply identity_bind; [apply keeps_request_slices|]. intros [[l'' new] full]. apply identity_bind; [done|]. intros _.
  destruct (full || _); [done|]. intros st''. cbv beta. destruct (bool_decide _); [apply keeps_wait|done].
Qed.

Lemma keeps_rounds fuel : keeps (rounds blake2b_256 env fuel).
Proof. induction fuel as [|fuel IH]; cbn [rounds]; [done|]. apply identity_bind; [apply keeps_round|]. by intros [|b]. Qed.

(** Polling does not change what is downloaded to where. *)
Lemma keeps_poll fuel : keeps (FetchBlocks.poll blake2b_256 env fuel).
Proof.
  unfold FetchBlocks.poll. intros st. cbv beta. destruct (retry_timeout st); [|apply keeps_rounds]. keeps_at st.
  do 2 (apply identity_bind; [done|intros ?]). destruct a0; [apply keeps_rounds|done].
Qed.
End Keeps.

(** ** The task of a download *)

Section Daemon.
Context {W V : Type} `{OpenAt W} `{HexCodec} `{Merging} `{DiskOps V}.
(** The metadata store and its codec; the iteration and sorting of
    [hardlink_sources.rs]; how deep directories are removed; how the daemon was
    built; the shuffle of slices; what the block fetching of a task meets. *)
Context (base_dir : MetaDir.Dir (W := W)) (decode_state : bytes -> Res string Database.State).
Context (sort_by_key : list (string * Database.State) -> list (string * Database.State)).
Context (tree_fuel : nat) (debug_assertions : bool) (blake2b_256 : bytes -> bytes).
Context (shuffle : list Slice -> list Slice) (block_env : nat -> FetchBlocks.Env).

Inductive Stage :=
| FetchingIndex
| StartingImage (index : IndexData)
| FindingLinks (img : Disk.Image V)
| Linking (img : Disk.Image V) (links : list Disk.Link)
| FetchingBlocks (img : Disk.Image V) (fut : FetchBlocks.FetchBlocks)
| Committing (img : Disk.Image V)
| MetaCommitting
| MetaAborting (reason : string)
| SysCommitting
| SysAborting (reason : string).

(** The daemon, with the uploads that the metadata store has accepted and that
    the subsystem is still to be told of. *)
Record Daemon := {
  d_sys : Sys;
  d_meta : Inner W;
  d_disk : V;
  d_accepted : list (VPath * ImageId * bool);
  d_stages : gmap nat Stage
}.

Definition with_sys (x : Sys) (s : Daemon) : Daemon :=
  {| d_sys := x; d_meta := d_meta s; d_disk := d_disk s; d_accepted := d_accepted s; d_stages := d_stages s |}.
Definition with_meta (x : Inner W) (s : Daemon) : Daemon :=
  {| d_sys := d_sys s; d_meta := x; d_disk := d_disk s; d_accepted := d_accepted s; d_stages := d_stages s |}.
Definition with_disk (x : V) (s : Daemon) : Daemon :=
  {| d_sys := d_sys s; d_meta := d_meta s; d_disk := x; d_accepted := d_accepted s; d_stages := d_stages s |}.
Definition with_accepted (x : list (VPath * ImageId * bool)) (s : Daemon) : Daemon :=
  {| d_sys := d_sys s; d_meta := d_meta s; d_disk := d_disk s; d_accepted := x; d_stages := d_stages s |}.
Definition with_stages (x : gmap nat Stage) (s : Daemon) : Daemon :=
  {| d_sys := d_sys s; d_meta := d_meta s; d_disk := d_disk s; d_accepted := d_accepted s; d_stages := x |}.

(** What the outside answers to a step. *)
Record Answers := {
  a_now : Z;
  a_index : option IndexData;
  a_order : list Disk.Link -> list Disk.Link;
  a_fuel : nat
}.

(** The daemon is ended by [process::exit]; or a loop is cut short. *)
Inductive Halt := Exit | NoFuel.
Abbreviation Op A := (ST Daemon Halt A).

Definition on_sys {A} (m : ST Sys Never A) : Op A := fun s =>
  match m (d_sys s) with
  | (Ok a, x) => (Ok a, with_sys x s)
  | (Err e, _) => match e with end
  | (Panic, x) => (Panic, with_sys x s)
  end.
(** Calls of the pools of threads; a panic there is raised again. *)
Definition on_meta {A} (m : Metadata.M (W := W) A) : Op (Res MetaDir.Error A) := fun s =>
  match m (d_meta s) with
  | (Panic, x) => (Panic, with_meta x s)
  | (r, x) => (Ok r, with_meta x s)
  end.
Definition on_disk {A} (m : ST V DiskDir.Stop A) : Op (option A) := fun s =>
  match m (d_disk s) with
  | (Ok a, x) => (Ok (Some a), with_disk x s)
  | (Err (DiskDir.Failed _), x) => (Ok None, with_disk x s)
  | (Err DiskDir.OutOfFuel, x) => (Err NoFuel, with_disk x s)
  | (Panic, x) => (Panic, with_disk x s)
  end.

Definition get_cmd (n : nat) : Op Downloading := fun s =>
  match downloads (d_sys s) !! n with Some d => (Ok d, s) | None => (Panic, s) end.
Definition set_cmd (n : nat) (d : Downloading) : Op unit :=
  st_modify (fun s => with_sys (with_downloads (<[n := d]> (downloads (d_sys s))) (next_download (d_sys s)) (d_sys s)) s).
Definition abort (reason : string) : Op (option Stage) := st_ret (Some (MetaAborting reason)).

(** [sys.peers.notify_progress(..)]. *)
Definition tell_progress (cmd : Downloading) : Op unit :=
  on_sys (source <-- look (fun s => has_image_source (dl_image cmd) (remote s)) ;;
          on_peers (notify_progress (dl_path cmd) (dl_image cmd) (amask_get (dl_mask cmd)) source)).

(** One poll of the future of the blocks, which shares the [Downloading]. *)
Definition poll_blocks (a : Answers) (n : nat) (img : Disk.Image V) (fut : FetchBlocks.FetchBlocks) : Op (option Stage) :=
  let (r, fut') := FetchBlocks.poll blake2b_256 (block_env n) (a_fuel a) fut in
  set_cmd n (downloading fut') ;;;
  match r with
  | Ok true => st_ret (Some (Committing img))
  | Ok false => st_ret (Some (FetchingBlocks img fut'))
  | Err Cancelled => abort "cluster_abort_no_file_source"
  | Err ExitProcess => st_err Exit
  | Err FetchBlocks.OutOfFuel => st_err NoFuel
  | Panic => st_lift Panic
  end.

(** The next call of a task; [None] is its end. *)
Definition run_stage (a : Answers) (n : nat) (st : Stage) : Op (option Stage) :=
  cmd <-- get_cmd n ;;
  match st with
  | FetchingIndex =>
      match a_index a with
      | Some index => st_ret (Some (StartingImage index))
      | None => abort "cant_fetch_index"
      end
  | StartingImage index =>
      r <-- on_disk (start_image tree_fuel (directory (dl_config cmd)) index (dl_path cmd)) ;;
      match r with
      | Some img =>
          set_cmd n (index_fetched (Disk.index img) cmd) ;;;
          tell_progress cmd ;;; st_ret (Some (FindingLinks img))
      | None => abort "cant_create_directory"
      end
  | FindingLinks img =>
      r <-- on_meta (files_to_hardlink base_dir decode_state debug_assertions sort_by_key (dl_path cmd) (Disk.index img)
              (dl_replacing cmd)) ;;
      match r with
      | Ok links => st_ret (Some (Linking img links))
      | _ => abort "internal_error_when_hardlinking"
      end
  | Linking img links =>
      cfg <-- (fun s => (Ok (config (d_sys s)), s)) ;;
      r <-- on_disk (check_and_hardlink cfg (a_order a links) img) ;;
      paths <-- st_lift (expect r) ;;
      d <-- st_lift (expect (fill_blocks shuffle (Disk.index img) (list_to_set paths) cmd)) ;;
      set_cmd n d ;;; st_ret (Some (FetchingBlocks img (fetch_blocks_new (a_now a) d)))
  | FetchingBlocks img fut => poll_blocks a n img fut
  | Committing img =>
      r <-- on_disk (commit_image debug_assertions tree_fuel img) ;;
      match r with
      | Some _ => st_ret (Some MetaCommitting)
      | None => abort "commit_error"
      end
  | MetaCommitting => on_meta (Metadata.dir_committed base_dir (dl_path cmd)) ;;; st_ret (Some SysCommitting)
  | MetaAborting reason => on_meta (Metadata.dir_aborted base_dir (dl_path cmd)) ;;; st_ret (Some (SysAborting reason))
  | SysCommitting => on_sys (download_ended (a_now a) n None) ;;; st_ret None
  | SysAborting reason => on_sys (download_ended (a_now a) n (Some reason)) ;;; st_ret None
  end.

Definition set_stage (n : nat) (st : option Stage) : Daemon -> Daemon := fun s =>
  with_stages (match st with Some st => <[n := st]> (d_stages s) | None => delete n (d_stages s) end) s.

(** A step of the task [n]. *)
Definition step_task (a : Answers) (n : nat) : Op unit := fun s =>
  match d_stages s !! n with
  | Some st => (r <-- run_stage a n st ;; st_modify (set_stage n r)) s
  | None => (Panic, s)
  end.

(** [start]: the command is taken from the channel. *)
Definition start_task (now : Z) : Op unit := fun s =>
  match cmd_chan (d_sys s) with
  | FetchDir cmd :: l =>
      (on_sys (modify (on_channels (fun _ => l) (fun x => x) (fun x => x))) ;;;
       n <-- on_sys (fetch_dir_start now cmd) ;; st_modify (set_stage n (Some FetchingIndex))) s
  | _ => (Panic, s)
  end.
End Daemon.

(** ** Calls: lemmas *)

(** The part of the subsystem that downloads are about. *)
Record frame (x y : Sys) : Prop := {
  fr_downloads : downloads y = downloads x;
  fr_next : next_download y = next_download x;
  fr_progress : in_progress (state y) = in_progress (state x);
  fr_cmd : cmd_chan y = cmd_chan x;
  fr_config : config y = config x
}.
#[global] Instance frame_preorder : PreOrder frame.
Proof. split; [done|]. intros x y z [] []. split; congruence. Qed.

Definition framed {A} (m : ST Sys Never A) : Prop := forall x, frame x (snd (m x)).

Lemma framed_bind {A B} (m : ST Sys Never A) (f : A -> ST Sys Never B) : framed m -> (forall a, framed (f a)) -> framed (st_bind f m).
Proof. intros Hm Hf x. apply (st_bind_inv_state (frame x)); [apply Hm|]. intros a y Hy. etransitivity; [exact Hy|apply Hf]. Qed.
Lemma framed_modify f : (forall x, frame x (f x)) -> framed (modify f).
Proof. intros Hf x. apply Hf. Qed.
Lemma framed_on_peers f : framed (on_peers f).
Proof.
  unfold on_peers. apply framed_bind; [done|]. intros p. apply framed_bind; [done|]. intros p'. by apply framed_modify.
Qed.
Lemma framed_rescan now p : framed (rescan_dir now p).
Proof. by apply framed_modify. Qed.
Lemma framed_base f p : framed (parent_base_dir f p).
Proof. unfold parent_base_dir. apply framed_bind; [done|]. intros b. by apply framed_modify. Qed.

Lemma framed_run {A} (m : ST Sys Never A) x r y : framed m -> m x = (r, y) -> frame x y.
Proof. intros Hm Hr. specialize (Hm x). by rewrite Hr in Hm. Qed.

(** What starts, and what ends, a download. *)
Lemma fetch_dir_start_frame now cmd x n y : fetch_dir_start now cmd x = (Ok n, y) ->
  n = next_download x /\ downloads y = <[n := cmd]> (downloads x) /\ next_download y = S n /\
  in_progress (state y) = <[dl_path cmd := n]> (in_progress (state x)) /\ cmd_chan y = cmd_chan x /\ config y = config x.
Proof.
  unfold fetch_dir_start. intros Hr. st_inv Hr. injection Hrun as _ <-. st_inv Hr. apply (framed_run _ _ _ _ (framed_rescan _ _)) in Hrun as [].
  st_inv Hr. injection Hrun as <- <-. st_inv Hr. injection Hrun as _ <-. st_inv Hr. injection Hrun as _ <-. st_inv Hr. injection Hrun as _ <-.
  st_inv Hr. apply (framed_run _ _ _ _ (framed_base _ _)) in Hrun as []. st_inv Hr. injection Hrun as _ <-.
  st_inv Hr. apply (framed_run _ _ _ _ (framed_on_peers _)) in Hrun as []. injection Hr as <- <-. cbn in *. split_and!; congruence.
Qed.

Definition ended_state (p : VPath) (x y : Sys) : Prop :=
  downloads y = downloads x /\ next_download y = next_download x /\ cmd_chan y = cmd_chan x /\
  in_progress (state y) = delete p (in_progress (state x)) /\ config y = config x.

Lemma ended_frame p x y z : ended_state p x y -> frame y z -> ended_state p x z.
Proof. intros (? & ? & ? & ? & ?) []. unfold ended_state. split_and!; congruence. Qed.

Lemma ended_steps {A} p x y (m : ST Sys Never A) a z : ended_state p x y -> framed m -> m y = (Ok a, z) -> ended_state p x z.
Proof. intros He Hm Hr. eapply ended_frame; [exact He|]. by eapply framed_run. Qed.

Lemma dir_committed_ended now cmd x y : Tracking.dir_committed now cmd x = (Ok tt, y) -> ended_state (dl_path cmd) x y.
Proof.
  unfold Tracking.dir_committed. intros Hr. st_inv Hr. injection Hrun as _ <-. eapply ended_steps; [| |exact Hr]; [done|].
  apply framed_bind; [by apply framed_modify|]. intros _. apply framed_bind; [apply framed_base|]. intros _.
  apply framed_bind; [by apply framed_modify|]. intros _. apply framed_bind; [apply framed_on_peers|]. intros _.
  apply framed_bind; [done|]. intros b. apply framed_rescan.
Qed.

Lemma dir_aborted_ended now cmd reason x y : Tracking.dir_aborted now cmd reason x = (Ok tt, y) -> ended_state (dl_path cmd) x y.
Proof.
  unfold Tracking.dir_aborted. intros Hr. st_inv Hr. injection Hrun as _ <-. st_inv Hr. injection Hrun as _ <-.
  eapply ended_steps; [| |exact Hr]; [done|]. apply framed_bind; [apply framed_base|]. intros _.
  apply framed_bind; [by apply framed_modify|]. intros _. apply framed_bind; [done|]. intros b. apply framed_rescan.
Qed.

Lemma download_ended_frame now n reason x y d : downloads x !! n = Some d -> download_ended now n reason x = (Ok tt, y) ->
  downloads y = delete n (downloads x) /\ next_download y = next_download x /\ cmd_chan y = cmd_chan x /\
  in_progress (state y) = delete (dl_path d) (in_progress (state x)) /\ config y = config x.
Proof.
  intros Hd Hr. unfold download_ended in Hr. st_inv Hr. injection Hrun as <- <-. rewrite Hd in Hr. st_inv Hr. injection Hrun as <- <-.
  st_inv Hr. destruct a. injection Hr as <-. cbn. destruct reason as [reason|].
  - apply dir_aborted_ended in Hrun as (-> & -> & -> & -> & ->). done.
  - apply dir_committed_ended in Hrun as (-> & -> & -> & -> & ->). done.
Qed.

(** Calls of the metadata store that leave the table of uploads. *)
Section Table.
Context {W : Type} `{OpenAtLaws W} `{HexCodec} `{Merging}.
Context (base_dir : MetaDir.Dir (W := W)) (decode_state : bytes -> Res string Database.State).

Definition tabled {A} (m : Metadata.M (W := W) A) : Prop := forall s, writing (snd (m s)) = writing s.

Lemma tabled_bind {A B} (m : Metadata.M (W := W) A) (f : A -> Metadata.M (W := W) B) : tabled m -> (forall a, tabled (f a)) -> tabled (st_bind f m).
Proof. intros Hm Hf s. apply (st_bind_inv_state (fun x => writing x = writing s)); [apply Hm|]. intros a s' <-. apply Hf. Qed.
Lemma tabled_on_fs {A} (m : ST W MetaDir.Error A) : tabled (Metadata.on_fs m).
Proof. intros s. unfold Metadata.on_fs. by destruct (m (fs s)). Qed.
Lemma tabled_lift {A} (r : Res MetaDir.Error A) : tabled (st_lift r).
Proof. done. Qed.
Lemma tabled_ret {A} (a : A) : tabled (st_ret a).
Proof. done. Qed.
Lemma tabled_catch {A} (m : Metadata.M (W := W) A) : tabled m -> tabled (st_catch m).
Proof. intros Hm s. unfold st_catch. specialize (Hm s). by destruct (m s). Qed.

#[local] Hint Resolve tabled_bind tabled_on_fs tabled_lift tabled_ret tabled_catch : ciruela.
Ltac tabled_steps := repeat (apply tabled_bind; [|intros ?]); auto with ciruela.

Lemma tabled_finish p finish : (forall p, tabled (finish p)) -> forall s : Inner W, is_Some (writing s !! p) ->
  writing (snd (dir_done finish p s)) = delete p (writing s).
Proof.
  intros Hf s [wr Hw]. unfold dir_done, logged, st_bind, st_get, st_modify. rewrite Hw.
  specialize (Hf p (with_writing (delete p) s)). by destruct (finish p (with_writing (delete p) s)) as [[]].
Qed.

Lemma dir_committed_table p (s : Inner W) : is_Some (writing s !! p) -> writing (snd (Metadata.dir_committed base_dir p s)) = delete p (writing s).
Proof. apply tabled_finish. intros q. unfold commit_dir. tabled_steps. Qed.
Lemma dir_aborted_table p (s : Inner W) : is_Some (writing s !! p) -> writing (snd (Metadata.dir_aborted base_dir p s)) = delete p (writing s).
Proof. apply tabled_finish. intros q. unfold abort_dir. tabled_steps. Qed.

Lemma open_index_tabled i : tabled (open_index base_dir i).
Proof. unfold open_index, index_base. tabled_steps. Qed.
Lemma open_sources_tabled v l : tabled (open_sources base_dir v l).
Proof.
  induction l as [|[n st] l IH]; cbn [open_sources]; [done|]. apply tabled_bind; [apply tabled_catch, open_index_tabled|].
  intros [p|e|]; [tabled_steps|done|done].
Qed.

Lemma files_to_hardlink_tabled debug sort path index replacing :
  tabled (files_to_hardlink base_dir decode_state debug sort path index replacing).
Proof.
  unfold files_to_hardlink. destruct replacing.
  - unfold replace_mode. tabled_steps. destruct a1 as [st|]; [|done]. apply tabled_bind; [apply tabled_catch, open_index_tabled|].
    intros [p|e|]; [unfold scan_links; tabled_steps|done|done].
  - apply tabled_bind; [done|]. intros base. unfold append_mode. apply tabled_bind; [auto with ciruela|]. intros root. apply tabled_bind.
    { unfold unless_absent. apply tabled_bind; [auto with ciruela|]. intros [d|e|]; [|destruct e; try done; by case_decide|done].
      intros s. destruct (all_states decode_state base d s) as [r s'] eqn:E. by destruct (all_states_run _ _ _ _ _ _ E) as [[Hw _] _]. }
    intros states. apply tabled_bind; [done|]. intros s. apply tabled_bind; [done|]. intros sel.
    apply tabled_bind; [apply open_sources_tabled|]. intros files. unfold scan_links. tabled_steps.
Qed.
End Table.

(** An upload that is accepted as new gets the entry of its path. *)
Section Accepting.
Context {W : Type} `{OpenAtLaws W} `{Crypto}.
Context (cfg : Config.Config) (base_dir : MetaDir.Dir (W := W)).
Context (encode_state : Database.State -> Res string bytes) (decode_state : bytes -> Res string Database.State).
Context (parse_public_key : string -> option PublicKey) (buffered : bytes -> nat).

Definition entry_made (p : VPath) (s s' : Inner W) : Prop :=
  writing s !! p = None /\ is_Some (writing s' !! p) /\ forall q, q <> p -> writing s' !! q = writing s !! q.

Lemma effect_new v img sigs D n s s' : effect encode_state decode_state buffered v img sigs D n s (Ok (Accepted New)) s' -> entry_made v s s'.
Proof.
  intros (_ & Hq & [(st & b & _ & _ & _ & _ & _ & [[? _]|[Hno _]])|(new & wr & [_ He] & Hw & _ & [[[= <-] _]|Hno])]).
  - done.
  - by edestruct Hno.
  - split_and!; [|by eexists|done]. destruct (writing s !! v) as [old|]; [by destruct He|done].
  - by edestruct Hno.
Qed.

Lemma start_append_new params k ns n s s' : ad_path params = of_names k (ns ++ [n]) ->
  start_append cfg base_dir encode_state decode_state parse_public_key buffered params s = (Ok (Accepted New), s') ->
  entry_made (ad_path params) s s'.
Proof.
  intros Hp Hr. apply (start_append_decided _ _ _ _ _ _ _ k ns n) in Hr; [|done].
  apply decided_effect in Hr as [[Hno _]|[_ He]]; [by edestruct Hno|]. by eapply effect_new.
Qed.
Lemma start_replace_new params k ns n s s' : rd_path params = of_names k (ns ++ [n]) ->
  start_replace cfg base_dir encode_state decode_state parse_public_key buffered params s = (Ok (Accepted New), s') ->
  entry_made (rd_path params) s s'.
Proof.
  intros Hp Hr. apply (start_replace_decided _ _ _ _ _ _ _ k ns n) in Hr; [|done].
  apply decided_effect in Hr as [[Hno _]|[_ He]]; [by edestruct Hno|]. by eapply effect_new.
Qed.
End Accepting.

(** ** The daemon *)

Section World.
Context {W V : Type} `{OpenAtLaws W} `{HexCodec} `{Crypto} `{Merging} `{DiskOps V}.
Context (cfg : Config.Config) (base_dir : MetaDir.Dir (W := W)).
Context (encode_state : Database.State -> Res string bytes) (decode_state : bytes -> Res string Database.State).
Context (parse_public_key : string -> option PublicKey) (buffered : bytes -> nat).
Context (sort_by_key : list (string * Database.State) -> list (string * Database.State)).
Context (tree_fuel : nat) (debug_assertions : bool) (blake2b_256 : bytes -> bytes).
Context (shuffle : list Slice -> list Slice) (block_env : nat -> FetchBlocks.Env).
Context (shuffle_law : forall l, shuffle l ≡ₚ l).
Context (stalled_law : forall n t p i, is_Some (e_check_stalled (block_env n) t p i)).

Abbreviation Daemon := (Daemon (W := W) (V := V)).
Abbreviation step_task := (step_task base_dir decode_state sort_by_key tree_fuel debug_assertions blake2b_256 shuffle block_env).
Abbreviation run_stage := (run_stage base_dir decode_state sort_by_key tree_fuel debug_assertions blake2b_256 shuffle block_env).

Definition fetch_of (c : Command) : option Downloading := match c with FetchDir d => Some d | _ => None end.
Definition commands (x : Sys) : list Downloading := omap fetch_of (cmd_chan x).

(** The other calls of the subsystem: they neither make, start nor end
    downloads. *)
Record elsewhere (x y : Sys) : Prop := {
  ew_downloads : downloads y = downloads x;
  ew_next : next_download y = next_download x;
  ew_progress : in_progress (state y) = in_progress (state x);
  ew_commands : commands y = commands x;
  ew_config : config y = config x
}.

Definition accept (p : VPath) (i : ImageId) (replacing : bool) (m : Inner W) (s : Daemon) : Daemon :=
  with_accepted (d_accepted s ++ [(p, i, replacing)]) (with_meta m s).

(** What can happen to a daemon.  Uploads are accepted by the metadata store,
    and the subsystem is told ([rpc.rs], [reconciliation.rs], [mod.rs]); other
    calls of the store do not take entries out of its table, other calls of the
    subsystem are [elsewhere]; the disk may change in any way. *)
Inductive reach : Daemon -> Prop :=
| r_start random now r p m v : writing m = ∅ ->
    reach {| d_sys := tracking_new random now cfg r p; d_meta := m; d_disk := v; d_accepted := []; d_stages := ∅ |}
| r_append s params k ns n m : reach s -> ad_path params = of_names k (ns ++ [n]) ->
    start_append cfg base_dir encode_state decode_state parse_public_key buffered params (d_meta s) = (Ok (Accepted New), m) ->
    reach (accept (ad_path params) (ad_image params) false m s)
| r_replace s params k ns n m : reach s -> rd_path params = of_names k (ns ++ [n]) ->
    start_replace cfg base_dir encode_state decode_state parse_public_key buffered params (d_meta s) = (Ok (Accepted New), m) ->
    reach (accept (rd_path params) (rd_image params) true m s)
| r_resume s k ns n i m : reach s ->
    resume_upload cfg base_dir decode_state (of_names k (ns ++ [n])) (d_meta s) = (Ok i, m) ->
    reach (accept (of_names k (ns ++ [n])) i false m s)
| r_tell s l1 p i replacing l2 x : reach s -> d_accepted s = l1 ++ (p, i, replacing) :: l2 ->
    fetch_dir p i replacing (d_sys s) = (Ok tt, x) -> reach (with_accepted (l1 ++ l2) (with_sys x s))
| r_fetch s now s' : reach s -> start_task now s = (Ok tt, s') -> reach s'
| r_task s a n s' : reach s -> (forall l, a_order a l ≡ₚ l) -> step_task a n s = (Ok tt, s') -> reach s'
| r_meta s m : reach s -> (forall v, is_Some (writing (d_meta s) !! v) -> is_Some (writing m !! v)) -> reach (with_meta m s)
| r_sys s x : reach s -> elsewhere (d_sys s) x -> reach (with_sys x s)
| r_disk s v : reach s -> reach (with_disk v s).

(** ** The invariant *)

(** The metadata store has not been told of the end of the task. *)
Definition holds (st : Stage (V := V)) : bool := match st with SysCommitting | SysAborting _ => false | _ => true end.

Definition waiting (s : Daemon) : list VPath := map (fun x => fst (fst x)) (d_accepted s) ++ map dl_path (commands (d_sys s)).
Definition running (s : Daemon) (p : VPath) (n : nat) : Prop :=
  exists d st, downloads (d_sys s) !! n = Some d /\ dl_path d = p /\ d_stages s !! n = Some st /\ holds st = true.

(** What a task has done when it is at a stage. *)
Definition started (d : Downloading) (img : Disk.Image V) : Prop :=
  exists index v v', start_image tree_fuel (directory (dl_config d)) index (dl_path d) v = (Ok img, v').
Definition found (d : Downloading) (img : Disk.Image V) (links : list Disk.Link) : Prop :=
  exists m m', files_to_hardlink base_dir decode_state debug_assertions sort_by_key (dl_path d) (Disk.index img) (dl_replacing d) m = (Ok links, m').
Definition linked_from (d : Downloading) (img : Disk.Image V) (paths : gset Path.t) : Prop :=
  exists links order l v v', found d img links /\ order ≡ₚ links /\ check_and_hardlink cfg order img v = (Ok l, v') /\ paths = list_to_set l.
Definition fetched (n : nat) (d : Downloading) (img : Disk.Image V) : Prop :=
  exists paths blocks effects, linked_from d img paths /\ blocks_to_fetch (Disk.index img) paths = Some blocks /\
    effects ≫= written blake2b_256 ≡ₚ blocks /\
    (forall j, j ∈ effects ≫= job_of -> exists t, e_write (block_env n) t j = Ready tt).
Definition completed (n : nat) (d : Downloading) : Prop :=
  exists img v v', started d img /\ fetched n d img /\ commit_image debug_assertions tree_fuel img v = (Ok tt, v').

Definition earned (n : nat) (d : Downloading) (st : Stage (V := V)) : Prop :=
  match st with
  | FetchingIndex | StartingImage _ => dl_slices d = []
  | FindingLinks img => dl_slices d = [] /\ started d img
  | Linking img links => dl_slices d = [] /\ started d img /\ found d img links
  | FetchingBlocks img fut => started d img /\ identity (downloading fut) = identity d /\
      exists paths blocks, linked_from d img paths /\ blocks_to_fetch (Disk.index img) paths = Some blocks /\
        Good blake2b_256 (block_env n) blocks fut
  | Committing img => started d img /\ fetched n d img
  | MetaCommitting | SysCommitting => completed n d
  | MetaAborting _ | SysAborting _ => True
  end.

Record Sound (s : Daemon) : Prop := {
  so_config : config (d_sys s) = cfg;
  so_tasks : forall n, is_Some (d_stages s !! n) <-> is_Some (downloads (d_sys s) !! n);
  so_fresh : forall n, next_download (d_sys s) <= n -> downloads (d_sys s) !! n = None;
  so_progress : forall p n, in_progress (state (d_sys s)) !! p = Some n -> exists d, downloads (d_sys s) !! n = Some d /\ dl_path d = p;
  so_waiting : NoDup (waiting s);
  so_apart : forall p n, running s p n -> p ∉ waiting s;
  so_one : forall p n n', running s p n -> running s p n' -> n = n';
  so_table : forall p, p ∈ waiting s \/ (exists n, running s p n) -> is_Some (writing (d_meta s) !! p);
  so_queued : forall d, d ∈ commands (d_sys s) -> dl_slices d = [];
  so_earned : forall n d st, downloads (d_sys s) !! n = Some d -> d_stages s !! n = Some st -> earned n d st
}.

(** ** Steps of a task *)

Lemma on_sys_ok {A} (m : ST Sys Never A) (s : Daemon) a s' : on_sys m s = (Ok a, s') -> exists x, m (d_sys s) = (Ok a, x) /\ s' = with_sys x s.
Proof. unfold on_sys. destruct (m (d_sys s)) as [[b|[]|] x]; [|done]. intros [= <- <-]. eauto. Qed.
Lemma on_meta_ok {A} (m : Metadata.M (W := W) A) (s : Daemon) r s' : on_meta m s = (Ok r, s') ->
  exists x, m (d_meta s) = (r, x) /\ s' = with_meta x s.
Proof. unfold on_meta. destruct (m (d_meta s)) as [[b|e|] x]; [..|done]; intros [= <- <-]; eauto. Qed.
Lemma on_disk_ok {A} (m : ST V DiskDir.Stop A) (s : Daemon) o s' : on_disk m s = (Ok o, s') ->
  exists x, s' = with_disk x s /\ forall a, o = Some a -> m (d_disk s) = (Ok a, x).
Proof.
  unfold on_disk. destruct (m (d_disk s)) as [[b|[e|]|] x]; [| |done..]; intros [= <- <-]; exists x; (split; [done|]); by intros a [= ->].
Qed.

Section Same.
Context (n : nat) (d d' : Downloading) (Hid : identity d' = identity d).
Lemma started_same img : started d img -> started d' img.
Proof using Hid. unfold started. injection Hid as -> _ _ ->. done. Qed.
Lemma found_same img links : found d img links -> found d' img links.
Proof using Hid. unfold found. injection Hid as -> -> _ _. done. Qed.
Lemma linked_same img paths : linked_from d img paths -> linked_from d' img paths.
Proof using Hid.
  intros (links & order & l & v & v' & Hf & Hr). exists links, order, l, v, v'. split; [by apply found_same|done].
Qed.
Lemma fetched_same img : fetched n d img -> fetched n d' img.
Proof using Hid. intros (paths & blocks & effects & Hl & Hr). exists paths, blocks, effects. split; [by apply linked_same|done]. Qed.
End Same.

(** What a step of a task does to the daemon. *)
Definition stepped (n : nat) (d : Downloading) (st : Stage (V := V)) (r : option (Stage (V := V))) (s s' : Daemon) : Prop :=
  d_accepted s' = d_accepted s /\ d_stages s' = d_stages s /\ config (d_sys s') = config (d_sys s) /\ cmd_chan (d_sys s') = cmd_chan (d_sys s) /\
  next_download (d_sys s') = next_download (d_sys s) /\
  match r with
  | Some st' => exists d', downloads (d_sys s') = <[n := d']> (downloads (d_sys s)) /\ dl_path d' = dl_path d /\ earned n d' st' /\
      in_progress (state (d_sys s')) = in_progress (state (d_sys s)) /\ holds st = true /\
      writing (d_meta s') = if holds st' then writing (d_meta s) else delete (dl_path d) (writing (d_meta s))
  | None => holds st = false /\ downloads (d_sys s') = delete n (downloads (d_sys s)) /\
      in_progress (state (d_sys s')) = delete (dl_path d) (in_progress (state (d_sys s))) /\ writing (d_meta s') = writing (d_meta s)
  end.

(** A step that leaves the subsystem and the table as they are. *)
Lemma stepped_stays n d st st' s s' : downloads (d_sys s) !! n = Some d -> d_accepted s' = d_accepted s -> d_stages s' = d_stages s ->
  d_sys s' = d_sys s -> writing (d_meta s') = writing (d_meta s) -> holds st = true -> holds st' = true -> earned n d st' ->
  stepped n d st (Some st') s s'.
Proof.
  intros Hd Ha Hs Hy Hw Ho Ho' He. split_and!; [done|done|by rewrite Hy..|]. exists d. rewrite Ho', Hy, insert_id by done. by split_and!.
Qed.

Lemma poll_blocks_run a n img fut d s r s' : downloads (d_sys s) !! n = Some d -> earned n d (FetchingBlocks img fut) ->
  poll_blocks blake2b_256 block_env a n img fut s = (Ok r, s') -> stepped n d (FetchingBlocks img fut) r s s'.
Proof using stalled_law.
  intros Hd (Hst & Hid & paths & blocks & Hl & Hb & Hg) Hr. unfold poll_blocks in Hr.
  pose proof (poll_safe blake2b_256 (block_env n) blocks (a_fuel a) (stalled_law n) fut Hg fut eq_refl) as Hsafe.
  pose proof (keeps_poll blake2b_256 (block_env n) (a_fuel a) fut) as Hk.
  destruct (FetchBlocks.poll blake2b_256 (block_env n) (a_fuel a) fut) as [v fut'] eqn:Ep. cbn in Hk. rewrite Hid in Hk.
  st_inv Hr. injection Hrun as _ <-.
  assert (Hstep : forall st', earned n (downloading fut') st' -> holds st' = true -> r = Some st' ->
    s' = with_sys (with_downloads (<[n := downloading fut']> (downloads (d_sys s))) (next_download (d_sys s)) (d_sys s)) s ->
    stepped n d (FetchingBlocks img fut) r s s').
  { intros st' He Ho -> ->. split_and!; [done..|]. exists (downloading fut'). rewrite Ho. cbn. split_and!; try done. by injection Hk. }
  destruct v as [[]|[]|]; try done; injection Hr as <- <-.
  - apply (Hstep (Committing img)); [|done..]. split; [by eapply started_same|]. destruct Hsafe as [[Hi _] [Ef Es]]. rewrite Ef, Es in Hi.
    exists paths, blocks, (log fut'). split_and!; [by eapply linked_same|done|exact (iv_blocks _ _ _ _ _ _ _ _ Hi)|].
    intros j Hj. destruct (iv_writes _ _ _ _ _ _ _ _ Hi j Hj) as [?%not_elem_of_nil|]; done.
  - apply (Hstep (FetchingBlocks img fut')); [|done..]. split_and!; [by eapply started_same|done|]. destruct Hsafe as [Hg' _]. exists paths, blocks.
    split_and!; [by eapply linked_same|done|done].
  - by apply (Hstep (MetaAborting "cluster_abort_no_file_source")).
Qed.

Lemma stage_run a n st s r s' d : (forall l, a_order a l ≡ₚ l) -> config (d_sys s) = cfg -> downloads (d_sys s) !! n = Some d -> earned n d st ->
  (holds st = true -> is_Some (writing (d_meta s) !! dl_path d)) -> run_stage a n st s = (Ok r, s') -> stepped n d st r s s'.
Proof using H0 stalled_law shuffle_law.
  intros Horder Hcfg Hd He Hw Hr. unfold FetchDir.run_stage in Hr. st_inv Hr. unfold get_cmd in Hrun. rewrite Hd in Hrun. injection Hrun as <- <-.
  destruct st as [|index|img|img links|img fut|img| |reason| |reason].
  - destruct (a_index a); injection Hr as <- <-; by apply stepped_stays.
  - st_inv Hr. apply on_disk_ok in Hrun as (v & -> & Hi). destruct a0 as [img|]; [|injection Hr as <- <-; by apply stepped_stays].
    st_inv Hr. injection Hrun as _ <-. st_inv Hr. injection Hr as <- <-. apply on_sys_ok in Hrun as (x & Hx & ->). destruct a1.
    assert (Hf : frame (with_downloads (<[n := index_fetched (Disk.index img) d]> (downloads (d_sys s))) (next_download (d_sys s)) (d_sys s)) x).
    { refine (framed_run _ _ _ _ _ Hx). apply framed_bind; [done|]. intros source. apply framed_on_peers. }
    destruct Hf as [E1 E2 E3 E4 E5]. cbn in *. split_and!; [done..|]. exists (index_fetched (Disk.index img) d).
    split_and!; [done|done| |done..]. split; [done|]. exists index, (d_disk s), v. by apply Hi.
  - st_inv Hr. apply on_meta_ok in Hrun as (m & Hm & ->). cbn in He.
    pose proof (files_to_hardlink_tabled base_dir decode_state debug_assertions sort_by_key (dl_path d) (Disk.index img) (dl_replacing d) (d_meta s)) as Hwr.
    rewrite Hm in Hwr. cbn in Hwr. destruct a0 as [links|e|]; injection Hr as <- <-; apply stepped_stays; try done.
    destruct He as [Hs Hst]. split_and!; [done|done|]. by eexists _, _.
  - destruct He as (Hs & Hst & Hf). st_inv Hr. injection Hrun as <- <-. rewrite Hcfg in Hr. st_inv Hr. apply on_disk_ok in Hrun as (v & -> & Hl).
    st_inv Hr. destruct a0 as [paths|]; [|done]. injection Hrun as <- <-. specialize (Hl paths eq_refl).
    st_inv Hr. destruct (fill_blocks shuffle (Disk.index img) (list_to_set paths) d) as [d'|] eqn:Ef; [|done]. injection Hrun as <- <-.
    st_inv Hr. injection Hrun as _ <-. injection Hr as <- <-.
    assert (Hid : identity d' = identity d).
    { unfold fill_blocks in Ef. destruct (blocks_to_fetch _ _); [|done]. cbn in Ef. destruct (deal _ _ _ _); [|done]. by injection Ef as <-. }
    split_and!; [done..|]. exists d'. split_and!; [done|by injection Hid| |done..]. split_and!; [by eapply started_same|done|].
    destruct (blocks_to_fetch (Disk.index img) (list_to_set paths)) as [blocks|] eqn:Eb; [|unfold fill_blocks in Ef; by rewrite Eb in Ef].
    exists (list_to_set paths), blocks. split_and!; [|done|by eapply fill_blocks_good].
    eapply linked_same; [exact Hid|]. by exists links, (a_order a links), paths, (d_disk s), v.
  - by eapply poll_blocks_run.
  - destruct He as [Hst Hf]. st_inv Hr. apply on_disk_ok in Hrun as (v & -> & Hc). destruct a0 as [[]|]; injection Hr as <- <-; apply stepped_stays; try done.
    exists img, (d_disk s), v. split_and!; [done|done|by apply Hc].
  - st_inv Hr. injection Hr as <- <-. apply on_meta_ok in Hrun as (m & Hm & ->).
    pose proof (dir_committed_table base_dir (dl_path d) (d_meta s) (Hw eq_refl)) as Hwr. rewrite Hm in Hwr.
    split_and!; [done..|]. exists d. by rewrite insert_id.
  - st_inv Hr. injection Hr as <- <-. apply on_meta_ok in Hrun as (m & Hm & ->).
    pose proof (dir_aborted_table base_dir (dl_path d) (d_meta s) (Hw eq_refl)) as Hwr. rewrite Hm in Hwr.
    split_and!; [done..|]. exists d. by rewrite insert_id.
  - st_inv Hr. injection Hr as <- <-. apply on_sys_ok in Hrun as (x & Hx & ->). destruct a0.
    apply (download_ended_frame _ _ _ _ _ d) in Hx as (E1 & E2 & E3 & E4 & E5); [|done]. by split_and!.
  - st_inv Hr. injection Hr as <- <-. apply on_sys_ok in Hrun as (x & Hx & ->). destruct a0.
    apply (download_ended_frame _ _ _ _ _ d) in Hx as (E1 & E2 & E3 & E4 & E5); [|done]. by split_and!.
Qed.

(** ** Every step keeps the invariant *)

(** A step that leaves downloads and commands alone, and takes no entry out. *)
Lemma sound_elsewhere (s s' : Daemon) : Sound s -> d_stages s' = d_stages s -> d_accepted s' = d_accepted s ->
  elsewhere (d_sys s) (d_sys s') -> (forall v, is_Some (writing (d_meta s) !! v) -> is_Some (writing (d_meta s') !! v)) -> Sound s'.
Proof.
  intros [] Hst Ha [Ed En Ep Ec Eg] Hw.
  assert (Ew : waiting s' = waiting s) by (unfold waiting; by rewrite Ha, Ec).
  assert (Er : forall p n, running s' p n <-> running s p n) by (intros p n; unfold running; by rewrite Ed, Hst).
  split; rewrite ?Hst, ?Ed, ?En, ?Ep, ?Ec, ?Ew, ?Eg; try done.
  - intros p n Hr%Er. by apply (so_apart0 p n).
  - intros p n n' Hr%Er Hr'%Er. by apply (so_one0 p).
  - intros p [Hp|[n Hr%Er]]; apply Hw, so_table0; [by left|right; by exists n].
Qed.

Lemma sound_accept p i replacing m (s : Daemon) : Sound s -> entry_made p (d_meta s) m -> Sound (accept p i replacing m s).
Proof.
  intros [] (Hno & Hp & Hq).
  assert (Hw : forall q, q ∈ waiting s \/ (exists n, running s q n) -> q <> p) by (intros q Hq' ->; apply so_table0 in Hq' as [? ?]; congruence).
  assert (Ew : waiting (accept p i replacing m s) ≡ₚ p :: waiting s).
  { unfold waiting, accept. cbn. rewrite map_app. cbn. rewrite <- app_assoc. symmetry. apply Permutation_middle. }
  split; try done.
  - rewrite Ew. constructor; [|done]. intros Hin. by apply (Hw p); [left|].
  - intros q n Hr. rewrite Ew. intros [->|Hin]%elem_of_cons; [by apply (Hw p); [right; exists n|]|by eapply so_apart0].
  - intros q Hq'. rewrite Ew, elem_of_cons in Hq'. cbn. destruct (decide (q = p)) as [->|Hne]; [done|]. rewrite Hq by done.
    apply so_table0. destruct Hq' as [[?|?]|?]; [done|by left|by right].
Qed.

Lemma sound_tell l1 p i replacing l2 x (s : Daemon) : Sound s -> d_accepted s = l1 ++ (p, i, replacing) :: l2 ->
  fetch_dir p i replacing (d_sys s) = (Ok tt, x) -> Sound (with_accepted (l1 ++ l2) (with_sys x s)).
Proof.
  intros [] Ha Hr. unfold fetch_dir in Hr. st_inv Hr. injection Hrun as _ <-. st_inv Hr. injection Hrun as <- <-. st_inv Hr. injection Hrun as _ <-.
  injection Hr as <-.
  assert (Ec : commands (on_channels (fun l => l ++ [FetchDir (new_downloading p i replacing a0)]) (fun l => l) (fun l => l) (d_sys s)) =
    commands (d_sys s) ++ [new_downloading p i replacing a0]) by (unfold commands; cbn; by rewrite omap_app).
  set (y := on_channels _ _ _ _) in *. set (s' := with_accepted _ _).
  assert (Ew : waiting s' ≡ₚ waiting s).
  { unfold waiting, s'. cbn [d_accepted d_sys with_accepted with_sys]. rewrite Ec, Ha, !map_app. cbn [map app fst].
    rewrite (Permutation_app_comm (map dl_path _) [_]), <- (Permutation_middle (map _ l1)). symmetry. apply Permutation_middle. }
  assert (Er : forall q n, running s' q n <-> running s q n) by done.
  split; try done.
  - by rewrite Ew.
  - intros q n Hr'. rewrite Ew. by apply (so_apart0 q n).
  - intros q Hq. rewrite Ew in Hq. by apply so_table0.
  - intros d Hd. change (d ∈ commands y) in Hd. rewrite Ec in Hd. apply elem_of_app in Hd as [Hd| ->%list_elem_of_singleton]; [by apply so_queued0|done].
Qed.

Lemma start_task_run now (s s' : Daemon) : start_task now s = (Ok tt, s') -> exists cmd l, cmd_chan (d_sys s) = FetchDir cmd :: l /\
  let n := next_download (d_sys s) in
  config (d_sys s') = config (d_sys s) /\ d_stages s' = <[n := FetchingIndex]> (d_stages s) /\ d_accepted s' = d_accepted s /\ d_meta s' = d_meta s /\
  downloads (d_sys s') = <[n := cmd]> (downloads (d_sys s)) /\ next_download (d_sys s') = S n /\
  in_progress (state (d_sys s')) = <[dl_path cmd := n]> (in_progress (state (d_sys s))) /\ cmd_chan (d_sys s') = l.
Proof.
  unfold start_task. destruct (cmd_chan (d_sys s)) as [|[cmd|] l]; [done| |done]. intros Hr. exists cmd, l. split; [done|].
  st_inv Hr. apply on_sys_ok in Hrun as (x & Hx & ->). injection Hx as _ <-. st_inv Hr. apply on_sys_ok in Hrun as (y & Hy & ->).
  apply fetch_dir_start_frame in Hy as (-> & E1 & E2 & E3 & E4 & E5). injection Hr as <-. by split_and!.
Qed.

Lemma sound_start now (s s' : Daemon) : Sound s -> start_task now s = (Ok tt, s') -> Sound s'.
Proof.
  intros [] (cmd & l & Hc & Eg & Es & Ea & Em & Ed & En & Ep & El)%start_task_run. set (n := next_download (d_sys s)) in *.
  assert (Hn : downloads (d_sys s) !! n = None) by (by apply so_fresh0).
  assert (Hns : d_stages s !! n = None) by (apply eq_None_not_Some; rewrite so_tasks0, Hn; by intros [? ?]).
  assert (Ec : commands (d_sys s) = cmd :: commands (d_sys s')) by (unfold commands; by rewrite Hc, El).
  assert (Ew : waiting s ≡ₚ dl_path cmd :: waiting s') by (unfold waiting; rewrite Ea, Ec; symmetry; apply Permutation_middle).
  assert (Er : forall p k, running s' p k -> (k = n /\ p = dl_path cmd) \/ running s p k).
  { intros p k (d & st & Hd & Hp & Hst & Ho). rewrite Ed in Hd. rewrite Es in Hst. destruct (decide (k = n)) as [->|Hk].
    - rewrite lookup_insert_eq in Hd. injection Hd as <-. by left.
    - rewrite lookup_insert_ne in Hd by done. rewrite lookup_insert_ne in Hst by done. right. by exists d, st. }
  rewrite Ew in so_waiting0. apply NoDup_cons in so_waiting0 as [Hnew Hnd].
  assert (Hold : forall k, ~ running s (dl_path cmd) k) by (intros k Hr; eapply so_apart0; [exact Hr|]; rewrite Ew; by left).
  split.
  - congruence.
  - intros k. rewrite Es, Ed. destruct (decide (k = n)) as [->|Hk]; [rewrite !lookup_insert_eq; split; by eexists|by rewrite !lookup_insert_ne].
  - intros k Hk. rewrite En in Hk. rewrite Ed, lookup_insert_ne by lia. apply so_fresh0. lia.
  - intros p k. rewrite Ep, Ed, lookup_insert. case_decide as Hp.
    + intros [= <-]. exists cmd. by rewrite lookup_insert_eq.
    + intros Hk. destruct (so_progress0 _ _ Hk) as (d & Hd & E). exists d. rewrite lookup_insert_ne; [done|]. congruence.
  - done.
  - intros p k [[-> ->]|Hr]%Er; [done|]. intros Hin. eapply so_apart0; [exact Hr|]. rewrite Ew. by right.
  - intros p k k' [[-> ->]|Hr]%Er [[-> Hp]|Hr']%Er; [done|by apply Hold in Hr'|subst p; by apply Hold in Hr|by apply (so_one0 p)].
  - intros p Hp. rewrite Em. apply so_table0. rewrite Ew. destruct Hp as [Hp|[k [[-> ->]|Hr]%Er]]; [left; by right|left; by left|right; by exists k].
  - intros d Hd. apply so_queued0. rewrite Ec. by right.
  - intros k d st. rewrite Ed, Es. destruct (decide (k = n)) as [->|Hk].
    + rewrite !lookup_insert_eq. intros [= <-] [= <-]. cbn. apply so_queued0. rewrite Ec. by left.
    + rewrite !lookup_insert_ne by done. apply so_earned0.
Qed.

Lemma step_task_run a n (s s' : Daemon) : (forall l, a_order a l ≡ₚ l) -> Sound s -> step_task a n s = (Ok tt, s') -> exists st d r s1,
  d_stages s !! n = Some st /\ downloads (d_sys s) !! n = Some d /\ stepped n d st r s s1 /\ s' = set_stage n r s1.
Proof using H0 stalled_law shuffle_law.
  intros Ho Hs Hr. unfold FetchDir.step_task in Hr. destruct (d_stages s !! n) as [st|] eqn:Est; [|done].
  destruct (proj1 (so_tasks _ Hs n) (ex_intro _ st Est)) as [d Hd]. st_inv Hr. injection Hr as <-. exists st, d, a0, s0.
  split_and!; [done..| |done]. eapply stage_run; [done|by apply so_config|done|by apply (so_earned _ Hs)| |exact Hrun].
  intros Hh. apply (so_table _ Hs). right. exists n, d, st. by split_and!.
Qed.

(** A task goes on. *)
Lemma sound_goes_on n d st st' (s s1 : Daemon) : Sound s -> d_stages s !! n = Some st -> downloads (d_sys s) !! n = Some d ->
  stepped n d st (Some st') s s1 -> Sound (set_stage n (Some st') s1).
Proof.
  intros [] Hst Hd (Ea & Es & Eg & Ec & En & d' & Ed & Hp & He & Ep & Ho & Hw). set (s' := set_stage n (Some st') s1).
  assert (Es' : d_stages s' = <[n := st']> (d_stages s)) by (cbn; by rewrite Es).
  assert (Ew : waiting s' = waiting s) by (unfold waiting, commands; cbn; by rewrite Ea, Ec).
  assert (Er : forall p k, running s' p k -> running s p k /\ (k = n -> holds st' = true)).
  { intros p k (d0 & st0 & Hd0 & Hp0 & Hst0 & Ho0). cbn [d_sys s' set_stage with_stages] in Hd0. rewrite Ed in Hd0. rewrite Es' in Hst0.
    destruct (decide (k = n)) as [->|Hk].
    - rewrite lookup_insert_eq in Hd0. rewrite lookup_insert_eq in Hst0. injection Hd0 as <-. injection Hst0 as <-. split; [|done].
      exists d, st. split_and!; [done|congruence|done..].
    - rewrite lookup_insert_ne in Hd0 by done. rewrite lookup_insert_ne in Hst0 by done. split; [|done]. by exists d0, st0. }
  split.
  - cbn. congruence.
  - intros k. rewrite Es'. cbn. rewrite Ed. destruct (decide (k = n)) as [->|Hk]; [rewrite !lookup_insert_eq; split; by eexists|by rewrite !lookup_insert_ne].
  - intros k. cbn. rewrite En, Ed. intros Hk. rewrite lookup_insert_ne; [by apply so_fresh0|]. intros ->. rewrite so_fresh0 in Hd by done. done.
  - intros p k. cbn. rewrite Ep, Ed. intros Hk. destruct (so_progress0 _ _ Hk) as (d0 & Hd0 & E).
    destruct (decide (k = n)) as [->|Hne]; [exists d'; rewrite lookup_insert_eq; split; [done|congruence]|exists d0; by rewrite lookup_insert_ne].
  - by rewrite Ew.
  - intros p k [Hr _]%Er. rewrite Ew. by apply (so_apart0 p k).
  - intros p k k' [Hr _]%Er [Hr' _]%Er. by apply (so_one0 p).
  - intros p Hq. rewrite Ew in Hq. cbn. rewrite Hw.
    assert (Hin : p ∈ waiting s \/ exists k, running s p k) by (destruct Hq as [?|[k [? _]%Er]]; [by left|right; by exists k]).
    apply so_table0 in Hin. destruct (holds st') eqn:Ho'; [done|]. rewrite lookup_delete_ne; [done|]. intros <-.
    assert (Hn : running s (dl_path d) n) by (by exists d, st). destruct Hq as [Hq|[k [Hr Hk]%Er]]; [by apply (so_apart0 _ _ Hn)|].
    by rewrite (so_one0 _ _ _ Hr Hn) in Hk; specialize (Hk eq_refl).
  - intros d0. unfold commands. cbn. rewrite Ec. apply so_queued0.
  - intros k d0 st0. rewrite Es'. cbn. rewrite Ed. destruct (decide (k = n)) as [->|Hk].
    + rewrite !lookup_insert_eq. by intros [= <-] [= <-].
    + rewrite !lookup_insert_ne by done. apply so_earned0.
Qed.

(** A task ends. *)
Lemma sound_ends n d st (s s1 : Daemon) : Sound s -> d_stages s !! n = Some st -> downloads (d_sys s) !! n = Some d ->
  stepped n d st None s s1 -> Sound (set_stage n None s1).
Proof.
  intros [] Hst Hd (Ea & Es & Eg & Ec & En & Ho & Ed & Ep & Hw). set (s' := set_stage n None s1).
  assert (Es' : d_stages s' = delete n (d_stages s)) by (cbn; by rewrite Es).
  assert (Ew : waiting s' = waiting s) by (unfold waiting, commands; cbn; by rewrite Ea, Ec).
  assert (Er : forall p k, running s' p k -> running s p k).
  { intros p k (d0 & st0 & Hd0 & Hp0 & Hst0 & Ho0). cbn [d_sys s' set_stage with_stages] in Hd0. rewrite Ed in Hd0. rewrite Es' in Hst0.
    apply lookup_delete_Some in Hd0 as [_ Hd0], Hst0 as [_ Hst0]. by exists d0, st0. }
  split.
  - cbn. congruence.
  - intros k. rewrite Es'. cbn. rewrite Ed. destruct (decide (k = n)) as [->|Hk]; [by rewrite !lookup_delete_eq|by rewrite !lookup_delete_ne].
  - intros k. cbn. rewrite En, Ed. intros Hk. apply lookup_delete_None. right. by apply so_fresh0.
  - intros p k. cbn. rewrite Ep, Ed. intros [Hne Hk]%lookup_delete_Some. destruct (so_progress0 _ _ Hk) as (d0 & Hd0 & E).
    exists d0. split; [|done]. rewrite lookup_delete_ne; [done|]. intros <-. congruence.
  - by rewrite Ew.
  - intros p k Hr%Er. rewrite Ew. by apply (so_apart0 p k).
  - intros p k k' Hr%Er Hr'%Er. by apply (so_one0 p).
  - intros p Hq. rewrite Ew in Hq. cbn. rewrite Hw. apply so_table0. destruct Hq as [?|[k Hr%Er]]; [by left|right; by exists k].
  - intros d0. unfold commands. cbn. rewrite Ec. apply so_queued0.
  - intros k d0 st0. rewrite Es'. cbn. rewrite Ed. intros [_ Hd0]%lookup_delete_Some [_ Hst0]%lookup_delete_Some. by eapply so_earned0.
Qed.

Lemma reach_sound s : reach s -> Sound s.
Proof using H0 stalled_law shuffle_law.
  induction 1 as [random now r p m v Hm|s params k ns n m _ Hs Hp Hr|s params k ns n m _ Hs Hp Hr|s k ns n i m _ Hs Hr|
    s l1 p i replacing l2 x _ Hs Ha Hr|s now s' _ Hs Hr|s a n s' _ Hs Ho Hr|s m _ Hs Hm|s x _ Hs Hx|s v _ Hs].
  - split; cbn; try done.
    + intros k. rewrite !lookup_empty. by split; intros [? [=]].
    + constructor.
    + by intros q k (d & st & Hd & _).
    + by intros q k k' (d & st & Hd & _).
    + by intros q [?%not_elem_of_nil|[k (d & st & Hd & _)]].
    + by intros d ?%not_elem_of_nil.
  - apply sound_accept; [done|]. by eapply start_append_new.
  - apply sound_accept; [done|]. by eapply start_replace_new.
  - apply sound_accept; [done|]. destruct (resume_upload_spec _ _ _ _ _ _ _ _ _ Hr) as (Hno & st & b & _ & _ & Hw & _). split_and!; [done|..].
    + rewrite Hw, lookup_insert_eq. by eexists.
    + intros q Hq. by rewrite Hw, lookup_insert_ne.
  - by eapply sound_tell.
  - by eapply sound_start.
  - destruct (step_task_run _ _ _ _ Ho Hs Hr) as (st & d & r & s1 & Hst & Hd & Hstep & ->).
    destruct r as [st'|]; [by eapply sound_goes_on|by eapply sound_ends].
  - by eapply (sound_elsewhere s).
  - by eapply (sound_elsewhere s).
  - by eapply (sound_elsewhere s).
Qed.

(** ** Theorems *)

(** C6. At most one download of a path is under way: from the moment the metadata
    store accepts an upload until it is told of its end, the path has its entry
    in the table of uploads, there is no second task, no second command in the
    channel and no second answer to be told for it; a task is not started while
    another one runs for its path.  What [in_progress] names for the path of a
    command that waits is a task that the metadata store knows to have ended. *)
Theorem one_download_per_path s : reach s ->
  (forall p n, running s p n -> is_Some (writing (d_meta s) !! p) /\ p ∉ waiting s /\ forall n', running s p n' -> n' = n) /\
  NoDup (waiting s) /\
  (forall p, p ∈ waiting s -> is_Some (writing (d_meta s) !! p)) /\
  (forall p n, p ∈ waiting s -> in_progress (state (d_sys s)) !! p = Some n ->
     exists d st, downloads (d_sys s) !! n = Some d /\ dl_path d = p /\ d_stages s !! n = Some st /\ holds st = false).
Proof using H0 stalled_law shuffle_law.
  intros Hs%reach_sound. split_and!.
  - intros p n Hr. split_and!; [apply (so_table _ Hs); right; by exists n|by apply (so_apart _ Hs _ n)|]. intros n' Hr'. by apply (so_one _ Hs p).
  - apply (so_waiting _ Hs).
  - intros p Hp. apply (so_table _ Hs). by left.
  - intros p n Hp Hn. destruct (so_progress _ Hs _ _ Hn) as (d & Hd & Ep).
    destruct (proj2 (so_tasks _ Hs n) (ex_intro _ d Hd)) as [st Hst]. exists d, st. split_and!; [done..|].
    destruct (holds st) eqn:Ho; [|done]. exfalso. apply (so_apart _ Hs p n); [by exists d, st|done].
Qed.

(** C5. The subsystem and the metadata store are told that a download is committed
    only after the whole of it: an image was started for the index, the files
    that were linked are those that the scan found and that were checked, every
    block of the other files arrived once with its hash and was written, and
    the commit of the image succeeded. *)
Theorem commit_is_earned s n st : reach s -> d_stages s !! n = Some st -> st = MetaCommitting \/ st = SysCommitting ->
  exists d img index v v' links order l vl vl' blocks effects m m' vc vc',
    downloads (d_sys s) !! n = Some d /\
    start_image tree_fuel (directory (dl_config d)) index (dl_path d) v = (Ok img, v') /\
    files_to_hardlink base_dir decode_state debug_assertions sort_by_key (dl_path d) (Disk.index img) (dl_replacing d) m = (Ok links, m') /\
    order ≡ₚ links /\ check_and_hardlink cfg order img vl = (Ok l, vl') /\
    blocks_to_fetch (Disk.index img) (list_to_set l) = Some blocks /\
    effects ≫= written blake2b_256 ≡ₚ blocks /\
    (forall j, j ∈ effects ≫= job_of -> exists t, e_write (block_env n) t j = Ready tt) /\
    commit_image debug_assertions tree_fuel img vc = (Ok tt, vc').
Proof using H0 stalled_law shuffle_law.
  intros Hs%reach_sound Hst Hend. destruct (proj1 (so_tasks _ Hs n) (ex_intro _ st Hst)) as [d Hd].
  assert (Hc : completed n d) by (pose proof (so_earned _ Hs _ _ _ Hd Hst) as He; by destruct Hend as [-> | ->]).
  destruct Hc as (img & vc & vc' & (index & v & v' & Hi) & (paths & blocks & effects & Hl & Hb & He & Hj) & Hc).
  destruct Hl as (links & order & l & vl & vl' & (m & m' & Hf) & Ho & Hl & ->).
  exists d, img, index, v, v', links, order, l, vl, vl', blocks, effects, m, m', vc, vc'. by split_and!.
Qed.
End World.

(** ** Examples *)

Module DaemonExample.
#[local] Existing Instances HexCodecImpl.codec ToyCrypto.crypto.
Import HardlinkExample.

Definition cfg : Config.Config := Metadata.Example.config.
Definition path : VPath := Metadata.Example.v.
Definition append : AppendDir := Metadata.Example.append Byte.x01.
Definition replace : ReplaceDir := Metadata.Example.replace Byte.x02 Byte.x01.

(** Everything is its own hash, as in [MemDisk]. *)
Definition toy_hash (b : bytes) : bytes := b.
Definition content : bytes := repeat Byte.x01 32.
(** Every block is there at once, and written at once. *)
Definition env : FetchBlocks.Env :=
  {| e_request _ _ := Ready content; e_write _ _ := Ready tt; e_timeout _ := false; e_deadline _ := false; e_now t := Z.of_nat t;
     e_connection _ _ _ _ _ := Some FetchBlocks.Example.peer; e_image_source _ _ := false; e_check_stalled _ _ _ := Some false |}.

Abbreviation World := (Daemon (W := MemFs.Mem) (V := MemDisk.Mem)).
Abbreviation Reach := (reach (W := MemFs.Mem) (V := MemDisk.Mem) cfg [] Metadata.Example.encode Metadata.Example.decode
  Metadata.Example.parse_key Metadata.Example.buffered newest 5 true toy_hash (@rev Slice) (fun _ => env)).

(** An index with a directory, a file without blocks and one of one block. *)
Definition small_index : IndexData :=
  {| ix_id := Metadata.Example.img Byte.x01; hash_type := Sha512_256; block_size := 32;
     entries := [Index.Dir [Path.RootDir]; Index.File [Path.RootDir; Path.Normal "b"%string] false 0 [];
                 Index.File [Path.RootDir; Path.Normal "c"%string] false 32 [content]];
     bytes_total := 32; blocks_total := 1 |}.
Definition answers : Answers := {| a_now := 7; a_index := Some small_index; a_order := @rev Disk.Link; a_fuel := 10 |}.

Definition tell (replacing : bool) (s : World) : World :=
  match d_accepted s with
  | (p, i, _) :: l => with_accepted l (with_sys (snd (fetch_dir p i replacing (d_sys s))) s)
  | [] => s
  end.
Definition step (n : nat) : World -> Res Halt unit * World :=
  step_task (W := MemFs.Mem) (V := MemDisk.Mem) [] Metadata.Example.decode newest 5 true toy_hash (@rev Slice)
    (fun _ => env) answers n.
Definition start : World -> Res Halt unit * World := start_task (W := MemFs.Mem) (V := MemDisk.Mem) 5.

Definition append_run := start_append (W := MemFs.Mem) cfg [] Metadata.Example.encode Metadata.Example.decode
  Metadata.Example.parse_key Metadata.Example.buffered append.
Definition replace_run := start_replace (W := MemFs.Mem) cfg [] Metadata.Example.encode Metadata.Example.decode
  Metadata.Example.parse_key Metadata.Example.buffered replace.

Definition s0 : World :=
  {| d_sys := tracking_new 1000 0 cfg Remote.Example.r3 Tracking.Example.msgs_peers; d_meta := Metadata.Example.store 1000 ∅;
     d_disk := Disk.DiskExample.mem0; d_accepted := []; d_stages := ∅ |}.
Definition s1 : World := accept path (Metadata.Example.img Byte.x01) false (snd (append_run (d_meta s0))) s0.
Definition s2 : World := tell false s1.
Definition s3 : World := snd (start s2).
Fixpoint steps (k : nat) (s : World) : World := match k with O => s | S k => steps k (snd (step 0 s)) end.
(** The block is written. *)
Definition wrote (s : World) : World :=
  match d_stages s !! 0%nat with
  | Some (Committing img) => with_disk (snd (write_blocks img [Path.RootDir; Path.Normal "c"%string] [(0, content)] (d_disk s))) s
  | _ => s
  end.
(** The metadata store knows that the download has ended, the subsystem does
    not. *)
Definition s4 : World := steps 2 (wrote (steps 5 s3)).
(** The directory is replaced at once. *)
Definition s5 : World := accept path (Metadata.Example.img Byte.x02) true (snd (replace_run (d_meta s4))) s4.
Definition s6 : World := snd (start (tell true s5)).
Definition s7 : World := snd (step 0 s6).

Definition done (r : Res Halt unit) : bool := match r with Ok _ => true | _ => false end.
Definition stage_is (s : World) (f : Stage -> bool) : bool := match d_stages s !! 0%nat with Some st => f st | None => false end.
(** Every call of the run succeeds; the end is the one described. *)
Definition outcome : bool :=
  done (fst (start s2)) && forallb (fun k => done (fst (step 0 (steps k s3)))) (seq 0 5) &&
  forallb (fun k => done (fst (step 0 (steps k (wrote (steps 5 s3)))))) (seq 0 2) && done (fst (start (tell true s5))) && done (fst (step 0 s6)).

Lemma run_ok : outcome = true.
Proof. vm_cast_no_check (eq_refl true). Qed.
Lemma append_accepted : fst (append_run (d_meta s0)) = Ok (Accepted New).
Proof. vm_compute. reflexivity. Qed.
Lemma replace_accepted : fst (replace_run (d_meta s4)) = Ok (Accepted New).
Proof. vm_cast_no_check (eq_refl (Ok (Accepted New) : Res MetaDir.Error Upload)). Qed.
Lemma accepted_ends : d_accepted s1 = [(path, Metadata.Example.img Byte.x01, false)] /\ d_accepted s5 = [(path, Metadata.Example.img Byte.x02, true)].
Proof. split; vm_compute; reflexivity. Qed.
Lemma told : fst (fetch_dir path (Metadata.Example.img Byte.x01) false (d_sys s1)) = Ok tt /\
  fst (fetch_dir path (Metadata.Example.img Byte.x02) true (d_sys s5)) = Ok tt.
Proof. split; vm_compute; reflexivity. Qed.
Lemma committing : d_stages s4 !! 0%nat = Some SysCommitting.
Proof. vm_cast_no_check (eq_refl (Some (SysCommitting : Stage (V := MemDisk.Mem)))). Qed.

Lemma done_ok r : done r = true -> r = Ok tt.
Proof. by destruct r as [[]| |]. Qed.

Lemma ok_start s : done (fst (start s)) = true -> Reach s -> Reach (snd (start s)).
Proof. intros Hd%done_ok Hs. by apply (r_fetch _ _ _ _ _ _ _ _ _ _ _ _ s 5%Z); [|apply run_result]. Qed.
Lemma ok_task n s : done (fst (step n s)) = true -> Reach s -> Reach (snd (step n s)).
Proof.
  intros Hd%done_ok Hs. apply (r_task _ _ _ _ _ _ _ _ _ _ _ _ s answers n); [exact Hs| |by apply run_result].
  intros l. symmetry. apply Permutation_rev.
Qed.
Lemma ok_steps k s : (forall j, j < k -> done (fst (step 0 (steps j s))) = true) -> Reach s -> Reach (steps k s).
Proof.
  revert s. induction k as [|k IH]; intros s Hd Hs; [exact Hs|]. cbn [steps]. apply IH; [|apply ok_task; [|exact Hs]].
  - intros j Hj. apply (Hd (S j)). lia.
  - apply (Hd 0%nat). lia.
Qed.
Lemma ok_wrote s : Reach s -> Reach (wrote s).
Proof. intros Hs. unfold wrote. destruct (d_stages s !! 0%nat) as [[]|]; [exact Hs..| |exact Hs|exact Hs|exact Hs|exact Hs|exact Hs]. by apply r_disk. Qed.

Lemma outcome_parts : done (fst (start s2)) = true /\ (forall k, k < 5 -> done (fst (step 0 (steps k s3))) = true) /\
  (forall k, k < 2 -> done (fst (step 0 (steps k (wrote (steps 5 s3))))) = true) /\ done (fst (start (tell true s5))) = true /\
  done (fst (step 0 s6)) = true.
Proof.
  pose proof run_ok as Hr. unfold outcome in Hr. rewrite !andb_true_iff, !forallb_forall in Hr. destruct Hr as ((((H1 & H2) & H3) & H4) & H5).
  split_and!; [exact H1| | |exact H4|exact H5]; intros k Hk; [apply H2|apply H3]; apply in_seq; lia.
Qed.

Lemma reach3 : Reach s3.
Proof.
  destruct outcome_parts as (H1 & _). apply ok_start; [exact H1|]. destruct accepted_ends as [Ha _]. destruct told as [Ht _].
  unfold s2, tell. rewrite Ha. apply (r_tell _ _ _ _ _ _ _ _ _ _ _ _ s1 [] path (Metadata.Example.img Byte.x01) false []); [|exact Ha|by apply run_result].
  apply (r_append _ _ _ _ _ _ _ _ _ _ _ _ s0 append "k"%string [] "i"%string); [|reflexivity|apply run_result, append_accepted].
  by apply r_start.
Qed.
Lemma reach4 : Reach s4.
Proof.
  destruct outcome_parts as (_ & H2 & H3 & _). apply ok_steps; [exact H3|].
  exact (ok_wrote _ (ok_steps 5 s3 H2 reach3)).
Qed.
Lemma reach6 : Reach s6.
Proof.
  destruct outcome_parts as (_ & _ & _ & H4 & _). apply ok_start; [exact H4|]. destruct accepted_ends as [_ Ha]. destruct told as [_ Ht].
  unfold tell. rewrite Ha. apply (r_tell _ _ _ _ _ _ _ _ _ _ _ _ s5 [] path (Metadata.Example.img Byte.x02) true []); [|exact Ha|by apply run_result].
  apply (r_replace _ _ _ _ _ _ _ _ _ _ _ _ s4 replace "k"%string [] "i"%string); [apply reach4|reflexivity|apply run_result, replace_accepted].
Qed.

(** The metadata store has been told of the end of a download, the subsystem is
    told later: an upload of the same path is accepted in between and starts;
    the end of the old download then takes the new one out of [in_progress]. *)
Lemma running_not_in_progress :
  Reach s7 /\ d_stages s7 !! 1%nat = Some FetchingIndex /\ is_Some (writing (d_meta s7) !! path) /\
  in_progress (state (d_sys s6)) !! path = Some 1%nat /\ in_progress (state (d_sys s7)) !! path = None.
Proof.
  destruct outcome_parts as (_ & _ & _ & _ & H5). split; [exact (ok_task 0 s6 H5 reach6)|]. split_and!.
  - vm_cast_no_check (eq_refl (Some (FetchingIndex : Stage (V := MemDisk.Mem)))).
  - apply not_eq_None_Some. intros E. enough (bool_decide (writing (d_meta s7) !! path = None) = false) as Hb by (apply bool_decide_eq_false in Hb; by apply Hb).
    vm_cast_no_check (eq_refl false).
  - vm_cast_no_check (eq_refl (Some 1%nat)).
  - vm_cast_no_check (eq_refl (None : option nat)).
Qed.

Lemma shuffled l : @rev Slice l ≡ₚ l.
Proof. symmetry. apply Permutation_rev. Qed.
Lemma never_stalled (n : nat) t p i : is_Some (e_check_stalled env t p i).
Proof. by eexists. Qed.
Lemma running3 : running s3 path 0%nat.
Proof.
  assert (E : option_map dl_path (downloads (d_sys s3) !! 0%nat) = Some path) by (vm_cast_no_check (eq_refl (Some path))).
  destruct (downloads (d_sys s3) !! 0%nat) as [d|] eqn:Ed; [|discriminate E]. injection E as E. exists d, FetchingIndex.
  split_and!; [exact Ed|exact E|vm_cast_no_check (eq_refl (Some (FetchingIndex : Stage (V := MemDisk.Mem))))|reflexivity].
Qed.
End DaemonExample.

Lemma one_download_per_path_witness :
  is_Some (writing (d_meta DaemonExample.s3) !! DaemonExample.path) /\ forall n, running DaemonExample.s3 DaemonExample.path n -> n = 0%nat.
Proof.
  destruct (one_download_per_path _ _ _ _ _ _ _ _ _ _ _ _ DaemonExample.shuffled DaemonExample.never_stalled DaemonExample.s3 DaemonExample.reach3) as (H & _).
  destruct (H DaemonExample.path 0%nat DaemonExample.running3) as (H1 & _ & H2). split; [exact H1|exact H2].
Defined.

Lemma commit_is_earned_witness :
  exists img vc vc', commit_image (W := MemDisk.Mem) true 5 img vc = (Ok tt, vc').
Proof.
  destruct (commit_is_earned _ _ _ _ _ _ _ _ _ _ _ _ DaemonExample.shuffled DaemonExample.never_stalled DaemonExample.s4 0%nat SysCommitting
    DaemonExample.reach4 DaemonExample.committing (or_intror eq_refl)) as (d & img & i & v & v' & links & order & l & vl & vl' & blocks & effects & m & m' & vc & vc' & H).
  exists img, vc, vc'. apply H.
Defined.
