(* ===== verification/Cli.v ===== *)
(** * What the command line gives to the commands of the client

    Private keys ([src/client/keys.rs]), the options of the [upload] command
    ([src/client/upload/options.rs]), addresses of a name
    ([src/client/name.rs]), clusters and the pairs [source:destination] of
    [src/client/sync/mod.rs] and [sync/uploads.rs]. *)
From S2P Require Import Prelude Serde VirtualPath Ids Signature Fs Text Peers.
Import VPath ImageId.
Local Open Scope res_scope.

(** [str::split] on a character: the piece before the first one, and the rest. *)
Fixpoint split_at (c : ascii) (s : string) : string * option string :=
  match s with
  | EmptyString => (EmptyString, None)
  | String a s' => if Ascii.eqb a c then (EmptyString, Some s') else let (p, r) := split_at c s' in (String a p, r)
  end.

(** ** [keys.rs] *)

Section Keys.
Context `{Crypto}.
(** [std::env::var], the files of the user, [home_dir] and [parse_private_key] of
    [ssh_keys]. *)
Inductive EnvVar := NotPresent | NotUnicode | Present (value : string).
Context (env_var : string -> EnvVar) (open : Path.t -> Res IoError File) (home_dir : option Path.t).
Context (parse_private_key : string -> Res string (list PrivateKey)).

Inductive KeyError := KIo (e : IoError) | KUtf8 | KEnv | KParse (e : string).
Inductive KeysError := CantReadFile (path : Path.t) (e : KeyError) | CantReadEnv (name : string) (e : KeyError).

(** [read_to_string]. *)
Definition read_string (f : File) : Res KeyError string :=
  match file_error f with
  | Some e => Err (KIo e)
  | None => ok_or KUtf8 (from_utf8 (file_data f))
  end.

Definition keys_from_file (filename : Path.t) (allow_non_existent : bool) (res : list PrivateKey) : Res KeyError (list PrivateKey) :=
  match open filename with
  | Err e =>
      if bool_decide (io_kind e = NotFound) && allow_non_existent then Ok res else Err (KIo e)
  | Panic => Panic
  | Ok f => keybuf <-? read_string f ;; keys <-? res_map_err KParse (parse_private_key keybuf) ;; Ok (res ++ keys)
  end.

Definition keys_from_env (name : string) (allow_non_existent : bool) (res : list PrivateKey) : Res KeyError (list PrivateKey) :=
  match env_var name with
  | NotPresent => if allow_non_existent then Ok res else Err KEnv
  | NotUnicode => Err KEnv
  | Present value => keys <-? res_map_err KParse (parse_private_key value) ;; Ok (res ++ keys)
  end.

(** The two loops over the options. *)
Fixpoint files_loop (identities : list string) (keys : list PrivateKey) : Res KeysError (list PrivateKey) :=
  match identities with
  | [] => Ok keys
  | ident :: l =>
      keys <-? res_map_err (CantReadFile (Path.parse ident)) (keys_from_file (Path.parse ident) false keys) ;; files_loop l keys
  end.
Fixpoint env_loop (names : list string) (keys : list PrivateKey) : Res KeysError (list PrivateKey) :=
  match names with
  | [] => Ok keys
  | name :: l => keys <-? res_map_err (CantReadEnv name) (keys_from_env name false keys) ;; env_loop l keys
  end.

Definition home_key (home : Path.t) (name : string) (keys : list PrivateKey) : Res KeysError (list PrivateKey) :=
  let path := Path.join home (Path.parse name) in res_map_err (CantReadFile path) (keys_from_file path true keys).

Definition read_keys (identities key_vars : list string) : Res KeysError (list PrivateKey) :=
  if bool_decide (identities = []) && bool_decide (key_vars = []) then
    keys <-? res_map_err (CantReadEnv "CIRUELA_KEY") (keys_from_env "CIRUELA_KEY" true []) ;;
    match home_dir with
    | Some home =>
        keys <-? home_key home ".ssh/id_ed25519" keys ;;
        keys <-? home_key home ".ssh/id_ciruela" keys ;;
        home_key home ".ciruela/id_ed25519" keys
    | None => Ok keys
    end
  else keys <-? files_loop identities [] ;; env_loop key_vars keys.

(** ** What is read *)

Inductive Source := SFile (path : Path.t) | SEnv (name : string).

(** The keys of a source, if they can be read. *)
Definition source_keys (s : Source) : Res KeyError (list PrivateKey) :=
  match s with
  | SFile path => keys_from_file path false []
  | SEnv name => keys_from_env name false []
  end.
Definition source_error (s : Source) (e : KeyError) : KeysError :=
  match s with SFile path => CantReadFile path e | SEnv name => CantReadEnv name e end.

(** A source that may be missing. *)
Definition absent (s : Source) : bool :=
  match s with
  | SFile path => match open path with Err e => bool_decide (io_kind e = NotFound) | _ => false end
  | SEnv name => match env_var name with NotPresent => true | _ => false end
  end.

Definition sources (identities key_vars : list string) : list Source :=
  if bool_decide (identities = []) && bool_decide (key_vars = []) then
    filter (fun s => absent s = false)
      (SEnv "CIRUELA_KEY" :: match home_dir with
        | Some home => map (fun n => SFile (Path.join home (Path.parse n))) [".ssh/id_ed25519"; ".ssh/id_ciruela"; ".ciruela/id_ed25519"]
        | None => []
        end)
  else map (fun i => SFile (Path.parse i)) identities ++ map SEnv key_vars.

(** Every source in turn, up to the first that cannot be read. *)
Fixpoint read_sources (l : list Source) : Res KeysError (list PrivateKey) :=
  match l with
  | [] => Ok []
  | s :: l' => keys <-? res_map_err (source_error s) (source_keys s) ;; res_map (app keys) (read_sources l')
  end.
End Keys.

(** ** [options.rs] and [name.rs] *)

Section Options.
Context `{Crypto} {Name : Type} (parse_name : string -> Res string Name).
Context (env_var : string -> EnvVar) (open : Path.t -> Res IoError File) (home_dir : option Path.t).
Context (parse_private_key : string -> Res string (list PrivateKey)).

Record TargetUrl := { host : Name; tpath : string }.

Inductive TargetError := BadHost (e : string) | NoSlash | NoColon.

(** [impl FromStr for TargetUrl]. *)
Definition target_from_str (s : string) : Res TargetError TargetUrl :=
  match split_at ":" s with
  | (h, Some path) =>
      name <-? res_map_err BadHost (parse_name h) ;;
      match path with
      | String "/" _ => Ok {| host := name; tpath := path |}
      | _ => Err NoSlash
      end
  | (_, None) => Err NoColon
  end.

Record UploadOptions := {
  source_directory : option Path.t;
  target_urls : list TargetUrl;
  identities : list string;
  key_vars : list string;
  private_keys : list PrivateKey;
  replace : bool;
  fail_on_conflict : bool
}.

Definition options_new : UploadOptions :=
  {| source_directory := None; identities := []; key_vars := []; private_keys := []; target_urls := []; replace := false;
     fail_on_conflict := true |}.

(** The errors are exit codes. *)
Definition finalize (o : UploadOptions) : Res Z UploadOptions :=
  match source_directory o with
  | None => Err 1%Z
  | Some _ =>
      match read_keys env_var open home_dir parse_private_key (identities o) (key_vars o) with
      | Ok keys =>
          Ok {| source_directory := source_directory o; target_urls := target_urls o; identities := identities o;
                key_vars := key_vars o; private_keys := keys; replace := replace o; fail_on_conflict := fail_on_conflict o |}
      | Err _ => Err 2%Z
      | Panic => Panic
      end
  end.
End Options.
Arguments TargetUrl : clear implicits.

(** [Vec::dedup]: of equal neighbours one is left. *)
Fixpoint dedup (l : list SocketAddr) : list SocketAddr :=
  match l with
  | x :: l' => match l' with y :: _ => if decide (x = y) then dedup l' else x :: dedup l' | [] => [x] end
  | [] => []
  end.

(** [pick_hosts]: [pick_one] chooses at random, each time anew. *)
Definition pick_hosts (addresses : list SocketAddr) (pick_one : nat -> option SocketAddr) : option (list SocketAddr) :=
  match addresses with
  | [] => None
  | _ => if decide (3 < length addresses) then Some (dedup (omap pick_one [0; 1; 2])) else Some addresses
  end.

(** ** Clusters, sources and destinations *)

Section Clusters.
Context {Name : Type} (parse_name : string -> Res string Name).

Inductive SyncError := BadName (s : string) | BadDestination (s : string) | BadImageId | IndexFailed (dir : Path.t) | RegisterFailed.

Fixpoint multi_loop (src : list string) (cur : list Name) (result : list (list Name)) : Res SyncError (list (list Name)) :=
  match src with
  | [] => Ok (match cur with [] => result | _ => result ++ [cur] end)
  | name :: src' =>
      if decide (name = "--") then
        match cur with [] => multi_loop src' [] result | _ => multi_loop src' [] (result ++ [cur]) end
      else n <-? res_map_err (fun _ => BadName name) (parse_name name) ;; multi_loop src' (cur ++ [n]) result
  end.

Fixpoint each_loop (src : list string) : Res SyncError (list (list Name)) :=
  match src with
  | [] => Ok []
  | name :: src' => n <-? res_map_err (fun _ => BadName name) (parse_name name) ;; res_map (cons [n]) (each_loop src')
  end.

Definition convert_clusters (src : list string) (multi : bool) : Res SyncError (list (list Name)) :=
  if multi then multi_loop src [] [] else each_loop src.
End Clusters.

Definition destination (cli : string) (rest : option string) : Res SyncError VPath :=
  ok_or (BadDestination cli) (match rest with Some s => match try_from s with Ok p => Some p | _ => None end | None => None end).

(** [split]: what follows a second colon is ignored. *)
Definition split (cli : string) : Res SyncError (Path.t * VPath) :=
  let (src, rest) := split_at ":" cli in
  dest <-? destination cli (fst <$> (split_at ":" <$> rest)) ;; Ok (Path.parse src, dest).

Definition split_replace (cli : string) : Res SyncError (Path.t * VPath * option ImageId) :=
  let (src, rest) := split_at ":" cli in
  let second := split_at ":" <$> rest in
  dest <-? destination cli (fst <$> second) ;;
  match second ≫= snd with
  | Some rest => id <-? res_map_err (fun _ => BadImageId) (from_str (fst (split_at ":" rest))) ;; Ok (Path.parse src, dest, Some id)
  | None => Ok (Path.parse src, dest, None)
  end.

(** ** What holds *)

Section KeysLemmas.
Context `{Crypto} (env_var : string -> EnvVar) (open : Path.t -> Res IoError File) (home_dir : option Path.t).
Context (parse_private_key : string -> Res string (list PrivateKey)).

Abbreviation read_keys := (read_keys env_var open home_dir parse_private_key).
Abbreviation read_sources := (read_sources env_var open parse_private_key).
Abbreviation source_keys := (source_keys env_var open parse_private_key).
Abbreviation absent := (absent env_var open).

(** What a source adds to the keys there are. *)
Lemma keys_from_file_app path allow keys : keys_from_file open parse_private_key path allow keys =
  (if allow && absent (SFile path) then Ok keys else res_map (app keys) (source_keys (SFile path))).
Proof.
  unfold source_keys, keys_from_file, absent. destruct (open path) as [f|e|]; [|by destruct allow, (bool_decide _)|by rewrite andb_false_r].
  rewrite andb_false_r. unfold read_string. destruct (file_error f) as [|]; [done|]. destruct (from_utf8 _) as [s|]; [|done]. cbn. by destruct (parse_private_key s).
Qed.
Lemma keys_from_env_app name allow keys : keys_from_env env_var parse_private_key name allow keys =
  (if allow && absent (SEnv name) then Ok keys else res_map (app keys) (source_keys (SEnv name))).
Proof.
  unfold source_keys, keys_from_env, absent. destruct (env_var name) as [| |v]; [by destruct allow|by rewrite andb_false_r|].
  rewrite andb_false_r. by destruct (parse_private_key v).
Qed.

Lemma files_loop_sources l keys : files_loop open parse_private_key l keys =
  res_map (app keys) (read_sources (map (fun i => SFile (Path.parse i)) l)).
Proof.
  revert keys. induction l as [|i l IH]; intros keys; cbn; [by rewrite app_nil_r|]. rewrite keys_from_file_app. cbn.
  destruct (source_keys (SFile (Path.parse i))) as [k| |] eqn:E; unfold source_keys in E; cbn in E; rewrite E; [|done..]. cbn. rewrite IH.
  destruct (read_sources _); [|done..]. cbn. by rewrite app_assoc.
Qed.
Lemma env_loop_sources l keys : env_loop env_var parse_private_key l keys = res_map (app keys) (read_sources (map SEnv l)).
Proof.
  revert keys. induction l as [|i l IH]; intros keys; cbn; [by rewrite app_nil_r|]. rewrite keys_from_env_app. cbn.
  destruct (source_keys (SEnv i)) as [k| |] eqn:E; unfold source_keys in E; cbn in E; rewrite E; [|done..]. cbn. rewrite IH.
  destruct (read_sources _); [|done..]. cbn. by rewrite app_assoc.
Qed.

Lemma read_sources_app l l' : read_sources (l ++ l') = res_bind (fun k => res_map (app k) (read_sources l')) (read_sources l).
Proof.
  induction l as [|s l IH]; cbn; [by destruct (read_sources l')|]. destruct (res_map_err _ _) as [k| |]; [|done..]. cbn. rewrite IH.
  destruct (read_sources l) as [k'| |]; [|done..]. cbn. destruct (read_sources l'); [|done..]. cbn. by rewrite app_assoc.
Qed.

Lemma home_key_sources home name keys : home_key open parse_private_key home name keys =
  res_map (app keys) (read_sources (filter (fun s => absent s = false) [SFile (Path.join home (Path.parse name))])).
Proof.
  unfold home_key. rewrite keys_from_file_app. set (path := Path.join _ _). rewrite filter_cons, filter_nil.
  destruct (absent (SFile path)) eqn:Ea; cbn [andb negb].
  - rewrite decide_False by done. cbn. by rewrite app_nil_r.
  - rewrite decide_True by done. cbn. destruct (source_keys (SFile path)) as [k| |] eqn:E; unfold source_keys in E; cbn in E; rewrite E; [|done..].
    cbn. by rewrite app_nil_r.
Qed.

(** The keys are those of the sources in turn, of the default ones only those
    that are there; the first that cannot be read is the error. *)
Lemma read_keys_sources ids vars : read_keys ids vars = read_sources (sources env_var open home_dir ids vars).
Proof.
  unfold Cli.read_keys, sources. destruct (_ && _).
  - rewrite keys_from_env_app. cbn [andb]. change (?x :: ?l) with ([x] ++ l). rewrite filter_app, read_sources_app.
    assert (E : (res_map_err (CantReadEnv "CIRUELA_KEY") (if absent (SEnv "CIRUELA_KEY") then Ok [] else res_map (app []) (source_keys (SEnv "CIRUELA_KEY")))) =
      read_sources (filter (fun s => absent s = false) [SEnv "CIRUELA_KEY"])).
    { rewrite filter_cons, filter_nil. destruct (absent (SEnv "CIRUELA_KEY")) eqn:Ea; [by rewrite decide_False|]. rewrite decide_True by done. cbn.
      destruct (source_keys (SEnv "CIRUELA_KEY")) as [k| |] eqn:E; unfold source_keys in E; cbn in E; rewrite E; [|done..]. cbn. by rewrite app_nil_r. }
    rewrite E. destruct (read_sources _) as [k| |]; [|done..]. cbn [res_bind]. destruct home_dir as [home|]; [|cbn; by rewrite app_nil_r].
    cbn [map]. change (?x :: ?y :: [?z]) with ([x] ++ [y] ++ [z]). rewrite !filter_app, !read_sources_app, !home_key_sources.
    destruct (read_sources (filter _ [SFile (Path.join home (Path.parse ".ssh/id_ed25519"))])) as [k1| |]; [|done..]. cbn [res_map res_bind].
    rewrite home_key_sources.
    destruct (read_sources (filter _ [SFile (Path.join home (Path.parse ".ssh/id_ciruela"))])) as [k2| |]; [|done..]. cbn [res_map res_bind].
    rewrite home_key_sources. destruct (read_sources _) as [k3| |]; [|done..]. cbn. by rewrite !app_assoc.
  - rewrite files_loop_sources, read_sources_app. destruct (read_sources _) as [k| |]; [|done..]. cbn. by rewrite env_loop_sources.
Qed.
End KeysLemmas.

Section ClustersLemmas.
Context {Name : Type} (parse_name : string -> Res string Name).

Definition named (s : string) (n : Name) : Prop := parse_name s = Ok n.

Lemma multi_loop_spec src cur result cs : Forall (fun c => c <> []) result -> multi_loop parse_name src cur result = Ok cs ->
  exists ns, Forall2 named (filter (fun s => s <> "--"%string) src) ns /\ concat cs = concat result ++ cur ++ ns /\ Forall (fun c => c <> []) cs.
Proof.
  revert cur result. induction src as [|s src IH]; intros cur result Hr Hc; cbn in Hc.
  - injection Hc as <-. exists []. split; [constructor|]. destruct cur as [|n cur]; rewrite ?concat_app, !app_nil_r; [done|]. cbn. rewrite app_nil_r.
    split; [done|]. apply Forall_app. split; [done|]. by constructor.
  - destruct (decide (s = "--")) as [Es|Es].
    + rewrite filter_cons_False by (intros Hn; by apply Hn). destruct cur as [|n cur]; [by apply IH|].
      destruct (IH [] (result ++ [n :: cur])) as (ns & Hns & -> & Hne); [apply Forall_app; split; [done|by constructor]|done|].
      exists ns. split; [done|]. split; [|done]. rewrite concat_app. cbn. by rewrite app_nil_r, <- app_assoc.
    + rewrite filter_cons_True by done. destruct (parse_name s) as [n| |] eqn:En; cbn in Hc; [|done..].
      destruct (IH (cur ++ [n]) result Hr Hc) as (ns & Hns & -> & Hne). exists (n :: ns). split; [by constructor|]. by rewrite <- (app_assoc cur).
Qed.

(** The names of the clusters are those of the command line, in their order;
    no cluster is empty. *)
Lemma convert_clusters_spec src multi cs : convert_clusters parse_name src multi = Ok cs ->
  exists ns, Forall2 named (if multi then filter (fun s => s <> "--"%string) src else src) ns /\ concat cs = ns /\ Forall (fun c => c <> []) cs /\
    (multi = false -> cs = map (fun n => [n]) ns).
Proof.
  destruct multi; cbn; intros Hc.
  - destruct (multi_loop_spec src [] [] cs) as (ns & Hns & E & Hne); [constructor|done|]. by exists ns.
  - revert cs Hc. induction src as [|s src IH]; intros cs Hc; cbn in Hc; [injection Hc as <-; exists []; split_and!; [constructor|done|constructor|done]|].
    destruct (parse_name s) as [n| |] eqn:En; cbn in Hc; [|done..]. destruct (each_loop parse_name src) as [cs'| |]; [|done..]. injection Hc as <-.
    destruct (IH cs' eq_refl) as (ns & Hns & <- & Hne & E). exists (n :: concat cs'). split_and!; [by constructor|done|by constructor|].
    intros _. cbn. f_equal. by apply E.
Qed.
End ClustersLemmas.

Lemma dedup_in l x : x ∈ dedup l -> x ∈ l.
Proof.
  induction l as [|y l IH]; [done|]. cbn [dedup]. destruct l as [|z l]; [done|]. destruct (decide (y = z)) as [->|Hne].
  - intros Hx%IH. by right.
  - intros [->|Hx%IH]%elem_of_cons; [by left|by right].
Qed.
Lemma dedup_length l : length (dedup l) <= length l.
Proof.
  induction l as [|y l IH]; [done|]. cbn [dedup]. destruct l as [|z l]; [done|]. destruct (decide (y = z)); cbn in *; lia.
Qed.

(** At most three addresses are used, all of the name. *)
Lemma pick_hosts_spec addresses pick l : (forall i a, pick i = Some a -> a ∈ addresses) -> pick_hosts addresses pick = Some l ->
  length l <= 3 /\ forall a, a ∈ l -> a ∈ addresses.
Proof.
  intros Hp Hl. unfold pick_hosts in Hl. destruct addresses as [|a0 addresses]; [done|]. case_decide; injection Hl as <-; [|split; [lia|done]]. split.
  - etransitivity; [apply dedup_length|]. cbn. by destruct (pick 0), (pick 1), (pick 2); cbn; lia.
  - intros a Ha%dedup_in. destruct (proj1 (list_elem_of_omap pick [0; 1; 2] a) Ha) as (i & _ & Hi). by eapply Hp.
Qed.

Module CliExample.
(** The picks are made one by one, and only neighbours are compared: an address
    can be there twice. *)
Definition addr_of (n : Z) : SocketAddr := {| ip := n; sport := 1 |}.
Lemma picked_twice : pick_hosts (map addr_of [1; 2; 3; 4])%Z (fun i => Some (addr_of (if decide (i = 1%nat) then 2 else 1)%Z)) =
  Some [addr_of 1; addr_of 2; addr_of 1].
Proof. reflexivity. Qed.

(** A name that is not there, and a key of the environment. *)
Lemma default_keys : read_keys (H := ToyCrypto.crypto) (fun _ => Present "k") (fun _ => Err {| io_kind := NotFound; io_msg := "" |})
  (Some [Path.RootDir]) (fun _ => Ok [[Byte.x01]]) [] [] = Ok [[Byte.x01]].
Proof. vm_compute. reflexivity. Qed.

Lemma split_parts : split "src:/k/x:rest" = Ok ([Path.Normal "src"%string], of_names "k" ["x"%string]) /\ split "src" = Err (BadDestination "src").
Proof. split; vm_compute; reflexivity. Qed.
End CliExample.
