(* ===== verification/Sync.v ===== *)
(** * The commands of the client: [src/client/sync], [put_file] and [edit]

    [sync] scans directories, signs them and hands them to the connections of
    every cluster.  [put-file] and [edit] fetch an index, change one file of it
    and upload the result.  What a client serves meanwhile ([Blocks]) is the
    state; the scanner of [dir_signature], the user's editor and what the
    connections answer ([ConnSet]) are parameters. *)
From S2P Require Import Prelude Serde VirtualPath Ids Time Signature Index Fs Commands Peers Progress Blocks Upload BTree Download ConnSet Cli.
Import VPath ImageId SignedUpload.
Local Open Scope st_scope.

(** What the client serves to the servers. *)
Record Store := { st_indexes : Indexes; st_blocks : Blocks }.

Inductive Stop :=
| Fail (e : SyncError)
| NoCluster
| BadFilePath
| SourceFile (e : IoError)
| CantFetch
| CantParseIndex
| CantUpdate (e : IndexUpdateError)
| EditorFailed (msg : string).

Section Client.
Context `{Crypto} `{IndexParser}.
(** [v1::scan], [get_hash], [Hashes::hash_file] and [Emitter]. *)
Context (scan : Path.t -> Res string bytes) (get_hash : bytes -> Res IoError bytes).
Context (hash_file : HashType -> Z -> bytes -> Res IoError (Z * list bytes)) (emitter : HashType -> Z -> list Call -> Res IoError bytes).

Abbreviation Op A := (ST Store Stop A).

Definition on_indexes {A} (f : Stop) (m : ST Indexes IndexError A) : Op A := fun s =>
  let (r, x) := m (st_indexes s) in (res_map_err (fun _ => f) r, {| st_indexes := x; st_blocks := st_blocks s |}).
Definition on_blocks {A} (f : Stop) (m : ST Blocks DirError A) : Op A := fun s =>
  let (r, x) := m (st_blocks s) in (res_map_err (fun _ => f) r, {| st_indexes := st_indexes s; st_blocks := x |}).
Definition add_index (f : Stop) (buf : bytes) : Op ImageId := on_indexes f (register_index (fun b => res_ok (get_hash b)) buf).

(** ** [uploads.rs] *)

Inductive Upload :=
| Append (u : SignedUpload)
| WeakAppend (u : SignedUpload)
| Replace (u : SignedUpload)
| ReplaceIfMatches (u : SignedUpload) (old : ImageId).

(** The part of the loops of [prepare] that is the same; a key of another kind
    ends the program, here as a panic. *)
Definition prepare_one (keys : list PrivateKey) (timestamp : Z) (src : Path.t) (dest : VPath) : Op SignedUpload :=
  index_buf <-- st_lift (res_map_err (fun _ => Fail (IndexFailed src)) (scan src)) ;;
  image_id <-- add_index (Fail RegisterFailed) index_buf ;;
  on_blocks (Fail RegisterFailed) (register_dir src index_buf) ;;;
  st_lift (expect (sign_upload dest image_id timestamp keys)).

Definition lift_cli {A} (r : Res SyncError A) : Op A := st_lift (res_map_err Fail r).

Fixpoint append_loop (keys : list PrivateKey) (timestamp : Z) (mk : SignedUpload -> Upload) (dirs : list string) : Op (list Upload) :=
  match dirs with
  | [] => st_ret []
  | dir :: dirs' =>
      pair <-- lift_cli (split dir) ;;
      upload <-- prepare_one keys timestamp (fst pair) (snd pair) ;;
      rest <-- append_loop keys timestamp mk dirs' ;; st_ret (mk upload :: rest)
  end.

Fixpoint replace_loop (keys : list PrivateKey) (timestamp : Z) (dirs : list string) : Op (list Upload) :=
  match dirs with
  | [] => st_ret []
  | dir :: dirs' =>
      triple <-- lift_cli (split_replace dir) ;;
      let '(src, dest, old_image) := triple : Path.t * VPath * option ImageId in
      upload <-- prepare_one keys timestamp src dest ;;
      rest <-- replace_loop keys timestamp dirs' ;;
      st_ret (match old_image with Some old => ReplaceIfMatches upload old | None => Replace upload end :: rest)
  end.

(** [SyncOptions], without what goes into the configuration of connections. *)
Record SyncOptions := {
  so_clusters : list string; so_multiple : bool;
  so_append : list string; so_append_weak : list string; so_replace : list string;
  so_identity : list string; so_key_from_env : list string
}.

Definition prepare (opts : SyncOptions) (keys : list PrivateKey) (timestamp : Z) : Op (list Upload) :=
  a <-- append_loop keys timestamp Append (so_append opts) ;;
  w <-- append_loop keys timestamp WeakAppend (so_append_weak opts) ;;
  r <-- replace_loop keys timestamp (so_replace opts) ;;
  st_ret (a ++ w ++ r).

(** ** [put_file/network.rs] and [edit/network.rs] *)

(** The index that was fetched, with its hash. *)
Definition read_fetched (raw : RawIndex) : Op (ImageId * MutableIndex) :=
  hash <-- st_lift (res_map_err (fun _ => CantParseIndex) (raw_get_hash get_hash raw)) ;;
  idx <-- st_lift (res_map_err (fun _ => CantParseIndex) (into_mut raw)) ;;
  st_ret (hash, idx).

(** The contents go into the index, to the blocks, and the index is signed. *)
Definition update (vpath : VPath) (file : Path.t) (data : bytes) (timestamp : Z) (keys : list PrivateKey) (idx : MutableIndex) : Op SignedUpload :=
  let (r, d) := insert_file (fun ht bs => hash_file ht bs data) file false idx in
  st_lift (res_map_err CantUpdate r) ;;;
  let idx := with_root d idx in
  hashes <-- st_lift (expect (res_ok (hash_file (mi_hash_type idx) (mi_block_size idx) data))) ;;
  on_blocks NoCluster (register_memory_blocks (fun _ _ => snd hashes) (Z.to_nat (mi_block_size idx)) data) ;;;
  new_index <-- st_lift (expect (res_ok (to_raw_data emitter idx))) ;;
  image_id <-- st_catch (add_index NoCluster new_index) ;;
  image_id <-- st_lift (expect (res_ok image_id)) ;;
  st_lift (expect (sign_upload vpath image_id timestamp keys)).

(** [put]: what is sent to every cluster, and the image that is replaced.
    [fetched] is the answer of the first cluster. *)
Definition put {Name} (clusters : list (list Name)) (source : Res IoError bytes) (dir file : Path.t) (fetched : option RawIndex)
    (timestamp : Z) (keys : list PrivateKey) : Op (SignedUpload * ImageId) :=
  match clusters with
  | [] => st_err NoCluster
  | _ =>
      data <-- st_lift (res_map_err SourceFile source) ;;
      vpath <-- st_lift (expect (from_path dir)) ;;
      raw <-- st_lift (ok_or CantFetch fetched) ;;
      fetched <-- read_fetched raw ;;
      upload <-- update vpath file data timestamp keys (snd fetched) ;;
      st_ret (upload, fst fetched)
  end.

(** [editor::run]: the user's command leaves the file with other bytes or the
    same. *)
Definition editor_run (command : bytes -> Res string bytes) (data : bytes) : Res string (option bytes) :=
  res_map (fun buf => if decide (buf = data) then None else Some buf) (command data).

Definition edit {Name} (clusters : list (list Name)) (dir file : Path.t) (fetched : option RawIndex)
    (fetch_file : MutableIndex -> option bytes) (command : bytes -> Res string bytes)
    (timestamp : Z) (keys : list PrivateKey) : Op (option (SignedUpload * ImageId)) :=
  match clusters with
  | [] => st_err NoCluster
  | _ =>
      _name <-- st_lift (ok_or BadFilePath (Path.file_name file)) ;;
      vpath <-- st_lift (expect (from_path dir)) ;;
      raw <-- st_lift (ok_or CantFetch fetched) ;;
      fetched <-- read_fetched raw ;;
      _known <-- st_lift (expect (get_file file (root (snd fetched)))) ;;
      data <-- st_lift (ok_or CantFetch (fetch_file (snd fetched))) ;;
      ndata <-- st_lift (res_map_err EditorFailed (editor_run command data)) ;;
      match ndata with
      | Some ndata => upload <-- update vpath file ndata timestamp keys (snd fetched) ;; st_ret (Some (upload, fst fetched))
      | None => st_ret None
      end
  end.
End Client.

(** ** [network.rs] of [sync] *)

Section Dispatch.
Context `{AbstractNs}.

Definition dispatch (now : Z) (names : list string) (up : Upload) (tx : nat) : Message :=
  match up with
  | Append a => ConnSet.append now names a tx
  | Replace r => ConnSet.replace now names r tx
  | ReplaceIfMatches r old => ConnSet.replace_if_matches now names r old tx
  | WeakAppend a => ConnSet.append_weak now names a tx
  end.

(** What each connection is sent; [tx] numbers the one-shot channels. *)
Fixpoint dispatch_all (now : Z) (names : list string) (ups : list Upload) (tx : nat) : list Message :=
  match ups with [] => [] | up :: ups' => dispatch now names up tx :: dispatch_all now names ups' (S tx) end.
Definition upload_all (now : Z) (clusters : list (list string)) (ups : list Upload) : list (list Message) :=
  imap (fun i names => dispatch_all now names ups (i * length ups)) clusters.

(** [upload_with_progress]: the interval goes on for ever, so its end or its
    failure is [unreachable!]. *)
Inductive Select := IntervalEnded | IntervalFailed | UploadEnded (r : Res ErrorKind unit).
Definition upload_with_progress (s : Select) : Res ErrorKind unit :=
  match s with IntervalEnded | IntervalFailed => Panic | UploadEnded r => r end.
End Dispatch.

(** ** [editor.rs]: which editor *)

Inductive Ran := RanOk | RanBad | RanNotFound | RanError.

Definition editor_of (env : string -> option string) : option string :=
  match env "CIRUELA_EDITOR" with
  | Some path => Some path
  | None => match env "VISUAL" with Some path => Some path | None => env "EDITOR" end
  end.
Fixpoint try_editors (status : string -> Ran) (l : list string) : bool :=
  match l with
  | [] => false
  | n :: l' => match status n with RanOk => true | RanNotFound => try_editors status l' | RanBad | RanError => false end
  end.
Definition run_editor (env : string -> option string) (status : string -> Ran) : bool :=
  match editor_of env with
  | Some path => match status path with RanOk => true | _ => false end
  | None => try_editors status ["vim"; "vi"; "nano"; "editor"]
  end.

(** ** [cli] of the three commands: exit codes *)

(** [join_all]: all results, or an error of one of them. *)
Fixpoint join_all {E A} (l : list (Res E A)) : Res E (list A) :=
  match l with [] => Ok [] | r :: l' => res_bind (fun a => res_map (cons a) (join_all l')) r end.

(** What the upload to every connection came to. *)
Definition network_result (answers : list (list Select)) : Res ErrorKind (list (list unit)) :=
  join_all (map (fun l => join_all (map upload_with_progress l)) answers).

Section Commands.
Context `{Crypto} `{IndexParser} {Name : Type} (parse_name : string -> Res string Name).
Context (scan : Path.t -> Res string bytes) (get_hash : bytes -> Res IoError bytes).
Context (hash_file : HashType -> Z -> bytes -> Res IoError (Z * list bytes)) (emitter : HashType -> Z -> list Call -> Res IoError bytes).
Context (env_var : string -> EnvVar) (open : Path.t -> Res IoError File) (home_dir : option Path.t).
Context (parse_private_key : string -> Res string (list PrivateKey)).

(** An [Err] is the code of [exit]; [Ok] is [exit(0)]. *)
Abbreviation Command A := (ST Store Z A).
Definition exits {E A} (code : Z) (m : ST Store E A) : Command A := fun s => let (r, x) := m s in (res_map_err (fun _ => code) r, x).

(** The beginning of all three. *)
Definition read_args (identity key_from_env clusters : list string) (multiple : bool) : Command (list PrivateKey * list (list Name)) :=
  keys <-- st_lift (res_map_err (fun _ => 2%Z) (read_keys env_var open home_dir parse_private_key identity key_from_env)) ;;
  names <-- st_lift (res_map_err (fun _ => 2%Z) (convert_clusters parse_name clusters multiple)) ;;
  st_ret (keys, names).

(** [answers]: what the connections to the clusters make of the uploads. *)
Definition sync_cli (opts : SyncOptions) (timestamp : Z) (answers : list (list Name) -> list Upload -> list (list Select)) : Command unit :=
  args <-- read_args (so_identity opts) (so_key_from_env opts) (so_clusters opts) (so_multiple opts) ;;
  uploads <-- exits 1 (prepare scan get_hash opts (fst args) timestamp) ;;
  st_lift (res_map_err (fun _ => 3%Z) (network_result (answers (snd args) uploads))) ;;;
  st_ret tt.

(** [PutFileOptions] and [EditOptions], likewise. *)
Record FileOptions := {
  fo_clusters : list string; fo_multiple : bool; fo_dir : Path.t; fo_file : Path.t;
  fo_identity : list string; fo_key_from_env : list string
}.

Definition put_cli (opts : FileOptions) (source : Res IoError bytes) (timestamp : Z) (fetched : list (list Name) -> option RawIndex)
    (answers : list (list Name) -> SignedUpload * ImageId -> list Select) : Command unit :=
  args <-- read_args (fo_identity opts) (fo_key_from_env opts) (fo_clusters opts) (fo_multiple opts) ;;
  up <-- exits 3 (put get_hash hash_file emitter (snd args) source (fo_dir opts) (fo_file opts) (fetched (snd args)) timestamp (fst args)) ;;
  st_lift (res_map_err (fun _ => 3%Z) (network_result [answers (snd args) up])) ;;;
  st_ret tt.

Definition edit_cli (opts : FileOptions) (timestamp : Z) (fetched : list (list Name) -> option RawIndex)
    (fetch_file : MutableIndex -> option bytes) (command : bytes -> Res string bytes)
    (answers : list (list Name) -> SignedUpload * ImageId -> list Select) : Command unit :=
  args <-- read_args (fo_identity opts) (fo_key_from_env opts) (fo_clusters opts) (fo_multiple opts) ;;
  up <-- exits 3 (edit get_hash hash_file emitter (snd args) (fo_dir opts) (fo_file opts) (fetched (snd args)) fetch_file command timestamp (fst args)) ;;
  match up with
  | Some up => st_lift (res_map_err (fun _ => 3%Z) (network_result [answers (snd args) up])) ;;; st_ret tt
  | None => st_ret tt
  end.
End Commands.

(** ** What is uploaded can be served *)

Lemma from_vec_inj a b : from_vec a = from_vec b -> a = b.
Proof. unfold from_vec. repeat case_decide; by intros [=]. Qed.

Lemma sign_upload_image `{Crypto} dest id ts keys u : sign_upload dest id ts keys = Some u -> up_image_id u = id.
Proof. by intros (ms & _ & (sigs & _ & [= <-])%bind_Some)%bind_Some. Qed.

Section Backed.
Context `{Crypto} `{IndexParser}.
Context (scan : Path.t -> Res string bytes) (get_hash : bytes -> Res IoError bytes).
(** Files on disk, and the hash of a block, as in [Blocks]. *)
Context (read : Path.t -> Z -> nat -> Res IoError bytes) (disk : Path.t -> option bytes) (hash : bytes -> bytes).
Context (hash_size : forall b, length (hash b) = 32%nat).
Context (read_all : forall p c off n, disk p = Some c -> (0 <= off)%Z -> read p off n = Ok (take n (drop (Z.to_nat off) c))).

(** An index that was scanned describes the directory, and two of them differ
    in their hashes. *)
Context (scan_law : forall dir buf, scan dir = Ok buf -> exists header l, parser_new buf = Ok (header, map Ok l) /\
  (0 < hd_block_size header)%Z /\ Forall (describes disk hash dir (hd_block_size header)) l).
Context (no_collision : forall dir dir' b b' h, scan dir = Ok b -> scan dir' = Ok b' -> get_hash b = Ok h -> get_hash b' = Ok h -> b = b').

(** The index of the image and every block of the directory are there. *)
Definition backed (s : Store) (src : Path.t) (id : ImageId) : Prop :=
  exists buf header l, scan src = Ok buf /\ parser_new buf = Ok (header, map Ok l) /\ read_index id (st_indexes s) = Some buf /\
    forall b, b ∈ l ≫= content_blocks disk src (hd_block_size header) ->
      exists d, Blocks.read_block read (hash_of hash b) (st_blocks s) = Ok d /\ hash d = hash b.

Definition signed (keys : list PrivateKey) (ts : Z) (dest : VPath) (u : SignedUpload) : Prop := sign_upload dest (up_image_id u) ts keys = Some u.

(** Everything in the store was registered by a scan. *)
Record served (s : Store) : Prop := {
  sv_blocks : serves read hash (st_blocks s);
  sv_indexes : forall id buf, st_indexes s !! id = Some buf -> exists dir h, scan dir = Ok buf /\ get_hash buf = Ok h /\ id = from_vec h
}.
Record grows (s s' : Store) : Prop := {
  gr_indexes : forall id buf, st_indexes s !! id = Some buf -> st_indexes s' !! id = Some buf;
  gr_blocks : forall h, is_Some (st_blocks s !! h) -> is_Some (st_blocks s' !! h)
}.
#[local] Instance grows_preorder : PreOrder grows.
Proof. split; [by split|]. intros x y z [] []. split; auto. Qed.

Lemma backed_grows s s' src id : grows s s' -> served s' -> backed s src id -> backed s' src id.
Proof.
  intros [Hi Hb] [Hs _] (buf & header & l & Hsc & Hp & Hr & Hall). exists buf, header, l. split_and!; [done|done|by apply Hi|].
  intros b (d & Hd & _)%Hall. unfold Blocks.read_block in *.
  destruct (st_blocks s !! hash_of hash b) as [p|] eqn:E; [|done]. destruct (Hb (hash_of hash b) (ex_intro _ p E)) as [p' E'].
  rewrite E'. cbn. destruct (Hs _ _ E') as (d' & Hd' & Hh). by exists d'.
Qed.

Abbreviation prepare_one := (prepare_one scan get_hash).
Abbreviation append_loop := (append_loop scan get_hash).
Abbreviation replace_loop := (replace_loop scan get_hash).

Lemma prepare_one_run keys ts src dest s u s' : served s -> prepare_one keys ts src dest s = (Ok u, s') ->
  served s' /\ grows s s' /\ signed keys ts dest u /\ backed s' src (up_image_id u).
Proof using hash_size no_collision read_all scan_law.
  intros [Hsb Hsi] Hr. unfold Sync.prepare_one in Hr. st_inv Hr. destruct (scan src) as [buf| |] eqn:Esc; [|done..]. injection Hrun as <- <-.
  st_inv Hr. unfold add_index, on_indexes, register_index in Hrun. destruct (get_hash buf) as [h| |] eqn:Eh; [|done..]. cbn in Hrun.
  injection Hrun as <- <-. destruct (scan_law _ _ Esc) as (header & l & Hp & Hbs & Hd).
  destruct (register_entries_run read disk hash hash_size read_all src _ l (st_blocks s) Hbs Hd Hsb) as (bl & Hrun' & Hs' & Hdom).
  st_inv Hr. unfold on_blocks, register_dir in Hrun. cbn [st_blocks] in Hrun. unfold st_bind at 1, st_lift at 1 in Hrun. rewrite Hp in Hrun.
  cbn [res_map_err fst snd] in Hrun. rewrite Hrun' in Hrun. injection Hrun as _ <-.
  destruct (sign_upload dest (from_vec h) ts keys) as [u'|] eqn:Eu; [|done]. injection Hr as <- <-.
  assert (Ei : up_image_id u' = from_vec h).
  { by apply sign_upload_image in Eu. }
  split_and!.
  - split; cbn; [done|]. intros id b [[<- <-]|[_ Hb]]%lookup_insert_Some; [by exists src, h|by apply Hsi].
  - split; cbn; [|intros k Hk; apply Hdom; by left]. intros id b Hb. destruct (decide (id = from_vec h)) as [->|Hne]; [|by rewrite lookup_insert_ne].
    rewrite lookup_insert_eq. f_equal. destruct (Hsi _ _ Hb) as (dir & h' & Hsc & Hh & E). apply from_vec_inj in E as <-. by eapply no_collision.
  - unfold signed. by rewrite Ei.
  - exists buf, header, l. split_and!; [done|done|unfold read_index; cbn; by rewrite Ei, lookup_insert_eq|]. intros b Hb. unfold Blocks.read_block. cbn.
    destruct (proj2 (Hdom (hash_of hash b))) as [p Ep]; [right; by exists b|]. rewrite Ep. cbn. destruct (Hs' _ _ Ep) as (d & Hd' & Hh). by exists d.
Qed.

(** What a line of the command asks for, and what is uploaded for it. *)
Definition appended (keys : list PrivateKey) (ts : Z) (mk : SignedUpload -> Upload) (s : Store) (cli : string) (up : Upload) : Prop :=
  exists src dest u, split cli = Ok (src, dest) /\ up = mk u /\ signed keys ts dest u /\ backed s src (up_image_id u).
Definition replaced (keys : list PrivateKey) (ts : Z) (s : Store) (cli : string) (up : Upload) : Prop :=
  exists src dest old u, split_replace cli = Ok (src, dest, old) /\ signed keys ts dest u /\ backed s src (up_image_id u) /\
    up = match old with Some old => ReplaceIfMatches u old | None => Replace u end.

Lemma appended_grows keys ts mk s s' cli up : grows s s' -> served s' -> appended keys ts mk s cli up -> appended keys ts mk s' cli up.
Proof. intros Hg Hs (src & dest & u & ? & ? & ? & ?). exists src, dest, u. split_and!; try done. by eapply backed_grows. Qed.
Lemma replaced_grows keys ts s s' cli up : grows s s' -> served s' -> replaced keys ts s cli up -> replaced keys ts s' cli up.
Proof. intros Hg Hs (src & dest & old & u & ? & ? & ? & ?). exists src, dest, old, u. split_and!; try done. by eapply backed_grows. Qed.

Lemma append_loop_run keys ts mk l s ups s' : served s -> append_loop keys ts mk l s = (Ok ups, s') ->
  served s' /\ grows s s' /\ Forall2 (appended keys ts mk s') l ups.
Proof using hash_size no_collision read_all scan_law.
  revert s ups. induction l as [|cli l IH]; intros s ups Hs Hr; cbn [Sync.append_loop] in Hr; [injection Hr as <- <-; by split_and!|].
  st_inv Hr. unfold lift_cli, st_lift in Hrun. destruct (split cli) as [[src dest]| |] eqn:Ec; [|done..]. injection Hrun as <- <-.
  st_inv Hr. apply prepare_one_run in Hrun as (Hs1 & Hg1 & Hu & Hb); [|done]. st_inv Hr. injection Hr as <- <-.
  destruct (IH _ _ Hs1 Hrun) as (Hs' & Hg' & Hall). split_and!; [done|by etransitivity|]. constructor; [|done].
  exists src, dest, a. split_and!; try done. by eapply backed_grows.
Qed.
Lemma replace_loop_run keys ts l s ups s' : served s -> replace_loop keys ts l s = (Ok ups, s') ->
  served s' /\ grows s s' /\ Forall2 (replaced keys ts s') l ups.
Proof using hash_size no_collision read_all scan_law.
  revert s ups. induction l as [|cli l IH]; intros s ups Hs Hr; cbn [Sync.replace_loop] in Hr; [injection Hr as <- <-; by split_and!|].
  st_inv Hr. unfold lift_cli, st_lift in Hrun. destruct (split_replace cli) as [[[src dest] old]| |] eqn:Ec; [|done..]. injection Hrun as <- <-.
  st_inv Hr. apply prepare_one_run in Hrun as (Hs1 & Hg1 & Hu & Hb); [|done]. st_inv Hr. injection Hr as <- <-.
  destruct (IH _ _ Hs1 Hrun) as (Hs' & Hg' & Hall). split_and!; [done|by etransitivity|]. constructor; [|done].
  exists src, dest, old, a. split_and!; try done. by eapply backed_grows.
Qed.

(** C33. Before anything is sent, every line of the command has its upload, in the
    order of the options: signed with all keys for its destination, and the
    client can serve its index and every block of its directory, also those of
    the lines before. *)
Theorem prepare_backed opts keys ts s ups s' : served s -> prepare scan get_hash opts keys ts s = (Ok ups, s') ->
  served s' /\ exists a w r, ups = a ++ w ++ r /\ Forall2 (appended keys ts Append s') (so_append opts) a /\
    Forall2 (appended keys ts WeakAppend s') (so_append_weak opts) w /\ Forall2 (replaced keys ts s') (so_replace opts) r.
Proof using hash_size no_collision read_all scan_law.
  intros Hs Hr. unfold prepare in Hr. st_inv Hr. apply append_loop_run in Hrun as (Hs1 & Hg1 & Ha); [|done].
  st_inv Hr. apply append_loop_run in Hrun as (Hs2 & Hg2 & Hw); [|done]. st_inv Hr. apply replace_loop_run in Hrun as (Hs3 & Hg3 & Hr'); [|done].
  injection Hr as <- <-. split; [done|]. exists a, a0, a1. split_and!; [done| | |done].
  - eapply Forall2_impl; [exact Ha|]. intros cli up. apply appended_grows; [by etransitivity|done].
  - eapply Forall2_impl; [exact Hw|]. intros cli up. by apply appended_grows.
Qed.
End Backed.

(** ** What an edit uploads *)

Section Updates.
Context `{Crypto} `{IndexParser}.
Context (get_hash : bytes -> Res IoError bytes) (hash_file : HashType -> Z -> bytes -> Res IoError (Z * list bytes)).
Context (emitter : HashType -> Z -> list Call -> Res IoError bytes) (hashes_ok : HashType -> Z -> Z -> list bytes -> Prop).
Context (read : Path.t -> Z -> nat -> Res IoError bytes) (hash : bytes -> bytes) (hash_size : forall b, length (hash b) = 32%nat).

(** The format, as in [Download]; the hashes of a file are those of its blocks. *)
Context (parser_law : forall b h es e, parser_new b = Ok (h, es) -> Ok e ∈ es -> index_entry_ok (hashes_ok (hd_hash_type h) (hd_block_size h)) e).
Context (block_size_law : forall b h es, parser_new b = Ok (h, es) -> (0 < hd_block_size h)%Z).
Context (emitter_law : forall ht bs cs b, calls_ok (hashes_ok ht bs) cs -> emitter ht bs cs = Ok b ->
  parser_new b = Ok ({| hd_hash_type := ht; hd_block_size := bs |}, map Ok (entries_of [] cs))).
Context (hash_file_law : forall ht bs data size hashes, hash_file ht bs data = Ok (size, hashes) ->
  hashes_ok ht bs size hashes /\ size = Z.of_nat (length data) /\ hashes = map hash (chunks (Z.to_nat bs) data)).

Lemma read_fetched_run raw s old idx s' : read_fetched get_hash raw s = (Ok (old, idx), s') ->
  s' = s /\ raw_get_hash get_hash raw = Ok old /\ into_mut raw = Ok idx.
Proof.
  unfold read_fetched. intros Hr. st_inv Hr. destruct (raw_get_hash get_hash raw); [|done..]. injection Hrun as <- <-.
  st_inv Hr. destruct (into_mut raw); [|done..]. injection Hrun as <- <-. by injection Hr as <- <- <-.
Qed.

Lemma into_mut_block_size raw idx : into_mut raw = Ok idx -> (0 < mi_block_size idx)%Z.
Proof using block_size_law.
  unfold into_mut. destruct (parser_new (ri_data raw)) as [[h es]| |] eqn:E; [|done..]. cbn.
  destruct (fill_dirs ([], []) es); [|done..]. intros [= <-]. cbn. by eapply block_size_law.
Qed.

Abbreviation update := (update get_hash hash_file emitter).

Lemma update_run vpath file data ts keys idx s u s' : update vpath file data ts keys idx s = (Ok u, s') ->
  exists d hashes buf, insert_file (fun ht bs => hash_file ht bs data) file false idx = (Ok tt, d) /\
    hash_file (mi_hash_type idx) (mi_block_size idx) data = Ok hashes /\
    register_memory_blocks (fun _ _ => snd hashes) (Z.to_nat (mi_block_size idx)) data (st_blocks s) = (Ok tt, st_blocks s') /\
    to_raw_data emitter (with_root d idx) = Ok buf /\ raw_get_hash get_hash {| ri_data := buf; ri_location := location idx |} = Ok (up_image_id u) /\
    st_indexes s' = <[up_image_id u := buf]> (st_indexes s) /\ sign_upload vpath (up_image_id u) ts keys = Some u.
Proof.
  unfold Sync.update. destruct (insert_file _ file false idx) as [r d] eqn:Ei. intros Hr. st_inv Hr.
  destruct r as [[]| |]; [|done..]. injection Hrun as _ <-. st_inv Hr. cbn [mi_hash_type mi_block_size with_root] in Hrun.
  destruct (hash_file (mi_hash_type idx) (mi_block_size idx) data) as [hs| |] eqn:Eh; [|done..]. injection Hrun as <- <-.
  st_inv Hr. unfold on_blocks in Hrun. cbn [mi_block_size with_root] in Hrun.
  destruct (register_memory_blocks _ _ data (st_blocks s)) as [[[]| |] bl] eqn:Eb; [|done..]. injection Hrun as _ <-.
  st_inv Hr. destruct (to_raw_data emitter (with_root d idx)) as [buf| |] eqn:Et; [|done..]. injection Hrun as <- <-.
  st_inv Hr. unfold st_catch, add_index, on_indexes, register_index in Hrun. cbn [st_indexes st_blocks] in Hrun.
  destruct (get_hash buf) as [h| |] eqn:Eg; cbn in Hrun; injection Hrun as <- <-; [|done..]. st_inv Hr. injection Hrun as <- <-.
  destruct (sign_upload vpath (from_vec h) ts keys) as [u'|] eqn:Eu; [|done]. injection Hr as <- <-.
  pose proof (sign_upload_image _ _ _ _ _ Eu) as Ei'. rewrite Ei'. exists d, hs, buf. split_and!; try done.
  unfold raw_get_hash. cbn. by rewrite Eg.
Qed.

End Updates.

(** ** What an exit code says *)

Lemma join_all_ok {E A} (l : list (Res E A)) l' : join_all l = Ok l' <-> Forall2 (fun r a => r = Ok a) l l'.
Proof.
  revert l'. induction l as [|r l IH]; intros l'; cbn; [split; [by intros [= <-]|by inversion 1]|]. split.
  - destruct r as [a| |]; [|done..]. cbn. destruct (join_all l) as [k| |]; [|done..]. intros [= <-]. constructor; [done|by apply IH].
  - inversion 1 as [|? a ? k -> Hk]; subst. cbn. by rewrite (proj2 (IH k) Hk).
Qed.

(** No upload failed: every one was answered with success. *)
Lemma network_result_ok answers rs : network_result answers = Ok rs -> Forall (Forall (fun s => s = UploadEnded (Ok tt))) answers.
Proof.
  unfold network_result. intros Hr%join_all_ok. rewrite Forall2_fmap_l in Hr. eapply Forall2_Forall_l; [exact Hr|]. apply Forall_true.
  intros k l Hk%join_all_ok. rewrite Forall2_fmap_l in Hk. eapply Forall2_Forall_l; [exact Hk|]. apply Forall_true.
  by intros b [| |[[]| |]].
Qed.

Section Exit.
Context `{Crypto} `{IndexParser} {Name : Type} (parse_name : string -> Res string Name).
Context (scan : Path.t -> Res string bytes) (get_hash : bytes -> Res IoError bytes).
Context (env_var : string -> EnvVar) (open : Path.t -> Res IoError File) (home_dir : option Path.t).
Context (parse_private_key : string -> Res string (list PrivateKey)).

(** [sync] ends with 0 only when the keys were those of the sources, every line
    was prepared, and every upload to every cluster was a success; otherwise the
    code says which part failed. *)
Lemma sync_exit opts ts answers s : 
  let r := fst (sync_cli parse_name scan get_hash env_var open home_dir parse_private_key opts ts answers s) in
  (r = Ok tt -> exists keys names ups s', read_sources env_var open parse_private_key
      (sources env_var open home_dir (so_identity opts) (so_key_from_env opts)) = Ok keys /\
    convert_clusters parse_name (so_clusters opts) (so_multiple opts) = Ok names /\
    prepare scan get_hash opts keys ts s = (Ok ups, s') /\ Forall (Forall (fun a => a = UploadEnded (Ok tt))) (answers names ups)) /\
  (forall code, r = Err code -> (code = 1 \/ code = 2 \/ code = 3)%Z).
Proof.
  unfold sync_cli, read_args, st_bind, st_lift, exits, st_ret. rewrite <- read_keys_sources.
  destruct (read_keys _ _ _ _ _ _) as [keys| |] eqn:Ek; cbn; [|split; [done|intros ? [= <-]; auto]|done].
  destruct (convert_clusters _ _ _) as [names| |] eqn:En; cbn; [|split; [done|intros ? [= <-]; auto]|done].
  destruct (prepare _ _ _ _ _ s) as [[ups| |] s'] eqn:Ep; cbn; [|split; [done|intros ? [= <-]; auto]|done].
  destruct (network_result _) as [rs| |] eqn:Er; cbn; [|split; [done|intros ? [= <-]; auto]|done].
  split; [|done]. intros _. exists keys, names, ups, s'. split_and!; try done. by eapply network_result_ok.
Qed.
End Exit.

(** ** Examples *)

Module SyncExample.
Definition abc : bytes := [Byte.x61; Byte.x62; Byte.x63].
Definition hash (b : bytes) : bytes := take 32 (b ++ replicate 32 Byte.x00).
Definition header0 : Header := {| hd_hash_type := Blake2b_256; hd_block_size := 4 |}.
Definition disk (p : Path.t) : option bytes := if decide (p = [Path.RootDir; Path.Normal "d"; Path.Normal "f"]%string) then Some abc else None.
Definition read (p : Path.t) (off : Z) (n : nat) : Res IoError bytes :=
  match disk p with Some c => Ok (take n (drop (Z.to_nat off) c)) | None => Err MemFs.not_found end.

(** The directory "/d" has one file; its index is [data0].  The index [data1] has
    another one in its place. *)
Definition data0 : bytes := [Byte.x30].
Definition data1 : bytes := [Byte.x31].
Definition new_root : Dir := [("f"%string, LocalFile false 2 [hash [Byte.x78; Byte.x79]])].
Definition new_calls : list Call := _emit_dir [Path.RootDir] new_root.
Definition entries0 : list Index.Entry := [Index.Dir (abs []); Index.File (abs ["f"%string]) true 3 (map hash (chunks 4 abc))].
#[export] Instance parser0 : IndexParser := {|
  Index.ParseError := unit;
  parser_new b := if decide (b = data0) then Ok (header0, map Ok entries0)
    else if decide (b = data1) then Ok (header0, map Ok (entries_of [] new_calls)) else Err tt |}.
Definition emitter0 (ht : HashType) (bs : Z) (cs : list Call) : Res IoError bytes :=
  if decide (ht = Blake2b_256 /\ bs = 4%Z /\ cs = new_calls) then Ok data1 else Panic.
Definition scan (dir : Path.t) : Res string bytes := if decide (dir = [Path.RootDir; Path.Normal "d"%string]) then Ok data0 else Err "none"%string.
Definition get_hash (b : bytes) : Res IoError bytes := Ok b.
Definition hash_file (_ : HashType) (bs : Z) (data : bytes) : Res IoError (Z * list bytes) :=
  Ok (Z.of_nat (length data), map hash (chunks (Z.to_nat bs) data)).
Definition any_hashes (_ : HashType) (_ _ : Z) (_ : list bytes) : Prop := True.

Definition store0 : Store := {| st_indexes := ∅; st_blocks := ∅ |}.
Definition opts : SyncOptions := {| so_clusters := []; so_multiple := false; so_append := ["/d:/k/x"%string]; so_append_weak := [];
  so_replace := ["/d:/k/y:00"%string]; so_identity := []; so_key_from_env := [] |}.
Definition prepared : Res Stop (list Upload) * Store := prepare scan get_hash opts [[Byte.x01]] 0 store0.
Definition changed : Res Stop SignedUpload * Store := match into_mut {| ri_data := data0; ri_location := 0 |} with
  | Ok idx => update get_hash hash_file emitter0 (of_names "k" ["x"%string]) (abs ["f"%string]) [Byte.x78; Byte.x79] 0 [[Byte.x01]] idx store0
  | _ => (Panic, store0)
  end.

Lemma prepared_ok : exists u v, fst prepared = Ok [Append u; ReplaceIfMatches v (from_slice [Byte.x00])].
Proof. vm_compute. by eexists _, _. Qed.
Lemma changed_ok : exists u, fst changed = Ok u.
Proof. vm_compute. by eexists. Qed.

Lemma hash_len b : length (hash b) = 32.
Proof. unfold hash. rewrite length_take, length_app, length_replicate. lia. Qed.
Lemma reads p c off n : disk p = Some c -> (0 <= off)%Z -> read p off n = Ok (take n (drop (Z.to_nat off) c)).
Proof. intros Hc _. unfold read. by rewrite Hc. Qed.
Lemma scans dir buf : scan dir = Ok buf -> exists header l, parser_new buf = Ok (header, map Ok l) /\ (0 < hd_block_size header)%Z /\
  Forall (describes disk hash dir (hd_block_size header)) l.
Proof.
  unfold scan. case_decide as Hd; [|done]. intros [= <-]. exists header0, entries0. split_and!; [done|done|]. subst dir. repeat constructor.
  exists [Path.Normal "f"%string], abc. done.
Qed.
Lemma distinct dir dir' b b' h : scan dir = Ok b -> scan dir' = Ok b' -> get_hash b = Ok h -> get_hash b' = Ok h -> b = b'.
Proof. intros _ _ [= <-] [= <-]. done. Qed.
Lemma nothing_served : served scan get_hash read hash store0.
Proof. split; cbn; [intros h p; by rewrite lookup_empty|intros id b; by rewrite lookup_empty]. Qed.

Lemma parses b h es e : parser_new b = Ok (h, es) -> Ok e ∈ es -> index_entry_ok (any_hashes (hd_hash_type h) (hd_block_size h)) e.
Proof.
  cbn [parser_new parser0]. intros Hb He. assert (H : Forall (index_entry_ok (any_hashes (hd_hash_type h) (hd_block_size h))) (entries0 ++ entries_of [] new_calls)).
  { vm_compute. repeat constructor. }
  rewrite Forall_forall in H. apply H, elem_of_app.
  assert (Hin : forall l : list Index.Entry, es = map Ok l -> e ∈ l) by (by intros l ->; apply list_elem_of_fmap in He as (x & [= ->] & He)).
  repeat case_decide; [left|right|done]; apply Hin; by injection Hb as _ <-.
Qed.
Lemma block_sizes b h es : parser_new b = Ok (h, es) -> (0 < hd_block_size h)%Z.
Proof. cbn. repeat case_decide; by intros [= <- _]. Qed.
Lemma emits ht bs cs b : calls_ok (any_hashes ht bs) cs -> emitter0 ht bs cs = Ok b ->
  parser_new b = Ok ({| hd_hash_type := ht; hd_block_size := bs |}, map Ok (entries_of [] cs)).
Proof. unfold emitter0. case_decide as E; [|done]. destruct E as (-> & -> & ->). by intros _ [= <-]. Qed.
Lemma hashes_file ht bs data size hashes : hash_file ht bs data = Ok (size, hashes) ->
  any_hashes ht bs size hashes /\ size = Z.of_nat (length data) /\ hashes = map hash (chunks (Z.to_nat bs) data).
Proof. by intros [= <- <-]. Qed.
End SyncExample.
Import SyncExample.

Lemma prepare_backed_witness :
  exists u v, fst SyncExample.prepared = Ok [Append u; ReplaceIfMatches v (from_slice [Byte.x00])] /\
    backed SyncExample.scan SyncExample.read SyncExample.disk SyncExample.hash (snd SyncExample.prepared) [Path.RootDir; Path.Normal "d"%string] (up_image_id u).
Proof.
  destruct SyncExample.prepared_ok as (u & v & E). exists u, v. split; [exact E|].
  destruct (prepare_backed (H := ToyCrypto.crypto) SyncExample.scan SyncExample.get_hash SyncExample.read SyncExample.disk SyncExample.hash SyncExample.hash_len SyncExample.reads
    SyncExample.scans SyncExample.distinct SyncExample.opts [[Byte.x01]] 0 SyncExample.store0 _ _ SyncExample.nothing_served (run_result _ _ E))
    as (_ & a & w & r & Hups & Ha & _ & _).
  inversion Ha as [|? up ? a' (src & dest & u' & Hs & Hup & _ & Hb) Ha']. subst. injection Hups as Hu _. rewrite Hu.
  assert (src = [Path.RootDir; Path.Normal "d"%string]) as <- by (assert (E' : split "/d:/k/x" = Ok ([Path.RootDir; Path.Normal "d"%string], of_names "k" ["x"%string])) by (vm_compute; reflexivity); congruence).
  exact Hb.
Defined.

