(* ===== verification/ClientUpload.v ===== *)
(** * The [upload] command: [src/client/upload/mod.rs]

    The command resolves the host of every destination, connects to up to
    three addresses of each, sends the request there, and waits until it was
    told of the end of the download by every address.  The state is the
    [Progress] behind its lock and the future of every address; the events are
    what the network does. *)
From S2P Require Import Prelude Serde VirtualPath Ids Time Signature Index Fs Commands Peers Progress Blocks Upload BTree Download ConnSet Cli Sync.
Import VPath ImageId.
Local Open Scope st_scope.

Abbreviation MachineId := MachineId.MachineId.

(** ** [Progress] and [Tracker] *)

(** [done_tx] is whether the sender is still there. *)
Record Progress := {
  started : Z;
  hosts_done : gmap MachineId string;
  ips_needed : gset SocketAddr;
  ids_needed : gmap MachineId string;
  hosts_errored : gset SocketAddr;
  done_tx : bool
}.

Definition with_needed (x : gset SocketAddr) (p : Progress) : Progress :=
  {| started := started p; hosts_done := hosts_done p; ips_needed := x; ids_needed := ids_needed p; hosts_errored := hosts_errored p; done_tx := done_tx p |}.
Definition with_errored (x : gset SocketAddr) (p : Progress) : Progress :=
  {| started := started p; hosts_done := hosts_done p; ips_needed := ips_needed p; ids_needed := ids_needed p; hosts_errored := x; done_tx := done_tx p |}.
Definition with_hosts (x : gmap MachineId string) (p : Progress) : Progress :=
  {| started := started p; hosts_done := x; ips_needed := ips_needed p; ids_needed := ids_needed p; hosts_errored := hosts_errored p; done_tx := done_tx p |}.
Definition with_ids (x : gmap MachineId string) (p : Progress) : Progress :=
  {| started := started p; hosts_done := hosts_done p; ips_needed := ips_needed p; ids_needed := x; hosts_errored := hosts_errored p; done_tx := done_tx p |}.
Definition sender_taken (p : Progress) : Progress :=
  {| started := started p; hosts_done := hosts_done p; ips_needed := ips_needed p; ids_needed := ids_needed p; hosts_errored := hosts_errored p; done_tx := false |}.

Definition not_needed (a : SocketAddr) (p : Progress) : Progress := with_needed (ips_needed p ∖ {[a]}) p.

Definition add_ids (hosts : gmap MachineId string) (p : Progress) : Progress :=
  with_ids (filter (fun e => hosts_done p !! fst e = None) hosts ∪ ids_needed p) p.

(** [true]: the signal is sent.  [None] is a panic: the clock went back. *)
Definition check_status (now : Z) (p : Progress) : option (bool * Progress) :=
  if decide (ips_needed p = ∅) then
    if decide (started p <= now)%Z then Some (done_tx p, sender_taken p) else None
  else Some (false, p).

(** [impl Listener for Tracker]. *)
Definition notification (addr : SocketAddr) (now : Z) (n : Notification) (p : Progress) : option (bool * Progress) :=
  match n with
  | NReceivedImage img =>
      let p := with_hosts (<[ri_machine_id img := ri_hostname img]> (hosts_done p)) p in
      check_status now (if ri_forwarded img then p else not_needed addr p)
  | NAbortedImage img =>
      let p := with_errored ({[addr]} ∪ hosts_errored p) p in
      check_status now (if ai_forwarded img then p else not_needed addr p)
  | _ => Some (false, p)
  end.

Definition closed (addr : SocketAddr) (now : Z) (p : Progress) : option (bool * Progress) :=
  if done_tx p then check_status now (with_errored ({[addr]} ∪ hosts_errored p) (not_needed addr p)) else Some (false, p).

Definition is_ok (p : Progress) : bool := bool_decide (hosts_errored p = ∅).

Definition is_conflict_reason (reason : option string) : bool :=
  match reason with
  | Some s => bool_decide (s = "already_exists") || bool_decide (s = "already_uploading_different_version")
  | None => false
  end.

(** ** Before the connections *)

Section Prepare.
Context `{Crypto} `{IndexParser} {Name : Type}.
Context (scan : Path.t -> Res string bytes) (get_hash : bytes -> Res IoError bytes).

Inductive UploadFail := ScanFailed | TooLarge.
Abbreviation Op A := (ST Store UploadFail A).

(** [100 << 20]. *)
Definition index_limit : Z := Z.shiftl 100 20.

(** [.expect(..)]. *)
Definition expected {A} (m : ST Store Stop A) : Op A := fun s =>
  match m s with (Ok a, x) => (Ok a, x) | (_, x) => (Panic, x) end.

(** The loop over the destinations: one signature list for every path. *)
Fixpoint sign_targets (dir : Path.t) (index_buf : bytes) (image_id : ImageId) (timestamp : Z) (keys : list PrivateKey)
    (targets : list (TargetUrl Name)) (signatures : gmap string (list Signature.Signature)) : Op (gmap string (list Signature.Signature)) :=
  match targets with
  | [] => st_ret signatures
  | turl :: targets' =>
      if decide (is_Some (signatures !! tpath turl)) then sign_targets dir index_buf image_id timestamp keys targets' signatures
      else
        expected (on_blocks (Fail RegisterFailed) (register_dir dir index_buf)) ;;;
        ms <-- st_lift (expect (to_ms timestamp)) ;;
        sigs <-- st_lift (expect (Signature.sign {| Signature.sd_path := tpath turl; Signature.sd_image := as_ref image_id; Signature.sd_timestamp := ms |} keys)) ;;
        sign_targets dir index_buf image_id timestamp keys targets' (<[tpath turl := sigs]> signatures)
  end.

(** What [do_upload] does before it starts the loop of events. *)
Definition start_upload (dir : Path.t) (targets : list (TargetUrl Name)) (timestamp : Z) (keys : list PrivateKey)
    : Op (ImageId * gmap string (list Signature.Signature)) :=
  index_buf <-- st_lift (res_map_err (fun _ => ScanFailed) (scan dir)) ;;
  if (index_limit <? Z.of_nat (length index_buf))%Z then st_err TooLarge
  else
    image_id <-- expected (add_index get_hash (Fail RegisterFailed) index_buf) ;;
    signatures <-- sign_targets dir index_buf image_id timestamp keys targets ∅ ;;
    st_ret (image_id, signatures).

(** The request for a destination, when an address of it is connected. *)
Definition upload_request (replace : bool) (image_id : ImageId) (timestamp : Z) (signatures : gmap string (list Signature.Signature))
    (turl : TargetUrl Name) : option Request :=
  sigs ← signatures !! tpath turl;
  path ← VPath.from (tpath turl);
  Some (if replace then
    ReqReplaceDir {| rd_path := path; rd_image := image_id; rd_old_image := None; rd_timestamp := timestamp; rd_signatures := sigs |}
  else ReqAppendDir {| ad_path := path; ad_image := image_id; ad_timestamp := timestamp; ad_signatures := sigs |}).
End Prepare.

(** ** The futures of the addresses *)

Section Run.
(** The request for each destination, and [opt.fail_on_conflict]. *)
Context (request : nat -> option Request) (fail_on_conflict : bool).

Inductive HostTask :=
| Connecting
| Requesting (r : Request)
| Waiting
| Finished (ok : bool).

(** [h_open]: the dispatcher of the connection is there. *)
Record Host := { h_addr : SocketAddr; h_open : bool; h_task : HostTask }.

(** A destination is [None] until its host is resolved. *)
Record World := { progress : Progress; fired : bool; targets : list (option (list Host)) }.

Inductive Event :=
| Resolved (i : nat) (picked : list SocketAddr)
| Connected (i j : nat) (ok : bool)
| Responded (i j : nat) (answer : option (bool * option string * gmap MachineId string))
| Notified (i j : nat) (now : Z) (n : Notification)
| Closed (i j : nat) (now : Z)
| Woken (i j : nat).

Definition get_host (i j : nat) (w : World) : option Host := hs ← mjoin (targets w !! i); hs !! j.
Definition set_host (i j : nat) (h : Host) (w : World) : World :=
  {| progress := progress w; fired := fired w; targets := alter (fmap (<[j := h]>)) i (targets w) |}.
Definition on_progress (f : Progress -> Progress) (w : World) : World :=
  {| progress := f (progress w); fired := fired w; targets := targets w |}.
Definition goes (task : HostTask) (h : Host) : Host := {| h_addr := h_addr h; h_open := h_open h; h_task := task |}.

(** A call of the listener; the signal goes to everybody who waits. *)
Definition listen (f : Progress -> option (bool * Progress)) (w : World) : Res unit World :=
  match f (progress w) with
  | Some (b, p) => Ok {| progress := p; fired := fired w || b; targets := targets w |}
  | None => Panic
  end.

(** The end of a future in an error. *)
Definition host_failed (i j : nat) (h : Host) (w : World) : World :=
  on_progress (not_needed (h_addr h)) (set_host i j (goes (Finished false) h) w).

(** [Err]: the event cannot happen now. *)
Definition handle (e : Event) (w : World) : Res unit World :=
  match e with
  | Resolved i picked =>
      match targets w !! i with
      | Some None =>
          Ok {| progress := with_needed (ips_needed (progress w) ∪ list_to_set picked) (progress w); fired := fired w;
                targets := <[i := Some (map (fun a => {| h_addr := a; h_open := false; h_task := Connecting |}) picked)]> (targets w) |}
      | _ => Err tt
      end
  | Connected i j ok =>
      match get_host i j w with
      | Some h =>
          match h_task h with
          | Connecting =>
              if ok then
                match request i with
                | Some r => Ok (set_host i j {| h_addr := h_addr h; h_open := true; h_task := Requesting r |} w)
                | None => Panic
                end
              else Ok (host_failed i j h w)
          | _ => Err tt
          end
      | None => Err tt
      end
  | Responded i j answer =>
      match get_host i j w with
      | Some h =>
          match h_task h with
          | Requesting _ =>
              match answer with
              | Some (accepted, reason, hosts) =>
                  let w := on_progress (add_ids hosts) w in
                  Ok (if accepted : bool then set_host i j (goes Waiting h) w
                      else on_progress (not_needed (h_addr h))
                             (set_host i j (goes (Finished (negb fail_on_conflict && is_conflict_reason reason)) h) w))
              | None => Ok (host_failed i j h w)
              end
          | _ => Err tt
          end
      | None => Err tt
      end
  | Notified i j now n =>
      match get_host i j w with
      | Some h => if h_open h then listen (notification (h_addr h) now n) w else Err tt
      | None => Err tt
      end
  | Closed i j now =>
      match get_host i j w with
      | Some h =>
          if h_open h then listen (closed (h_addr h) now) (set_host i j {| h_addr := h_addr h; h_open := false; h_task := h_task h |} w)
          else Err tt
      | None => Err tt
      end
  | Woken i j =>
      match get_host i j w with
      | Some h =>
          match h_task h with
          | Waiting => if fired w then Ok (set_host i j (goes (Finished (is_ok (progress w))) h) w) else Err tt
          | _ => Err tt
          end
      | None => Err tt
      end
  end.

Fixpoint run (es : list Event) (w : World) : Res unit World :=
  match es with [] => Ok w | e :: es' => res_bind (run es') (handle e w) end.

Definition initial (now : Z) (n : nat) : World :=
  {| progress := {| started := now; hosts_done := ∅; ips_needed := ∅; ids_needed := ∅; hosts_errored := ∅; done_tx := true |};
     fired := false; targets := repeat None n |}.

(** The result of the two [join_all]: for every destination any address, and
    all of them; [None] while a future is not ready. *)
Definition host_result (h : Host) : option bool := match h_task h with Finished b => Some b | _ => None end.
Definition target_result (t : option (list Host)) : option bool :=
  hs ← t; bs ← mapM host_result hs; Some (existsb (fun x => x) bs).
Definition result (w : World) : option bool :=
  rs ← mapM target_result (targets w); Some (forallb (fun x => x) rs).
End Run.

(** [cli]: the exit code. *)
Definition exit_code (r : Res UploadFail bool) : Z :=
  match r with Ok true => 0 | Ok false => 1 | _ => 2 end.

(** ** What is signed *)

Section Signed.
Context `{Crypto} `{IndexParser} {Name : Type}.
Context (scan : Path.t -> Res string bytes) (get_hash : bytes -> Res IoError bytes).

(** The signatures of an image at a path. *)
Definition signed_for (image_id : ImageId) (ts : Z) (keys : list PrivateKey) (path : string) (sigs : list Signature.Signature) : Prop :=
  exists ms, to_ms ts = Some ms /\
    Signature.sign {| Signature.sd_path := path; Signature.sd_image := as_ref image_id; Signature.sd_timestamp := ms |} keys = Some sigs.

Lemma expected_ok {A} (m : ST Store Stop A) s a s' : expected m s = (Ok a, s') -> m s = (Ok a, s').
Proof. unfold expected. destruct (m s) as [[]]; [|done..]. by intros [= -> ->]. Qed.

Lemma sign_targets_run dir buf image_id ts keys (targets : list (TargetUrl Name)) sigs s sigs' s' :
  (forall p l, sigs !! p = Some l -> signed_for image_id ts keys p l) ->
  sign_targets dir buf image_id ts keys targets sigs s = (Ok sigs', s') ->
  st_indexes s' = st_indexes s /\ (forall p l, sigs' !! p = Some l -> signed_for image_id ts keys p l) /\
  (forall p, is_Some (sigs' !! p) <-> is_Some (sigs !! p) \/ p ∈ map tpath targets).
Proof.
  revert sigs s. induction targets as [|t targets IH]; intros sigs s Hs Hr; cbn [sign_targets] in Hr.
  { injection Hr as <- <-. split_and!; [done|done|]. intros p. split; [by left|]. by intros [?|?%not_elem_of_nil]. }
  case_decide as Hin.
  - destruct (IH _ _ Hs Hr) as (Hi & Hs' & Hd). split_and!; [done|done|]. intros p. rewrite Hd. cbn. rewrite elem_of_cons.
    split; [intros [?|?]; auto|]. intros [?|[->|?]]; auto.
  - st_inv Hr. apply expected_ok in Hrun. unfold on_blocks in Hrun. destruct (register_dir dir buf (st_blocks s)) as [[[]| |] bl]; [|done..].
    injection Hrun as _ <-. st_inv Hr. destruct (to_ms ts) as [ms|] eqn:Em; [|done]. injection Hrun as <- <-.
    st_inv Hr. destruct (Signature.sign _ keys) as [l|] eqn:El; [|done]. injection Hrun as <- <-.
    destruct (IH _ _ ltac:(intros p l'; rewrite lookup_insert_Some; intros [[<- <-]|[_ ?]]; [by exists ms|by apply Hs]) Hr) as (Hi & Hs' & Hd).
    split_and!; [done|done|]. intros p. rewrite Hd. cbn. rewrite elem_of_cons, lookup_insert_is_Some'. naive_solver.
Qed.

(** What is signed of a request, and its signatures. *)
Definition request_signed (keys : list PrivateKey) (r : Request) : Prop :=
  match r with
  | ReqAppendDir c => exists d, append_sig_data c = Some d /\ Signature.sign d keys = Some (ad_signatures c)
  | ReqReplaceDir c => exists d, replace_sig_data c = Some d /\ Signature.sign d keys = Some (rd_signatures c)
  | _ => False
  end.

(** Every destination whose path is more than "/" has its request, for the image
    of the directory, with the signatures of all keys on just what a server
    checks; a destination "/" is a panic when its host is connected. *)
Theorem requests_signed dir targets ts keys s image_id sigs s' replace : start_upload (Name := Name) scan get_hash dir targets ts keys s = (Ok (image_id, sigs), s') ->
  (exists buf h, scan dir = Ok buf /\ get_hash buf = Ok h /\ image_id = from_vec h /\ read_index image_id (st_indexes s') = Some buf) /\
  forall t, t ∈ targets ->
    (Path.is_absolute (Path.parse (tpath t)) = true -> Path.parse (tpath t) <> [Path.RootDir] ->
       exists r, upload_request replace image_id ts sigs t = Some r /\ (Path.render (Path.parse (tpath t)) = tpath t -> request_signed keys r)) /\
    (Path.parse (tpath t) = [Path.RootDir] -> upload_request replace image_id ts sigs t = None).
Proof.
  unfold start_upload. intros Hr. st_inv Hr. destruct (scan dir) as [buf| |] eqn:Esc; [|done..]. injection Hrun as <- <-.
  destruct (_ <? _)%Z; [done|]. st_inv Hr. apply expected_ok in Hrun. unfold add_index, on_indexes, register_index in Hrun.
  destruct (get_hash buf) as [h| |] eqn:Eh; [|done..]. cbn in Hrun. injection Hrun as <- <-.
  st_inv Hr. injection Hr as <- <- <-. apply sign_targets_run in Hrun as (Hi & Hs & Hd); [|intros p l; by rewrite lookup_empty]. split.
  { exists buf, h. split_and!; [done..|]. unfold read_index. rewrite Hi. cbn. by rewrite lookup_insert_eq. }
  intros t Ht. destruct (proj2 (Hd (tpath t))) as [l Hl]; [right; by apply list_elem_of_fmap_2|].
  destruct (Hs _ _ Hl) as (ms & Hms & Hsig). unfold upload_request. rewrite Hl. cbn. unfold VPath.from, from_path. split.
  - intros Ha Hne. rewrite Ha. rewrite bool_decide_eq_false_2 by done. cbn. eexists. split; [done|]. intros Hrender.
    destruct replace; cbn; unfold append_sig_data, replace_sig_data; cbn; rewrite Hms, Hrender; by eexists.
  - intros E. by rewrite bool_decide_eq_true_2, andb_false_r by done.
Qed.
End Signed.

(** ** What an event does *)

Section Effects.
Context (request : nat -> option Request) (fail_on_conflict : bool).
Abbreviation handle := (handle request fail_on_conflict).
Abbreviation run := (run request fail_on_conflict).

Lemma get_set_host i j h h' w i' j' : get_host i j w = Some h ->
  get_host i' j' (set_host i j h' w) = if decide (i' = i /\ j' = j) then Some h' else get_host i' j' w.
Proof.
  unfold get_host, set_host. cbn [targets]. intros (hs & Hi & Hj)%bind_Some. destruct (targets w !! i) as [t|] eqn:Ei; [|done]. cbn in Hi. subst t.
  destruct (decide (i' = i)) as [->|Hne].
  - rewrite list_lookup_alter_eq, Ei. cbn. destruct (decide (j' = j)) as [->|Hj'].
    + rewrite decide_True by done. apply list_lookup_insert_eq. by eapply lookup_lt_Some.
    + rewrite decide_False by naive_solver. by apply list_lookup_insert_ne.
  - rewrite list_lookup_alter_ne by done. by rewrite decide_False by naive_solver.
Qed.

Lemma get_host_targets i j w w' : targets w' = targets w -> get_host i j w' = get_host i j w.
Proof. unfold get_host. by intros ->. Qed.

(** The events after which an address is not waited for any more. *)
Definition final (n : Notification) : bool :=
  match n with NReceivedImage img => negb (ri_forwarded img) | NAbortedImage img => negb (ai_forwarded img) | NPublishImage _ => false end.
Definition settles (i j : nat) (e : Event) : Prop :=
  match e with
  | Resolved _ _ | Woken _ _ => False
  | Connected i' j' ok => (i', j') = (i, j) /\ ok = false
  | Responded i' j' answer => (i', j') = (i, j) /\ match answer with Some (accepted, _, _) => accepted = false | None => True end
  | Notified i' j' _ n => (i', j') = (i, j) /\ final n = true
  | Closed i' j' _ => (i', j') = (i, j)
  end.
Definition aborts (e : Event) : Prop := match e with Notified _ _ _ (NAbortedImage _) => True | _ => False end.
Definition alive (h : Host) : Prop := h_open h = true \/ h_task h = Connecting.

Definition tolerated (i j : nat) (e : Event) : Prop :=
  fail_on_conflict = false /\ exists reason hosts, e = Responded i j (Some (false, reason, hosts)) /\ is_conflict_reason reason = true.
Definition accepts (i j : nat) (e : Event) : Prop := exists reason hosts, e = Responded i j (Some (true, reason, hosts)).

(** What an event at the address [j] of the destination [i] does. *)
Record effect (e : Event) (i j : nat) (h h' : Host) (w w' : World) : Prop := {
  ef_addr : h_addr h' = h_addr h;
  ef_started : started (progress w') = started (progress w);
  ef_targets : targets w' = targets (set_host i j h' w);
  ef_needed : ips_needed (progress w') = ips_needed (progress w) \/
    (ips_needed (progress w') = ips_needed (progress w) ∖ {[h_addr h]} /\ settles i j e);
  ef_errored : hosts_errored (progress w) ⊆ hosts_errored (progress w') /\ (aborts e -> hosts_errored (progress w') <> ∅);
  ef_done : (fired w' = fired w /\ done_tx (progress w') = done_tx (progress w)) \/
    (ips_needed (progress w') = ∅ /\ done_tx (progress w') = false /\ fired w' = fired w || done_tx (progress w));
  ef_alive : alive h -> alive h' \/ h_addr h ∉ ips_needed (progress w') \/ done_tx (progress w') = false;
  ef_task : h_task h' = h_task h \/
    match h_task h' with
    | Finished true => tolerated i j e \/ (e = Woken i j /\ h_task h = Waiting /\ fired w = true /\ hosts_errored (progress w) = ∅)
    | Waiting => accepts i j e
    | _ => True
    end
}.

(** The progress after a call of the listener. *)
Lemma check_status_run now p b p' : check_status now p = Some (b, p') ->
  started p' = started p /\ ips_needed p' = ips_needed p /\ hosts_errored p' = hosts_errored p /\
  ((b = false /\ done_tx p' = done_tx p) \/ (ips_needed p = ∅ /\ b = done_tx p /\ done_tx p' = false)).
Proof. unfold check_status. repeat case_decide; intros [= <- <-]; split_and!; auto. Qed.

Lemma notification_run a now n p b p' : notification a now n p = Some (b, p') ->
  started p' = started p /\ ips_needed p' = (if final n then ips_needed p ∖ {[a]} else ips_needed p) /\
  hosts_errored p' = match n with NAbortedImage _ => {[a]} ∪ hosts_errored p | _ => hosts_errored p end /\
  ((b = false /\ done_tx p' = done_tx p) \/ (ips_needed p' = ∅ /\ b = done_tx p /\ done_tx p' = false)).
Proof.
  unfold notification, final. destruct n as [n|n|n].
  - intros [= <- <-]. split_and!; auto.
  - intros (-> & -> & -> & H)%check_status_run. destruct (ri_forwarded n); cbn in *; by split_and!.
  - intros (-> & -> & -> & H)%check_status_run. destruct (ai_forwarded n); cbn in *; by split_and!.
Qed.

Lemma closed_run a now p b p' : closed a now p = Some (b, p') ->
  (done_tx p = false /\ b = false /\ p' = p) \/
  (done_tx p = true /\ started p' = started p /\ ips_needed p' = ips_needed p ∖ {[a]} /\ hosts_errored p' = {[a]} ∪ hosts_errored p /\
    ((b = false /\ done_tx p' = done_tx p) \/ (ips_needed p' = ∅ /\ b = done_tx p /\ done_tx p' = false))).
Proof.
  unfold closed. destruct (done_tx p) eqn:Ed; [|intros [= <- <-]; auto]. intros (E0 & E1 & E2 & H)%check_status_run. right.
  cbn in E1, E2, H. rewrite E0, E1, E2, <- Ed. split_and!; done.
Qed.

Lemma listen_run f w w' : listen f w = Ok w' -> exists b p, f (progress w) = Some (b, p) /\ progress w' = p /\ fired w' = fired w || b /\ targets w' = targets w.
Proof. unfold listen. destruct (f (progress w)) as [[b p]|]; [|done]. intros [= <-]. by exists b, p. Qed.

(** What an event is about. *)
Definition place (e : Event) : option (nat * nat) :=
  match e with Resolved _ _ => None | Connected i j _ | Responded i j _ | Notified i j _ _ | Closed i j _ | Woken i j => Some (i, j) end.

Lemma same_targets i j h w : get_host i j w = Some h -> targets (set_host i j h w) = targets w.
Proof.
  unfold get_host, set_host. cbn. intros (hs & Hi & Hj)%bind_Some. destruct (targets w !! i) as [t|] eqn:Ei; [|done]. cbn in Hi. subst t.
  apply list_eq. intros k. destruct (decide (k = i)) as [->|Hne]; [|by rewrite list_lookup_alter_ne].
  rewrite list_lookup_alter_eq, Ei. cbn. do 2 f_equal. by apply list_insert_id.
Qed.

Lemma handle_effect e i j w w' : place e = Some (i, j) -> handle e w = Ok w' ->
  exists h h', get_host i j w = Some h /\ effect e i j h h' w w'.
Proof.
  intros Hp Hh. destruct e as [|i' j' ok|i' j' answer|i' j' now n|i' j' now|i' j']; [done|..]; injection Hp as -> ->; cbn [ClientUpload.handle] in Hh;
    (destruct (get_host i j w) as [h|] eqn:Eh; [|done]); exists h.
  - destruct (h_task h) as [|r| |b] eqn:Et; try done. destruct ok.
    + destruct (request i) as [r|]; [|done]. injection Hh as <-. exists {| h_addr := h_addr h; h_open := true; h_task := Requesting r |}.
      split; [done|]. split; cbn; auto. by left; left.
    + injection Hh as <-. exists (goes (Finished false) h). split; [done|]. split; cbn; auto. right. left. set_solver.
  - destruct (h_task h) as [|r| |b] eqn:Et; try done. assert (Ha : forall t, alive h -> alive (goes t h)) by (intros t [?|?]; [by left|congruence]).
    destruct answer as [[[[] reason] hosts]|]; injection Hh as <-.
    + exists (goes Waiting h). split; [done|]. split; cbn; auto. right. by exists reason, hosts.
    + eexists (goes (Finished _) h). split; [done|]. split; cbn; auto. right.
      destruct (negb fail_on_conflict && is_conflict_reason reason) eqn:E; [|done]. apply andb_true_iff in E as [Ef Er]. left.
      split; [by destruct fail_on_conflict|]. by exists reason, hosts.
    + exists (goes (Finished false) h). split; [done|]. split; cbn; auto.
  - destruct (h_open h) eqn:Eo; [|done]. apply listen_run in Hh as (b & p & Hn & <- & Hf & Ht). apply notification_run in Hn as (Es & En & Ee & Hd).
    exists h. split; [done|]. split; [done|done|by rewrite Ht, same_targets|rewrite En|rewrite Ee|rewrite Hf|by left|by left].
    + destruct (final n) eqn:Efi; [right; by split|by left].
    + split; [destruct n; set_solver|]. destruct n; cbn; [done..|]. set_solver.
    + destruct Hd as [[-> ->]|(E & -> & ->)]; [left; by rewrite orb_false_r|right; by split_and!].
  - destruct (h_open h) eqn:Eo; [|done]. apply listen_run in Hh as (b & p & Hn & <- & Hf & Ht). cbn [progress set_host fired] in Hn, Hf, Ht.
    exists {| h_addr := h_addr h; h_open := false; h_task := h_task h |}. split; [done|].
    apply closed_run in Hn as [(Ed & -> & E)|(Ed & Es & En & Ee & Hd)].
    + split; [done|by rewrite E|done|left; by rewrite E|rewrite E; by split|left; by rewrite Hf, E, orb_false_r|intros _; right; right; by rewrite E|by left].
    + split; [done|done|done|right; by split|rewrite Ee; split; [set_solver|done]| |intros _; right; left; rewrite En; set_solver|by left].
      rewrite Hf. destruct Hd as [[-> ->]|(E & -> & ->)]; [left; by rewrite orb_false_r|right; by split_and!].
  - destruct (h_task h) as [|r| |b] eqn:Et; try done. destruct (fired w) eqn:Ef; [|done]. injection Hh as <-. eexists (goes (Finished _) h). split; [done|].
    assert (Ha : forall t, alive h -> alive (goes t h)) by (intros t [?|?]; [by left|congruence]).
    split; cbn; auto. unfold is_ok. case_bool_decide; [|by right]. right. right. by rewrite Et.
Qed.
End Effects.

(** ** The runs of the command *)

Section Runs.
Context (request : nat -> option Request) (fail_on_conflict : bool) (now0 : Z) (n : nat).
Abbreviation handle := (handle request fail_on_conflict).
Abbreviation run := (run request fail_on_conflict).
Abbreviation tolerated := (tolerated fail_on_conflict).
Abbreviation w0 := (initial now0 n).

Lemma run_snoc es e w : run (es ++ [e]) w = res_bind (handle e) (run es w).
Proof.
  revert w. induction es as [|e' es IH]; intros w; cbn; [by destruct (handle e w)|]. destruct (handle e' w); [apply IH|done..].
Qed.

(** An address of which the end was heard. *)
Definition settled (es : list Event) (a : SocketAddr) (w : World) : Prop :=
  exists i j h e, get_host i j w = Some h /\ h_addr h = a /\ e ∈ es /\ settles i j e.

(** At some time every address there was, of every destination that had been
    resolved, was settled. *)
Definition signalled (es : list Event) : Prop :=
  exists es1 es2 w1, es = es1 ++ es2 /\ run es1 w0 = Ok w1 /\ forall i j h, get_host i j w1 = Some h -> settled es1 (h_addr h) w1.

(** Why an address counts as a success. *)
Definition succeeded (es : list Event) (i j : nat) : Prop :=
  exists e, e ∈ es /\ (tolerated i j e \/
    (accepts i j e /\ exists es1 es2, es = es1 ++ Woken i j :: es2 /\ signalled es1 /\ Forall (fun e => ~ aborts e) es1)).

Record Inv (es : list Event) (w : World) : Prop := {
  iv_targets : length (targets w) = n;
  iv_started : started (progress w) = now0;
  iv_fired : fired w = negb (done_tx (progress w));
  iv_needed : done_tx (progress w) = true -> forall a, a ∈ ips_needed (progress w) -> exists i j h, get_host i j w = Some h /\ h_addr h = a /\ alive h;
  iv_settled : forall i j h, get_host i j w = Some h -> h_addr h ∈ ips_needed (progress w) \/ settled es (h_addr h) w;
  iv_signal : fired w = true -> signalled es;
  iv_ok : forall i j h, get_host i j w = Some h -> h_task h = Finished true -> succeeded es i j;
  iv_waiting : forall i j h, get_host i j w = Some h -> h_task h = Waiting -> exists e, e ∈ es /\ accepts i j e;
  iv_errored : hosts_errored (progress w) = ∅ -> Forall (fun e => ~ aborts e) es
}.

Lemma signalled_snoc es e : signalled es -> signalled (es ++ [e]).
Proof. intros (es1 & es2 & w1 & -> & Hr). exists es1, (es2 ++ [e]), w1. by rewrite app_assoc. Qed.
Lemma succeeded_snoc es e i j : succeeded es i j -> succeeded (es ++ [e]) i j.
Proof.
  intros (e' & He & H). exists e'. split; [apply elem_of_app; by left|]. destruct H as [H|(Ha & es1 & es2 & -> & H)]; [by left|]. right. split; [done|].
  exists es1, (es2 ++ [e]). by rewrite <- app_assoc.
Qed.

Lemma inv_initial : Inv [] w0.
Proof.
  assert (Hno : forall i j, get_host i j w0 = None).
  { intros i j. unfold get_host. cbn. destruct (repeat None n !! i) as [t|] eqn:E; [|done]. by apply list_elem_of_lookup_2, list_elem_of_In, repeat_spec in E as ->. }
  split; cbn; try done; [apply repeat_length|intros i j h; by rewrite Hno..].
Qed.

Lemma inv_resolved es w i picked w' : Inv es w -> run es w0 = Ok w -> handle (Resolved i picked) w = Ok w' -> Inv (es ++ [Resolved i picked]) w'.
Proof.
  intros [] Hrun Hh. cbn in Hh. destruct (targets w !! i) as [[hs|]|] eqn:Ei; [done| |done]. injection Hh as <-. set (w' := Build_World _ _ _).
  assert (Hlt : i < length (targets w)) by by eapply lookup_lt_Some.
  assert (Hold : forall i' j' h, get_host i' j' w = Some h -> get_host i' j' w' = Some h).
  { intros i' j' h Hg. unfold get_host in *. cbn. destruct (decide (i' = i)) as [->|Hne]; [by rewrite Ei in Hg|]. by rewrite list_lookup_insert_ne. }
  assert (Hnew : forall i' j' h, get_host i' j' w' = Some h -> get_host i' j' w = Some h \/ (h_task h = Connecting /\ h_addr h ∈ picked)).
  { intros i' j' h Hg. unfold get_host in *. cbn in Hg. destruct (decide (i' = i)) as [->|Hne]; [|left; by rewrite list_lookup_insert_ne in Hg].
    rewrite list_lookup_insert_eq in Hg by done. cbn in Hg. right. apply list_lookup_fmap_Some in Hg as (a & -> & Ha). split; [done|].
    by eapply list_elem_of_lookup_2. }
  split; cbn; try done.
  - by rewrite length_insert.
  - intros Hd a [Ha|Ha%elem_of_list_to_set]%elem_of_union.
    + destruct (iv_needed0 Hd a Ha) as (i' & j' & h & Hg & ? & ?). exists i', j', h. split; [by apply Hold|done].
    + apply list_elem_of_lookup in Ha as [j Hj]. exists i, j, {| h_addr := a; h_open := false; h_task := Connecting |}. split; [|split; [done|by right]].
      unfold get_host. cbn. rewrite list_lookup_insert_eq by done. cbn. change (map ?f picked) with (f <$> picked). by rewrite list_lookup_fmap, Hj.
  - intros i' j' h [Hg|[_ Ha]]%Hnew; [|left; set_solver]. destruct (iv_settled0 _ _ _ Hg) as [?|(i1 & j1 & h1 & e & Hg1 & E & He & Hs)]; [left; set_solver|right].
    exists i1, j1, h1, e. split_and!; [by apply Hold|done|apply elem_of_app; by left|done].
  - intros Hf. by apply signalled_snoc, iv_signal0.
  - intros i' j' h [Hg|[Ht _]]%Hnew Hf; [by eapply succeeded_snoc, iv_ok0|congruence].
  - intros i' j' h [Hg|[Ht _]]%Hnew Hf; [|congruence]. destruct (iv_waiting0 _ _ _ Hg Hf) as (e & He & Ha). exists e. split; [apply elem_of_app; by left|done].
  - intros He. apply Forall_app. split; [by apply iv_errored0|]. apply Forall_singleton. by intros [].
Qed.

Lemma inv_effect es w e i j h h' w' : Inv es w -> run es w0 = Ok w -> handle e w = Ok w' ->
  get_host i j w = Some h -> effect fail_on_conflict e i j h h' w w' -> Inv (es ++ [e]) w'.
Proof.
  intros [] Hrun Hh Hg []. assert (Hrun' : run (es ++ [e]) w0 = Ok w') by by rewrite run_snoc, Hrun.
  assert (Hat : forall i' j', get_host i' j' w' = if decide (i' = i /\ j' = j) then Some h' else get_host i' j' w).
  { intros i' j'. rewrite (get_host_targets _ _ _ _ ef_targets0). by eapply get_set_host. }
  assert (Hback : forall i' j' k, get_host i' j' w' = Some k -> exists k0, get_host i' j' w = Some k0 /\ h_addr k = h_addr k0 /\
    (k = k0 \/ (i' = i /\ j' = j /\ k = h' /\ k0 = h))).
  { intros i' j' k. rewrite Hat. case_decide as Hij; [|intros Hk; exists k; by auto]. destruct Hij as [-> ->]. intros [= <-]. exists h. by auto 10. }
  assert (Hmono : forall a, settled es a w -> settled (es ++ [e]) a w').
  { intros a (i1 & j1 & h1 & e1 & Hg1 & E & He & Hs). destruct (get_host i1 j1 w') as [k|] eqn:Ek.
    - destruct (Hback _ _ _ Ek) as (k0 & Hk0 & Ea & _). exists i1, j1, k, e1. split_and!; [done|congruence|apply elem_of_app; by left|done].
    - rewrite Hat in Ek. case_decide; congruence. }
  assert (Hset : forall i' j' k, get_host i' j' w' = Some k -> h_addr k ∈ ips_needed (progress w') \/ settled (es ++ [e]) (h_addr k) w').
  { intros i' j' k Hk. destruct (Hback _ _ _ Hk) as (k0 & Hk0 & -> & _). destruct (iv_settled0 _ _ _ Hk0) as [Hin|Hs]; [|right; by apply Hmono].
    destruct ef_needed0 as [->|[-> Hs]]; [by left|]. destruct (decide (h_addr k0 = h_addr h)) as [E|Hne]; [right|left; set_solver].
    exists i, j, h', e. split_and!; [by rewrite Hat, decide_True|congruence|apply elem_of_app; right; by left|done]. }
  split.
  - rewrite ef_targets0. cbn. by rewrite length_alter.
  - congruence.
  - destruct ef_done0 as [[-> ->]|(_ & -> & ->)]; [done|]. rewrite iv_fired0. by destruct (done_tx (progress w)).
  - intros Hd a Ha. assert (Hd0 : done_tx (progress w) = true) by (destruct ef_done0 as [[_ <-]|(_ & E & _)]; congruence).
    assert (Ha0 : a ∈ ips_needed (progress w)) by (destruct ef_needed0 as [E|[E _]]; rewrite E in Ha; set_solver).
    destruct (iv_needed0 Hd0 a Ha0) as (i1 & j1 & h1 & Hg1 & E & Hal). destruct (decide (i1 = i /\ j1 = j)) as [[-> ->]|Hne].
    + assert (h1 = h) as -> by congruence. exists i, j, h'. split; [by rewrite Hat, decide_True|]. split; [congruence|].
      destruct (ef_alive0 Hal) as [?|[Hn|?]]; [done|by rewrite E in Hn|congruence].
    + exists i1, j1, h1. by rewrite Hat, decide_False.
  - exact Hset.
  - intros Hf. destruct ef_done0 as [[E _]|(E & _ & _)]; [by apply signalled_snoc, iv_signal0; congruence|].
    exists (es ++ [e]), [], w'. split; [by rewrite app_nil_r|]. split; [done|]. intros i' j' k Hk. destruct (Hset _ _ _ Hk) as [Hin|]; [|done].
    rewrite E in Hin. by apply not_elem_of_empty in Hin.
  - intros i' j' k Hk Ht. destruct (Hback _ _ _ Hk) as (k0 & Hk0 & _ & [->|(-> & -> & -> & ->)]); [by eapply succeeded_snoc, iv_ok0|].
    rewrite Ht in ef_task0. destruct ef_task0 as [E|[Htol|(-> & Hw & Hf & He)]]; [by eapply succeeded_snoc, iv_ok0|..].
    + exists e. split; [apply elem_of_app; right; by left|by left].
    + destruct (iv_waiting0 _ _ _ Hk0 Hw) as (e & Hin & Hacc). exists e. split; [apply elem_of_app; by left|]. right. split; [done|].
      exists es, []. split_and!; [done|by apply iv_signal0|by apply iv_errored0].
  - intros i' j' k Hk Ht. destruct (Hback _ _ _ Hk) as (k0 & Hk0 & _ & [->|(-> & -> & -> & ->)]).
    + destruct (iv_waiting0 _ _ _ Hk0 Ht) as (e1 & He & Ha). exists e1. split; [apply elem_of_app; by left|done].
    + rewrite Ht in ef_task0. destruct ef_task0 as [E|Hacc]; [|exists e; split; [apply elem_of_app; right; by left|done]].
      destruct (iv_waiting0 _ _ _ Hk0 ltac:(congruence)) as (e1 & He & Ha). exists e1. split; [apply elem_of_app; by left|done].
  - intros He. destruct ef_errored0 as [Hsub Hab]. apply Forall_app. split; [apply iv_errored0; set_solver|]. apply Forall_singleton. by intros ?%Hab.
Qed.

Lemma run_inv es w : run es w0 = Ok w -> Inv es w.
Proof.
  revert w. induction es as [|e es IH] using rev_ind; intros w Hr; [injection Hr as <-; apply inv_initial|].
  rewrite run_snoc in Hr. destruct (run es w0) as [w1| |] eqn:E; [|done..]. cbn in Hr. specialize (IH w1 eq_refl).
  destruct (place e) as [[i j]|] eqn:Ep.
  - destruct (handle_effect request fail_on_conflict e i j w1 w Ep Hr) as (h & h' & Hg & He). by eapply inv_effect.
  - destruct e; try done. by eapply inv_resolved.
Qed.

Lemma result_true w : result w = Some true -> forall i, i < length (targets w) -> exists j h, get_host i j w = Some h /\ h_task h = Finished true.
Proof.
  unfold result. intros (rs & Hm & [= Ha])%bind_Some i Hi. apply mapM_Some in Hm. destruct (lookup_lt_is_Some_2 _ _ Hi) as [t Ht].
  destruct (Forall2_lookup_l _ _ _ _ _ Hm Ht) as (r & Hr & Hres). rewrite forallb_forall in Ha.
  assert (r = true) as -> by (apply Ha, list_elem_of_In; by eapply list_elem_of_lookup_2).
  destruct t as [hs|]; [|done]. cbn in Hres. apply bind_Some in Hres as (bs & Hbs & [= Hex]). apply existsb_exists in Hex as (b & Hb & ->).
  apply list_elem_of_In, list_elem_of_lookup in Hb as [j Hj]. apply mapM_Some in Hbs. destruct (Forall2_lookup_r _ _ _ _ _ Hbs Hj) as (h & Hh & Hf).
  exists j, h. split; [unfold get_host; rewrite Ht; exact Hh|]. unfold host_result in Hf. destruct (h_task h); try done. by injection Hf as ->.
Qed.

(** C35. When the command ends with success, every destination has an address that
    either refused the upload with a conflict, which was allowed, or accepted
    it; in the second case the address was woken by the signal, and by then
    every address of the destinations resolved so far had been settled: it had
    failed, refused, told of the end of the download, or closed; and none had
    told that the download was aborted. *)
Theorem exit_zero_sound es w : run es w0 = Ok w -> result w = Some true -> forall i, i < n -> exists j, succeeded es i j.
Proof.
  intros Hi%run_inv Hr k Hk. destruct (result_true w Hr k) as (j & h & Hg & Ht); [by rewrite (iv_targets _ _ Hi)|].
  exists j. by eapply (iv_ok _ _ Hi).
Qed.

(** The close of one connection. *)
Lemma close_run i j now w h : get_host i j w = Some h -> h_open h = true -> (started (progress w) <= now)%Z ->
  exists w', handle (Closed i j now) w = Ok w' /\ started (progress w') = started (progress w) /\ length (targets w') = length (targets w) /\
    (forall i' j', get_host i' j' w' = if decide (i' = i /\ j' = j) then Some {| h_addr := h_addr h; h_open := false; h_task := h_task h |} else get_host i' j' w) /\
    (done_tx (progress w') = true -> ips_needed (progress w') <> ∅).
Proof.
  intros Hg Ho Hn. cbn [ClientUpload.handle]. rewrite Hg, Ho. set (w1 := set_host i j _ w). unfold listen.
  assert (Hc : exists b p, closed (h_addr h) now (progress w1) = Some (b, p) /\ started p = started (progress w) /\
    (done_tx p = true -> ips_needed p <> ∅)).
  { unfold closed. change (progress w1) with (progress w). destruct (done_tx (progress w)) eqn:Ed; [|eexists _, _; split_and!; [done|done|congruence]].
    unfold check_status. case_decide as He; [|by eexists _, _]. rewrite decide_True by done. by eexists _, _. }
  destruct Hc as (b & p & -> & Hs & Hd). eexists. split_and!; [done|done|cbn; by rewrite length_alter| |done].
  intros i' j'. etransitivity; [by apply (get_host_targets i' j' w1)|]. by eapply get_set_host.
Qed.

(** C36. Nothing can be waited for for ever once the servers are gone: when every
    host was resolved and every address was connected to or failed, and some
    connection is still there, then after the close of the connections, in any
    order, the signal was sent, and everybody who waits can end. *)
Theorem closing_ends es w (l : list (nat * nat * Z)) : run es w0 = Ok w ->
  (forall i j h, get_host i j w = Some h -> h_task h <> Connecting) ->
  NoDup (map fst l) -> l <> [] -> (forall i j, (i, j) ∈ map fst l <-> exists h, get_host i j w = Some h /\ h_open h = true) ->
  Forall (fun e => (now0 <= snd e)%Z) l ->
  exists w', run (map (fun e => Closed (fst (fst e)) (snd (fst e)) (snd e)) l) w = Ok w' /\ fired w' = true /\
    forall i j h, get_host i j w' = Some h -> h_task h = Waiting -> exists w2, handle (Woken i j) w' = Ok w2.
Proof.
  intros Hrun Hconn Hnd Hne Hopen Hnow.
  enough (exists w', run (map (fun e => Closed (fst (fst e)) (snd (fst e)) (snd e)) l) w = Ok w' /\ fired w' = true) as (w' & Hr & Hf).
  { exists w'. split_and!; [done|done|]. intros i j h Hg Ht. cbn [ClientUpload.handle]. rewrite Hg, Ht, Hf. by eexists. }
  revert es w Hrun Hconn Hnd Hne Hopen Hnow. induction l as [|[[i j] now] l IH]; intros es w Hrun Hconn Hnd Hne Hopen Hnow; [done|].
  pose proof (run_inv _ _ Hrun) as Hi. apply Forall_cons in Hnow as [Hn Hnow]. cbn [map fst snd] in Hnd, Hopen. apply NoDup_cons in Hnd as [Hnew Hnd].
  destruct (proj1 (Hopen i j) ltac:(by left)) as (h & Hg & Ho).
  destruct (close_run i j now w h Hg Ho) as (w1 & Hh & _ & _ & Hat & Hd); [by rewrite (iv_started _ _ Hi)|].
  assert (Hrun1 : run (es ++ [Closed i j now]) w0 = Ok w1) by by rewrite run_snoc, Hrun.
  assert (Hconn1 : forall i' j' k, get_host i' j' w1 = Some k -> h_task k <> Connecting).
  { intros i' j' k. rewrite Hat. case_decide; [intros [= <-]; exact (Hconn i j h Hg)|apply Hconn]. }
  cbn [map fst snd ClientUpload.run]. rewrite Hh. cbn [res_bind].
  destruct (decide (l = [])) as [->|Hl].
  - exists w1. split; [done|]. pose proof (run_inv _ _ Hrun1) as Hi1. rewrite (iv_fired _ _ Hi1). destruct (done_tx (progress w1)) eqn:Ed; [|done].
    exfalso. apply Hd; [done|]. apply set_eq_subseteq. split; [|done]. intros a Ha. destruct (iv_needed _ _ Hi1 Ed a Ha) as (i' & j' & k & Hk & _ & Hal).
    destruct Hal as [Hal|Hal]; [|by apply Hconn1 in Hk]. rewrite Hat in Hk. case_decide as Hij; [by injection Hk as <-|].
    assert (Hin : (i', j') ∈ [(i, j)]) by (apply Hopen; by exists k). apply list_elem_of_singleton in Hin as [= -> ->]. by destruct Hij.
  - apply (IH (es ++ [Closed i j now])); [done|done|done|done| |done].
    intros i' j'. rewrite Hat. case_decide as Hij.
    + destruct Hij as [-> ->]. split; [done|]. by intros (k & [= <-] & ?).
    + rewrite <- Hopen. split; [by right|]. intros [[= -> ->]|?]%elem_of_cons; [by destruct Hij|done].
Qed.
End Runs.

(** ** Examples *)

Module UploadExample.
Definition a1 : SocketAddr := {| ip := 1; sport := 24783 |}.
Definition a2 : SocketAddr := {| ip := 2; sport := 24783 |}.
Definition req (i : nat) : option Request := Some (ReqAppendDir {| ad_path := of_names "k" ["x"%string]; ad_image := from_slice []; ad_timestamp := 0; ad_signatures := [] |}).
Definition received : Notification := NReceivedImage {| ri_id := from_slice []; ri_path := of_names "k" ["x"%string]; ri_machine_id := MachineId.mk [];
  ri_hostname := "h"; ri_forwarded := false |}.
Definition accept (i j : nat) : Event := Responded i j (Some (true, None, ∅)).
Abbreviation play es n := (run req true es (initial 0 n)).
Definition ended (r : Res unit World) : option bool := match r with Ok w => result w | _ => None end.
Definition signal (r : Res unit World) : bool := match r with Ok w => fired w | _ => false end.

(** One destination with one address. *)
Definition good_run : list Event := [Resolved 0 [a1]; Connected 0 0 true; accept 0 0; Notified 0 0 5 received; Woken 0 0].
Lemma good_run_ends : ended (play good_run 1) = Some true.
Proof. vm_compute. reflexivity. Qed.

(** The first address has the image, then the second refuses: nobody is left to
    wait for, but the signal is not sent. *)
Definition refused_last : list Event :=
  [Resolved 0 [a1; a2]; Connected 0 0 true; Connected 0 1 true; accept 0 0; Notified 0 0 5 received; Responded 0 1 (Some (false, None, ∅))].
Definition state_of (es : list Event) (n : nat) : World := match play es n with Ok w => w | _ => initial 0 n end.
Lemma waits_for_nothing : let w := state_of refused_last 1 in play refused_last 1 = Ok w /\ ips_needed (progress w) = ∅ /\ fired w = false /\
  option_map h_task (get_host 0 0 w) = Some Waiting /\ option_map h_task (get_host 0 1 w) = Some (Finished false).
Proof. split_and!; vm_compute; reflexivity. Qed.

(** The first destination is done before the host of the second is resolved: the
    signal is sent, and the second is a success as soon as it accepts. *)
Definition early : list Event :=
  [Resolved 0 [a1]; Connected 0 0 true; accept 0 0; Notified 0 0 5 received; Woken 0 0; Resolved 1 [a2]; Connected 1 0 true; accept 1 0; Woken 1 0].
Lemma succeeds_early : ended (play early 2) = Some true.
Proof. vm_compute. reflexivity. Qed.

(** Two destinations at one address: the end of one download counts for both. *)
Definition one_address : list Event :=
  [Resolved 0 [a1]; Resolved 1 [a1]; Connected 0 0 true; Connected 1 0 true; accept 0 0; accept 1 0; Notified 0 0 5 received; Woken 0 0; Woken 1 0].
Lemma succeeds_for_both : ended (play one_address 2) = Some true.
Proof. vm_compute. reflexivity. Qed.

Definition after_accept : list Event := [Resolved 0 [a1]; Connected 0 0 true; accept 0 0].
Lemma after_accept_ok : play after_accept 1 = Ok (state_of after_accept 1).
Proof. vm_compute. reflexivity. Qed.
Lemma good_run_ok : play good_run 1 = Ok (state_of good_run 1).
Proof. vm_compute. reflexivity. Qed.
Lemma after_accept_hosts i j : get_host i j (state_of after_accept 1) =
  if decide (i = 0 /\ j = 0) then Some {| h_addr := a1; h_open := true; h_task := Waiting |} else None.
Proof. destruct i as [|i], j as [|j]; by vm_compute. Qed.
End UploadExample.

Lemma exit_zero_sound_witness : result (UploadExample.state_of UploadExample.good_run 1) = Some true /\
  exists j, succeeded UploadExample.req true 0 1 UploadExample.good_run 0 j.
Proof.
  assert (Hr : result (UploadExample.state_of UploadExample.good_run 1) = Some true) by (vm_compute; reflexivity). split; [exact Hr|].
  exact (exit_zero_sound UploadExample.req true 0 1 UploadExample.good_run _ UploadExample.good_run_ok Hr 0 ltac:(lia)).
Defined.

Lemma closing_ends_witness : exists w', run UploadExample.req true [Closed 0 0 9] (UploadExample.state_of UploadExample.after_accept 1) = Ok w' /\ fired w' = true.
Proof.
  destruct (closing_ends UploadExample.req true 0 1 UploadExample.after_accept (UploadExample.state_of UploadExample.after_accept 1) [(0, 0, 9%Z)]
    UploadExample.after_accept_ok) as (w' & Hr & Hf & _).
  - intros i j h. rewrite UploadExample.after_accept_hosts. case_decide; [|discriminate]. intros [= <-]. discriminate.
  - apply NoDup_singleton.
  - discriminate.
  - intros i j. rewrite UploadExample.after_accept_hosts. cbn. rewrite list_elem_of_singleton. case_decide as Hij.
    + destruct Hij as [-> ->]. split; [|reflexivity]. intros _. eexists. split; reflexivity.
    + split; [|by intros (h & [=] & _)]. intros [= -> ->]. by destruct Hij.
  - apply Forall_singleton. cbn. lia.
  - exists w'. split; [exact Hr|exact Hf].
Defined.
