(* ===== verification/Http.v ===== *)
(** * The HTTP server of the daemon: [src/daemon/http.rs]

    Routes, and what is answered for each of them, as a value that is written as
    JSON.  Sockets, headers and the reports on threads are not modelled. *)
From S2P Require Import Prelude Serde VirtualPath Mask Ids Time Signature Config Commands Fs MetaDir Text Metadata MetaScan ConfigMap Peers Progress Remote BaseDir Tracking.
Import VPath ImageId.
Local Open Scope st_scope.

Abbreviation MachineId := MachineId.MachineId.

Module Route.
Inductive ClusterRoute := CDownloading | CDeleted | CComplete | CWatching | CByDir | CConfigs.
Inductive t :=
| NotFound | BadRequest | Websocket (ws : string) | Status | BaseDirs | Configs | Cluster (r : ClusterRoute)
| Downloading | Deleted | Watching | Watched | Peers | ListDir (path : VPath).

(** The last branches of [parse]. *)
Definition cluster_route (path : string) : t :=
  if decide (path = "/cluster/downloading/") then Cluster CDownloading
  else if decide (path = "/cluster/complete/") then Cluster CComplete
  else if decide (path = "/cluster/deleted/") then Cluster CDeleted
  else if decide (path = "/cluster/dirs/") then Cluster CByDir
  else if decide (path = "/cluster/configs/") then Cluster CConfigs
  else if decide (path = "/cluster/watching/") then Cluster CWatching
  else NotFound.

Definition parse (path : string) (wh : option string) : t :=
  if decide (path = "/") then match wh with Some wh => Websocket wh | None => NotFound end
  else if decide (path = "/status/") then Status
  else if decide (path = "/downloading/") then Downloading
  else if decide (path = "/base-dirs/") then BaseDirs
  else if decide (path = "/configs/") then Configs
  else if decide (path = "/deleted/") then Deleted
  else if decide (path = "/watching/") then Watching
  else if decide (path = "/watched/") then Watched
  else if decide (path = "/peers/") then Peers
  else if String.prefix "/list-dir/" path then
    match try_from (String.substring 9 (String.length path - 9) path) with Ok p => ListDir p | _ => NotFound end
  else if String.prefix "/cluster/" path then cluster_route path
  else NotFound.
End Route.

(** [headers_received]: the path, and the handshake if the headers ask for one. *)
Definition headers_received (path : option string) (upgrade : Res unit (option string)) : Route.t :=
  match upgrade with
  | Ok up => Route.parse (default "/"%string path) up
  | _ => Route.BadRequest
  end.

Inductive RecvMode := Hijack | BufferedUpfront.
Definition recv_mode (r : Route.t) : RecvMode := match r with Route.Websocket _ => Hijack | _ => BufferedUpfront end.

(** ** Answers *)

(** The structures that are written as JSON; paths and names are keys. *)
Record ProgressView := { pv_image_id : string; pv_mask : Mask; pv_stalled : bool; pv_source : bool }.
Record BaseDirView := { bv_hash : string; bv_num_subdirs : Z; bv_num_downloading : Z; bv_last_scan : Z }.
Record ConfigView := { cv_append_only : bool; cv_num_levels : nat; cv_auto_clean : bool }.

Inductive Body :=
| JStatus (machine_id hostname : string)
| JDownloading (l : gmap VPath ProgressView)
| JBaseDirs (l : gmap VPath BaseDirView)
| JConfigs (l : gmap string ConfigView)
| JDeleted (l : list (VPath * string))
| JWatching (l : gset VPath)
| JWatched (l : gmap VPath string)
| JPeers (l : gmap MachineId Peer)
| JListDir (l : gmap string Database.State)
| JClusterDownloading (l : list (string * gmap VPath ProgressView))
| JClusterImages (l : list (string * list (VPath * string)))
| JClusterWatching (l : list (string * gset VPath))
| JByDir (l : gmap VPath (gset MachineId))
| JHosts (l : gmap MachineId HostInfo)
| Text (s : string)
| Upgraded (accept : string).

Record Response := { status : Z; body : Body }.
Definition serve_json (b : Body) : Response := {| status := 200; body := b |}.

Section Serve.
Context {W : Type} `{OpenAt W} `{HexCodec}.
Context (base_dir : MetaDir.Dir (W := W)) (decode_state : bytes -> Res string Database.State).

(** The daemon as the server sees it. *)
Record Daemon := { d_sys : Sys; d_meta : Inner W }.

Definition ask {A} (m : ST Sys Never A) : ST Daemon MetaDir.Error A := fun s =>
  match m (d_sys s) with
  | (Ok a, x) => (Ok a, {| d_sys := x; d_meta := d_meta s |})
  | (Err e, _) => match e with end
  | (Panic, x) => (Panic, {| d_sys := x; d_meta := d_meta s |})
  end.
Definition ask_meta {A} (m : Metadata.M (W := W) A) : ST Daemon MetaDir.Error A := fun s =>
  let (r, x) := m (d_meta s) in (r, {| d_sys := d_sys s; d_meta := x |}).

Definition image_names (l : list (VPath * ImageId)) : list (VPath * string) := map (fun e => (fst e, ImageId.display (snd e))) l.

Definition in_progress_view (l : gmap VPath ShortProgress) : gmap VPath ProgressView :=
  (fun p => {| pv_image_id := ImageId.display (sp_image_id p); pv_mask := sp_mask p; pv_stalled := sp_stalled p; pv_source := sp_source p |}) <$> l.
Definition base_dirs_view (l : gmap VPath ShortBasedir) : gmap VPath BaseDirView :=
  (fun d => {| bv_hash := Hash.display (sb_hash d); bv_num_subdirs := num_subdirs d; bv_num_downloading := num_downloading d; bv_last_scan := last_scan d |}) <$> l.
Definition configs_view (l : gmap string Directory) : gmap string ConfigView :=
  (fun d => {| cv_append_only := append_only d; cv_num_levels := num_levels d; cv_auto_clean := auto_clean d |}) <$> l.
Definition host_downloading_view (l : gmap VPath Peers.Downloading) : gmap VPath ProgressView :=
  (fun p => {| pv_image_id := ImageId.display (dw_image p); pv_mask := dw_mask p; pv_stalled := dw_stalled p; pv_source := dw_source p |}) <$> l.

(** The map of hosts, under their printed names. *)
Definition by_machine {A} (f : HostData -> A) (l : gmap MachineId HostData) : list (string * A) :=
  map (fun e => (MachineId.display (fst e), f (snd e))) (map_to_list l).

Definition cluster_body (r : Route.ClusterRoute) (p : Peers.Peers) : Body :=
  match r with
  | Route.CDownloading => JClusterDownloading (by_machine (fun d => host_downloading_view (downloading d)) (by_host p))
  | Route.CDeleted => JClusterImages (by_machine (fun d => image_names (elements (deleted d))) (by_host p))
  | Route.CComplete => JClusterImages (by_machine (fun d => image_names (map_to_list (complete d))) (by_host p))
  | Route.CWatching => JClusterWatching (by_machine watching (by_host p))
  | Route.CByDir => JByDir (all_dirs (Peers.configs p))
  | Route.CConfigs => JHosts (all_hosts (Peers.configs p))
  end.

(** [start_response], at a time of the two clocks, with the answers of the checks
    of watched directories. *)
Definition start_response (wall now : Z) (answer : nat -> Check) (r : Route.t) : ST Daemon MetaDir.Error Response :=
  match r with
  | Route.Websocket ws => st_ret {| status := 101; body := Upgraded ws |}
  | Route.Status => ask (look (fun s => serve_json (JStatus (MachineId.display (Config.machine_id (Tracking.config s))) (Config.hostname (Tracking.config s)))))
  | Route.Downloading => l <-- ask get_in_progress ;; st_ret (serve_json (JDownloading (in_progress_view l)))
  | Route.BaseDirs => l <-- ask (get_base_dirs wall now) ;; st_ret (serve_json (JBaseDirs (base_dirs_view l)))
  | Route.Configs => ask (look (fun s => serve_json (JConfigs (configs_view (Config.dirs (Tracking.config s))))))
  | Route.Deleted => l <-- ask get_deleted ;; st_ret (serve_json (JDeleted (image_names l)))
  | Route.Watching => l <-- ask tracking_get_watching ;; st_ret (serve_json (JWatching l))
  | Route.Watched => l <-- ask (get_watched ImageId.display answer) ;; st_ret (serve_json (JWatched l))
  | Route.Peers => ask (look (fun s => serve_json (JPeers (Peers.peers (sys_peers s)))))
  | Route.ListDir path => l <-- ask_meta (meta_scan_dir base_dir decode_state path) ;; st_ret (serve_json (JListDir l))
  | Route.Cluster c => ask (look (fun s => serve_json (cluster_body c (sys_peers s))))
  | Route.BadRequest => st_ret {| status := 400; body := Text "Bad Request" |}
  | Route.NotFound => st_ret {| status := 404; body := Text "Not found" |}
  end.
End Serve.

(** ** What holds *)

(** The one path of a route, but for the directories and the websocket. *)
Definition route_path (r : Route.t) : option string :=
  match r with
  | Route.Status => Some "/status/" | Route.Downloading => Some "/downloading/" | Route.BaseDirs => Some "/base-dirs/"
  | Route.Configs => Some "/configs/" | Route.Deleted => Some "/deleted/" | Route.Watching => Some "/watching/"
  | Route.Watched => Some "/watched/" | Route.Peers => Some "/peers/"
  | Route.Cluster Route.CDownloading => Some "/cluster/downloading/" | Route.Cluster Route.CComplete => Some "/cluster/complete/"
  | Route.Cluster Route.CDeleted => Some "/cluster/deleted/" | Route.Cluster Route.CByDir => Some "/cluster/dirs/"
  | Route.Cluster Route.CConfigs => Some "/cluster/configs/" | Route.Cluster Route.CWatching => Some "/cluster/watching/"
  | _ => None
  end%string.

Lemma prefix_rest a s : String.prefix a s = true -> s = a +:+ String.substring (String.length a) (String.length s - String.length a) s.
Proof.
  revert s. induction a as [|c a IH]; intros s Hp.
  - change (s = String.substring 0 (String.length s - 0) s). rewrite Nat.sub_0_r. clear Hp. induction s as [|c s IHs]; cbn; [done|]. by rewrite <- IHs.
  - destruct s as [|c' s]; [done|]. cbn in Hp. destruct (Ascii.ascii_dec c c') as [->|]; [|done].
    change (String c' s = String c' (a +:+ String.substring (String.length a) (String.length s - String.length a) s)). f_equal. by apply IH.
Qed.

(** Every path has its route, and every route its path. *)
Lemma parse_spec path wh : match Route.parse path wh with
  | Route.NotFound => forall r, route_path r <> Some path
  | Route.BadRequest => False
  | Route.Websocket ws => path = "/"%string /\ wh = Some ws
  | Route.ListDir p => exists rest, path = ("/list-dir" +:+ rest)%string /\ try_from rest = Ok p
  | r => route_path r = Some path
  end.
Proof.
  unfold Route.parse. repeat (case_decide; [subst|]); try done.
  - destruct wh; [done|]. by intros [| | | | | |[]| | | | | |].
  - destruct (String.prefix "/list-dir/" path) eqn:El.
    + assert (Hno : forall r, route_path r <> Some path).
      { intros [| | | | | |[]| | | | | |] [=]; subst; discriminate. }
      assert (Hrest : String.prefix "/list-dir" path = true).
      { clear -El. do 9 (destruct path as [|[[][][][][][][][]] path]; try discriminate El). by destruct path. }
      apply prefix_rest in Hrest. cbn [String.length] in Hrest. destruct (try_from _) as [p|e|] eqn:Et; [|done..]. eexists. split; [exact Hrest|exact Et].
    + destruct (String.prefix "/cluster/" path) eqn:Ec.
      * unfold Route.cluster_route. repeat (case_decide; [by subst|]). intros [| | | | | |[]| | | | | |] [=]; congruence.
      * intros [| | | | | |[]| | | | | |] [=]; subst; try congruence; discriminate.
Qed.

Section ServeLemmas.
Context {W : Type} `{OpenAtLaws W} `{HexCodec}.
Context (base_dir : MetaDir.Dir (W := W)) (decode_state : bytes -> Res string Database.State).

Lemma ask_kept {A} (m : ST Sys Never A) (s : Daemon (W := W)) r s' : kept m -> Tracks (d_sys s) -> ask m s = (r, s') ->
  r <> Panic /\ d_meta s' = d_meta s /\ Tracks (d_sys s').
Proof.
  intros Hm Hs Hr. specialize (Hm _ Hs). unfold ask in Hr. destruct (m (d_sys s)) as [[a|[]|] x]; [|done]. by injection Hr as <- <-.
Qed.

Lemma ask_then {A} (m : ST Sys Never A) (f : A -> Response) (s : Daemon (W := W)) r s' : kept m -> Tracks (d_sys s) ->
  (x <-- ask m ;; st_ret (f x)) s = (r, s') -> r <> Panic /\ d_meta s' = d_meta s /\ Tracks (d_sys s').
Proof.
  intros Hm Hs Hr. unfold st_bind in Hr. destruct (ask m s) as [r1 s1] eqn:E. destruct (ask_kept _ _ _ _ Hm Hs E) as (Hp & ? & ?).
  destruct r1; [|by injection Hr as <- <-|done]. by injection Hr as <- <-.
Qed.

(** The pages never panic and keep the tables; only the listing of a directory
    asks the metadata store, and it does not touch the subsystem. *)
Lemma pages_safe wall now answer route (s : Daemon (W := W)) r s' : Tracks (d_sys s) ->
  start_response base_dir decode_state wall now answer route s = (r, s') ->
  match route with
  | Route.ListDir p => d_sys s' = d_sys s
  | _ => r <> Panic /\ d_meta s' = d_meta s /\ Tracks (d_sys s')
  end.
Proof.
  intros Hs Hr. destruct route as [| |ws| | | |c| | | | | |p]; cbn [start_response] in Hr;
    try (by injection Hr as <- <-); try (by apply (ask_kept _ _ _ _ (kept_look _) Hs Hr));
    try (by apply (ask_then _ _ _ _ _ (kept_look _) Hs Hr)).
  - apply (ask_then _ _ _ _ _ (kept_bind _ _ (kept_poll_watched answer) (fun _ => kept_look _)) Hs Hr).
  - unfold st_bind, ask_meta in Hr. destruct (meta_scan_dir _ _ p (d_meta s)) as [[]]; by injection Hr as <- <-.
Qed.
End ServeLemmas.

Module HttpExample.
(** The path is not checked: a page can ask for what is beside the signatures. *)
Lemma list_beside : Route.parse "/list-dir/../indexes" None = Route.ListDir (VPath.mk [Path.RootDir; Path.ParentDir; Path.Normal "indexes"%string]).
Proof. vm_compute. reflexivity. Qed.
Lemma websocket_or_not : Route.parse "/" (Some "key"%string) = Route.Websocket "key" /\ Route.parse "/" None = Route.NotFound /\
  Route.parse "/cluster/dirs/" None = Route.Cluster Route.CByDir.
Proof. vm_compute. split_and!; reflexivity. Qed.
End HttpExample.
