(* ===== verification/Startup.v ===== *)
(** * Start of the daemon

    [main] ([src/daemon/main.rs]) with [Meta::new], [Peers::new] and
    [peers::start] ([src/daemon/peers/mod.rs]), and the two sources of peers,
    [peers/file.rs] and [peers/cantal.rs].  The argument parser, threads,
    sockets and the loop of events are not modelled; whether a socket can be
    bound is an argument. *)
From S2P Require Import Prelude Serde VirtualPath Ids Time Config ConfigMap Peers Gossip Fs MetaDir Metadata Remote BaseDir Tracking.
Local Open Scope res_scope.

(** ** Peers of a file *)

Section PeerFile.
(** [resolve_auto] and [pick_one] of the resolver. *)
Context (resolve_auto : string -> Z -> Res string (list SocketAddr)) (pick_one : list SocketAddr -> option SocketAddr).

Definition resolve_peer (port : Z) (host : string) : option (SocketAddr * string) :=
  match resolve_auto host port with
  | Ok addrs => addr ← pick_one addrs; Some (addr, host)
  | _ => None
  end.

(** [buffer_unordered]: [answered] is the list of hosts in the order in which
    their look-ups ended; a later entry of an address replaces an earlier. *)
Definition read_peers (port : Z) (answered : list string) : gmap SocketAddr string :=
  foldl (fun m e => <[fst e := snd e]> m) ∅ (omap (resolve_peer port) answered).
End PeerFile.

(** ** Peers of cantal *)

(** What is used of [tk_cantal]'s peer. *)
Record CantalPeer := { cp_primary_addr : option string; cp_id : string; cp_hostname : string; cp_name : string }.

Section Cantal.
Context `{HexCodec} (parse_addr : string -> option SocketAddr).

Definition cantal_peer (port : Z) (p : CantalPeer) : option (MachineId.MachineId * Peer) :=
  match cp_primary_addr p ≫= parse_addr, MachineId.from_str (cp_id p) with
  | Some a, Ok mid =>
      Some (mid, {| id := mid; addr := {| ip := ip a; sport := port |}; peer_hostname := cp_hostname p; name := cp_name p |})
  | _, _ => None
  end.

(** A round of [spawn_fetcher]: the cell gets the new table; an error leaves it. *)
Definition cantal_round (port : Z) (answer : Res string (list CantalPeer)) (p : Peers) : Peers :=
  match answer with
  | Ok l =>
      {| by_host := by_host p; configs := Peers.configs p;
         peers := foldl (fun m e => <[fst e := snd e]> m) ∅ (omap (cantal_peer port) l); messages := messages p |}
  | _ => p
  end.
End Cantal.

(** ** [main] *)

Record Args := {
  a_config_dir : Path.t; a_db_dir : Path.t; a_port : Z;
  a_machine_id : option MachineId.MachineId; a_hostname : option string;
  a_cantal : bool; a_aggressive_index_gc : bool
}.
Definition default_args (system_hostname : option string) : Args :=
  {| a_config_dir := Path.parse "/etc/ciruela"; a_db_dir := Path.parse "/var/lib/ciruela"; a_port := 24783;
     a_machine_id := None; a_hostname := system_hostname; a_cantal := false; a_aggressive_index_gc := false |}.

(** [Peers::new]: nothing is known. *)
Definition peers_new : Peers := {| by_host := ∅; Peers.configs := ConfigMap.new; peers := ∅; messages := Some [] |}.

Section Main.
Context `{HexCodec} {W : Type} `{OpenAt W}.
Context (blake2b_256 : bytes -> bytes) (cbor : Value -> bytes) `{Wire (gset VPath.VPath)}.

(** The configuration; an [Err] is the code of [exit]. *)
Definition read_machine_id (file : Res string string) (a : Args) : Res Z MachineId.MachineId :=
  match a_machine_id a with
  | Some mid => Ok mid
  | None => buf <-? res_map_err (fun _ => 1%Z) file ;; res_map_err (fun _ => 1%Z) (MachineId.read buf)
  end.

Definition read_config (file : Res string string) (read_dirs : Path.t -> Res string (gmap string Directory)) (a : Args) : Res Z Config :=
  mid <-? read_machine_id file a ;;
  dirs <-? res_map_err (fun _ => 1%Z) (read_dirs (Path.join (a_config_dir a) (Path.parse "configs"))) ;;
  Ok {| Config.machine_id := mid; Config.hostname := default "localhost"%string (a_hostname a); port := a_port a; db_dir := a_db_dir a;
        config_dir := a_config_dir a; aggressive_index_gc := a_aggressive_index_gc a; Config.dirs := dirs |}.

(** [Meta::new]. *)
Definition meta_new (cfg : Config) (w : W) : Res Z (MetaDir.Dir (W := W) * Inner W) :=
  match open_root (db_dir cfg) w with
  | (Ok d, w') => Ok (d, {| fs := w'; writing := ∅; collecting := None |})
  | (Err _, _) => Err 4%Z
  | (Panic, _) => Panic
  end.

(** [gossip::start]; [bound] is whether the socket was bound. *)
Definition gossip_start (bound : bool) (cfg : Config) (p : Peers) (future : gmap SocketAddr string) : Res unit Gossip :=
  config_list <-? expect (start_config_list (Config.dirs cfg)) ;;
  if bound then
    Ok {| shared := p; self_id := Config.machine_id cfg; config_hash := Hash.for_object blake2b_256 cbor config_list;
          config_list := config_list; future_peers := future |}
  else Err tt.

(** [peers::start].  With a file of peers the gossip starts when the file was
    read, here [later], and a socket that cannot be bound is then a panic. *)
Inductive GossipTask := Running (g : Gossip) | ReadingPeers (file : Path.t).
Definition peers_start (bound : bool) (cfg : Config) (peer_file : option Path.t) (p : Peers) : Res unit GossipTask :=
  match peer_file with
  | Some file => Ok (ReadingPeers file)
  | None => res_map Running (gossip_start bound cfg p ∅)
  end.
Definition later (bound : bool) (cfg : Config) (p : Peers) (future : gmap SocketAddr string) : Res unit Gossip :=
  match gossip_start bound cfg p future with Ok g => Ok g | _ => Panic end.

Record Daemon := {
  dm_config : Config; dm_root : MetaDir.Dir (W := W); dm_meta : Inner W; dm_sys : Sys; dm_gossip : GossipTask
}.

(** [random] and [now]: of [State::new].  [http] is whether the TCP socket was
    bound, [udp] whether the other was. *)
Definition main (file : Res string string) (read_dirs : Path.t -> Res string (gmap string Directory)) (http udp : bool)
    (random now : Z) (a : Args) (w : W) : Res Z Daemon :=
  cfg <-? read_config file read_dirs a ;;
  meta <-? meta_new cfg w ;;
  let remote := remote_new (Config.hostname cfg) (Config.machine_id cfg) in
  let peer_file := if a_cantal a then None else Some (Path.join (config_dir cfg) (Path.parse "peers.txt")) in
  let sys := tracking_new random now cfg remote peers_new in
  if negb http then Err 1%Z
  else
    gossip <-? res_map_err (fun _ => 1%Z) (peers_start udp cfg peer_file peers_new) ;;
    Ok {| dm_config := cfg; dm_root := fst meta; dm_meta := snd meta; dm_sys := sys; dm_gossip := gossip |}.
End Main.

(** ** What holds *)

Lemma table_of_in `{Countable K} {A} (l : list (K * A)) (m : gmap K A) k x :
  foldl (fun m e => <[fst e := snd e]> m) m l !! k = Some x -> (k, x) ∈ l \/ m !! k = Some x.
Proof.
  revert m. induction l as [|[k' y] l IH]; intros m Hl; cbn in Hl; [by right|].
  destruct (IH _ Hl) as [?|[[<- <-]|[_ ?]]%lookup_insert_Some]; [left; by right|left; by left|by right].
Qed.
Lemma table_of_has `{Countable K} {A} (l : list (K * A)) (m : gmap K A) k :
  is_Some (foldl (fun m e => <[fst e := snd e]> m) m l !! k) <-> k ∈ map fst l \/ is_Some (m !! k).
Proof.
  revert m. induction l as [|[k' y] l IH]; intros m; cbn; [by rewrite elem_of_nil; naive_solver|].
  rewrite IH, elem_of_cons, lookup_insert_is_Some'. naive_solver.
Qed.
Lemma table_of_perm `{Countable K} {A} (l l' : list (K * A)) : NoDup (map fst l) -> l ≡ₚ l' ->
  foldl (fun m e => <[fst e := snd e]> m) ∅ l = foldl (fun m e => <[fst e := snd e]> m) (∅ : gmap K A) l'.
Proof.
  intros Hnd Hp. apply map_eq. intros k. apply option_eq. intros x.
  enough (Hd : forall l1 l2 : list (K * A), NoDup (map fst l1) -> l1 ≡ₚ l2 ->
    foldl (fun m e => <[fst e := snd e]> m) (∅ : gmap K A) l1 !! k = Some x -> foldl (fun m e => <[fst e := snd e]> m) (∅ : gmap K A) l2 !! k = Some x).
  { split; apply Hd; [done|done|by rewrite <- Hp|done]. }
  clear. intros l1 l2 Hnd Hp Hl. destruct (table_of_in _ _ _ _ Hl) as [Hin|Hn]; [|by rewrite lookup_empty in Hn].
  destruct (proj2 (table_of_has l2 ∅ k)) as [y Hy]; [left; rewrite <- Hp; by apply (list_elem_of_fmap_2 fst) in Hin|].
  destruct (table_of_in _ _ _ _ Hy) as [Hin'|Hn]; [|by rewrite lookup_empty in Hn]. rewrite <- Hp in Hin'. rewrite Hy. f_equal.
  apply list_elem_of_lookup in Hin as [i Hi], Hin' as [j Hj].
  assert (i = j) as <-; [|congruence]. eapply (NoDup_lookup (map fst l1)); [done|..]; by rewrite list_lookup_fmap, ?Hi, ?Hj.
Qed.

Section PeerFileLemmas.
Context (resolve_auto : string -> Z -> Res string (list SocketAddr)) (pick_one : list SocketAddr -> option SocketAddr).
Abbreviation read_peers := (read_peers resolve_auto pick_one).
Abbreviation resolve_peer := (resolve_peer resolve_auto pick_one).

(** Every host that can be looked up is there, under the address that was
    picked, and nothing else; names with one address share its entry. *)
Lemma read_peers_spec port answered :
  (forall a h, read_peers port answered !! a = Some h -> h ∈ answered /\ resolve_peer port h = Some (a, h)) /\
  (forall a h, h ∈ answered -> resolve_peer port h = Some (a, h) -> is_Some (read_peers port answered !! a)).
Proof.
  unfold Startup.read_peers. split; intros a h.
  - intros [Hin|Hn]%table_of_in; [|by rewrite lookup_empty in Hn]. apply list_elem_of_omap in Hin as (h' & Hin & Hr).
    assert (h' = h) as ->; [|done]. unfold Startup.resolve_peer in Hr. destruct (resolve_auto h' port); [|done..].
    by apply bind_Some in Hr as (? & _ & [= _ ->]).
  - intros Hin Hr. apply table_of_has. left. apply (list_elem_of_fmap_2 fst _ (a, h)), list_elem_of_omap. by exists h.
Qed.

(** The order of the answers only matters for hosts of the same address. *)
Lemma read_peers_order port l l' : l ≡ₚ l' -> NoDup (map fst (omap (resolve_peer port) l)) -> read_peers port l = read_peers port l'.
Proof. intros Hp Hnd. apply table_of_perm; [done|]. by rewrite Hp. Qed.
End PeerFileLemmas.

(** After a round the table has the peers of cantal with an address, each under
    its own identifier and with the port of this daemon. *)
Lemma cantal_round_spec `{HexCodec} parse_addr port l p mid x : peers (cantal_round parse_addr port (Ok l) p) !! mid = Some x ->
  id x = mid /\ sport (addr x) = port /\ exists c a, c ∈ l /\ MachineId.from_str (cp_id c) = Ok mid /\
    cp_primary_addr c ≫= parse_addr = Some a /\ ip (addr x) = ip a.
Proof.
  intros [Hin|Hn]%table_of_in; [|by rewrite lookup_empty in Hn]. apply list_elem_of_omap in Hin as (c & Hc & Hp).
  unfold cantal_peer in Hp. destruct (_ ≫= parse_addr) as [a|] eqn:Ea; [|done]. destruct (MachineId.from_str (cp_id c)) as [m| |] eqn:Em; [|done..].
  injection Hp as -> <-. split_and!; [done..|]. by exists c, a.
Qed.

Section MainLemmas.
Context `{HexCodec} {W : Type} `{OpenAt W}.
Context (blake2b_256 : bytes -> bytes) (cbor : Value -> bytes) `{Wire (gset VPath.VPath)}.

Lemma gossip_start_ok bound cfg p future g : gossip_start blake2b_256 cbor bound cfg p future = Ok g ->
  p = peers_new -> gossip_ok blake2b_256 cbor g /\ self_id g = Config.machine_id cfg /\ future_peers g = future /\
  Some (config_list g) = start_config_list (Config.dirs cfg).
Proof.
  unfold gossip_start. destruct (start_config_list _) as [l|]; [|done]. cbn. destruct bound; [|done]. intros [= <-] ->.
  split; [|done]. split_and!; [apply new_well_formed|apply lookup_empty..].
Qed.

(** A daemon that starts has the configuration of its arguments and files, and
    every part of it starts in a state of its invariant; otherwise the process
    ends with code 1 or 4, or panics. *)
Lemma main_starts file read_dirs http udp random now a w :
  match main blake2b_256 cbor file read_dirs http udp random now a w with
  | Ok d =>
      read_config file read_dirs a = Ok (dm_config d) /\ Tracks (dm_sys d) /\ Tracking.config (dm_sys d) = dm_config d /\
      tables_ok (remote (dm_sys d)) /\ writing (dm_meta d) = ∅ /\ collecting (dm_meta d) = None /\
      match dm_gossip d with
      | Running g => gossip_ok blake2b_256 cbor g /\ self_id g = Config.machine_id (dm_config d)
      | ReadingPeers _ => a_cantal a = false
      end
  | Err code => (code = 1 \/ code = 4)%Z
  | Panic => True
  end.
Proof.
  unfold main. destruct (read_config file read_dirs a) as [cfg|c|] eqn:Ec; cbn; [| |done].
  2:{ left. revert Ec. unfold read_config, read_machine_id. generalize (Path.join (a_config_dir a) (Path.parse "configs")). intros p.
      destruct (a_machine_id a) as [mid|]; cbn; [destruct (read_dirs p); by intros [= <-]|].
      destruct file as [buf| |]; cbn; [|by intros [= <-]|done]. destruct (MachineId.read buf); cbn; [|by intros [= <-]|done].
      destruct (read_dirs p); by intros [= <-]. }
  unfold meta_new. destruct (open_root (db_dir cfg) w) as [[d|e|] w']; cbn; [|by right|done]. destruct http; cbn; [|by left].
  destruct (peers_start _ _ udp cfg _ peers_new) as [g| |] eqn:Eg; cbn; [|by left|done].
  split_and!; try done; [by apply tracking_new_tracks; eexists|apply remote_new_ok|].
  unfold peers_start in Eg. destruct (a_cantal a); [|by injection Eg as <-].
  destruct (gossip_start _ _ udp cfg peers_new ∅) as [g'| |] eqn:Es; [|done..]. injection Eg as <-.
  by destruct (gossip_start_ok _ _ _ _ _ Es eq_refl) as (? & ? & _).
Qed.
End MainLemmas.
