(* ===== verification/ClientConn.v ===== *)
(** * The connection of a client: [Client] of [src/proto/client.rs]

    [Client::spawn] starts a task that connects, shakes hands and runs the loop
    of the connection; its owner has a future of the handle.  The requests in
    flight are in [Registry]. *)
From S2P Require Import Prelude Serde VirtualPath Ids Time Signature Commands Wire Registry.

(** Where the task is. *)
Inductive Stage := Connecting | Handshaking | Looping | Ended.

(** The [oneshot] of [ClientFuture]. *)
Inductive Handle := Unresolved | Given | Refused | Discarded.

(** The calls of the listener. *)
Inductive Call := CNotification (n : Notification) | CClosed.

Record Client := { stage : Stage; handle : Handle; conn : Conn; calls : list Call }.

(** [Client::spawn]. *)
Definition spawn : Client := {| stage := Connecting; handle := Unresolved; conn := conn_new; calls := [] |}.

(** The end of the sender of the oneshot, by [send] or by its drop. *)
Definition resolve (h h' : Handle) : Handle := match h with Unresolved => h' | _ => h end.

(** The task fails before there is a dispatcher: the listener is dropped and
    not told. *)
Definition failed (c : Client) : Client :=
  {| stage := Ended; handle := resolve (handle c) Refused; conn := close (conn c); calls := calls c |}.

(** [register_index]. *)
Definition register_index (id : ImageId.ImageId) (c : Client) : Client :=
  {| stage := stage c; handle := handle c; conn := notification (NPublishImage {| pi_id := id |}) (conn c); calls := calls c |}.

(** [ClientFuture::poll]. *)
Definition poll_future (c : Client) : option (Res unit unit) :=
  match handle c with Given => Some (Ok tt) | Refused => Some (Err tt) | Unresolved | Discarded => None end.

Definition notified (effs : list ClientEffect) : list Call :=
  omap (fun e => match e with Notified n => Some (CNotification n) | _ => None end) effs.

Section Steps.
Context `{Wire AppendDir} `{Wire ReplaceDir} `{Wire GetIndex} `{Wire GetIndexAt} `{Wire GetBlock} `{Wire GetBaseDir}.
Context `{Wire AppendDirAck} `{Wire ReplaceDirAck} `{Wire GetIndexResponse} `{Wire GetIndexAtResponse}
  `{Wire GetBlockResponse} `{Wire GetBaseDirResponse} `{Wire string}.
Context `{Wire PublishImage} `{Wire ReceivedImage} `{Wire AbortedImage}.

Definition with_conn (x : Conn) (c : Client) : Client := {| stage := stage c; handle := handle c; conn := x; calls := calls c |}.

Inductive client_step : Client -> Client -> Prop :=
| cs_connected c : stage c = Connecting ->
    client_step c {| stage := Handshaking; handle := handle c; conn := conn c; calls := calls c |}
| cs_failed c : stage c = Connecting \/ stage c = Handshaking -> client_step c (failed c)
| cs_open c : stage c = Handshaking ->
    client_step c {| stage := Looping; handle := resolve (handle c) Given; conn := conn c; calls := calls c |}
| cs_future_dropped c : handle c = Unresolved ->
    client_step c {| stage := stage c; handle := Discarded; conn := conn c; calls := calls c |}
| cs_request r c ch x : handle c = Given -> request r (conn c) = (ch, x) -> client_step c (with_conn x c)
| cs_register id c : handle c = Given -> client_step c (register_index id c)
| cs_drop ch c : client_step c (with_conn (drop_future ch (conn c)) c)
| cs_read_index id res c : client_step c (with_conn (index_read id res (conn c)) c)
| cs_read_block id res c : client_step c (with_conn (block_read id res (conn c)) c)
| cs_send c p x : stage c = Looping -> (Z.of_nat (size (requests (conn c))) < u64_modulus)%Z -> poll (conn c) = Some (p, x) ->
    client_step c (with_conn x c)
| cs_frame m c x effs : stage c = Looping -> client_message m (conn c) = Some (x, effs) ->
    client_step c {| stage := Looping; handle := handle c; conn := x; calls := calls c ++ notified effs |}
| cs_ended c : stage c = Looping ->
    client_step c {| stage := Ended; handle := handle c; conn := close (conn c); calls := calls c ++ [CClosed] |}.

(** ** What holds *)

Record alive_or_done (c : Client) : Prop := {
  ad_conn : reachable (conn c);
  ad_ended : stage c = Ended -> queue (conn c) = None /\ requests (conn c) = ∅;
  ad_handle : handle c = Given -> stage c = Looping \/ stage c = Ended;
  ad_resolved : stage c = Looping \/ stage c = Ended -> handle c <> Unresolved;
  ad_closed : exists l, Forall (fun x => x <> CClosed) l /\
    (calls c = l /\ (stage c = Ended -> handle c <> Given) \/ calls c = l ++ [CClosed] /\ stage c = Ended)
}.

Lemma enqueue_gone w s : queue s = None /\ requests s = ∅ -> queue (enqueue w s) = None /\ requests (enqueue w s) = ∅.
Proof. intros [Hq Hr]. unfold enqueue. by rewrite Hq. Qed.
Lemma response_gone id r s : queue s = None /\ requests s = ∅ -> queue (response id r s) = None /\ requests (response id r s) = ∅.
Proof. apply enqueue_gone. Qed.

Lemma spawn_ok : alive_or_done spawn.
Proof. split; cbn; [apply rtc_refl|done|done|by intros []|]. exists []. split; [constructor|by left]. Qed.

(** A step that only changes the connection. *)
Lemma conn_changed c x : alive_or_done c -> step (conn c) x -> (stage c = Ended -> queue x = None /\ requests x = ∅) -> alive_or_done (with_conn x c).
Proof. intros [] Hs Hx. split; cbn; [by eapply rtc_r|done|done|done|done]. Qed.

Lemma read_step {A} (ok : A -> Response) e id (res : option A) s :
  let s' := match res with Some d => response id (ok d) s | None => error_response id e s end in
  step s s' /\ (queue s = None /\ requests s = ∅ -> queue s' = None /\ requests s' = ∅).
Proof. destruct res; (split; [constructor|apply enqueue_gone]). Qed.

Lemma notified_calls effs : Forall (fun x => x <> CClosed) (notified effs).
Proof. apply Forall_forall. by intros x (e & _ & He)%list_elem_of_omap ->; destruct e. Qed.

Lemma frame_reaches m s x effs : reachable s -> client_message m s = Some (x, effs) -> reachable x.
Proof.
  intros Hs Hm. destruct m as [[id []|id r|n]| |]; cbn in Hm; try (by injection Hm as <- _); try done.
  apply bind_Some in Hm as (y & Hy & [= <- _]). eapply rtc_r; [exact Hs|by econstructor].
Qed.

Lemma client_step_ok c c' : alive_or_done c -> client_step c c' -> alive_or_done c'.
Proof.
  intros Hc Hs. destruct Hs as [c Hst|c Hst|c Hst|c Hh|r c ch x Hh Hr|id c Hh|ch c|id res c|id res c|c p x Hst Hsz Hp|m c x effs Hst Hm|c Hst].
  - destruct Hc. split; cbn; [done|done|intros Hg|by intros []|].
    + destruct (ad_handle0 Hg); congruence.
    + destruct ad_closed0 as (l & Hl & [[E _]|[_ E]]); [|congruence]. exists l. split; [done|]. by left.
  - destruct Hc. assert (Hng : handle c <> Given) by (intros [|]%ad_handle0; destruct Hst; congruence). split; cbn.
    + eapply rtc_r; [done|constructor].
    + done.
    + by right.
    + by destruct (handle c).
    + destruct ad_closed0 as (l & Hl & [[E _]|[_ E]]); [|destruct Hst; congruence]. exists l. split; [done|]. left. split; [done|]. by destruct (handle c).
  - destruct Hc. split; cbn; [done|done|by left|by destruct (handle c)|].
    destruct ad_closed0 as (l & Hl & [[E _]|[_ E]]); [|congruence]. exists l. split; [done|]. by left.
  - destruct Hc. split; cbn; [done|done|done|done|]. destruct ad_closed0 as (l & Hl & [[E _]|E]); exists l; (split; [done|]); [by left|by right].
  - apply conn_changed; [done|by econstructor|]. intros He%ad_ended; [|done]. injection Hr as _ <-. by apply enqueue_gone.
  - apply conn_changed; [done|constructor|]. intros He%ad_ended; [|done]. by apply enqueue_gone.
  - apply conn_changed; [done|constructor|]. by intros He%ad_ended.
  - destruct (read_step (fun d => RespGetIndex {| gir_data := d |}) "IndexNotFound" id res (conn c)) as [Hs Hg].
    apply conn_changed; [done|exact Hs|]. intros He%ad_ended; [|done]. by apply Hg.
  - destruct (read_step (fun d => RespGetBlock {| gbr_data := d |}) "CantReadBlock" id res (conn c)) as [Hs Hg].
    apply conn_changed; [done|exact Hs|]. intros He%ad_ended; [|done]. by apply Hg.
  - apply conn_changed; [done|by econstructor|congruence].
  - destruct Hc. split; cbn; [by eapply frame_reaches|done|by left|by auto|].
    destruct ad_closed0 as (l & Hl & [[-> _]|[_ E]]); [|congruence]. exists (l ++ notified effs). split; [|by left].
    apply Forall_app. split; [done|apply notified_calls].
  - destruct Hc. split; cbn; [eapply rtc_r; [done|constructor]|done|by right|by auto|].
    destruct ad_closed0 as (l & Hl & [[-> _]|[_ E]]); [|congruence]. exists l. split; [done|]. by right.
Qed.

(** The life of a client.  The handle is given only when the connection is open,
    and an owner that waits for it is answered; the listener is told once, last,
    that the connection closed, and always when the handle was given; after the
    end no request waits, also one that is made later; the registry keeps its
    promise all the time. *)
Lemma client_life c : rtc client_step spawn c ->
  reachable (conn c) /\
  (handle c = Given -> stage c = Looping \/ stage c = Ended) /\
  (stage c = Looping \/ stage c = Ended -> handle c <> Unresolved) /\
  (exists l, Forall (fun x => x <> CClosed) l /\
    (calls c = l /\ (stage c = Ended -> handle c <> Given) \/ calls c = l ++ [CClosed] /\ stage c = Ended)) /\
  (stage c = Ended -> forall ch, chans (conn c) !! ch <> Some Waiting).
Proof.
  intros Hr. assert (Hok : alive_or_done c).
  { assert (Hrtc : forall x y, rtc client_step x y -> alive_or_done x -> alive_or_done y) by (induction 1; eauto using client_step_ok).
    eapply Hrtc; [exact Hr|apply spawn_ok]. }
  destruct Hok. split_and!; try done. intros He ch Hw. destruct (ad_ended0 He) as [Hq Hreq].
  pose proof (ok_waiting _ (reachable_ok _ ad_conn0) ch Hw) as Hp. unfold pending, wraps in Hp. rewrite Hq, Hreq, map_to_list_empty in Hp.
  by apply not_elem_of_nil in Hp.
Qed.
End Steps.
