(* ===== verification/EndToEnd.v ===== *)
(** * From a command of the client to the answer of a server

    The composition of [ClientUpload] (what is signed and sent), [Wire] (the
    frame), [Rpc] (the handler), [Metadata] (the store, which checks the
    signature) and [ClientUpload] again (what the answer does to the command). *)
From S2P Require Import Prelude Serde VirtualPath Ids Time Signature Config Commands Fs MetaDir Metadata Wire Index Peers Progress.
From S2P Require Import Remote BaseDir Tracking Reconcile Rpc Blocks Upload BTree Download ConnSet Cli Sync ClientUpload.
Import VPath ImageId.
Local Open Scope st_scope.

(** ** Frames whose payload changes on the way *)

Section Frames.
Context `{Wire AppendDir} `{Wire ReplaceDir} `{Wire GetIndex} `{Wire GetIndexAt} `{Wire GetBlock} `{Wire GetBaseDir}.
Context `{Wire AppendDirAck} `{Wire ReplaceDirAck} `{Wire GetIndexResponse} `{Wire GetIndexAtResponse}
  `{Wire GetBlockResponse} `{Wire GetBaseDirResponse} `{Wire string}.
Context `{Wire PublishImage} `{Wire ReceivedImage} `{Wire AbortedImage}.

(** What the generated codecs do to an upload: the time stamp is sent in whole
    milliseconds ([serialize::timestamp]), the rest arrives as it is. *)
Definition append_carried (c c' : AppendDir) : Prop :=
  ad_path c' = ad_path c /\ ad_image c' = ad_image c /\ ad_signatures c' = ad_signatures c /\
  (from_ms <$> to_ms (ad_timestamp c)) = Some (ad_timestamp c').
Definition replace_carried (c c' : ReplaceDir) : Prop :=
  rd_path c' = rd_path c /\ rd_image c' = rd_image c /\ rd_old_image c' = rd_old_image c /\ rd_signatures c' = rd_signatures c /\
  (from_ms <$> to_ms (rd_timestamp c)) = Some (rd_timestamp c').

(** The request as it arrives. *)
Definition carried (r r' : Request) : Prop :=
  match r, r' with
  | ReqAppendDir c, ReqAppendDir c' => append_carried c c'
  | ReqReplaceDir c, ReqReplaceDir c' => replace_carried c c'
  | _, _ => False
  end.

Lemma request_frame id r r' : request_type r' = request_type r ->
  match r' with
  | ReqAppendDir c => of_value (request_payload r) = Ok c | ReqReplaceDir c => of_value (request_payload r) = Ok c
  | ReqGetIndex c => of_value (request_payload r) = Ok c | ReqGetIndexAt c => of_value (request_payload r) = Ok c
  | ReqGetBlock c => of_value (request_payload r) = Ok c | ReqGetBaseDir c => of_value (request_payload r) = Ok c
  end -> deserialize_message (serialize_req id r) = Ok (MRequest id r').
Proof.
  intros Ht Hp. unfold deserialize_message, serialize_req. cbn [drive visit_seq message_visitor].
  assert (Hv : message_visit_seq [VU64 REQUEST; VStr (request_type_name (request_type r)); VU64 id; request_payload r] = (Ok (MRequest id r'), [])).
  { unfold message_visit_seq. eapply st_bind_run; [reflexivity|]. cbn. unfold visit_request.
    eapply st_bind_run; [apply required_ok, request_type_name_visited|]. eapply st_bind_run; [by apply required_ok|]. rewrite <- Ht.
    destruct r'; cbn in Hp |- *; (eapply st_bind_run; [eapply st_bind_run; [by apply required_ok|reflexivity]|reflexivity]). }
  by rewrite Hv.
Qed.
End Frames.

(** ** Signatures that are accepted *)

Lemma to_ms_range t ms : to_ms t = Some ms -> to_ms (from_ms ms) = Some ms.
Proof.
  unfold to_ms at 1, dur_ms. case_decide as Ht; [|done]. case_decide as Hm; [|done]. intros [= <-]. apply to_from_ms. split; [|done].
  rewrite dur_ms_div. apply Z.div_pos; [done|]. unfold nanos_per_ms. lia.
Qed.

Lemma signature_accepted `{CryptoLaws} d keys sigs sk b pubs pub pk : Signature.sign d keys = Some sigs ->
  sk ∈ keys -> priv_ed25519 sk = Some b -> pub ∈ pubs -> pub_ed25519 pub = Some pk -> matching b pk ->
  existsb (fun sig => Signature.verify d sig pubs) sigs = true.
Proof.
  unfold Signature.sign. intros (sks & Hf & ->)%sign_loop_spec Hsk Hb Hpub Hpk Hm. cbn [app].
  apply list_elem_of_lookup in Hsk as [i Hi]. destruct (Forall2_lookup_l _ _ _ _ _ Hf Hi) as (b' & Hb' & E). rewrite Hb in E. injection E as <-.
  apply existsb_exists. exists (Signature.SshEd25519 (ed25519_signature (cbor_bytes (Signature.sig_value d)) b)). split.
  - apply in_map_iff. exists b. split; [done|]. by apply list_elem_of_In, list_elem_of_lookup_2 with i.
  - apply verify_spec. exists pub, pk. split_and!; [done..|]. by apply ed25519_correct.
Qed.

(** ** The store and the handler *)

Section Store.
Context {W : Type} `{OpenAt W} `{CryptoLaws}.
Context (config : Config.Config) (base_dir : MetaDir.Dir (W := W)).
Context (encode_state : Database.State -> Res string bytes) (decode_state : bytes -> Res string Database.State).
Context (parse_public_key : string -> option PublicKey) (buffered : bytes -> nat).
Abbreviation start_append := (start_append config base_dir encode_state decode_state parse_public_key buffered).
Abbreviation start_replace := (start_replace config base_dir encode_state decode_state parse_public_key buffered).
Abbreviation read_upload_keys := (read_upload_keys config parse_public_key).

(** What [rpc.rs] chains to the handler of an upload: the store decides, then
    the answer is made. *)
Inductive decides (s : Inner W) : Rpc.Pending -> Metadata.Upload -> Inner W -> Prop :=
| decides_append c u s' : start_append c s = (Ok u, s') -> decides s (PAppend c) u s'
| decides_replace c u s' : start_replace c s = (Ok u, s') -> decides s (PReplace c) u s'.

(** The answer, as the client reads it. *)
Inductive answers (s : Sys) (u : Metadata.Upload) : Rpc.Pending -> bool * option string * gmap MachineId.MachineId string -> Sys -> Prop :=
| answers_append c a s' : append_done (ad_path c) (ad_image c) u s = (Ok a, s') ->
    answers s u (PAppend c) (ada_accepted a, ada_reject_reason a, ada_hosts a) s'
| answers_replace c a s' : replace_done (rd_path c) (rd_image c) u s = (Ok a, s') ->
    answers s u (PReplace c) (rda_accepted a, rda_reject_reason a, rda_hosts a) s'.

(** The image and the keys of what is pending: its signatures hold for a
    directory. *)
Definition may_enter (cfg : Directory) (s : Inner W) (v : VPath) (sd : option Signature.SigData) (sigs : list Signature.Signature) : Prop :=
  exists k l d keys w, key v = Some k /\ Config.dirs config !! k = Some cfg /\ level v = Some l /\ l = num_levels cfg /\
    sd = Some d /\ read_upload_keys cfg (fs s) = (Ok keys, w) /\ existsb (fun sig => Signature.verify d sig keys) sigs = true.

(** An answer for a conflict is one the client may be told to ignore. *)
Definition conflict_only (img : ImageId) (u : Metadata.Upload) : Prop :=
  match u with
  | Metadata.Accepted _ => True
  | Metadata.Rejected reason other => is_conflict_reason (Some reason) = true /\ exists o, other = Some o /\ o <> img
  end.

Lemma stored_accepts img dir name st new s u s' :
  finish_upload encode_state buffered dir name st new s = (Ok u, s') -> conflict_only img u.
Proof. unfold finish_upload. intros Hr. st_inv Hr. by injection Hr as <- <-. Qed.
Lemma begun_accepts img v dir name i sigs replacing s u s' :
  begin_upload encode_state buffered v dir name i sigs replacing s = (Ok u, s') -> conflict_only img u.
Proof. unfold begin_upload. intros Hr. st_inv Hr. by eapply stored_accepts. Qed.
Lemma joined_accepts img v dir name old sigs s u s' :
  join_upload encode_state buffered v dir name old sigs s = (Ok u, s') -> conflict_only img u.
Proof. unfold join_upload. intros Hr. st_inv Hr. by eapply stored_accepts. Qed.
Lemma done_accepts img dir name st sigs s u s' :
  already_done encode_state buffered dir name st sigs s = (Ok u, s') -> conflict_only img u.
Proof. unfold already_done. intros Hr. st_inv Hr. by injection Hr as <- <-. Qed.

Lemma checked cfg d sigs keys s w r s' : read_upload_keys cfg (fs s) = (Ok keys, w) ->
  existsb (fun sig => Signature.verify d sig keys) sigs = true ->
  on_fs (check_keys config parse_public_key d sigs cfg) s = (Ok r, s') -> r = true.
Proof. intros Hk Hv (w' & Hr & _)%on_fs_ok. unfold check_keys, st_bind in Hr. rewrite Hk in Hr. injection Hr as <- <-. exact Hv. Qed.

Lemma append_conflict_only cfg c s u s' : may_enter cfg s (ad_path c) (append_sig_data c) (ad_signatures c) ->
  start_append c s = (Ok u, s') -> conflict_only (ad_image c) u.
Proof.
  intros (k & l & d & keys & w & Hk & Hc & Hl & E & Hd & Hr & Hv) Hrun. unfold Metadata.start_append in Hrun.
  st_inv Hrun. injection Hrun0 as <- <-. st_inv Hrun. apply lift_ok in Hrun0 as [Hk' ->].
  assert (a = k) as -> by congruence. rewrite Hc in Hrun.
  st_inv Hrun. apply lift_ok in Hrun0 as [Hl' ->]. assert (a = l) as -> by congruence. rewrite decide_False in Hrun by auto.
  st_inv Hrun. apply lift_ok in Hrun0 as [Hd' ->]. assert (a = d) as -> by congruence.
  st_inv Hrun. eapply checked in Hrun0 as ->; [|exact Hr|exact Hv]. cbn [negb] in Hrun.
  st_inv Hrun. st_inv Hrun. st_inv Hrun. cbv zeta in Hrun. destruct (writing _ !! ad_path c) as [old|].
  - case_decide as Ei; [by eapply joined_accepts|]. injection Hrun as <- <-. split; [done|]. by eexists.
  - st_inv Hrun. destruct a2 as [st|]; [|by eapply begun_accepts]. case_decide as Ei; [by eapply done_accepts|].
    injection Hrun as <- <-. split; [done|]. by eexists.
Qed.

Lemma replace_conflict_only cfg c s u s' : may_enter cfg s (rd_path c) (replace_sig_data c) (rd_signatures c) -> append_only cfg = false ->
  rd_old_image c = None -> start_replace c s = (Ok u, s') -> conflict_only (rd_image c) u.
Proof.
  intros (k & l & d & keys & w & Hk & Hc & Hl & E & Hd & Hr & Hv) Hao Hold Hrun. unfold Metadata.start_replace in Hrun.
  st_inv Hrun. injection Hrun0 as <- <-. st_inv Hrun. apply lift_ok in Hrun0 as [Hk' ->].
  assert (a = k) as -> by congruence. rewrite Hc in Hrun.
  st_inv Hrun. apply lift_ok in Hrun0 as [Hl' ->]. assert (a = l) as -> by congruence. rewrite decide_False, Hao in Hrun by auto.
  st_inv Hrun. apply lift_ok in Hrun0 as [Hd' ->]. assert (a = d) as -> by congruence.
  st_inv Hrun. eapply checked in Hrun0 as ->; [|exact Hr|exact Hv]. cbn [negb] in Hrun.
  st_inv Hrun. st_inv Hrun. st_inv Hrun. cbv zeta in Hrun. rewrite Hold in Hrun. cbn [old_image_differs] in Hrun.
  destruct (writing _ !! rd_path c) as [old|].
  - case_decide as Ei; [by eapply joined_accepts|]. injection Hrun as <- <-. split; [done|]. by eexists.
  - st_inv Hrun. destruct a2 as [st|]; [|by eapply begun_accepts]. case_decide as Ei; [by eapply done_accepts|by eapply begun_accepts].
Qed.
End Store.

(** ** What an answer does to the command *)

Lemma answer_settles request foc i j h r u (hosts : gmap MachineId.MachineId string) img w : get_host i j w = Some h -> h_task h = Requesting r ->
  conflict_only img u ->
  exists w' h', handle request foc (Responded i j (Some (accepted u, reject_reason u, hosts))) w = Ok w' /\ get_host i j w' = Some h' /\
    h_task h' = match u with Metadata.Accepted _ => Waiting | Metadata.Rejected _ _ => Finished (negb foc) end.
Proof.
  intros Hg Ht Hu. cbn [ClientUpload.handle]. rewrite Hg, Ht. destruct u as [a|reason other]; cbn [accepted reject_reason].
  - eexists _, (goes Waiting h). split; [done|]. split; [|done]. rewrite (get_set_host i j h); [by rewrite decide_True|exact Hg].
  - destruct Hu as [-> _]. rewrite andb_true_r. eexists _, (goes (Finished (negb foc)) h). split; [done|]. split; [|done].
    etransitivity; [by apply (get_host_targets i j (set_host i j (goes (Finished (negb foc)) h) (on_progress (add_ids hosts) w)))|].
    rewrite (get_set_host i j h); [by rewrite decide_True|exact Hg].
Qed.

(** ** All of it *)

Section Whole.
Context {W : Type} `{OpenAt W} `{HL : CryptoLaws} `{IndexParser} {Name : Type}.
Context `{Wire AppendDir} `{Wire ReplaceDir} `{Wire GetIndex} `{Wire GetIndexAt} `{Wire GetBlock} `{Wire GetBaseDir}.
Context `{Wire AppendDirAck} `{Wire ReplaceDirAck} `{Wire GetIndexResponse} `{Wire GetIndexAtResponse}
  `{Wire GetBlockResponse} `{Wire GetBaseDirResponse} `{Wire string}.
Context `{Wire PublishImage} `{Wire ReceivedImage} `{Wire AbortedImage}.
Context (append_law : forall c, is_Some (to_ms (ad_timestamp c)) -> exists c', of_value (to_value c) = Ok c' /\ append_carried c c').
Context (replace_law : forall c, is_Some (to_ms (rd_timestamp c)) -> exists c', of_value (to_value c) = Ok c' /\ replace_carried c c').
Context (scan : Path.t -> Res string bytes) (get_hash : bytes -> Res IoError bytes).
Context (config : Config.Config) (base_dir : MetaDir.Dir (W := W)).
Context (encode_state : Database.State -> Res string bytes) (decode_state : bytes -> Res string Database.State).
Context (parse_public_key : string -> option PublicKey) (buffered : bytes -> nat).
Abbreviation decides := (decides config base_dir encode_state decode_state parse_public_key buffered).

(** The request as it arrives has the path, the image and the signatures of the
    client, and the server checks the very data that was signed. *)
Lemma request_arrives replace image ts sigs (t : TargetUrl Name) v keys ms id :
  VPath.from (tpath t) = Some v -> Path.render (path v) = tpath t -> to_ms ts = Some ms ->
  (exists l, sigs !! tpath t = Some l /\ Signature.sign {| Signature.sd_path := tpath t; Signature.sd_image := as_ref image; Signature.sd_timestamp := ms |} keys = Some l) ->
  exists r r', upload_request replace image ts sigs t = Some r /\ deserialize_message (serialize_req id r) = Ok (MRequest id r') /\
    exists l d, Signature.sign d keys = Some l /\
      if replace then exists c, r' = ReqReplaceDir c /\ rd_path c = v /\ rd_image c = image /\ rd_old_image c = None /\
        rd_signatures c = l /\ replace_sig_data c = Some d
      else exists c, r' = ReqAppendDir c /\ ad_path c = v /\ ad_image c = image /\ ad_signatures c = l /\ append_sig_data c = Some d.
Proof using append_law replace_law.
  intros Hv Hrender Hms (l & Hl & Hsig). unfold upload_request. rewrite Hl. cbn. rewrite Hv. cbn. destruct replace.
  - destruct (replace_law {| rd_path := v; rd_image := image; rd_old_image := None; rd_timestamp := ts; rd_signatures := l |}) as (c & Hc & E1 & E2 & E3 & E4 & E5);
      [by exists ms|]. cbn in E1, E2, E3, E4, E5. rewrite Hms in E5. injection E5 as E5.
    eexists _, (ReqReplaceDir c). split; [done|]. split; [by apply request_frame|]. eexists l, _. split; [exact Hsig|]. exists c. split_and!; [done..|].
    unfold replace_sig_data. rewrite <- E5, (to_ms_range _ _ Hms). cbn. by rewrite E1, E2, Hrender.
  - destruct (append_law {| ad_path := v; ad_image := image; ad_timestamp := ts; ad_signatures := l |}) as (c & Hc & E1 & E2 & E4 & E5);
      [by exists ms|]. cbn in E1, E2, E4, E5. rewrite Hms in E5. injection E5 as E5.
    eexists _, (ReqAppendDir c). split; [done|]. split; [by apply request_frame|]. eexists l, _. split; [exact Hsig|]. exists c. split_and!; [done..|].
    unfold append_sig_data. rewrite <- E5, (to_ms_range _ _ Hms). cbn. by rewrite E1, E2, Hrender.
Qed.

End Whole.

(** ** An upload to a server in memory *)

Module WholeExample.
(** Codecs of the two requests with the rounding of the time stamp. *)
Abbreviation Row := (VPath * ImageId * option ImageId * list bytes * option Z)%type.
Definition row_value (r : Row) : Value := VU64 (Zpos (encode r)).
Definition value_row (v : Value) : option Row := match v with VU64 (Zpos p) => decode p | _ => None end.
Lemma row_back r : value_row (row_value r) = Some r.
Proof. apply decode_encode. Qed.

#[export] Instance append_wire : Wire AppendDir := {|
  to_value c := row_value (ad_path c, ad_image c, None, map Signature.sig_bytes (ad_signatures c), to_ms (ad_timestamp c));
  of_value v := match value_row v with
    | Some (p, i, _, l, Some ms) => Ok {| ad_path := p; ad_image := i; ad_timestamp := from_ms ms; ad_signatures := map Signature.SshEd25519 l |}
    | _ => Err InvalidType
    end |}.
#[export] Instance replace_wire : Wire ReplaceDir := {|
  to_value c := row_value (rd_path c, rd_image c, rd_old_image c, map Signature.sig_bytes (rd_signatures c), to_ms (rd_timestamp c));
  of_value v := match value_row v with
    | Some (p, i, o, l, Some ms) => Ok {| rd_path := p; rd_image := i; rd_old_image := o; rd_timestamp := from_ms ms; rd_signatures := map Signature.SshEd25519 l |}
    | _ => Err InvalidType
    end |}.

Lemma sigs_back l : map Signature.SshEd25519 (map Signature.sig_bytes l) = l.
Proof. induction l as [|[x] l IH]; [done|]. cbn. by f_equal. Qed.
Lemma append_back c : is_Some (to_ms (ad_timestamp c)) -> exists c', of_value (to_value c) = Ok c' /\ append_carried c c'.
Proof.
  intros [ms Hms]. cbn [to_value of_value append_wire]. rewrite row_back, Hms. eexists. split; [done|]. unfold append_carried. cbn.
  by rewrite Hms, sigs_back.
Qed.
Lemma replace_back c : is_Some (to_ms (rd_timestamp c)) -> exists c', of_value (to_value c) = Ok c' /\ replace_carried c c'.
Proof.
  intros [ms Hms]. cbn [to_value of_value replace_wire]. rewrite row_back, Hms. eexists. split; [done|]. unfold replace_carried. cbn.
  by rewrite Hms, sigs_back.
Qed.

Definition target : TargetUrl string := {| Cli.host := "host"; tpath := "/k/i" |}%string.
Definition client_keys : list bytes := [[Byte.x41]].
Definition started : Res UploadFail (ImageId * gmap string (list Signature.Signature)) * Store :=
  start_upload (H := ToyCrypto.crypto) (H0 := SyncExample.parser0) SyncExample.scan SyncExample.get_hash
    [Path.RootDir; Path.Normal "d"%string] [target] 5000000 client_keys SyncExample.store0.
Lemma started_upload : exists image sigs, fst started = Ok (image, sigs).
Proof. vm_compute. by eexists _, _. Qed.

Definition server : Sys := tracking_new 1000 0 Metadata.Example.config Remote.Example.r3 Tracking.Example.msgs_peers.
Definition server_store : Inner MemFs.Mem := Metadata.Example.store 1000 ∅.
Lemma server_keys : fst (read_upload_keys (W := MemFs.Mem) (H0 := ToyCrypto.crypto) Metadata.Example.config Metadata.Example.parse_key
  Metadata.Example.dir_config (fs server_store)) = Ok [[Byte.x41]].
Proof. vm_compute. reflexivity. Qed.
End WholeExample.

